(** * abandono-escolar-brasil: the data integration engine

    A shallow embedding of the tabular pipeline of the repository
    ([scripts/processamento/integracao_bases.py],
    [scripts/coleta/censo_escolar.py] and the integration notebook) together
    with the properties its specification states about it.

    Modelling conventions.
    - A pandas cell is a [celula]: [None] is NaN/None, [Some (Num q)] a number
      (integers and floats are idealised as exact rationals), [Some (Texto s)]
      a string. The percentages of the missing-value report are rounded to
      two decimals, which no idealisation survives: they are binary64
      values.
    - A [Series] is a list of cells; a [DataFrame] is a row count (the length
      of its index) and an ordered list of named columns. Column access by
      label reads and writes the first column with that label, as it does in
      a frame whose labels are distinct.
    - Python exceptions are results of type [resultado]; a function that
      returns [None] in Python returns [Ok None] here. Arithmetic and [mean]
      on a column that holds a string raise [TypeError] (pandas 2).
    - Join and group keys are compared with Python's [==], and a missing key
      matches a missing key. A join of a numeric key column with a
      string-like one raises [ValueError], as [pd.merge] does.
    - The dtype of a column is read off its cells: a column with rows and
      without a string is numeric ([int64]/[float64]), any other column is
      [object].
    - The processed-data directory is a finite map from file names to what
      [read_csv] finds in the file. What it finds in a file written by
      [to_csv] is not the frame that was written (floats are parsed back, a
      column that mixes labels and numbers comes back as strings): it is an
      explicit argument, like the random draws of numpy. Log lines are
      modelled where a property speaks about them. *)

From Stdlib Require Import QArith Qround Qminmax Lqa.
From Stdlib Require Floats Uint63.
From stdpp Require Import base option list strings gmap pretty.

Local Open Scope Z_scope.
Local Open Scope nat_scope.
Local Open Scope string_scope.
Local Open Scope list_scope.

(** ** Cells, series and data frames *)

Inductive valor : Type :=
  | Num (q : Q)
  | Texto (s : string).

Abbreviation celula := (option valor).
Abbreviation Series := (list celula).

Record DataFrame : Type := MkDataFrame {
  indice : nat;                       (* len(df) *)
  colunas : list (string * Series)    (* df.columns with their data *)
}.

(** Python's [==] on scalars: numbers compare by value, strings by content,
    and a number never equals a string. *)
Definition valor_eqb (a b : valor) : bool :=
  match a, b with
  | Num p, Num q => Qeq_bool p q
  | Texto s, Texto t => String.eqb s t
  | _, _ => false
  end.

(** Equality of join and grouping keys: pandas matches a missing key with a
    missing key. *)
Definition celula_eqb (a b : celula) : bool :=
  match a, b with
  | Some x, Some y => valor_eqb x y
  | None, None => true
  | _, _ => false
  end.

Definition inteiro (z : Z) : valor := Num (inject_Z z).

(** [s.dtype in ['int64', 'float64']]: a column is numeric when it has rows
    and none of them is a string. *)
Definition dtype_numerico (s : Series) : bool :=
  match s with
  | [] => false
  | _ => forallb (fun c : celula => match c with Some (Texto _) => false | _ => true end) s
  end.

(** [x in [a, b, ...]] for a cell [x]; NaN is in no list of numbers. *)
Definition pertence (x : celula) (l : list valor) : bool :=
  match x with
  | Some v => existsb (valor_eqb v) l
  | None => false
  end.

(** ** Exceptions *)

Inductive excecao : Type :=
  | KeyError (chave : string)
  | TypeError
  | ValueError.

Inductive resultado (A : Type) : Type :=
  | Ok (a : A)
  | Raise (e : excecao).
Arguments Ok {A} a.
Arguments Raise {A} e.

Definition ligar {A B} (m : resultado A) (f : A -> resultado B) : resultado B :=
  match m with
  | Ok a => f a
  | Raise e => Raise e
  end.

Notation "'seja' x '<-' m 'em' k" := (ligar m (fun x => k))
  (at level 10, x name, m at level 100, k at level 200).

(** ** Column access *)

Definition nomes (df : DataFrame) : list string := (colunas df).*1.

(** [c in df.columns] *)
Definition tem_coluna (c : string) (df : DataFrame) : bool :=
  bool_decide (c ∈ nomes df).

Fixpoint procurar {A} (c : string) (l : list (string * A)) : option A :=
  match l with
  | [] => None
  | (n, a) :: r => if String.eqb n c then Some a else procurar c r
  end.

(** [df[c]]: raises [KeyError] when the column is absent. *)
Definition obter (c : string) (df : DataFrame) : resultado Series :=
  match procurar c (colunas df) with
  | Some s => Ok s
  | None => Raise (KeyError c)
  end.

(** [df[c] = s]: overwrites the column in place, or appends it. *)
Fixpoint atribuir_colunas (c : string) (s : Series) (l : list (string * Series))
  : list (string * Series) :=
  match l with
  | [] => [(c, s)]
  | (n, t) :: r =>
      if String.eqb n c then (n, s) :: r else (n, t) :: atribuir_colunas c s r
  end.

Definition atribuir (c : string) (s : Series) (df : DataFrame) : DataFrame :=
  MkDataFrame (indice df) (atribuir_colunas c s (colunas df)).

(** [df[cols]] for a list of labels that are all columns of [df]. *)
Definition selecionar (cols : list string) (df : DataFrame) : resultado DataFrame :=
  seja ss <- foldr (fun c acc =>
                      seja s <- obter c df em
                      seja r <- acc em Ok ((c, s) :: r)) (Ok []) cols em
  Ok (MkDataFrame (indice df) ss).

(** [df.rename(columns=d)] *)
Definition renomear (d : list (string * string)) (df : DataFrame) : DataFrame :=
  MkDataFrame (indice df)
    (map (fun '(n, s) => (default n (procurar n d), s)) (colunas df)).

(** Every column has one cell per row of the index. *)
Definition bem_formado (df : DataFrame) : Prop :=
  Forall (fun ns => length ns.2 = indice df) (colunas df).

(** ** Code Normalizer ([normalizar_variaveis]) *)

(** A Python [dict] from codes to labels, as its items. *)
Definition dicionario : Type := list (valor * valor).

Fixpoint dict_get (d : dicionario) (v : valor) : option valor :=
  match d with
  | [] => None
  | (k, l) :: r => if valor_eqb k v then Some l else dict_get r v
  end.

(** [s.map(d)]: a value absent from [d] (and NaN) becomes NaN. *)
Definition series_map (d : dicionario) (s : Series) : Series :=
  map (fun c => c ≫= dict_get d) s.

(** [s.fillna(outra)] with [outra] on the same index. *)
Definition series_fillna (s outra : Series) : Series :=
  zip_with (fun a b => match a with Some _ => a | None => b end) s outra.

Record mapeamentos : Type := MkMapeamentos {
  m_colunas : option (list (string * string));      (* mapeamentos['colunas'] *)
  m_valores : option (list (string * dicionario))   (* mapeamentos['valores'] *)
}.

(** One iteration of the loop over [mapeamentos['valores'].items()]. *)
Definition normalizar_coluna (df : DataFrame) (cv : string * dicionario) : DataFrame :=
  let '(coluna, valores) := cv in
  match procurar coluna (colunas df) with
  | Some s => atribuir coluna (series_fillna (series_map valores s) s) df
  | None => df
  end.

Definition normalizar_valores (valores : list (string * dicionario)) (df : DataFrame)
  : DataFrame :=
  fold_left normalizar_coluna valores df.

(** *** Derived variables of [normalizar_variaveis] *)

Definition numerico (c : celula) : resultado (option Q) :=
  match c with
  | None => Ok None
  | Some (Num q) => Ok (Some q)
  | Some (Texto _) => Raise TypeError
  end.

Fixpoint mapear_r {A B} (f : A -> resultado B) (l : list A) : resultado (list B) :=
  match l with
  | [] => Ok []
  | a :: r => seja b <- f a em seja bs <- mapear_r f r em Ok (b :: bs)
  end.

(** A column seen as numbers; a string in it makes arithmetic raise. *)
Definition numerica (s : Series) : resultado (list (option Q)) :=
  mapear_r numerico s.

Definition presentes (l : list (option Q)) : list Q := omap id l.

Definition soma (l : list Q) : Q := foldr Qplus 0%Q l.

(** [mean()] with pandas' default [skipna=True]; NaN when nothing is left. *)
Definition media (l : list (option Q)) : option Q :=
  match presentes l with
  | [] => None
  | xs => Some (Qred (soma xs / inject_Z (Z.of_nat (length xs))))
  end.

(** [df.mean(axis=1)] *)
Definition media_por_linha (df : DataFrame) : resultado Series :=
  seja cols <- mapear_r (fun ns : string * Series => numerica ns.2) (colunas df) em
  Ok (map (fun i => Num <$> media (map (fun s : list (option Q) => mjoin (s !! i)) cols))
          (seq 0 (indice df))).

Definition regioes : dicionario :=
  map (fun z => (inteiro z, Texto "Norte")) [11; 12; 13; 14; 15; 16; 17]%Z ++
  map (fun z => (inteiro z, Texto "Nordeste")) [21; 22; 23; 24; 25; 26; 27; 28; 29]%Z ++
  map (fun z => (inteiro z, Texto "Sudeste")) [31; 32; 33; 35]%Z ++
  map (fun z => (inteiro z, Texto "Sul")) [41; 42; 43]%Z ++
  map (fun z => (inteiro z, Texto "Centro-Oeste")) [50; 51; 52; 53]%Z.

Definition indice_infraestrutura (df : DataFrame) : DataFrame :=
  let colunas_infra := List.filter (String.prefix "IN_") (nomes df) in
  match colunas_infra with
  | [] => df
  | _ =>
      match (seja sub <- selecionar colunas_infra df em media_por_linha sub) with
      | Ok s => atribuir "INDICE_INFRAESTRUTURA" s df
      | Raise _ => df          (* except Exception: logger.warning(...) *)
      end
  end.

Definition derivar_regiao (df : DataFrame) : DataFrame :=
  match procurar "CO_UF" (colunas df) with
  | Some s => atribuir "REGIAO" (series_map regioes s) df
  | None => df
  end.

Definition renomear_colunas (mp : mapeamentos) (df : DataFrame) : DataFrame :=
  match m_colunas mp with
  | Some d =>
      let colunas_existentes :=
        List.filter (fun p : string * string => tem_coluna p.1 df) d in
      match colunas_existentes with
      | [] => df
      | _ => renomear colunas_existentes df
      end
  | None => df
  end.

Definition derivar_variaveis (nivel : string) (df : DataFrame) : DataFrame :=
  if String.eqb nivel "escola" then indice_infraestrutura df
  else if String.eqb nivel "municipio" then derivar_regiao df
  else df.

Definition normalizar_variaveis (df : DataFrame) (mp : mapeamentos) (nivel : string)
  : DataFrame :=
  let df_norm := renomear_colunas mp df in
  let df_norm := normalizar_valores (default [] (m_valores mp)) df_norm in
  derivar_variaveis nivel df_norm.


(** ** Indicator Derivator: age-grade distortion *)

(** The function [idade_esperada] nested in [integrar_dados_nivel_aluno]. *)
Definition idade_esperada (etapa : celula) : Z :=
  if pertence etapa (map inteiro [25; 26; 30; 31; 35; 36]%Z) then 15%Z
  else if pertence etapa (map inteiro [27; 28; 32; 37]%Z) then 16%Z
  else if pertence etapa (map inteiro [29; 33; 38]%Z) then 17%Z
  else 16%Z.

(** Element-wise [a - b] of two columns on the same index. *)
Definition series_sub (a b : Series) : resultado Series :=
  seja x <- numerica a em
  seja y <- numerica b em
  Ok (map (fmap Num)
        (zip_with (fun p q : option Q =>
                     match p, q with
                     | Some u, Some v => Some (Qred (u - v))
                     | _, _ => None
                     end) x y)).

(** [s.clip(lower=lo)]; NaN stays NaN. *)
Definition clip_inferior (lo x : Q) : Q := if Qle_bool lo x then x else lo.

Definition series_clip_lower (lo : Q) (s : Series) : resultado Series :=
  seja x <- numerica s em
  Ok (map (fmap Num) (map (fmap (clip_inferior lo)) x)).

(** Step 5 of [integrar_dados_nivel_aluno]. *)
Definition derivar_distorcao (df_integrado : DataFrame) : resultado DataFrame :=
  if tem_coluna "NU_IDADE" df_integrado && tem_coluna "TP_ETAPA_ENSINO" df_integrado
  then
    seja etapas <- obter "TP_ETAPA_ENSINO" df_integrado em
    let df1 := atribuir "IDADE_ESPERADA"
                 (map (fun e => Some (inteiro (idade_esperada e))) etapas)
                 df_integrado in
    seja idades <- obter "NU_IDADE" df1 em
    seja esperadas <- obter "IDADE_ESPERADA" df1 em
    seja diferenca <- series_sub idades esperadas em
    let df2 := atribuir "DISTORCAO_IDADE_SERIE" diferenca df1 in
    seja distorcao <- obter "DISTORCAO_IDADE_SERIE" df2 em
    seja cortada <- series_clip_lower 0 distorcao em
    Ok (atribuir "DISTORCAO_IDADE_SERIE" cortada df2)
  else Ok df_integrado.

(** Python's [max(0, x)]: the first argument unless the second is greater. *)
Definition py_max0 (x : Q) : Q := if Qle_bool x 0 then 0%Q else x.

(** [calcular_distorcao(row)] of the integration notebook, on the two cells
    of the row it reads. A missing age makes the difference NaN, and
    [max(0, nan)] is [0]. *)
Definition calcular_distorcao (idade serie : celula) : resultado celula :=
  let idade_esperada :=
    if pertence serie (map inteiro [25; 26; 30; 31; 35; 36]%Z) then 15%Z
    else if pertence serie (map inteiro [27; 28; 32; 37]%Z) then 16%Z
    else if pertence serie (map inteiro [29; 33; 38]%Z) then 17%Z
    else 16%Z in
  seja i <- numerico idade em
  match i with
  | Some a => Ok (Some (Num (Qred (py_max0 (a - inject_Z idade_esperada)))))
  | None => Ok (Some (Num 0))
  end.

(** ** Joins ([pd.merge(..., how='left')]) *)

(** Positions of the right key column whose key equals [k]. *)
Fixpoint posicoes_desde (j : nat) (k : celula) (direita : Series) : list nat :=
  match direita with
  | [] => []
  | c :: r =>
      if celula_eqb c k then j :: posicoes_desde (S j) k r
      else posicoes_desde (S j) k r
  end.

(** The row indexer of a left join: every left row, in order, once per
    matching right row (in right order), or once with no partner. *)
Fixpoint indexador_desde (i : nat) (esquerda direita : Series)
  : list (nat * option nat) :=
  match esquerda with
  | [] => []
  | k :: r =>
      match posicoes_desde 0 k direita with
      | [] => [(i, None)]
      | js => map (fun j => (i, Some j)) js
      end ++ indexador_desde (S i) r direita
  end.

Definition tomar (s : Series) (i : nat) : celula := mjoin (s !! i).

Definition tomar_esquerda (idx : list (nat * option nat)) (s : Series) : Series :=
  map (fun p : nat * option nat => tomar s p.1) idx.

Definition tomar_direita (idx : list (nat * option nat)) (s : Series) : Series :=
  map (fun p : nat * option nat => p.2 ≫= tomar s) idx.

Definition esta_em (c : string) (l : list string) : bool := bool_decide (c ∈ l).

(** The right columns a join brings: with [on=K] (both key labels equal) the
    right key column is not repeated. *)
Definition colunas_direita (direita : DataFrame) (left_on right_on : string)
  : list (string * Series) :=
  if String.eqb left_on right_on
  then List.filter (fun ns : string * Series => negb (String.eqb ns.1 right_on))
         (colunas direita)
  else colunas direita.

(** A label present on both sides gets the suffixes [_x] and [_y]. *)
Definition rotulo_comum (esquerda : DataFrame) (cols_d : list (string * Series))
  (n : string) : bool :=
  esta_em n (nomes esquerda) && esta_em n cols_d.*1.

(** The check [pd.merge] makes on the two key columns before it joins. A
    numeric column cannot be joined with an [object] column that is
    string-like, i.e. one that holds a string and no integer ([infer_dtype]
    gives "string" or "mixed" for it, not "mixed-integer"). A number counts
    as an integer when its value is integral: the model does not tell [9]
    from [9.0]. Columns without rows pass. *)
Definition tem_texto (s : Series) : bool :=
  existsb (fun c : celula => match c with Some (Texto _) => true | _ => false end) s.

Definition tem_inteiro (s : Series) : bool :=
  existsb (fun c : celula =>
             match c with
             | Some (Num q) => Qeq_bool q (inject_Z (Qfloor q))
             | _ => false
             end) s.

Definition chave_textual (s : Series) : bool := tem_texto s && negb (tem_inteiro s).

Definition chaves_incompativeis (ke kd : Series) : bool :=
  (dtype_numerico ke && chave_textual kd) || (chave_textual ke && dtype_numerico kd).

(** [pd.merge(esquerda, direita, left_on=.., right_on=.., how='left')] *)
Definition merge_left (esquerda direita : DataFrame) (left_on right_on : string)
  : resultado DataFrame :=
  seja ke <- obter left_on esquerda em
  seja kd <- obter right_on direita em
  if chaves_incompativeis ke kd then Raise ValueError else
  let idx := indexador_desde 0 ke kd in
  let cols_d := colunas_direita direita left_on right_on in
  Ok (MkDataFrame (length idx)
        (map (fun ns : string * Series =>
                ((if rotulo_comum esquerda cols_d ns.1 then ns.1 +:+ "_x" else ns.1),
                 tomar_esquerda idx ns.2)) (colunas esquerda) ++
         map (fun ns : string * Series =>
                ((if rotulo_comum esquerda cols_d ns.1 then ns.1 +:+ "_y" else ns.1),
                 tomar_direita idx ns.2)) cols_d)).

(** [pd.merge(esquerda, direita, on=chave, how='left')] *)
Definition merge_on (esquerda direita : DataFrame) (chave : string)
  : resultado DataFrame :=
  merge_left esquerda direita chave chave.

(** [df.drop(c, axis=1)] for a label known to be a column. *)
Definition drop_coluna (c : string) (df : DataFrame) : DataFrame :=
  MkDataFrame (indice df)
    (List.filter (fun ns : string * Series => negb (String.eqb ns.1 c)) (colunas df)).

(** [s.is_unique] on a key column: no two rows carry equal keys. *)
Fixpoint is_unique (s : Series) : bool :=
  match s with
  | [] => true
  | k :: r => negb (existsb (celula_eqb k) r) && is_unique r
  end.

(** ** Aggregator ([df.groupby(chave).agg({...}).reset_index()]) *)

Inductive operacao : Type := First | Mean | Count | Nunique.

(** Order of the group keys in the result (pandas sorts them): numbers by
    value, strings lexicographically; numbers are put before strings. *)
Definition valor_leb (a b : valor) : bool :=
  match a, b with
  | Num p, Num q => Qle_bool p q
  | Texto s, Texto t => String.leb s t
  | Num _, Texto _ => true
  | Texto _, Num _ => false
  end.

(** The distinct keys of a column, each at its first occurrence. *)
Definition primeiras (l : list valor) : list valor :=
  fold_left (fun acc k => if existsb (valor_eqb k) acc then acc else acc ++ [k]) l [].

Fixpoint inserir_ordenado (k : valor) (l : list valor) : list valor :=
  match l with
  | [] => [k]
  | x :: r => if valor_leb k x then k :: l else x :: inserir_ordenado k r
  end.

Definition ordenar (l : list valor) : list valor := foldr inserir_ordenado [] l.

(** The distinct non-null keys of a column, ascending (NaN keys form no
    group). *)
Definition chaves_dos_grupos (s : Series) : list valor :=
  ordenar (primeiras (omap id s)).

(** The cells of [s] on the rows whose key is [k], in row order. *)
Fixpoint celulas_do_grupo (k : valor) (chaves s : Series) : Series :=
  match chaves, s with
  | c :: cr, x :: sr =>
      if celula_eqb c (Some k) then x :: celulas_do_grupo k cr sr
      else celulas_do_grupo k cr sr
  | _, _ => []
  end.

Fixpoint distintos (l : list valor) : list valor :=
  match l with
  | [] => []
  | x :: r => if existsb (valor_eqb x) r then distintos r else x :: distintos r
  end.

(** One reduction over the cells of a group. [first] is the first non-null
    cell, [count] counts non-null cells, [nunique] distinct non-null cells,
    [mean] skips nulls and raises on strings. *)
Definition agregar (op : operacao) (g : Series) : resultado celula :=
  match op with
  | First => Ok (mjoin (head (List.filter (fun c : celula => bool_decide (is_Some c)) g)))
  | Mean => seja x <- numerica g em Ok (Num <$> media x)
  | Count => Ok (Some (inteiro (Z.of_nat (length (omap id g)))))
  | Nunique => Ok (Some (inteiro (Z.of_nat (length (distintos (omap id g))))))
  end.

Definition groupby_agg (df : DataFrame) (chave : string)
  (spec : list (string * operacao)) : resultado DataFrame :=
  seja ks <- obter chave df em
  let grupos := chaves_dos_grupos ks in
  seja cols <-
    mapear_r (fun co : string * operacao =>
                seja s <- obter co.1 df em
                seja r <- mapear_r (fun k => agregar co.2 (celulas_do_grupo k ks s))
                           grupos em
                Ok (co.1, r)) spec em
  Ok (MkDataFrame (length grupos) ((chave, map Some grupos) :: cols)).

(** [s * k] on a numeric column *)
Definition series_vezes (k : Q) (s : Series) : resultado Series :=
  seja x <- numerica s em
  Ok (map (fun p : option Q => (fun u => Num (Qred (u * k))) <$> p) x).

(** *** [scripts/coleta/censo_escolar.py] *)

(** The dropout flag written by [extrair_censo_escolar]: 0 everywhere, then
    [1 if x == 4 else 0] when the status column exists. *)
Definition indicador_abandono (x : celula) : celula :=
  if pertence x [inteiro 4] then Some (inteiro 1) else Some (inteiro 0).

Definition criar_abandono (df_ensino_medio : DataFrame) : DataFrame :=
  let df := atribuir "ABANDONO"
              (replicate (indice df_ensino_medio) (Some (inteiro 0)))
              df_ensino_medio in
  match procurar "TP_SITUACAO" (colunas df) with
  | Some s => atribuir "ABANDONO" (map indicador_abandono s) df
  | None => df
  end.

(** Step 3 of [processar_censo_escolar]: the per-school aggregate that is
    saved as [censo_escolar_{ano}_agregado_escola.csv]. *)
Definition agregado_escola (df_ensino_medio : DataFrame) : resultado DataFrame :=
  seja agg <- groupby_agg df_ensino_medio "CO_ENTIDADE"
                [("CO_MUNICIPIO", First); ("CO_UF", First);
                 ("TP_DEPENDENCIA", First); ("TP_LOCALIZACAO", First);
                 ("ABANDONO", Mean); ("NU_ANO_CENSO", Count)] em
  Ok (renomear [("ABANDONO", "TAXA_ABANDONO"); ("NU_ANO_CENSO", "TOTAL_ALUNOS")] agg).

(** Step 4 of [processar_censo_escolar]. *)
Definition agregado_municipio (df_ensino_medio : DataFrame) : resultado DataFrame :=
  seja agg <- groupby_agg df_ensino_medio "CO_MUNICIPIO"
                [("CO_UF", First); ("ABANDONO", Mean);
                 ("NU_ANO_CENSO", Count); ("CO_ENTIDADE", Nunique)] em
  Ok (renomear [("ABANDONO", "TAXA_ABANDONO"); ("NU_ANO_CENSO", "TOTAL_ALUNOS");
                ("CO_ENTIDADE", "TOTAL_ESCOLAS")] agg).

(** *** The integration notebook, sections 4.1, 5.1 and 5.2 *)

(** [df[destino] = df[origem].map(d)] *)
Definition nb_mapear (destino origem : string) (d : dicionario) (df : DataFrame)
  : resultado DataFrame :=
  seja s <- obter origem df em Ok (atribuir destino (series_map d s) df).

(** [df.apply(calcular_distorcao, axis=1)] *)
Definition nb_distorcao (df : DataFrame) : resultado Series :=
  seja idades <- obter "NU_IDADE" df em
  seja series <- obter "TP_ETAPA_ENSINO" df em
  mapear_r (fun i => calcular_distorcao (tomar idades i) (tomar series i))
    (seq 0 (indice df)).

(** Section 4.1: the dropout flag [(df['TP_SITUACAO'] == 4).astype(int)],
    the decoded categories and the age-grade distortion. *)
Definition nb_padronizar (df_censo : DataFrame) : resultado DataFrame :=
  seja s <- obter "TP_SITUACAO" df_censo em
  let df := atribuir "ABANDONO" (map indicador_abandono s) df_censo in
  seja df <- nb_mapear "DEPENDENCIA" "TP_DEPENDENCIA"
               [(inteiro 1, Texto "Federal"); (inteiro 2, Texto "Estadual");
                (inteiro 3, Texto "Municipal"); (inteiro 4, Texto "Privada")] df em
  seja df <- nb_mapear "LOCALIZACAO" "TP_LOCALIZACAO"
               [(inteiro 1, Texto "Urbana"); (inteiro 2, Texto "Rural")] df em
  seja df <- nb_mapear "SEXO" "TP_SEXO"
               [(inteiro 1, Texto "Masculino"); (inteiro 2, Texto "Feminino")] df em
  seja df <- nb_mapear "COR_RACA" "TP_COR_RACA"
               [(inteiro 0, Texto "Não declarada"); (inteiro 1, Texto "Branca");
                (inteiro 2, Texto "Preta"); (inteiro 3, Texto "Parda");
                (inteiro 4, Texto "Amarela"); (inteiro 5, Texto "Indígena")] df em
  seja d <- nb_distorcao df em
  Ok (atribuir "DISTORCAO_IDADE_SERIE" d df).

(** Section 5.1: aggregate by school, rename, convert to a percentage. *)
Definition nb_agregar_escola (df_censo : DataFrame) : resultado DataFrame :=
  seja agg <- groupby_agg df_censo "CO_ENTIDADE"
                [("CO_MUNICIPIO", First); ("CO_UF", First);
                 ("DEPENDENCIA", First); ("LOCALIZACAO", First);
                 ("ABANDONO", Mean); ("NU_ANO_CENSO", Count)] em
  let df_escola :=
    renomear [("ABANDONO", "TAXA_ABANDONO"); ("NU_ANO_CENSO", "TOTAL_ALUNOS")] agg in
  seja taxa <- obter "TAXA_ABANDONO" df_escola em
  seja pct <- series_vezes 100 taxa em
  Ok (atribuir "TAXA_ABANDONO" pct df_escola).

(** Section 5.2: aggregate by municipality. *)
Definition nb_agregar_municipio (df_censo : DataFrame) : resultado DataFrame :=
  seja agg <- groupby_agg df_censo "CO_MUNICIPIO"
                [("CO_UF", First); ("ABANDONO", Mean);
                 ("NU_ANO_CENSO", Count); ("CO_ENTIDADE", Nunique)] em
  let df_municipio :=
    renomear [("ABANDONO", "TAXA_ABANDONO"); ("NU_ANO_CENSO", "TOTAL_ALUNOS");
              ("CO_ENTIDADE", "TOTAL_ESCOLAS")] agg in
  seja taxa <- obter "TAXA_ABANDONO" df_municipio em
  seja pct <- series_vezes 100 taxa em
  Ok (atribuir "TAXA_ABANDONO" pct df_municipio).

(** ** Source loaders of [integracao_bases.py] *)

(** A file of [PROCESSED_DIR], by what [read_csv] makes of it: the table it
    parses, or content on which it raises. *)
Inductive conteudo : Type :=
  | Legivel (df : DataFrame)
  | Ilegivel.

(** [df.to_csv(arquivo, index=False)], by what a later [read_csv] makes of
    the file. This is not [Legivel df]: floats are printed and parsed back,
    and a column that mixes labels and numbers comes back as strings. *)
Abbreviation escrita := (DataFrame -> conteudo).

(** The processed-data directory, by file name. *)
Abbreviation diretorio := (gmap string conteudo).

(** [arquivo.exists()] followed by [pd.read_csv(arquivo)] under
    [try/except]: a table, or [None] when the file is absent or unreadable. *)
Definition ler_csv (fs : diretorio) (arquivo : string) : option DataFrame :=
  match fs !! arquivo with
  | Some (Legivel df) => Some df
  | Some Ilegivel => None
  | None => None
  end.

Definition arquivo_censo (ano : Z) (nivel : string) : option string :=
  if String.eqb nivel "escola"
  then Some ("censo_escolar_" +:+ pretty ano +:+ "_agregado_escola.csv")
  else if String.eqb nivel "municipio"
  then Some ("censo_escolar_" +:+ pretty ano +:+ "_agregado_municipio.csv")
  else if String.eqb nivel "aluno"
  then Some ("censo_escolar_" +:+ pretty ano +:+ "_ensino_medio.csv")
  else None.

Definition carregar_censo_escolar (fs : diretorio) (ano : Z) (nivel : string)
  : option DataFrame :=
  arquivo_censo ano nivel ≫= ler_csv fs.

Definition arquivo_saeb (ano : Z) (tipo : string) : string :=
  "saeb_" +:+ pretty ano +:+ "_" +:+ tipo +:+ ".csv".

(** The dictionary built by a loader loop, as its items in insertion order. *)
Definition carregar_tipos (fs : diretorio) (arquivo : string -> string)
  (tipos : list string) : list (string * DataFrame) :=
  omap (fun tipo => (fun df => (tipo, df)) <$> ler_csv fs (arquivo tipo)) tipos.

(** [dados if dados else None] *)
Definition ou_none {A} (l : list A) : option (list A) :=
  match l with
  | [] => None
  | _ => Some l
  end.

Definition tipos_saeb : list string := ["escola"; "aluno"; "professor"; "diretor"].

Definition carregar_saeb (fs : diretorio) (ano : Z)
  : option (list (string * DataFrame)) :=
  ou_none (carregar_tipos fs (arquivo_saeb ano) tipos_saeb).

Definition arquivo_pnad (ano : Z) : string :=
  "pnad_" +:+ pretty ano +:+ "_educacao.csv".

Definition carregar_pnad (fs : diretorio) (ano : Z) : option DataFrame :=
  ler_csv fs (arquivo_pnad ano).

Definition arquivo_indicadores (ano : Z) (tipo : string) : string :=
  "indicadores_" +:+ tipo +:+ "_" +:+ pretty ano +:+ ".csv".

Definition tipos_indicadores : list string :=
  ["rendimento"; "distorcao"; "docente"; "complexidade"; "inse"].

Definition carregar_indicadores_educacionais (fs : diretorio) (ano : Z)
  : option (list (string * DataFrame)) :=
  ou_none (carregar_tipos fs (arquivo_indicadores ano) tipos_indicadores).

(** The draws of numpy's global generator, by position in the array each
    call returns. [randint] is the raw integer that is brought into
    [low, high); the other fields are the samples themselves. *)
Record sorteios : Type := MkSorteios {
  randint : nat -> Z;
  lognormal_10_1 : nat -> Q;
  beta_2_10 : nat -> Q;
  normal_45_12 : nat -> Q;
  beta_2_7 : nat -> Q;
  beta_5_15 : nat -> Q
}.

(** [np.random.randint(low, high, size)] *)
Definition np_random_randint (rng : sorteios) (low high : Z) (size : nat) : list Z :=
  map (fun i => (low + randint rng i mod (high - low))%Z) (seq 0 size).

(** [a < b] on numbers *)
Definition Qltb (a b : Q) : bool := negb (Qle_bool b a).

(** [x.clip(lo, hi)] *)
Definition clip (lo hi x : Q) : Q :=
  if Qltb x lo then lo else if Qltb hi x then hi else x.

Definition arquivo_socioeconomico : string := "dados_socioeconomicos_municipios.csv".

(** The simulated table of [carregar_dados_socioeconomicos]. *)
Definition dados_simulados (rng : sorteios) : DataFrame :=
  let codigos_municipios := np_random_randint rng 1000000 5300000 500 in
  let n := length codigos_municipios in
  let amostra (f : nat -> Q) : Series :=
    map (fun i => Some (Num (Qred (f i)))) (seq 0 n) in
  MkDataFrame n
    [("CO_MUNICIPIO", map (fun z => Some (inteiro z)) codigos_municipios);
     ("PIB_PER_CAPITA", amostra (lognormal_10_1 rng));
     ("TAXA_DESEMPREGO", amostra (fun i => beta_2_10 rng i * 100)%Q);
     ("IDEB", amostra (fun i => clip 0 10 (normal_45_12 rng i)));
     ("TAXA_POBREZA", amostra (fun i => beta_2_7 rng i * 100)%Q);
     ("INDICE_GINI", amostra (beta_5_15 rng))].

(** [carregar_dados_socioeconomicos]: the table it returns and the directory
    it leaves behind. In the missing-file branch it returns the table it has
    just drawn and writes it with [to_csv]. *)
Definition carregar_dados_socioeconomicos (to_csv : escrita) (rng : sorteios)
  (fs : diretorio) : option DataFrame * diretorio :=
  match fs !! arquivo_socioeconomico with
  | Some (Legivel df) => (Some df, fs)
  | Some Ilegivel => (None, fs)
  | None =>
      let df := dados_simulados rng in
      (Some df, <[arquivo_socioeconomico := to_csv df]> fs)
  end.

(** ** Integrator ([integracao_bases.py]) *)

Definition mapeamentos_censo_escola : mapeamentos :=
  MkMapeamentos None
    (Some [("TP_DEPENDENCIA",
            [(inteiro 1, Texto "Federal"); (inteiro 2, Texto "Estadual");
             (inteiro 3, Texto "Municipal"); (inteiro 4, Texto "Privada")]);
           ("TP_LOCALIZACAO",
            [(inteiro 1, Texto "Urbana"); (inteiro 2, Texto "Rural")])]).

Definition mapeamentos_censo_aluno : mapeamentos :=
  MkMapeamentos None
    (Some [("TP_SEXO", [(inteiro 1, Texto "Masculino"); (inteiro 2, Texto "Feminino")]);
           ("TP_COR_RACA",
            [(inteiro 0, Texto "Não declarada"); (inteiro 1, Texto "Branca");
             (inteiro 2, Texto "Preta"); (inteiro 3, Texto "Parda");
             (inteiro 4, Texto "Amarela"); (inteiro 5, Texto "Indígena")]);
           ("TP_SITUACAO",
            [(inteiro 1, Texto "Aprovado"); (inteiro 2, Texto "Reprovado");
             (inteiro 3, Texto "Transferido"); (inteiro 4, Texto "Abandono")])]).

(** [ano if ano % 2 == 1 else ano - 1]: SAEB runs in odd years. *)
Definition ano_saeb (ano : Z) : Z :=
  if (ano mod 2 =? 1)%Z then ano else (ano - 1)%Z.

(** [[col for col in df.columns if col not in acc.columns or col == chave]] *)
Definition colunas_novas (chave : string) (df acc : DataFrame) : list string :=
  List.filter (fun col => negb (esta_em col (nomes acc)) || String.eqb col chave)
    (nomes df).

(** One iteration of the loop over [indicadores.items()]. *)
Definition integrar_indicador (chave : string) (df_integrado : DataFrame)
  (df_ind : DataFrame) : resultado DataFrame :=
  if tem_coluna chave df_ind then
    let colunas_ind := colunas_novas chave df_ind df_integrado in
    if Nat.ltb 1 (length colunas_ind) then
      seja sub <- selecionar colunas_ind df_ind em
      merge_on df_integrado sub chave
    else Ok df_integrado
  else Ok df_integrado.

Definition integrar_indicadores (chave : string)
  (indicadores : option (list (string * DataFrame))) (df_integrado : DataFrame)
  : resultado DataFrame :=
  match indicadores with
  | Some itens =>
      fold_left (fun acc (ti : string * DataFrame) =>
                   seja df <- acc em integrar_indicador chave df ti.2)
        itens (Ok df_integrado)
  | None => Ok df_integrado
  end.

(** "Normalizar código da escola" in step 4 of
    [integrar_dados_nivel_escola]. *)
Definition normalizar_codigo_escola (df_saeb_escola : DataFrame) : DataFrame :=
  if negb (tem_coluna "CO_ENTIDADE" df_saeb_escola) &&
     tem_coluna "ID_ESCOLA" df_saeb_escola
  then renomear [("ID_ESCOLA", "CO_ENTIDADE")] df_saeb_escola
  else df_saeb_escola.

(** Step 4 of [integrar_dados_nivel_escola]. *)
Definition integrar_saeb_escola (dados_saeb : option (list (string * DataFrame)))
  (df_censo : DataFrame) : resultado DataFrame :=
  match dados_saeb ≫= procurar "escola" with
  | Some df_saeb_escola =>
      let df_saeb_escola := normalizar_codigo_escola df_saeb_escola in
      let colunas_saeb := colunas_novas "CO_ENTIDADE" df_saeb_escola df_censo in
      match colunas_saeb with
      | [] => Ok df_censo
      | _ =>
          seja sub <- selecionar colunas_saeb df_saeb_escola em
          merge_on df_censo sub "CO_ENTIDADE"
      end
  | None => Ok df_censo
  end.

Definition integrar_dados_nivel_escola (fs : diretorio) (ano : Z)
  : resultado (option DataFrame) :=
  match carregar_censo_escolar fs ano "escola" with
  | None => Ok None
  | Some df_censo =>
      let df_censo := normalizar_variaveis df_censo mapeamentos_censo_escola "escola" in
      let dados_saeb := carregar_saeb fs (ano_saeb ano) in
      seja df_integrado <- integrar_saeb_escola dados_saeb df_censo em
      let indicadores := carregar_indicadores_educacionais fs ano in
      seja df_integrado <- integrar_indicadores "CO_ENTIDADE" indicadores df_integrado em
      Ok (Some df_integrado)
  end.

(** Step 5 of [integrar_dados_nivel_municipio]. *)
Definition integrar_pnad (df_pnad : option DataFrame) (df_integrado : DataFrame)
  : resultado DataFrame :=
  match df_pnad with
  | Some df_pnad =>
      if tem_coluna "UF" df_pnad then
        let cols_to_agg :=
          map (fun ns : string * Series => (ns.1, Mean))
            (List.filter (fun ns : string * Series =>
                            negb (String.eqb ns.1 "UF") && dtype_numerico ns.2)
               (colunas df_pnad)) in
        match cols_to_agg with
        | [] => Ok df_integrado
        | _ =>
            seja agg <- groupby_agg df_pnad "UF" cols_to_agg em
            let pnad_por_uf :=
              fold_left (fun df col =>
                           if String.eqb col "UF" then df
                           else renomear [(col, "PNAD_" +:+ col)] df)
                (nomes agg) agg in
            if tem_coluna "CO_UF" df_integrado then
              seja m <- merge_left df_integrado pnad_por_uf "CO_UF" "UF" em
              Ok (if tem_coluna "UF" m then drop_coluna "UF" m else m)
            else Ok df_integrado
        end
      else Ok df_integrado
  | None => Ok df_integrado
  end.

Definition integrar_dados_nivel_municipio (to_csv : escrita) (rng : sorteios)
  (fs : diretorio) (ano : Z) : resultado (option DataFrame) * diretorio :=
  match carregar_censo_escolar fs ano "municipio" with
  | None => (Ok None, fs)
  | Some df_censo =>
      let df_censo :=
        normalizar_variaveis df_censo (MkMapeamentos None None) "municipio" in
      let '(df_socio, fs) := carregar_dados_socioeconomicos to_csv rng fs in
      (seja df_integrado <-
         match df_socio with
         | Some df_socio => merge_on df_censo df_socio "CO_MUNICIPIO"
         | None => Ok df_censo
         end em
       let indicadores := carregar_indicadores_educacionais fs ano in
       seja df_integrado <- integrar_indicadores "CO_MUNICIPIO" indicadores df_integrado em
       seja df_integrado <- integrar_pnad (carregar_pnad fs ano) df_integrado em
       Ok (Some df_integrado), fs)
  end.

(** [col.upper()] on ASCII letters and ['PROFICIENCIA' in ...]. *)
Definition maiuscula (c : Ascii.ascii) : Ascii.ascii :=
  let n := Ascii.nat_of_ascii c in
  if Nat.leb 97 n && Nat.leb n 122 then Ascii.ascii_of_nat (n - 32) else c.

Fixpoint upper (s : string) : string :=
  match s with
  | EmptyString => EmptyString
  | String c r => String (maiuscula c) (upper r)
  end.

Fixpoint contem (sub s : string) : bool :=
  String.prefix sub s ||
  match s with
  | EmptyString => false
  | String _ r => contem sub r
  end.

(** Step 4 of [integrar_dados_nivel_aluno]. *)
Definition integrar_saeb_aluno (dados_saeb : option (list (string * DataFrame)))
  (df_censo : DataFrame) : resultado DataFrame :=
  match dados_saeb ≫= procurar "aluno" with
  | Some df_saeb_aluno =>
      if tem_coluna "CO_ENTIDADE" df_censo then
        if tem_coluna "CO_ENTIDADE" df_saeb_aluno then
          let prof_cols :=
            List.filter (fun col => contem "PROFICIENCIA" (upper col))
              (nomes df_saeb_aluno) in
          match prof_cols with
          | [] => Ok df_censo
          | _ =>
              seja saeb_por_escola <-
                groupby_agg df_saeb_aluno "CO_ENTIDADE"
                  (map (fun col => (col, Mean)) prof_cols) em
              merge_on df_censo saeb_por_escola "CO_ENTIDADE"
          end
        else Ok df_censo
      else Ok df_censo
  | None => Ok df_censo
  end.

Definition integrar_dados_nivel_aluno (fs : diretorio) (ano : Z)
  : resultado (option DataFrame) :=
  match carregar_censo_escolar fs ano "aluno" with
  | None => Ok None
  | Some df_censo =>
      let df_censo := normalizar_variaveis df_censo mapeamentos_censo_aluno "aluno" in
      let dados_saeb := carregar_saeb fs (ano_saeb ano) in
      seja df_integrado <- integrar_saeb_aluno dados_saeb df_censo em
      seja df_integrado <- derivar_distorcao df_integrado em
      Ok (Some df_integrado)
  end.

(** ** Consistency Checker (section 6 of the integration notebook) *)

Definition eh_nulo (c : celula) : bool :=
  match c with
  | None => true
  | Some _ => false
  end.

(** [s.isnull().sum()] *)
Definition nulos (s : Series) : nat := length (List.filter eh_nulo s).

(** The percentages of the report are [float64] values and are kept as such:
    rounding to two decimals is not continuous, so a rational idealisation
    would print other digits than the program. *)
Definition float_de_nat (n : nat) : PrimFloat.float :=
  PrimFloat.of_uint63 (Uint63.of_Z (Z.of_nat n)).

(** [np.rint] on a value between 0 and 2^52: adding and subtracting 2^52
    rounds to the nearest integer, ties to even. *)
Definition rint (x : PrimFloat.float) : PrimFloat.float :=
  let dois_52 := PrimFloat.of_uint63 (Uint63.of_Z (2 ^ 52)) in
  PrimFloat.sub (PrimFloat.add x dois_52) dois_52.

(** [x.round(2)] as numpy computes it: [rint(x * 100) / 100]. *)
Definition round2 (x : PrimFloat.float) : PrimFloat.float :=
  PrimFloat.div (rint (PrimFloat.mul x (float_de_nat 100))) (float_de_nat 100).

(** [(missing_counts / len(df) * 100).round(2)]; [0/0] is NaN. *)
Definition percentual_ausente (contagem total : nat) : PrimFloat.float :=
  round2 (PrimFloat.mul (PrimFloat.div (float_de_nat contagem) (float_de_nat total))
            (float_de_nat 100)).

(** One line of [missing_df]: column, [Contagem], [Percentual (%)]. *)
Definition linha_ausentes (df : DataFrame) (ns : string * Series)
  : string * nat * PrimFloat.float :=
  (ns.1, nulos ns.2, percentual_ausente (nulos ns.2) (indice df)).

(** [s.mean()] *)
Definition series_mean (s : Series) : resultado celula :=
  seja x <- numerica s em Ok (Num <$> media x).

(** [s.fillna(v)] for a scalar [v] *)
Definition fillna_valor (v : celula) (s : Series) : Series :=
  map (fun c : celula => match c with Some _ => c | None => v end) s.

(** The body of the loop over [numeric_cols]. *)
Definition imputar_coluna (df : DataFrame) (col : string) : resultado DataFrame :=
  seja s <- obter col df em
  if Nat.ltb 0 (nulos s) then
    seja m <- series_mean s em
    Ok (atribuir col (fillna_valor m s) df)
  else Ok df.

(** Section 6.1: the printed report (the lines with [Contagem > 0]) and the
    dataset the cell leaves in [df_municipio_integrado]. *)
Definition verificar_valores_ausentes (df_municipio_integrado : DataFrame)
  : resultado (list (string * nat * PrimFloat.float) * DataFrame) :=
  let missing_df := map (linha_ausentes df_municipio_integrado)
                        (colunas df_municipio_integrado) in
  let impresso :=
    List.filter (fun l : string * nat * PrimFloat.float => Nat.ltb 0 l.1.2) missing_df in
  if Nat.ltb 0 (list_sum (map (fun l : string * nat * PrimFloat.float => l.1.2) missing_df))
  then
    let numeric_cols :=
      map fst (List.filter (fun ns : string * Series => dtype_numerico ns.2)
                 (colunas df_municipio_integrado)) in
    seja df <- fold_left (fun acc col => seja d <- acc em imputar_coluna d col)
                 numeric_cols (Ok df_municipio_integrado) em
    Ok (impresso, df)
  else Ok (impresso, df_municipio_integrado).

(** A line written by [log_message], without its timestamp. *)
Record registro : Type := MkRegistro {
  nivel_log : string;
  texto : string
}.

(** [(taxa < 0) | (taxa > 100)]; comparisons with NaN are false. *)
Definition taxa_fora (p : option Q) : bool :=
  match p with
  | Some q => Qltb q 0 || Qltb 100 q
  | None => false
  end.

(** Section 6.2, the bounds check on [TAXA_ABANDONO] (the count of invalid
    rates, the warning and the clip): the dataset it leaves and the lines it
    logs. The line the cell logs before the check and the correlations it
    computes after it are not part of it. *)
Definition verificar_taxas (df_municipio_integrado : DataFrame)
  : resultado (DataFrame * list registro) :=
  seja s <- obter "TAXA_ABANDONO" df_municipio_integrado em
  seja x <- numerica s em
  let taxa_invalida := length (List.filter taxa_fora x) in
  if Nat.ltb 0 taxa_invalida then
    Ok (atribuir "TAXA_ABANDONO"
          (map (fun p : option Q => (fun q => Num (clip 0 100 q)) <$> p) x)
          df_municipio_integrado,
        [MkRegistro "WARNING"
           ("Encontradas " +:+ pretty taxa_invalida +:+
            " taxas de abandono inválidas. Corrigindo...")])
  else Ok (df_municipio_integrado, []).

(** ** Extraction of the census enrolments ([censo_escolar.py]) *)

Definition colunas_relevantes : list string :=
  ["NU_ANO_CENSO"; "CO_UF"; "CO_MUNICIPIO"; "CO_ENTIDADE";
   "TP_DEPENDENCIA"; "TP_LOCALIZACAO"; "TP_SEXO"; "TP_COR_RACA";
   "NU_IDADE"; "TP_ETAPA_ENSINO"; "IN_TRANSPORTE_PUBLICO"; "TP_SITUACAO"].

(** [pd.read_csv(..., usecols=cols)]: the requested columns of the file, in
    the order of the file. *)
Definition usecols (cols : list string) (arquivo : DataFrame) : DataFrame :=
  MkDataFrame (indice arquivo)
    (List.filter (fun ns : string * Series => esta_em ns.1 cols) (colunas arquivo)).

(** The cells of a column on the rows where the mask holds. *)
Fixpoint selecionados (mask : list bool) (s : Series) : Series :=
  match mask, s with
  | b :: mr, c :: sr => if b then c :: selecionados mr sr else selecionados mr sr
  | _, _ => []
  end.

(** [df[mask]] for a boolean column on the index of [df]. *)
Definition filtrar_linhas (mask : list bool) (df : DataFrame) : DataFrame :=
  MkDataFrame (length (List.filter id mask))
    (map (fun ns : string * Series => (ns.1, selecionados mask ns.2)) (colunas df)).

(** [list(range(25, 38))] *)
Definition codigos_ensino_medio : list valor :=
  map (fun n => inteiro (Z.of_nat n)) (seq 25 13).

(** [df_matricula[df_matricula['TP_ETAPA_ENSINO'].isin(codigos_ensino_medio)]] *)
Definition filtrar_ensino_medio (df_matricula : DataFrame) : resultado DataFrame :=
  seja etapas <- obter "TP_ETAPA_ENSINO" df_matricula em
  Ok (filtrar_linhas (map (fun c => pertence c codigos_ensino_medio) etapas)
        df_matricula).

(** [extrair_censo_escolar] from the parsed enrolment file to the table it
    returns: column projection, the secondary-education filter and the
    dropout flag. Every exception inside the [try] makes the function return
    [None]: the [KeyError] of a missing stage column, and whatever the steps
    around the enrolments raise (reading and saving the school file, the two
    [to_csv] calls, removing the temporary directory, where [os.remove]
    fails on an extracted folder). Whether those steps go through depends on
    the archive and the file system; it is the argument [restante]. *)
Definition processar_matriculas (arquivo : DataFrame) (restante : bool)
  : option DataFrame :=
  let colunas_existentes :=
    List.filter (fun col => tem_coluna col arquivo) colunas_relevantes in
  let df_matricula := usecols colunas_existentes arquivo in
  match filtrar_ensino_medio df_matricula with
  | Ok df_ensino_medio =>
      if restante then Some (criar_abandono df_ensino_medio) else None
  | Raise _ => None
  end.

(** ** Additional features (section 7 of the integration notebook) *)

(** [pd.cut(x, bins, labels)] on one value: the label of the interval
    [(lo, hi]] that holds it, NaN outside every interval. *)
Fixpoint pd_cut_valor (bins : list Q) (labels : list string) (x : Q) : celula :=
  match bins, labels with
  | lo :: ((hi :: _) as resto), l :: ls =>
      if Qltb lo x && Qle_bool x hi then Some (Texto l)
      else pd_cut_valor resto ls x
  | _, _ => None
  end.

Definition pd_cut (bins : list Q) (labels : list string) (s : Series)
  : resultado Series :=
  seja x <- numerica s em
  Ok (map (fun p : option Q => p ≫= pd_cut_valor bins labels) x).

Definition rotulos_abandono : list string :=
  ["Baixo (0-5%)"; "Médio (5-10%)"; "Alto (10-15%)"; "Muito Alto (>15%)"].

(** The first assignment of section 7 (also made by the exporters). *)
Definition nb_categoria_abandono (df : DataFrame) : resultado DataFrame :=
  seja taxa <- obter "TAXA_ABANDONO" df em
  seja cat <- pd_cut [0; 5; 10; 15; 100]%Q rotulos_abandono taxa em
  Ok (atribuir "CATEGORIA_ABANDONO" cat df).

(** One row of [TAXA_POBREZA / 100 + TAXA_DESEMPREGO / 100 + INDICE_GINI -
    IDEB / 10]; a missing term makes the result missing. *)
Definition vulnerabilidade (pobreza desemprego gini ideb : option Q) : option Q :=
  match pobreza, desemprego, gini, ideb with
  | Some p, Some d, Some g, Some i => Some (Qred (p / 100 + d / 100 + g - i / 10))
  | _, _, _, _ => None
  end.

(** The last assignment of section 7. *)
Definition nb_indice_vulnerabilidade (df : DataFrame) : resultado DataFrame :=
  seja pobreza <- obter "TAXA_POBREZA" df em
  seja p <- numerica pobreza em
  seja desemprego <- obter "TAXA_DESEMPREGO" df em
  seja d <- numerica desemprego em
  seja gini <- obter "INDICE_GINI" df em
  seja g <- numerica gini em
  seja ideb <- obter "IDEB" df em
  seja i <- numerica ideb em
  Ok (atribuir "INDICE_VULNERABILIDADE"
        (map (fmap Num)
           (zip_with (fun (pd : option Q * option Q) (gi : option Q * option Q) =>
                        vulnerabilidade pd.1 pd.2 gi.1 gi.2)
              (zip p d) (zip g i)))
        df).

(** ** The complete integration ([executar_integracao_completa]) *)

(** An entry of [resultados]. *)
Record info_nivel : Type := MkInfo {
  dataframe : DataFrame;
  arquivo_saida : string;
  registros : nat;
  variaveis : nat
}.

Definition arquivo_integrado (niveis : string) (ano : Z) : string :=
  "dados_integrados_" +:+ niveis +:+ "_" +:+ pretty ano +:+ ".csv".

(** The integration report, a JSON document: [read_csv] cannot parse it, and
    no loader asks for it. *)
Definition arquivo_relatorio (ano : Z) : string :=
  "relatorio_integracao_" +:+ pretty ano +:+ ".json".

(** Saving the result of one level when there is one: the entry of
    [resultados] holds the frame itself, the file what [to_csv] wrote. *)
Definition salvar_nivel (to_csv : escrita) (niveis : string) (ano : Z)
  (df : option DataFrame) (resultados : list (string * info_nivel)) (fs : diretorio)
  : list (string * info_nivel) * diretorio :=
  match df with
  | Some df =>
      let saida := arquivo_integrado niveis ano in
      (resultados ++ [(niveis, MkInfo df saida (indice df) (length (colunas df)))],
       <[saida := to_csv df]> fs)
  | None => (resultados, fs)
  end.

(** [executar_integracao_completa]: the dictionary it returns and the
    processed-data directory it leaves. An exception of a level propagates
    and leaves what was written before it; the report is written last. *)
Definition executar_integracao_completa (to_csv : escrita) (rng : sorteios)
  (fs : diretorio) (ano : Z) : resultado (list (string * info_nivel)) * diretorio :=
  match integrar_dados_nivel_escola fs ano with
  | Raise e => (Raise e, fs)
  | Ok df_escolas =>
      let '(resultados, fs) := salvar_nivel to_csv "escolas" ano df_escolas [] fs in
      let '(r, fs) := integrar_dados_nivel_municipio to_csv rng fs ano in
      match r with
      | Raise e => (Raise e, fs)
      | Ok df_municipios =>
          let '(resultados, fs) :=
            salvar_nivel to_csv "municipios" ano df_municipios resultados fs in
          match integrar_dados_nivel_aluno fs ano with
          | Raise e => (Raise e, fs)
          | Ok df_alunos =>
              let '(resultados, fs) :=
                salvar_nivel to_csv "alunos" ano df_alunos resultados fs in
              (Ok resultados, <[arquivo_relatorio ano := Ilegivel]> fs)
          end
      end
  end.

(** ** Properties of the Code Normalizer *)

Section Normalizador.

(** What one pass does to a single cell: the label when the code is a key of
    the dictionary, the cell itself otherwise. *)
Definition traduzir (d : dicionario) (c : celula) : celula :=
  match c ≫= dict_get d with
  | Some l => Some l
  | None => c
  end.

(** The canonical labels of [d] are not codes of [d]. *)
Definition rotulos_fora_do_dominio (d : dicionario) : Prop :=
  Forall (fun kl : valor * valor => dict_get d kl.2 = None) d.

(** Apply [f] to the first column labelled [c]. *)
Fixpoint alterar (c : string) (f : Series -> Series) (l : list (string * Series))
  : list (string * Series) :=
  match l with
  | [] => []
  | (n, t) :: r =>
      if String.eqb n c then (n, f t) :: r else (n, t) :: alterar c f r
  end.

Lemma map_fillna_traduzir d s :
  series_fillna (series_map d s) s = map (traduzir d) s.
Proof.
  unfold series_fillna, series_map, traduzir.
  induction s as [|c s IH]; simpl; [reflexivity|].
  rewrite IH. destruct (c ≫= dict_get d); reflexivity.
Qed.

Lemma dict_get_elem d v l : dict_get d v = Some l -> exists k, (k, l) ∈ d.
Proof.
  induction d as [|[k l'] d IH]; simpl; [discriminate|].
  destruct (valor_eqb k v).
  - intros [= ->]. exists k. left.
  - intros H. destruct (IH H) as [k' Hk']. exists k'. right. exact Hk'.
Qed.

Lemma traduzir_idempotente d c :
  rotulos_fora_do_dominio d -> traduzir d (traduzir d c) = traduzir d c.
Proof.
  intros Hd. destruct c as [v|]; [|reflexivity].
  unfold traduzir. simpl. destruct (dict_get d v) as [l|] eqn:E; simpl.
  - destruct (dict_get_elem _ _ _ E) as [k Hk].
    unfold rotulos_fora_do_dominio in Hd. rewrite Forall_forall in Hd.
    pose proof (Hd _ Hk) as Hl. simpl in Hl. rewrite Hl. reflexivity.
  - rewrite E. reflexivity.
Qed.

Lemma atribuir_alterar c f l s :
  procurar c l = Some s -> atribuir_colunas c (f s) l = alterar c f l.
Proof.
  induction l as [|[n t] l IH]; simpl; [discriminate|].
  destruct (String.eqb n c).
  - intros [= ->]. reflexivity.
  - intros H. rewrite (IH H). reflexivity.
Qed.

Lemma alterar_ausente c f l : procurar c l = None -> alterar c f l = l.
Proof.
  induction l as [|[n t] l IH]; simpl; [reflexivity|].
  destruct (String.eqb n c); [discriminate|].
  intros H. rewrite (IH H). reflexivity.
Qed.

Lemma normalizar_coluna_alterar df c d :
  normalizar_coluna df (c, d) =
  MkDataFrame (indice df) (alterar c (map (traduzir d)) (colunas df)).
Proof.
  unfold normalizar_coluna. destruct (procurar c (colunas df)) as [s|] eqn:E.
  - unfold atribuir. rewrite map_fillna_traduzir.
    rewrite (atribuir_alterar c (map (traduzir d)) _ _ E). reflexivity.
  - rewrite (alterar_ausente _ _ _ E). destruct df; reflexivity.
Qed.

Lemma alterar_alterar c f g l :
  alterar c f (alterar c g l) = alterar c (fun s => f (g s)) l.
Proof.
  induction l as [|[n t] l IH]; simpl; [reflexivity|].
  destruct (String.eqb n c) eqn:E; simpl; rewrite E; [reflexivity|].
  rewrite IH. reflexivity.
Qed.

Lemma alterar_comuta c c' f g l :
  c <> c' -> alterar c f (alterar c' g l) = alterar c' g (alterar c f l).
Proof.
  intros Hne. induction l as [|[n t] l IH]; simpl; [reflexivity|].
  destruct (String.eqb n c') eqn:E'; destruct (String.eqb n c) eqn:E; simpl;
    rewrite ?E, ?E'; try reflexivity.
  - apply String.eqb_eq in E, E'. congruence.
  - rewrite IH. reflexivity.
Qed.

Lemma alterar_ext c f g l :
  (forall s, f s = g s) -> alterar c f l = alterar c g l.
Proof.
  intros H. induction l as [|[n t] l IH]; simpl; [reflexivity|].
  rewrite H, IH. reflexivity.
Qed.

(** The whole loop, column lists only. *)
Definition traduzir_todas (valores : list (string * dicionario))
  (l : list (string * Series)) : list (string * Series) :=
  fold_left (fun acc cv => alterar cv.1 (map (traduzir cv.2)) acc) valores l.

Lemma normalizar_valores_alterar valores df :
  normalizar_valores valores df =
  MkDataFrame (indice df) (traduzir_todas valores (colunas df)).
Proof.
  unfold normalizar_valores, traduzir_todas. revert df.
  induction valores as [|[c d] valores IH]; intros df; cbn [fold_left].
  - destruct df; reflexivity.
  - rewrite IH, normalizar_coluna_alterar. reflexivity.
Qed.

Lemma traduzir_todas_comuta c f valores l :
  c ∉ valores.*1 ->
  traduzir_todas valores (alterar c f l) = alterar c f (traduzir_todas valores l).
Proof.
  unfold traduzir_todas. revert l.
  induction valores as [|[c' d] valores IH]; intros l Hc; simpl; [reflexivity|].
  simpl in Hc. apply not_elem_of_cons in Hc as [Hne Hc].
  rewrite <- (IH _ Hc). f_equal. apply alterar_comuta. congruence.
Qed.

Lemma traduzir_todas_idempotente valores l :
  NoDup valores.*1 ->
  Forall (fun cv => rotulos_fora_do_dominio cv.2) valores ->
  traduzir_todas valores (traduzir_todas valores l) = traduzir_todas valores l.
Proof.
  revert l. induction valores as [|[c d] valores IH]; intros l Hnd Hd;
    [reflexivity|].
  simpl in Hnd. apply NoDup_cons in Hnd as [Hc Hnd].
  apply Forall_cons in Hd as [Hd Hds]. simpl in Hd.
  change (traduzir_todas ((c, d) :: valores) l)
    with (traduzir_todas valores (alterar c (map (traduzir d)) l)).
  rewrite (traduzir_todas_comuta _ _ _ _ Hc).
  change (traduzir_todas ((c, d) :: valores) ?x)
    with (traduzir_todas valores (alterar c (map (traduzir d)) x)).
  rewrite alterar_alterar.
  rewrite (traduzir_todas_comuta _ _ _ _ Hc), (IH _ Hnd Hds).
  apply alterar_ext. intros s. rewrite map_map.
  apply map_ext. intros a. apply traduzir_idempotente, Hd.
Qed.

Lemma normalizar_valores_idempotente valores df :
  NoDup valores.*1 ->
  Forall (fun cv => rotulos_fora_do_dominio cv.2) valores ->
  normalizar_valores valores (normalizar_valores valores df) =
  normalizar_valores valores df.
Proof.
  intros Hnd Hd. rewrite !normalizar_valores_alterar. simpl.
  rewrite traduzir_todas_idempotente by assumption. reflexivity.
Qed.

(** Assignments and the loop: assigning a column and then normalising is
    normalising and then assigning a (possibly translated) column. *)
Lemma alterar_atribuir c f T s l :
  alterar c f (atribuir_colunas T s l) =
  atribuir_colunas T (if String.eqb c T then f s else s)
    (if String.eqb c T then l else alterar c f l).
Proof.
  induction l as [|[n t] l IH]; simpl.
  - rewrite (String.eqb_sym T c). destruct (String.eqb c T); reflexivity.
  - destruct (String.eqb n T) eqn:ET; simpl.
    + apply String.eqb_eq in ET as ->.
      rewrite (String.eqb_sym T c). destruct (String.eqb c T) eqn:EC; simpl.
      * rewrite String.eqb_refl. reflexivity.
      * rewrite String.eqb_refl. reflexivity.
    + destruct (String.eqb n c) eqn:EN; simpl.
      * apply String.eqb_eq in EN as ->. rewrite ET. simpl. rewrite ET.
        reflexivity.
      * rewrite IH. destruct (String.eqb c T); simpl; rewrite ET; reflexivity.
Qed.

Lemma atribuir_colunas_alterar_mesma T f s l :
  atribuir_colunas T s (alterar T f l) = atribuir_colunas T s l.
Proof.
  induction l as [|[n t] l IH]; simpl; [reflexivity|].
  destruct (String.eqb n T) eqn:E; simpl; rewrite E; [reflexivity|].
  rewrite IH. reflexivity.
Qed.

Lemma atribuir_atribuir T s s' l :
  atribuir_colunas T s (atribuir_colunas T s' l) = atribuir_colunas T s l.
Proof.
  induction l as [|[n t] l IH]; simpl.
  - rewrite String.eqb_refl. reflexivity.
  - destruct (String.eqb n T) eqn:E; simpl; rewrite E; [reflexivity|].
    rewrite IH. reflexivity.
Qed.

Lemma traduzir_todas_atribuir valores T s l :
  exists s', traduzir_todas valores (atribuir_colunas T s l) =
             atribuir_colunas T s' (traduzir_todas valores l).
Proof.
  unfold traduzir_todas. revert s l.
  induction valores as [|[c d] valores IH]; intros s l; simpl.
  - exists s. reflexivity.
  - rewrite alterar_atribuir. destruct (String.eqb c T) eqn:E.
    + apply String.eqb_eq in E as ->.
      rewrite <- (atribuir_colunas_alterar_mesma T (map (traduzir d))).
      apply IH.
    + apply IH.
Qed.

Lemma procurar_atribuir_outra c T s l :
  c <> T -> procurar c (atribuir_colunas T s l) = procurar c l.
Proof.
  intros Hne. induction l as [|[n t] l IH]; simpl.
  - destruct (String.eqb T c) eqn:E; [|reflexivity].
    apply String.eqb_eq in E. congruence.
  - destruct (String.eqb n T) eqn:ET; simpl.
    + apply String.eqb_eq in ET as ->.
      destruct (String.eqb T c) eqn:E; [|reflexivity].
      apply String.eqb_eq in E. congruence.
    + rewrite IH. reflexivity.
Qed.

Lemma filter_nomes_atribuir (p : string -> bool) T s l :
  p T = false ->
  List.filter p (atribuir_colunas T s l).*1 = List.filter p l.*1.
Proof.
  intros HT. induction l as [|[n t] l IH]; simpl.
  - rewrite HT. reflexivity.
  - destruct (String.eqb n T) eqn:ET; simpl.
    + apply String.eqb_eq in ET as ->. reflexivity.
    + destruct (p n); [f_equal|]; exact IH.
Qed.

Lemma selecionar_atribuir cols T s df :
  T ∉ cols -> selecionar cols (atribuir T s df) = selecionar cols df.
Proof.
  intros HT. unfold selecionar. simpl. f_equal.
  induction cols as [|c cols IH]; simpl; [reflexivity|].
  apply not_elem_of_cons in HT as [Hne HT].
  rewrite (IH HT). unfold obter. simpl.
  rewrite procurar_atribuir_outra by congruence. reflexivity.
Qed.

Lemma media_por_linha_indice df df' :
  indice df = indice df' -> colunas df = colunas df' ->
  media_por_linha df = media_por_linha df'.
Proof. destruct df, df'; simpl; intros -> ->; reflexivity. Qed.

Lemma filter_prefixo_fora (p : string -> bool) T (l : list string) :
  p T = false -> T ∉ List.filter p l.
Proof.
  intros HT Hin. apply list_elem_of_In, filter_In in Hin as [_ Hp]. congruence.
Qed.

Lemma atribuir_duas_vezes T s s' df :
  atribuir T s (atribuir T s' df) = atribuir T s df.
Proof. unfold atribuir. simpl. rewrite atribuir_atribuir. reflexivity. Qed.

(** The infrastructure index only reads the [IN_] columns, so a previous
    value of the index column does not influence it. *)
Lemma indice_infraestrutura_casos df :
  indice_infraestrutura df = df \/
  exists s,
    indice_infraestrutura df = atribuir "INDICE_INFRAESTRUTURA" s df /\
    forall s', indice_infraestrutura (atribuir "INDICE_INFRAESTRUTURA" s' df) =
               atribuir "INDICE_INFRAESTRUTURA" s df.
Proof.
  unfold indice_infraestrutura, nomes.
  destruct (List.filter (String.prefix "IN_") (colunas df).*1) as [|c cols] eqn:E;
    [left; reflexivity|].
  destruct (seja sub <- selecionar (c :: cols) df em media_por_linha sub)
    as [t|e] eqn:Et; [|left; reflexivity].
  right. exists t. split; [reflexivity|]. intros s'.
  cbn [colunas atribuir].
  rewrite filter_nomes_atribuir by reflexivity. rewrite E.
  rewrite selecionar_atribuir
    by (rewrite <- E; apply filter_prefixo_fora; reflexivity).
  rewrite Et. apply atribuir_duas_vezes.
Qed.

Lemma derivar_regiao_casos df :
  derivar_regiao df = df \/
  exists s,
    derivar_regiao df = atribuir "REGIAO" s df /\
    forall s', derivar_regiao (atribuir "REGIAO" s' df) = atribuir "REGIAO" s df.
Proof.
  unfold derivar_regiao.
  destruct (procurar "CO_UF" (colunas df)) as [t|] eqn:E; [|left; reflexivity].
  right. exists (series_map regioes t). split; [reflexivity|]. intros s'.
  cbn [colunas atribuir].
  rewrite procurar_atribuir_outra by discriminate. rewrite E.
  apply atribuir_duas_vezes.
Qed.

Lemma normalizar_valores_atribuir valores T s df :
  exists s', normalizar_valores valores (atribuir T s df) =
             atribuir T s' (normalizar_valores valores df).
Proof.
  destruct (traduzir_todas_atribuir valores T s (colunas df)) as [s' Hs'].
  exists s'. rewrite !normalizar_valores_alterar. unfold atribuir. simpl.
  rewrite Hs'. reflexivity.
Qed.

(** A derivation step that assigns one column from the others is absorbed
    by a second normalisation pass. *)
Lemma passo_derivado_idempotente (D : DataFrame -> DataFrame) T valores y :
  normalizar_valores valores y = y ->
  (D y = y \/
   exists s, D y = atribuir T s y /\ forall s', D (atribuir T s' y) = atribuir T s y) ->
  D (normalizar_valores valores (D y)) = D y.
Proof.
  intros Hy [HD | (s & HD & Hs)].
  - rewrite HD, Hy. exact HD.
  - rewrite HD. destruct (normalizar_valores_atribuir valores T s y) as [s' Hs'].
    rewrite Hs', Hy. apply Hs.
Qed.

Lemma procurar_alterar_mesma c f l :
  procurar c (alterar c f l) = f <$> procurar c l.
Proof.
  induction l as [|[n t] l IH]; simpl; [reflexivity|].
  destruct (String.eqb n c) eqn:E; simpl; rewrite E; [reflexivity|exact IH].
Qed.

Lemma procurar_alterar_outra c c' f l :
  c <> c' -> procurar c (alterar c' f l) = procurar c l.
Proof.
  intros Hne. induction l as [|[n t] l IH]; simpl; [reflexivity|].
  destruct (String.eqb n c') eqn:E'; simpl; [|rewrite IH; reflexivity].
  apply String.eqb_eq in E' as ->.
  destruct (String.eqb c' c) eqn:E; [|reflexivity].
  apply String.eqb_eq in E. congruence.
Qed.

Lemma procurar_traduzir_todas_fora c valores l :
  c ∉ valores.*1 -> procurar c (traduzir_todas valores l) = procurar c l.
Proof.
  unfold traduzir_todas. revert l.
  induction valores as [|[c' d] valores IH]; intros l Hc; simpl; [reflexivity|].
  simpl in Hc. apply not_elem_of_cons in Hc as [Hne Hc].
  rewrite (IH _ Hc). apply procurar_alterar_outra, Hne.
Qed.

Lemma procurar_traduzir_todas c d valores l :
  NoDup valores.*1 -> (c, d) ∈ valores ->
  procurar c (traduzir_todas valores l) = map (traduzir d) <$> procurar c l.
Proof.
  unfold traduzir_todas. revert l.
  induction valores as [|[c' d'] valores IH]; intros l Hnd Hin; simpl.
  - inversion Hin.
  - simpl in Hnd. apply NoDup_cons in Hnd as [Hc Hnd].
    apply elem_of_cons in Hin as [[= <- <-] | Hin].
    + fold (traduzir_todas valores (alterar c (map (traduzir d)) l)).
      rewrite (procurar_traduzir_todas_fora _ _ _ Hc).
      apply procurar_alterar_mesma.
    + rewrite (IH _ Hnd Hin). rewrite procurar_alterar_outra; [reflexivity|].
      intros <-. apply Hc. apply (list_elem_of_fmap_2 fst _ _ Hin).
Qed.

End Normalizador.

(** C5. The Code Normalizer is idempotent: when the labels of every
    per-column dictionary are not themselves codes of that dictionary, a
    second run of [normalizar_variaveis] with the same value mappings changes
    nothing. The reason is the shape of one pass: in a mapped column a cell
    becomes its label when its code is a key of the dictionary and stays as
    it is otherwise (it is not nulled), and an unmapped column is not
    touched. *)
Theorem normalizar_variaveis_idempotente valores df nivel :
  NoDup valores.*1 ->
  Forall (fun cv => rotulos_fora_do_dominio cv.2) valores ->
  let mp := MkMapeamentos None (Some valores) in
  normalizar_variaveis (normalizar_variaveis df mp nivel) mp nivel =
    normalizar_variaveis df mp nivel /\
  (forall c d, (c, d) ∈ valores ->
     procurar c (colunas (normalizar_valores valores df)) =
       map (traduzir d) <$> procurar c (colunas df)) /\
  (forall c, c ∉ valores.*1 ->
     procurar c (colunas (normalizar_valores valores df)) =
       procurar c (colunas df)) /\
  (forall d v, traduzir d (Some v) = Some (default v (dict_get d v))).
Proof.
  intros Hnd Hd mp. split; [|split; [|split]].
  - unfold normalizar_variaveis, renomear_colunas. simpl.
    pose proof (normalizar_valores_idempotente valores df Hnd Hd) as Hy.
    unfold derivar_variaveis.
    destruct (String.eqb nivel "escola").
    + apply (passo_derivado_idempotente _ "INDICE_INFRAESTRUTURA"); [exact Hy|].
      apply indice_infraestrutura_casos.
    + destruct (String.eqb nivel "municipio"); [|exact Hy].
      apply (passo_derivado_idempotente _ "REGIAO"); [exact Hy|].
      apply derivar_regiao_casos.
  - intros c d Hin. rewrite normalizar_valores_alterar. simpl.
    apply procurar_traduzir_todas; assumption.
  - intros c Hc. rewrite normalizar_valores_alterar. simpl.
    apply procurar_traduzir_todas_fora, Hc.
  - intros d v. unfold traduzir. simpl. destruct (dict_get d v); reflexivity.
Qed.

(** ** Properties of the Indicator Derivator *)

Section Derivador.

Lemma Qeq_bool_inteiro (c z : Z) (q : Q) :
  (q == inject_Z z)%Q -> Qeq_bool q (inject_Z c) = bool_decide (c = z).
Proof.
  intros Hq. destruct (bool_decide (c = z)) eqn:E.
  - apply bool_decide_eq_true in E as ->. apply Qeq_bool_iff. exact Hq.
  - apply bool_decide_eq_false in E.
    destruct (Qeq_bool q (inject_Z c)) eqn:E'; [|reflexivity].
    apply Qeq_bool_iff in E'. rewrite Hq in E'. symmetry in E'.
    apply (proj1 (inject_Z_injective c z)) in E'. congruence.
Qed.

Lemma pertence_inteiro (q : Q) (z : Z) (l : list Z) :
  (q == inject_Z z)%Q ->
  pertence (Some (Num q)) (map inteiro l) = bool_decide (z ∈ l).
Proof.
  intros Hq. induction l as [|c l IH]; simpl.
  - reflexivity.
  - simpl in IH. rewrite IH. unfold inteiro. simpl.
    rewrite (Qeq_bool_inteiro c z q Hq).
    destruct (bool_decide (c = z)) eqn:E1.
    + apply bool_decide_eq_true in E1 as ->. simpl. symmetry.
      apply bool_decide_eq_true. left.
    + apply bool_decide_eq_false in E1. simpl.
      apply bool_decide_ext. rewrite elem_of_cons. split; [tauto|].
      intros [->|H]; [congruence|exact H].
Qed.

Lemma pertence_fracionario (q : Q) (l : list Z) :
  (forall z, ~ (q == inject_Z z)%Q) ->
  pertence (Some (Num q)) (map inteiro l) = false.
Proof.
  intros Hq. induction l as [|c l IH]; simpl; [reflexivity|].
  simpl in IH. rewrite IH, orb_false_r.
  destruct (Qeq_bool q (inject_Z c)) eqn:E; [|reflexivity].
  apply Qeq_bool_iff in E. destruct (Hq c E).
Qed.

Lemma pertence_texto (s : string) (l : list Z) :
  pertence (Some (Texto s)) (map inteiro l) = false.
Proof. induction l as [|c l IH]; simpl; [reflexivity|exact IH]. Qed.

Lemma lookup_map {A B} (f : A -> B) (l : list A) (i : nat) :
  map f l !! i = f <$> l !! i.
Proof.
  revert i. induction l as [|a l IH]; intros [|i]; simpl; try reflexivity.
  apply IH.
Qed.

Lemma procurar_atribuir_mesma T s (l : list (string * Series)) :
  procurar T (atribuir_colunas T s l) = Some s.
Proof.
  induction l as [|[n t] l IH]; simpl.
  - rewrite String.eqb_refl. reflexivity.
  - destruct (String.eqb n T) eqn:E; simpl; rewrite E; [reflexivity|exact IH].
Qed.

Lemma procurar_nomes {A} c (l : list (string * A)) :
  is_Some (procurar c l) <-> c ∈ l.*1.
Proof.
  induction l as [|[n t] l IH]; simpl.
  - split; [intros [? [=]]|intros H; inversion H].
  - rewrite elem_of_cons. destruct (String.eqb n c) eqn:E.
    + apply String.eqb_eq in E as ->. split; [left; reflexivity|eauto].
    + apply String.eqb_neq in E. rewrite IH. split; [tauto|].
      intros [->|H]; [congruence|exact H].
Qed.

Lemma tem_coluna_procurar c df s :
  procurar c (colunas df) = Some s -> tem_coluna c df = true.
Proof.
  intros H. apply bool_decide_eq_true. apply procurar_nomes. rewrite H. eauto.
Qed.

Lemma numerica_fmap_Num (y : list (option Q)) : numerica (map (fmap Num) y) = Ok y.
Proof.
  unfold numerica. induction y as [|[q|] y IH]; simpl; [reflexivity| |];
    rewrite IH; reflexivity.
Qed.

Lemma numerica_lookup s x i a :
  numerica s = Ok x -> s !! i = Some (Some (Num a)) -> x !! i = Some (Some a).
Proof.
  unfold numerica. revert x i.
  induction s as [|c s IH]; intros x i Hx Hi; [discriminate|].
  simpl in Hx. destruct (numerico c) as [b|] eqn:Ec; [|discriminate].
  simpl in Hx. destruct (mapear_r numerico s) as [bs|] eqn:Es; [|discriminate].
  injection Hx as <-. destruct i as [|i]; simpl in *.
  - injection Hi as ->. simpl in Ec. injection Ec as <-. reflexivity.
  - apply (IH bs i eq_refl Hi).
Qed.

Lemma clip_inferior_max (u : Q) :
  (clip_inferior 0 u == Qmax 0 u)%Q /\ (0 <= clip_inferior 0 u)%Q.
Proof.
  unfold clip_inferior. destruct (Qle_bool 0 u) eqn:E.
  - apply Qle_bool_iff in E. split; [|exact E].
    symmetry. apply Q.max_r. exact E.
  - assert (u < 0)%Q as Hlt.
    { apply Qnot_le_lt. intros H. apply Qle_bool_iff in H. congruence. }
    split; [|apply Qle_refl]. symmetry. apply Q.max_l. apply Qlt_le_weak, Hlt.
Qed.

Lemma py_max0_max (u : Q) : (py_max0 u == Qmax 0 u)%Q /\ (0 <= py_max0 u)%Q.
Proof.
  unfold py_max0. destruct (Qle_bool u 0) eqn:E.
  - apply Qle_bool_iff in E. split; [|apply Qle_refl].
    symmetry. apply Q.max_l. exact E.
  - assert (0 < u)%Q as Hlt.
    { apply Qnot_le_lt. intros H. apply Qle_bool_iff in H. congruence. }
    split; [|apply Qlt_le_weak, Hlt]. symmetry. apply Q.max_r.
    apply Qlt_le_weak, Hlt.
Qed.

(** Whatever [integrar_dados_nivel_aluno] returns went through the
    distortion step last. *)
Lemma integrar_aluno_deriva fs ano D :
  integrar_dados_nivel_aluno fs ano = Ok (Some D) ->
  exists df_integrado, derivar_distorcao df_integrado = Ok D.
Proof.
  unfold integrar_dados_nivel_aluno.
  destruct (carregar_censo_escolar fs ano "aluno") as [P|]; [|discriminate].
  destruct (integrar_saeb_aluno _ _) as [df|]; [|discriminate]. cbn [ligar].
  destruct (derivar_distorcao df) as [D'|] eqn:E; [|discriminate]. cbn [ligar].
  intros [= <-]. exists df. exact E.
Qed.

End Derivador.

(** C6. [idade_esperada] is a step function of the education-stage code with
    three bands: codes 25, 26, 30, 31, 35, 36 (1st year) give 15, codes 27,
    28, 32, 37 (2nd year) give 16, codes 29, 33, 38 (3rd year) give 17, and
    anything else (another code, a fractional number, a string, a missing
    value) gives the default 16. The notebook's [calcular_distorcao] uses
    the same expected age. *)
Theorem idade_esperada_faixas :
  (forall q z, (q == inject_Z z)%Q ->
     idade_esperada (Some (Num q)) =
       if bool_decide (z ∈ [25; 26; 30; 31; 35; 36]%Z) then 15%Z
       else if bool_decide (z ∈ [27; 28; 32; 37]%Z) then 16%Z
       else if bool_decide (z ∈ [29; 33; 38]%Z) then 17%Z
       else 16%Z) /\
  (forall q, (forall z, ~ (q == inject_Z z)%Q) -> idade_esperada (Some (Num q)) = 16%Z) /\
  (forall s, idade_esperada (Some (Texto s)) = 16%Z) /\
  idade_esperada None = 16%Z /\
  (forall etapa, idade_esperada etapa ∈ [15; 16; 17]%Z) /\
  (forall a serie,
     calcular_distorcao (Some (Num a)) serie =
       Ok (Some (Num (Qred (py_max0 (a - inject_Z (idade_esperada serie))))))).
Proof.
  split; [|split; [|split; [|split; [|split]]]].
  - intros q z Hq. unfold idade_esperada.
    rewrite !(pertence_inteiro q z _ Hq). reflexivity.
  - intros q Hq. unfold idade_esperada.
    rewrite !(pertence_fracionario q _ Hq). reflexivity.
  - intros s. unfold idade_esperada. rewrite !pertence_texto. reflexivity.
  - reflexivity.
  - intros etapa. unfold idade_esperada.
    repeat (match goal with |- context [if ?b then _ else _] => destruct b end);
      set_solver.
  - intros a serie. reflexivity.
Qed.

(** C7. For a record whose age is present, the derived
    [DISTORCAO_IDADE_SERIE] is [max(0, idade - idade_esperada(etapa))] and so
    is never negative, in [integrar_dados_nivel_aluno] (subtraction followed
    by [clip(lower=0)]) and in the notebook's [calcular_distorcao] alike. *)
Theorem distorcao_idade_serie df idades etapas x :
  procurar "NU_IDADE" (colunas df) = Some idades ->
  procurar "TP_ETAPA_ENSINO" (colunas df) = Some etapas ->
  numerica idades = Ok x ->
  (exists df' dist,
     derivar_distorcao df = Ok df' /\
     procurar "DISTORCAO_IDADE_SERIE" (colunas df') = Some dist /\
     forall i a e,
       idades !! i = Some (Some (Num a)) -> etapas !! i = Some e ->
       exists d, dist !! i = Some (Some (Num d)) /\
                 (d == Qmax 0 (a - inject_Z (idade_esperada e)))%Q /\ (0 <= d)%Q) /\
  (forall a e,
     exists d, calcular_distorcao (Some (Num a)) e = Ok (Some (Num d)) /\
               (d == Qmax 0 (a - inject_Z (idade_esperada e)))%Q /\ (0 <= d)%Q).
Proof.
  intros Hid Het Hx. split.
  - unfold derivar_distorcao.
    rewrite (tem_coluna_procurar _ _ _ Hid), (tem_coluna_procurar _ _ _ Het).
    cbn [andb]. unfold obter at 1. rewrite Het. cbn [ligar].
    unfold obter. cbn [colunas atribuir].
    rewrite (procurar_atribuir_outra "NU_IDADE" "IDADE_ESPERADA") by discriminate.
    rewrite Hid. cbn [ligar]. rewrite procurar_atribuir_mesma. cbn [ligar].
    unfold series_sub. rewrite Hx. cbn [ligar].
    replace (map (fun e => Some (inteiro (idade_esperada e))) etapas)
      with (map (fmap Num) (map (fun e => Some (inject_Z (idade_esperada e))) etapas))
      by (rewrite map_map; reflexivity).
    rewrite numerica_fmap_Num. cbn [ligar].
    rewrite procurar_atribuir_mesma. cbn [ligar].
    unfold series_clip_lower. rewrite numerica_fmap_Num. cbn [ligar].
    eexists _, _. split; [reflexivity|].
    cbn [colunas atribuir]. rewrite procurar_atribuir_mesma.
    split; [reflexivity|].
    intros i a e Hi He.
    pose proof (numerica_lookup _ _ _ _ Hx Hi) as Hxi.
    exists (clip_inferior 0 (Qred (a - inject_Z (idade_esperada e)))).
    split.
    + rewrite !lookup_map, lookup_zip_with, Hxi.
      rewrite lookup_map, He. reflexivity.
    + destruct (clip_inferior_max (Qred (a - inject_Z (idade_esperada e))))
        as [H1 H2].
      split; [|exact H2]. rewrite H1, Qred_correct. reflexivity.
  - intros a e.
    exists (Qred (py_max0 (a - inject_Z (idade_esperada e)))).
    split; [reflexivity|].
    destruct (py_max0_max (a - inject_Z (idade_esperada e))) as [H1 H2].
    rewrite Qred_correct. split; assumption.
Qed.

(** ** The shape of an aggregate *)

Section Agregados.

Lemma mapear_r_Forall2 {A B} (f : A -> resultado B) (l : list A) (bs : list B) :
  mapear_r f l = Ok bs -> Forall2 (fun a b => f a = Ok b) l bs.
Proof.
  revert bs. induction l as [|a l IH]; intros bs H; simpl in H.
  - injection H as <-. constructor.
  - destruct (f a) as [b|] eqn:Ea; [|discriminate]. cbn [ligar] in H.
    destruct (mapear_r f l) as [bs'|]; [|discriminate]. cbn [ligar] in H.
    injection H as <-. constructor; [exact Ea|apply IH; reflexivity].
Qed.

(** The shape of an aggregate: the sorted group keys, then one column per
    entry of the reduction spec, reduced group by group. *)
Lemma groupby_agg_forma df chave spec agg ks :
  procurar chave (colunas df) = Some ks ->
  groupby_agg df chave spec = Ok agg ->
  exists cols,
    agg = MkDataFrame (length (chaves_dos_grupos ks))
            ((chave, map Some (chaves_dos_grupos ks)) :: cols) /\
    Forall2 (fun (co : string * operacao) (col : string * Series) =>
               col.1 = co.1 /\
               exists s, procurar co.1 (colunas df) = Some s /\
                 Forall2 (fun k c => agregar co.2 (celulas_do_grupo k ks s) = Ok c)
                   (chaves_dos_grupos ks) col.2) spec cols.
Proof.
  intros Hks. unfold groupby_agg, obter. rewrite Hks. cbn [ligar].
  match goal with
  | |- context [mapear_r ?f spec] => destruct (mapear_r f spec) as [cols|] eqn:E
  end; [|discriminate].
  cbn [ligar]. intros [= <-]. exists cols. split; [reflexivity|].
  apply mapear_r_Forall2 in E.
  eapply Forall2_impl; [exact E|]. intros [c op] [n r] H. cbn [fst snd] in *.
  destruct (procurar c (colunas df)) as [s|]; [|discriminate]. cbn [ligar] in H.
  match type of H with
  | context [mapear_r ?g ?l] => destruct (mapear_r g l) as [r'|] eqn:Er
  end; [|discriminate].
  cbn [ligar] in H. injection H as <- <-. split; [reflexivity|].
  exists s. split; [reflexivity|]. apply mapear_r_Forall2, Er.
Qed.

Lemma numerica_Forall2 s x :
  numerica s = Ok x -> Forall2 (fun (c : celula) (p : option Q) => c = Num <$> p) s x.
Proof.
  intros H. apply mapear_r_Forall2 in H.
  eapply Forall2_impl; [exact H|]. intros [[q|t]|] p Hp; simpl in Hp;
    try discriminate; injection Hp as <-; reflexivity.
Qed.

End Agregados.

(** ** Properties of the left join *)

Section Juncao.

Lemma valor_eqb_sym a b : valor_eqb a b = valor_eqb b a.
Proof.
  destruct a as [p|s], b as [q|t]; simpl; try reflexivity.
  - destruct (Qeq_bool p q) eqn:E1, (Qeq_bool q p) eqn:E2; try reflexivity.
    + apply Qeq_bool_sym in E1. congruence.
    + apply Qeq_bool_sym in E2. congruence.
  - apply String.eqb_sym.
Qed.

Lemma valor_eqb_trans a b c :
  valor_eqb a b = true -> valor_eqb b c = true -> valor_eqb a c = true.
Proof.
  destruct a, b, c; simpl; try discriminate.
  - apply Qeq_bool_trans.
  - intros H1 H2. apply String.eqb_eq in H1, H2. apply String.eqb_eq. congruence.
Qed.

Lemma valor_eqb_refl a : valor_eqb a a = true.
Proof.
  destruct a; simpl; [apply Qeq_bool_refl | apply String.eqb_refl].
Qed.

Lemma celula_eqb_sym a b : celula_eqb a b = celula_eqb b a.
Proof. destruct a, b; simpl; try reflexivity. apply valor_eqb_sym. Qed.

Lemma celula_eqb_trans a b c :
  celula_eqb a b = true -> celula_eqb b c = true -> celula_eqb a c = true.
Proof.
  destruct a, b, c; simpl; try discriminate; try reflexivity.
  apply valor_eqb_trans.
Qed.

Lemma posicoes_sem_par j k d :
  existsb (fun c => celula_eqb c k) d = false -> posicoes_desde j k d = [].
Proof.
  revert j. induction d as [|c d IH]; intros j; simpl; [reflexivity|].
  destruct (celula_eqb c k); simpl; [discriminate|]. apply IH.
Qed.

(** With unique right keys a left key has at most one partner. *)
Lemma posicoes_unicas j k d :
  is_unique d = true -> length (posicoes_desde j k d) <= 1.
Proof.
  revert j. induction d as [|c d IH]; intros j Hu; simpl; [lia|].
  simpl in Hu. apply andb_true_iff in Hu as [Hc Hu].
  destruct (celula_eqb c k) eqn:E; [|apply IH, Hu].
  rewrite posicoes_sem_par; [simpl; lia|].
  apply negb_true_iff in Hc.
  apply not_true_is_false. intros Hex.
  apply existsb_exists in Hex as (c' & Hin & Hc').
  assert (existsb (celula_eqb c) d = true) as Habs; [|congruence].
  apply existsb_exists. exists c'. split; [exact Hin|].
  apply (celula_eqb_trans _ k); [exact E|].
  rewrite celula_eqb_sym. exact Hc'.
Qed.

(** So every left row occurs exactly once in the indexer, in order. *)
Lemma indexador_unico i ke kd :
  is_unique kd = true ->
  map fst (indexador_desde i ke kd) = seq i (length ke).
Proof.
  intros Hu. revert i. induction ke as [|k ke IH]; intros i; simpl; [reflexivity|].
  rewrite map_app, IH. f_equal.
  pose proof (posicoes_unicas 0 k kd Hu) as Hle.
  destruct (posicoes_desde 0 k kd) as [|j [|j' js]]; simpl in *;
    [reflexivity|reflexivity|lia].
Qed.

Lemma tomar_seq (s : Series) : map (tomar s) (seq 0 (length s)) = s.
Proof.
  apply list_eq. intros i. rewrite lookup_map. unfold tomar.
  destruct (decide (i < length s)) as [Hlt|Hge].
  - rewrite lookup_seq_lt by exact Hlt. simpl.
    destruct (lookup_lt_is_Some_2 s i Hlt) as [c Hc]. rewrite Hc. reflexivity.
  - rewrite lookup_seq_ge by lia. rewrite lookup_ge_None_2 by lia. reflexivity.
Qed.

Lemma tomar_esquerda_unico ke kd (s : Series) :
  is_unique kd = true -> length s = length ke ->
  tomar_esquerda (indexador_desde 0 ke kd) s = s.
Proof.
  intros Hu Hlen. unfold tomar_esquerda.
  rewrite <- (map_map fst (tomar s)), (indexador_unico 0 ke kd Hu), <- Hlen.
  apply tomar_seq.
Qed.

(** Without uniqueness the indexer has one entry per matching pair, and one
    for every left row without partner. *)
Lemma indexador_length i ke kd :
  length (indexador_desde i ke kd) =
  list_sum (map (fun k => Nat.max 1 (length (posicoes_desde 0 k kd))) ke).
Proof.
  revert i. induction ke as [|k ke IH]; intros i; simpl; [reflexivity|].
  rewrite length_app, IH. f_equal.
  destruct (posicoes_desde 0 k kd) as [|j js]; simpl; [reflexivity|].
  rewrite length_map. reflexivity.
Qed.

Lemma posicoes_length j k d :
  length (posicoes_desde j k d) = length (List.filter (fun c => celula_eqb c k) d).
Proof.
  revert j. induction d as [|c d IH]; intros j; simpl; [reflexivity|].
  destruct (celula_eqb c k); simpl; rewrite IH; reflexivity.
Qed.

Lemma procurar_elem {A} c (l : list (string * A)) a :
  procurar c l = Some a -> (c, a) ∈ l.
Proof.
  induction l as [|[n t] l IH]; simpl; [discriminate|].
  destruct (String.eqb n c) eqn:E.
  - apply String.eqb_eq in E as ->. intros [= ->]. left.
  - intros H. right. apply IH, H.
Qed.

Lemma bem_formado_procurar df c s :
  bem_formado df -> procurar c (colunas df) = Some s -> length s = indice df.
Proof.
  intros Hwf Hs. unfold bem_formado in Hwf. rewrite Forall_forall in Hwf.
  apply (Hwf (c, s)), procurar_elem, Hs.
Qed.

Lemma indexador_unico_length ke kd :
  is_unique kd = true -> length (indexador_desde 0 ke kd) = length ke.
Proof.
  intros Hu. rewrite <- (length_map fst), (indexador_unico 0 ke kd Hu).
  apply length_seq.
Qed.

(** The result of a left join on a right table with unique keys: the left
    table, row for row, followed by the right columns. *)
Lemma merge_left_unico P S kl kr kp ks :
  bem_formado P ->
  procurar kl (colunas P) = Some kp ->
  procurar kr (colunas S) = Some ks ->
  is_unique ks = true ->
  chaves_incompativeis kp ks = false ->
  let cols_d := colunas_direita S kl kr in
  merge_left P S kl kr =
  Ok (MkDataFrame (indice P)
        (map (fun ns : string * Series =>
                ((if rotulo_comum P cols_d ns.1 then ns.1 +:+ "_x" else ns.1), ns.2))
             (colunas P) ++
         map (fun ns : string * Series =>
                ((if rotulo_comum P cols_d ns.1 then ns.1 +:+ "_y" else ns.1),
                 tomar_direita (indexador_desde 0 kp ks) ns.2)) cols_d)).
Proof.
  intros Hwf Hkp Hks Hu Hc cols_d. unfold merge_left, obter.
  rewrite Hkp, Hks. cbn [ligar]. rewrite Hc. fold cols_d.
  pose proof (bem_formado_procurar _ _ _ Hwf Hkp) as Hlen.
  rewrite (indexador_unico_length kp ks Hu), Hlen.
  f_equal. f_equal. f_equal.
  apply map_ext_in. intros [n s] Hin. simpl. f_equal.
  apply tomar_esquerda_unico; [exact Hu|].
  rewrite Hlen. unfold bem_formado in Hwf. rewrite Forall_forall in Hwf.
  apply (Hwf (n, s)). apply list_elem_of_In, Hin.
Qed.

Lemma length_tomar_direita idx s : length (tomar_direita idx s) = length idx.
Proof. unfold tomar_direita. apply length_map. Qed.

Lemma obter_ok c df :
  c ∈ nomes df -> obter c df = Ok (default [] (procurar c (colunas df))).
Proof.
  intros Hc. apply procurar_nomes in Hc as [s Hs]. unfold obter.
  rewrite Hs. reflexivity.
Qed.

Lemma selecionar_ok cols df :
  (forall c, c ∈ cols -> c ∈ nomes df) ->
  selecionar cols df =
  Ok (MkDataFrame (indice df)
        (map (fun c => (c, default [] (procurar c (colunas df)))) cols)).
Proof.
  intros Hcols. unfold selecionar.
  assert (foldr (fun c acc =>
                   seja s <- obter c df em seja r <- acc em Ok ((c, s) :: r))
            (Ok []) cols =
          Ok (map (fun c => (c, default [] (procurar c (colunas df)))) cols)) as ->;
    [|reflexivity].
  induction cols as [|c cols IH]; simpl; [reflexivity|].
  rewrite obter_ok by (apply Hcols; left). cbn [ligar].
  rewrite IH by (intros c' Hc'; apply Hcols; right; exact Hc'). reflexivity.
Qed.

Lemma procurar_map_cols {A} (g : string -> A) c cols :
  c ∈ cols -> procurar c (map (fun c => (c, g c)) cols) = Some (g c).
Proof.
  induction cols as [|c' cols IH]; simpl; [intros H; inversion H|].
  destruct (String.eqb c' c) eqn:E.
  - apply String.eqb_eq in E as ->. reflexivity.
  - apply String.eqb_neq in E. intros H.
    apply elem_of_cons in H as [->|H]; [congruence|apply IH, H].
Qed.

Lemma colunas_novas_spec K S D n :
  n ∈ colunas_novas K S D <-> n ∈ nomes S /\ (n ∉ nomes D \/ n = K).
Proof.
  unfold colunas_novas. rewrite list_elem_of_In, filter_In, <- list_elem_of_In.
  rewrite orb_true_iff, negb_true_iff, String.eqb_eq.
  unfold esta_em. rewrite bool_decide_eq_false. tauto.
Qed.

(** A secondary table restricted to its new columns shares no label with
    the accumulated table besides the key, so no suffix is introduced. *)
Lemma sem_rotulo_comum K S D sub n :
  nomes sub = colunas_novas K S D ->
  rotulo_comum D (colunas_direita sub K K) n = false.
Proof.
  intros Hsub. unfold rotulo_comum, colunas_direita, esta_em.
  rewrite String.eqb_refl.
  destruct (bool_decide (n ∈ nomes D)) eqn:E1; [|reflexivity]. simpl.
  apply bool_decide_eq_true in E1. apply bool_decide_eq_false. intros Hn.
  apply list_elem_of_fmap in Hn as ([n' s] & -> & Hin). simpl in *.
  apply list_elem_of_In, filter_In in Hin as [Hin Hne]. simpl in Hne.
  apply negb_true_iff, String.eqb_neq in Hne.
  assert (n' ∈ colunas_novas K S D) as Hnov.
  { rewrite <- Hsub. apply list_elem_of_fmap. exists (n', s).
    split; [reflexivity|]. apply list_elem_of_In, Hin. }
  apply colunas_novas_spec in Hnov as [_ [H|H]]; [exact (H E1)|exact (Hne H)].
Qed.

(** One filtered join of the Integrator against a table with unique keys:
    the accumulated table is kept as it is and gains columns. *)
Lemma juncao_filtrada K D S kd ks :
  bem_formado D -> procurar K (colunas D) = Some kd ->
  procurar K (colunas S) = Some ks -> is_unique ks = true ->
  chaves_incompativeis kd ks = false ->
  exists extras,
    (seja sub <- selecionar (colunas_novas K S D) S em merge_on D sub K) =
      Ok (MkDataFrame (indice D) (colunas D ++ extras)) /\
    Forall (fun ns : string * Series => length ns.2 = indice D) extras.
Proof.
  intros Hwf Hkd Hks Hu Hcomp.
  rewrite selecionar_ok by (intros c Hc; apply colunas_novas_spec in Hc; tauto).
  cbn [ligar]. unfold merge_on.
  set (sub := MkDataFrame (indice S) _).
  assert (nomes sub = colunas_novas K S D) as Hsub.
  { unfold nomes, sub. simpl. rewrite <- list_fmap_compose.
    apply list_fmap_id. }
  assert (procurar K (colunas sub) = Some ks) as Hks'.
  { unfold sub. simpl. rewrite procurar_map_cols; [rewrite Hks; reflexivity|].
    apply colunas_novas_spec. split; [|right; reflexivity].
    apply procurar_nomes. rewrite Hks. eauto. }
  rewrite (merge_left_unico D sub K K kd ks Hwf Hkd Hks' Hu Hcomp).
  exists (map (fun ns : string * Series =>
                 (ns.1, tomar_direita (indexador_desde 0 kd ks) ns.2))
              (colunas_direita sub K K)).
  split.
  - f_equal. f_equal. f_equal.
    + rewrite <- (map_id (colunas D)) at 2. apply map_ext. intros [n s]. simpl.
      rewrite (sem_rotulo_comum K S D sub n Hsub). reflexivity.
    + apply map_ext. intros [n s]. simpl.
      rewrite (sem_rotulo_comum K S D sub n Hsub). reflexivity.
  - apply Forall_forall. intros [n s] Hin.
    apply list_elem_of_In, in_map_iff in Hin as ([n' s'] & [= <- <-] & _).
    simpl. rewrite length_tomar_direita, (indexador_unico_length kd ks Hu).
    apply (bem_formado_procurar _ _ _ Hwf Hkd).
Qed.

(** *** The kinds of the key columns *)

(** A join fails on a missing key column or on key columns of kinds that
    cannot be joined. *)
Lemma merge_left_excecao P S left_on right_on e :
  merge_left P S left_on right_on = Raise e ->
  e = KeyError left_on \/ e = KeyError right_on \/ e = ValueError.
Proof.
  unfold merge_left, obter.
  destruct (procurar left_on (colunas P)) as [kp|]; cbn [ligar]; [|intros [= <-]; auto].
  destruct (procurar right_on (colunas S)) as [ks|]; cbn [ligar];
    [|intros [= <-]; auto].
  destruct (chaves_incompativeis kp ks); [intros [= <-]; auto|discriminate].
Qed.

(** A join that returns has found both key columns, of kinds that can be
    joined. *)
Lemma merge_left_inv P S kl kr D :
  merge_left P S kl kr = Ok D ->
  exists kp ks,
    procurar kl (colunas P) = Some kp /\ procurar kr (colunas S) = Some ks /\
    chaves_incompativeis kp ks = false.
Proof.
  unfold merge_left, obter.
  destruct (procurar kl (colunas P)) as [kp|]; cbn [ligar]; [|discriminate].
  destruct (procurar kr (colunas S)) as [ks|]; cbn [ligar]; [|discriminate].
  destruct (chaves_incompativeis kp ks) eqn:E; [discriminate|]. eauto.
Qed.

Lemma dtype_numerico_casos (s : Series) :
  dtype_numerico s = negb (Nat.eqb (length s) 0) && negb (tem_texto s).
Proof.
  assert (forall l : Series,
            forallb (fun c : celula =>
                       match c with Some (Texto _) => false | _ => true end) l =
            negb (tem_texto l)) as H.
  { induction l as [|c l IH]; [reflexivity|]. unfold tem_texto in *.
    cbn [forallb existsb]. rewrite IH. destruct c as [[q|t]|]; reflexivity. }
  destruct s as [|c s]; [reflexivity|]. unfold dtype_numerico. rewrite H.
  reflexivity.
Qed.

(** A column without strings can be joined with every column without
    strings. *)
Lemma sem_texto_compativeis (ke kd : Series) :
  tem_texto ke = false -> tem_texto kd = false -> chaves_incompativeis ke kd = false.
Proof.
  intros He Hd. unfold chaves_incompativeis, chave_textual. rewrite He, Hd.
  cbn [andb]. rewrite andb_false_r. reflexivity.
Qed.

(** Every left row occurs in the indexer, so a left column keeps the values
    it holds, whatever the right keys are. *)
Lemma existsb_indexador (p : celula -> bool) (s : Series) i ke kd :
  existsb p (map (fun pr : nat * option nat => tomar s pr.1) (indexador_desde i ke kd)) =
  existsb p (map (tomar s) (seq i (length ke))).
Proof.
  revert i. induction ke as [|k ke IH]; intros i; [reflexivity|].
  cbn [indexador_desde length seq map existsb]. rewrite map_app, existsb_app, IH.
  f_equal. destruct (posicoes_desde 0 k kd) as [|j js]; cbn [map existsb].
  - apply orb_false_r.
  - rewrite map_map. cbn [fst]. f_equal.
    induction js as [|j' js IHjs]; cbn [map existsb]; [apply orb_false_r|].
    rewrite IHjs. destruct (p (tomar s i)); reflexivity.
Qed.

Lemma existsb_tomar_esquerda (p : celula -> bool) (s : Series) ke kd :
  length s = length ke ->
  existsb p (tomar_esquerda (indexador_desde 0 ke kd) s) = existsb p s.
Proof.
  intros Hl. unfold tomar_esquerda. rewrite existsb_indexador, <- Hl, tomar_seq.
  reflexivity.
Qed.

Lemma length_indexador_zero ke kd :
  Nat.eqb (length (indexador_desde 0 ke kd)) 0 = Nat.eqb (length ke) 0.
Proof.
  destruct ke as [|k ke]; [reflexivity|]. cbn [indexador_desde length].
  rewrite length_app.
  destruct (posicoes_desde 0 k kd) as [|j js]; cbn [map length]; reflexivity.
Qed.

(** So the key column of the accumulated table keeps its kind through a
    join, also when rows are multiplied. *)
Lemma chaves_incompativeis_esquerda ke kd ks :
  chaves_incompativeis (tomar_esquerda (indexador_desde 0 ke kd) ke) ks =
  chaves_incompativeis ke ks.
Proof.
  unfold chaves_incompativeis, chave_textual. rewrite !dtype_numerico_casos.
  unfold tem_texto, tem_inteiro. rewrite !existsb_tomar_esquerda by reflexivity.
  unfold tomar_esquerda. rewrite length_map, length_indexador_zero. reflexivity.
Qed.

(** A right column brings no string that it did not hold. *)
Lemma tem_texto_tomar_direita idx (s : Series) :
  tem_texto s = false -> tem_texto (tomar_direita idx s) = false.
Proof.
  intros Hs. unfold tem_texto, tomar_direita.
  apply not_true_is_false. intros H. apply existsb_exists in H as (c & Hin & Hc).
  apply in_map_iff in Hin as ([i [j|]] & <- & _); cbn in Hc; [|discriminate].
  unfold tomar in Hc. destruct (s !! j) as [c'|] eqn:E; [|discriminate].
  cbn in Hc. assert (tem_texto s = true) as Habs; [|congruence].
  apply existsb_exists. exists c'. split; [|exact Hc].
  apply list_elem_of_In, (list_elem_of_lookup_2 _ _ _ E).
Qed.

Lemma procurar_map_snd {A B} (f : A -> B) c (l : list (string * A)) :
  procurar c (map (fun ns : string * A => (ns.1, f ns.2)) l) = f <$> procurar c l.
Proof.
  induction l as [|[n a] l IH]; simpl; [reflexivity|].
  destruct (String.eqb n c); [reflexivity|exact IH].
Qed.

Lemma procurar_app {A} c (l r : list (string * A)) :
  c ∈ l.*1 -> procurar c (l ++ r) = procurar c l.
Proof.
  induction l as [|[n t] l IH]; simpl; [intros H; inversion H|].
  destruct (String.eqb n c) eqn:E; [reflexivity|].
  apply String.eqb_neq in E. intros H.
  apply elem_of_cons in H as [->|H]; [congruence|apply IH, H].
Qed.

Lemma procurar_app_r {A} c (l r : list (string * A)) :
  c ∉ l.*1 -> procurar c (l ++ r) = procurar c r.
Proof.
  induction l as [|[n t] l IH]; simpl; [reflexivity|].
  intros Hc. apply not_elem_of_cons in Hc as [Hne Hc].
  destruct (String.eqb n c) eqn:E; [|apply IH, Hc].
  apply String.eqb_eq in E. congruence.
Qed.

Lemma atribuir_colunas_app_r c s (l r : list (string * Series)) :
  c ∉ l.*1 -> atribuir_colunas c s (l ++ r) = l ++ atribuir_colunas c s r.
Proof.
  induction l as [|[n t] l IH]; simpl; [reflexivity|].
  intros Hc. apply not_elem_of_cons in Hc as [Hne Hc].
  destruct (String.eqb n c) eqn:E; [|rewrite (IH Hc); reflexivity].
  apply String.eqb_eq in E. congruence.
Qed.

(** Two key columns that [pd.merge] treats alike. *)
Definition mesma_especie (a b : Series) : Prop :=
  forall ks, chaves_incompativeis a ks = chaves_incompativeis b ks.

End Juncao.

(** ** Filtered joins of the Integrator, without assumptions on the keys *)

Section JuncaoGeral.

Lemma filter_map_cols {A} (p : string -> bool) (g : string -> A) (l : list string) :
  List.filter (fun ns : string * A => p ns.1) (map (fun c => (c, g c)) l) =
  map (fun c => (c, g c)) (List.filter p l).
Proof.
  induction l as [|c l IH]; simpl; [reflexivity|].
  destruct (p c); simpl; rewrite IH; reflexivity.
Qed.

(** The result of one filtered join: the accumulated columns, re-indexed,
    followed by the new columns of the secondary table other than the key. *)
Lemma merge_filtrado_forma K D S kd ks :
  procurar K (colunas D) = Some kd ->
  procurar K (colunas S) = Some ks ->
  let idx := indexador_desde 0 kd ks in
  (seja sub <- selecionar (colunas_novas K S D) S em merge_on D sub K) =
  if chaves_incompativeis kd ks then Raise ValueError else
  Ok (MkDataFrame (length idx)
        (map (fun ns : string * Series => (ns.1, tomar_esquerda idx ns.2)) (colunas D) ++
         map (fun c => (c, tomar_direita idx (default [] (procurar c (colunas S)))))
           (List.filter (fun c => negb (String.eqb c K)) (colunas_novas K S D)))).
Proof.
  intros Hkd Hks idx.
  rewrite selecionar_ok by (intros c Hc; apply colunas_novas_spec in Hc; tauto).
  cbn [ligar]. unfold merge_on.
  set (sub := MkDataFrame (indice S) _).
  assert (nomes sub = colunas_novas K S D) as Hsub.
  { unfold nomes, sub. simpl. rewrite <- list_fmap_compose. apply list_fmap_id. }
  assert (procurar K (colunas sub) = Some ks) as Hks'.
  { unfold sub. simpl. rewrite procurar_map_cols; [rewrite Hks; reflexivity|].
    apply colunas_novas_spec. split; [|right; reflexivity].
    apply procurar_nomes. rewrite Hks. eauto. }
  unfold merge_left, obter. rewrite Hkd, Hks'. cbn [ligar]. fold idx.
  destruct (chaves_incompativeis kd ks); [reflexivity|].
  f_equal. f_equal. f_equal.
  - apply map_ext. intros [n s]. simpl.
    rewrite (sem_rotulo_comum K S D sub n Hsub). reflexivity.
  - rewrite (map_ext _ (fun ns : string * Series => (ns.1, tomar_direita idx ns.2)))
      by (intros [n s]; simpl; rewrite (sem_rotulo_comum K S D sub n Hsub);
          reflexivity).
    unfold colunas_direita. rewrite String.eqb_refl. unfold sub. cbn [colunas].
    rewrite (filter_map_cols (fun c => negb (String.eqb c K))).
    rewrite map_map. reflexivity.
Qed.

(** A filtered join that returns has found the key on both sides, with keys
    of kinds that can be joined. *)
Lemma merge_filtrado_inv K D S D' :
  (seja sub <- selecionar (colunas_novas K S D) S em merge_on D sub K) = Ok D' ->
  exists kd ks, procurar K (colunas D) = Some kd /\ procurar K (colunas S) = Some ks /\
                chaves_incompativeis kd ks = false.
Proof.
  rewrite selecionar_ok by (intros c Hc; apply colunas_novas_spec in Hc; tauto).
  cbn [ligar]. unfold merge_on. intros H.
  apply merge_left_inv in H as (kd & ks' & Hkd & E & Hc). cbn [colunas] in E.
  exists kd.
  assert (K ∈ colunas_novas K S D) as Hin.
  { apply procurar_elem in E.
    apply list_elem_of_In, in_map_iff in E as (c & [= <- _] & Hc').
    apply list_elem_of_In, Hc'. }
  assert (K ∈ nomes S) as HK by (apply colunas_novas_spec in Hin; tauto).
  apply procurar_nomes in HK as [ks Hks]. exists ks.
  rewrite (procurar_map_cols _ _ _ Hin), Hks in E. cbn in E. injection E as <-.
  auto.
Qed.

(** A filtered join can only fail on a missing key column or on keys of
    kinds that cannot be joined. *)
Lemma merge_filtrado_excecao K D S e :
  (seja sub <- selecionar (colunas_novas K S D) S em merge_on D sub K) = Raise e ->
  e = KeyError K \/ e = ValueError.
Proof.
  rewrite selecionar_ok by (intros c Hc; apply colunas_novas_spec in Hc; tauto).
  cbn [ligar]. unfold merge_on. intros H. apply merge_left_excecao in H. tauto.
Qed.

Lemma indexador_minimo i ke kd : length ke <= length (indexador_desde i ke kd).
Proof.
  revert i. induction ke as [|k ke IH]; intros i; simpl; [lia|].
  rewrite length_app. specialize (IH (S i)).
  destruct (posicoes_desde 0 k kd); simpl; [lia|]. rewrite length_map. lia.
Qed.

Lemma merge_filtrado_nomes idx K (D S : DataFrame) :
  (map (fun ns : string * Series => (ns.1, tomar_esquerda idx ns.2)) (colunas D) ++
   map (fun c => (c, tomar_direita idx (default [] (procurar c (colunas S)))))
     (List.filter (fun c => negb (String.eqb c K)) (colunas_novas K S D))).*1 =
  nomes D ++ List.filter (fun c => negb (String.eqb c K)) (colunas_novas K S D).
Proof.
  rewrite fmap_app. f_equal.
  - unfold nomes. rewrite <- list_fmap_compose. reflexivity.
  - rewrite <- list_fmap_compose. apply list_fmap_id.
Qed.

Lemma merge_filtrado_bem_formado idx K (D S : DataFrame) :
  bem_formado
    (MkDataFrame (length idx)
       (map (fun ns : string * Series => (ns.1, tomar_esquerda idx ns.2)) (colunas D) ++
        map (fun c => (c, tomar_direita idx (default [] (procurar c (colunas S)))))
          (List.filter (fun c => negb (String.eqb c K)) (colunas_novas K S D)))).
Proof.
  unfold bem_formado. cbn [colunas indice]. apply Forall_app. split.
  - apply List.Forall_map, Forall_forall. intros ns _. simpl.
    unfold tomar_esquerda. apply length_map.
  - apply List.Forall_map, Forall_forall. intros c _. simpl.
    apply length_tomar_direita.
Qed.

(** The new labels of a filtered join are the labels of the secondary table
    that the accumulated table did not have. *)
Lemma novas_sem_chave K S D n :
  K ∈ nomes D ->
  n ∈ List.filter (fun c => negb (String.eqb c K)) (colunas_novas K S D) <->
  n ∈ nomes S /\ n ∉ nomes D.
Proof.
  intros HK. rewrite list_elem_of_In, filter_In, <- list_elem_of_In.
  rewrite colunas_novas_spec, negb_true_iff, String.eqb_neq. split.
  - intros [[HS [HD | ->]] Hne]; [auto|congruence].
  - intros [HS HD]. split; [auto|]. intros ->. exact (HD HK).
Qed.

(** *** The indexer of a many-to-one join *)

Lemma indexador_unico_lookup i ke kd j k :
  is_unique kd = true -> ke !! j = Some k ->
  indexador_desde i ke kd !! j = Some (i + j, head (posicoes_desde 0 k kd)).
Proof.
  intros Hu. revert i j. induction ke as [|k0 ke IH]; intros i j Hj; [discriminate|].
  cbn [indexador_desde].
  pose proof (posicoes_unicas 0 k0 kd Hu) as Hle.
  assert (match posicoes_desde 0 k0 kd with
          | [] => [(i, None)]
          | p :: ps => map (fun p => (i, Some p)) (p :: ps)
          end = [(i, head (posicoes_desde 0 k0 kd))]) as ->.
  { destruct (posicoes_desde 0 k0 kd) as [|p [|p' ps]]; simpl in *;
      [reflexivity|reflexivity|lia]. }
  destruct j as [|j]; simpl in *.
  - injection Hj as ->. rewrite Nat.add_0_r. reflexivity.
  - rewrite (IH (S i) j Hj). f_equal. f_equal. lia.
Qed.

Lemma posicoes_primeira j0 k d j c :
  is_unique d = true -> d !! j = Some c -> celula_eqb c k = true ->
  head (posicoes_desde j0 k d) = Some (j0 + j).
Proof.
  revert j0 j. induction d as [|c0 d IH]; intros j0 j Hu Hj Hc; [discriminate|].
  simpl in Hu. apply andb_true_iff in Hu as [Hc0 Hu]. apply negb_true_iff in Hc0.
  destruct j as [|j]; simpl in *.
  - injection Hj as ->. rewrite Hc. simpl. rewrite Nat.add_0_r. reflexivity.
  - destruct (celula_eqb c0 k) eqn:E.
    + assert (existsb (celula_eqb c0) d = true) as Habs; [|congruence].
      apply existsb_exists. exists c. split.
      * apply list_elem_of_In, (list_elem_of_lookup_2 _ _ _ Hj).
      * apply (celula_eqb_trans _ k); [exact E|].
        rewrite celula_eqb_sym. exact Hc.
    + rewrite (IH (S j0) j Hu Hj Hc). f_equal. lia.
Qed.

Lemma posicoes_nenhuma j0 k d :
  (forall c, c ∈ d -> celula_eqb c k = false) -> posicoes_desde j0 k d = [].
Proof.
  intros H. apply posicoes_sem_par. apply not_true_is_false. intros Hex.
  apply existsb_exists in Hex as (c & Hin & Hc).
  rewrite (H c) in Hc by (apply list_elem_of_In, Hin). discriminate.
Qed.

Lemma dois_distintos {A} (a b : A) (l : list A) :
  a ∈ l -> b ∈ l -> a <> b -> 1 < length l.
Proof.
  destruct l as [|x [|y l]]; simpl; intros Ha Hb Hne; [inversion Ha| |lia].
  apply list_elem_of_singleton in Ha, Hb. congruence.
Qed.

End JuncaoGeral.

(** ** The loop over the indicator tables *)

Section Indicadores.

(** Nothing of [I] is left to integrate into [X]. *)
Definition saturado (K : string) (I X : DataFrame) : Prop :=
  tem_coluna K I = false \/ length (colunas_novas K I X) <= 1.

Lemma filter_length_impl {A} (p q : A -> bool) (l : list A) :
  (forall a, a ∈ l -> p a = true -> q a = true) ->
  length (List.filter p l) <= length (List.filter q l).
Proof.
  induction l as [|a l IH]; intros H; simpl; [lia|].
  assert (length (List.filter p l) <= length (List.filter q l)) as Hl
    by (apply IH; intros b Hb; apply H; right; exact Hb).
  destruct (p a) eqn:E.
  - rewrite (H a) by (left || exact E). simpl. lia.
  - destruct (q a); simpl; lia.
Qed.

Lemma filter_sublist {A} (p : A -> bool) (l : list A) :
  List.filter p l `sublist_of` l.
Proof.
  induction l as [|a l IH]; simpl; [constructor|].
  destruct (p a); [apply sublist_skip|apply sublist_cons]; exact IH.
Qed.

Lemma saturado_mais K I X Y :
  (forall c, c ∈ nomes X -> c ∈ nomes Y) -> saturado K I X -> saturado K I Y.
Proof.
  intros Hsub [H|H]; [left; exact H|right].
  etransitivity; [|exact H]. unfold colunas_novas.
  apply filter_length_impl. intros c _ Hc.
  apply orb_true_iff in Hc as [Hc|Hc]; apply orb_true_iff; [left|right; exact Hc].
  apply negb_true_iff in Hc. apply negb_true_iff.
  unfold esta_em in *. apply bool_decide_eq_false in Hc.
  apply bool_decide_eq_false. intros HX. apply Hc, Hsub, HX.
Qed.

Lemma saturado_nada K I X : saturado K I X -> integrar_indicador K X I = Ok X.
Proof.
  intros [H|H]; unfold integrar_indicador.
  - rewrite H. reflexivity.
  - destruct (tem_coluna K I); [|reflexivity].
    replace (Nat.ltb 1 (length (colunas_novas K I X))) with false; [reflexivity|].
    symmetry. apply Nat.ltb_ge. exact H.
Qed.

Lemma filter_chave_ausente K (l : list string) :
  K ∉ l -> List.filter (fun c => String.eqb c K) l = [].
Proof.
  induction l as [|c l IH]; simpl; [reflexivity|].
  intros HK. apply not_elem_of_cons in HK as [Hne HK].
  destruct (String.eqb c K) eqn:E; [|apply IH, HK].
  apply String.eqb_eq in E. congruence.
Qed.

Lemma filter_chave_NoDup K (l : list string) :
  NoDup l -> length (List.filter (fun c => String.eqb c K) l) <= 1.
Proof.
  induction 1 as [|c l Hc Hnd IH]; simpl; [lia|].
  destruct (String.eqb c K) eqn:E; [|exact IH].
  apply String.eqb_eq in E as ->. simpl.
  rewrite (filter_chave_ausente K l Hc). simpl. lia.
Qed.

(** One iteration of the loop either leaves the accumulated table as it is,
    because nothing of the indicator table is new, or joins the new columns
    to it. *)
Lemma integrar_indicador_casos K D I D' :
  integrar_indicador K D I = Ok D' ->
  (D' = D /\ saturado K I D) \/
  (K ∈ nomes D /\ K ∈ nomes I /\ bem_formado D' /\
   (bem_formado D -> indice D <= indice D') /\
   nomes D' =
     nomes D ++ List.filter (fun c => negb (String.eqb c K)) (colunas_novas K I D)).
Proof.
  unfold integrar_indicador, saturado.
  destruct (tem_coluna K I) eqn:EK; [|intros [= <-]; left; auto].
  destruct (Nat.ltb 1 (length (colunas_novas K I D))) eqn:EL;
    [|intros [= <-]; left; split; [reflexivity|right; apply Nat.ltb_ge, EL]].
  apply bool_decide_eq_true in EK. intros H. right.
  destruct (merge_filtrado_inv K D I D' H) as (kd & ks & Hkd & Hks & Hc).
  rewrite (merge_filtrado_forma K D I kd ks Hkd Hks), Hc in H. injection H as <-.
  split; [apply procurar_nomes; rewrite Hkd; eauto|]. split; [exact EK|].
  split; [apply merge_filtrado_bem_formado|]. split.
  - intros Hwf. cbn [indice]. rewrite <- (bem_formado_procurar _ _ _ Hwf Hkd).
    apply indexador_minimo.
  - apply merge_filtrado_nomes.
Qed.

Lemma integrar_indicador_cresce K D I D' :
  integrar_indicador K D I = Ok D' -> forall c, c ∈ nomes D -> c ∈ nomes D'.
Proof.
  intros H c Hc. destruct (integrar_indicador_casos K D I D' H)
    as [[-> _]|(_ & _ & _ & _ & Hn)]; [exact Hc|].
  rewrite Hn. apply elem_of_app. left. exact Hc.
Qed.

Lemma integrar_indicador_satura K D I D' :
  NoDup (nomes I) -> integrar_indicador K D I = Ok D' -> saturado K I D'.
Proof.
  intros Hnd H. destruct (integrar_indicador_casos K D I D' H)
    as [[-> Hs]|(HKD & HKI & _ & _ & Hn)]; [exact Hs|].
  right. etransitivity; [|apply (filter_chave_NoDup K (nomes I) Hnd)].
  unfold colunas_novas. apply filter_length_impl. intros c HcI Hc.
  apply orb_true_iff in Hc as [Hc|Hc]; [|exact Hc].
  apply negb_true_iff in Hc. unfold esta_em in Hc.
  apply bool_decide_eq_false in Hc. exfalso. apply Hc. rewrite Hn.
  apply elem_of_app.
  destruct (decide (c ∈ nomes D)) as [HD|HD]; [left; exact HD|right].
  apply novas_sem_chave; auto.
Qed.

Lemma integrar_indicador_forma K D I D' :
  bem_formado D -> integrar_indicador K D I = Ok D' ->
  bem_formado D' /\ indice D <= indice D'.
Proof.
  intros Hwf H. destruct (integrar_indicador_casos K D I D' H)
    as [[-> _]|(_ & _ & Hwf' & Hi & _)]; [split; [exact Hwf|lia]|].
  split; [exact Hwf'|apply Hi, Hwf].
Qed.

Lemma integrar_indicador_excecao K D I e :
  integrar_indicador K D I = Raise e -> e = KeyError K \/ e = ValueError.
Proof.
  unfold integrar_indicador. destruct (tem_coluna K I); [|discriminate].
  destruct (Nat.ltb 1 (length (colunas_novas K I D))); [|discriminate].
  apply merge_filtrado_excecao.
Qed.

(** One iteration returns when the accumulated table has the key column and
    the keys of the indicator table are of a kind that can be joined with
    it; the key column of the result is of the kind it was. *)
Lemma integrar_indicador_ok K D I kd :
  procurar K (colunas D) = Some kd ->
  (forall ks, procurar K (colunas I) = Some ks -> chaves_incompativeis kd ks = false) ->
  exists D' kd',
    integrar_indicador K D I = Ok D' /\
    procurar K (colunas D') = Some kd' /\ mesma_especie kd' kd.
Proof.
  intros Hkd Hc. unfold integrar_indicador.
  destruct (tem_coluna K I) eqn:EK;
    [|exists D, kd; split; [reflexivity|split; [exact Hkd|intros ks; reflexivity]]].
  destruct (Nat.ltb 1 (length (colunas_novas K I D)));
    [|exists D, kd; split; [reflexivity|split; [exact Hkd|intros ks; reflexivity]]].
  apply bool_decide_eq_true, procurar_nomes in EK as [ks Hks].
  rewrite (merge_filtrado_forma K D I kd ks Hkd Hks), (Hc ks Hks).
  eexists _, _. split; [reflexivity|]. cbn [colunas]. split.
  - rewrite procurar_app.
    + rewrite (procurar_map_snd (tomar_esquerda (indexador_desde 0 kd ks))), Hkd.
      reflexivity.
    + rewrite <- list_fmap_compose. apply procurar_nomes. rewrite Hkd. eauto.
  - intros ks'. apply chaves_incompativeis_esquerda.
Qed.

Lemma laco_excecao {A B} (f : A -> B -> resultado A) (l : list B) e :
  fold_left (fun acc b => seja a <- acc em f a b) l (Raise e) = Raise e.
Proof. induction l as [|b l IH]; simpl; [reflexivity|exact IH]. Qed.

(** An invariant of the accumulated table that every iteration keeps is kept
    by the loop. *)
Lemma integrar_indicadores_invariante K (Inv : DataFrame -> Prop) indicadores D D' :
  (forall X tipo I X' itens,
     indicadores = Some itens -> (tipo, I) ∈ itens ->
     Inv X -> integrar_indicador K X I = Ok X' -> Inv X') ->
  Inv D -> integrar_indicadores K indicadores D = Ok D' -> Inv D'.
Proof.
  intros Hstep. unfold integrar_indicadores.
  destruct indicadores as [itens|]; [|intros HD [= <-]; exact HD].
  specialize (fun X tipo I X' => Hstep X tipo I X' itens eq_refl).
  revert D. induction itens as [|[tipo I] itens IH]; intros D HD H; simpl in H.
  - injection H as <-. exact HD.
  - destruct (integrar_indicador K D I) as [D1|e] eqn:E;
      [|rewrite laco_excecao in H; discriminate].
    apply (IH (fun X tipo' I' X' Hin => Hstep X tipo' I' X' (list_elem_of_further _ _ _ Hin))
             D1); [|exact H].
    apply (Hstep D tipo I D1 (list_elem_of_here _ _) HD E).
Qed.

Lemma integrar_indicadores_excecao K indicadores D e :
  integrar_indicadores K indicadores D = Raise e -> e = KeyError K \/ e = ValueError.
Proof.
  unfold integrar_indicadores. destruct indicadores as [itens|]; [|discriminate].
  revert D. induction itens as [|[tipo I] itens IH]; intros D H; simpl in H;
    [discriminate|].
  destruct (integrar_indicador K D I) as [D1|e1] eqn:E.
  - apply (IH D1 H).
  - rewrite laco_excecao in H. injection H as <-.
    apply (integrar_indicador_excecao K D I e1 E).
Qed.

Lemma integrar_indicadores_ok K indicadores D kd :
  procurar K (colunas D) = Some kd ->
  (forall itens tipo I ks, indicadores = Some itens -> (tipo, I) ∈ itens ->
     procurar K (colunas I) = Some ks -> chaves_incompativeis kd ks = false) ->
  exists D', integrar_indicadores K indicadores D = Ok D'.
Proof.
  unfold integrar_indicadores. destruct indicadores as [itens|]; [|eauto].
  intros Hkd Hc. specialize (Hc itens).
  assert (forall tipo I ks, (tipo, I) ∈ itens ->
            procurar K (colunas I) = Some ks -> chaves_incompativeis kd ks = false)
    as Hc' by (intros tipo I ks; apply Hc; reflexivity).
  clear Hc. revert D kd Hkd Hc'.
  induction itens as [|[tipo I] itens IH]; intros D kd Hkd Hc; simpl; [eauto|].
  destruct (integrar_indicador_ok K D I kd Hkd) as (D1 & kd1 & HD1 & Hkd1 & He).
  { intros ks. apply (Hc tipo I ks). left. }
  rewrite HD1. apply (IH D1 kd1 Hkd1).
  intros tipo' I' ks Hin Hks. rewrite He. apply (Hc tipo' I' ks); [right|]; assumption.
Qed.

End Indicadores.

(** ** The school-level and municipality-level integrations *)

Section Niveis.

(** [D] is [P] with further columns of the same height. *)
Definition estende (P D : DataFrame) : Prop :=
  indice D = indice P /\
  exists extras, colunas D = colunas P ++ extras /\
    Forall (fun ns : string * Series => length ns.2 = indice P) extras.

(** A secondary table can be joined many-to-one with a primary table whose
    keys are [kp]: if it has the key column [K] at all, no two of its rows
    carry the same key, and its keys are of a kind that [pd.merge] joins
    with [kp]. *)
Definition juntavel (K : string) (kp : Series) (S : DataFrame) : Prop :=
  forall ks, procurar K (colunas S) = Some ks ->
    is_unique ks = true /\ chaves_incompativeis kp ks = false.

(** The same, for a table that must have the key column. *)
Definition juntavel_com_chave (K : string) (kp : Series) (S : DataFrame) : Prop :=
  exists ks, procurar K (colunas S) = Some ks /\
    is_unique ks = true /\ chaves_incompativeis kp ks = false.

Lemma estende_refl P : estende P P.
Proof.
  split; [reflexivity|]. exists []. rewrite app_nil_r. split; [reflexivity|constructor].
Qed.

Lemma estende_bem_formado P D : bem_formado P -> estende P D -> bem_formado D.
Proof.
  intros Hwf (Hi & extras & Hc & Hex). unfold bem_formado.
  rewrite Hc, Hi. apply Forall_app. split; assumption.
Qed.

Lemma estende_nomes P D K : K ∈ nomes P -> estende P D -> K ∈ nomes D.
Proof.
  intros HK (_ & extras & Hc & _). unfold nomes. rewrite Hc, fmap_app.
  apply elem_of_app. left. exact HK.
Qed.

Lemma estende_procurar P D c :
  estende P D -> c ∈ nomes P -> procurar c (colunas D) = procurar c (colunas P).
Proof.
  intros (_ & extras & Hc & _) Hin. rewrite Hc. apply procurar_app, Hin.
Qed.

Lemma estende_mais P D extras :
  estende P D ->
  Forall (fun ns : string * Series => length ns.2 = indice D) extras ->
  estende P (MkDataFrame (indice D) (colunas D ++ extras)).
Proof.
  intros (Hi & ex & Hc & Hex) Hextras. split; [exact Hi|].
  exists (ex ++ extras). simpl. rewrite Hc, <- app_assoc. split; [reflexivity|].
  apply Forall_app. split; [exact Hex|]. rewrite <- Hi. exact Hextras.
Qed.

Lemma integrar_indicador_estende K P D I kp :
  bem_formado P -> procurar K (colunas P) = Some kp -> estende P D ->
  juntavel K kp I ->
  exists D', integrar_indicador K D I = Ok D' /\ estende P D'.
Proof.
  intros Hwf Hkp Hext Hun. unfold integrar_indicador.
  destruct (tem_coluna K I) eqn:EK; [|eauto].
  destruct (Nat.ltb 1 (length (colunas_novas K I D))); [|eauto].
  apply bool_decide_eq_true, procurar_nomes in EK as [ks Hks].
  destruct (Hun ks Hks) as [Hu Hc].
  assert (K ∈ nomes P) as HK by (apply procurar_nomes; eauto).
  destruct (juncao_filtrada K D I kp ks) as (extras & Hm & Hex).
  - apply (estende_bem_formado P); assumption.
  - rewrite (estende_procurar P D K Hext HK). exact Hkp.
  - exact Hks.
  - exact Hu.
  - exact Hc.
  - rewrite Hm. eexists. split; [reflexivity|]. apply estende_mais; assumption.
Qed.

Lemma integrar_indicadores_estende K P D indicadores kp :
  bem_formado P -> procurar K (colunas P) = Some kp -> estende P D ->
  (forall itens tipo I, indicadores = Some itens -> (tipo, I) ∈ itens ->
     juntavel K kp I) ->
  exists D', integrar_indicadores K indicadores D = Ok D' /\ estende P D'.
Proof.
  intros Hwf Hkp Hext Hun. unfold integrar_indicadores.
  destruct indicadores as [itens|]; [|eauto].
  specialize (Hun itens). revert D Hext.
  induction itens as [|[tipo I] itens IH]; intros D Hext; simpl; [eauto|].
  destruct (integrar_indicador_estende K P D I kp Hwf Hkp Hext) as (D' & HD' & Hext').
  { apply (Hun tipo I eq_refl). left. }
  rewrite HD'. apply IH; [|exact Hext'].
  intros tipo' I' _ Hin. apply (Hun tipo' I' eq_refl). right. exact Hin.
Qed.

Lemma integrar_saeb_escola_estende dados P kp :
  bem_formado P -> procurar "CO_ENTIDADE" (colunas P) = Some kp ->
  (forall S, dados ≫= procurar "escola" = Some S ->
     juntavel_com_chave "CO_ENTIDADE" kp (normalizar_codigo_escola S)) ->
  exists D, integrar_saeb_escola dados P = Ok D /\ estende P D.
Proof.
  intros Hwf Hkp Hun. unfold integrar_saeb_escola.
  destruct (dados ≫= procurar "escola") as [S|]; [|exists P; split;
    [reflexivity|apply estende_refl]].
  destruct (Hun S eq_refl) as (ks & Hks & Hu & Hc).
  destruct (colunas_novas "CO_ENTIDADE" (normalizar_codigo_escola S) P) eqn:E.
  - exists P. split; [reflexivity|apply estende_refl].
  - rewrite <- E.
    destruct (juncao_filtrada "CO_ENTIDADE" P (normalizar_codigo_escola S) kp ks
                Hwf Hkp Hks Hu Hc) as (extras & Hm & Hex).
    rewrite Hm. eexists. split; [reflexivity|].
    apply estende_mais; [apply estende_refl|exact Hex].
Qed.

(** *** What the loaders return *)

Lemma carregar_tipos_elem fs arquivo tipos tipo I :
  (tipo, I) ∈ carregar_tipos fs arquivo tipos ->
  tipo ∈ tipos /\ ler_csv fs (arquivo tipo) = Some I.
Proof.
  unfold carregar_tipos. intros Hin.
  apply list_elem_of_omap in Hin as (t & Hin & Ht).
  destruct (ler_csv fs (arquivo t)) as [df|] eqn:E; [|discriminate].
  simpl in Ht. injection Ht as <- <-. split; [exact Hin|exact E].
Qed.

Lemma ou_none_Some {A} (l itens : list A) : ou_none l = Some itens -> itens = l.
Proof. destruct l; simpl; congruence. Qed.

Lemma carregar_saeb_tipo fs ano tipo :
  tipo ∈ tipos_saeb ->
  carregar_saeb fs ano ≫= procurar tipo = ler_csv fs (arquivo_saeb ano tipo).
Proof.
  intros Ht. unfold carregar_saeb, carregar_tipos, tipos_saeb in *.
  cbn [omap list_omap].
  repeat (apply elem_of_cons in Ht as [->|Ht];
    [destruct (ler_csv fs (arquivo_saeb ano "escola")) as [d1|];
     destruct (ler_csv fs (arquivo_saeb ano "aluno")) as [d2|];
     destruct (ler_csv fs (arquivo_saeb ano "professor")) as [d3|];
     destruct (ler_csv fs (arquivo_saeb ano "diretor")) as [d4|];
     reflexivity|]).
  inversion Ht.
Qed.

(** *** Normalisation keeps the shape of the table *)

Lemma nomes_alterar c f (l : list (string * Series)) : (alterar c f l).*1 = l.*1.
Proof.
  induction l as [|[n t] l IH]; simpl; [reflexivity|].
  destruct (String.eqb n c); simpl; [reflexivity|]. f_equal. exact IH.
Qed.

Lemma alturas_alterar c g n (l : list (string * Series)) :
  Forall (fun ns : string * Series => length ns.2 = n) l ->
  Forall (fun ns : string * Series => length ns.2 = n) (alterar c (map g) l).
Proof.
  induction 1 as [|[m t] l Ht Hl IH]; simpl; [constructor|].
  destruct (String.eqb m c); constructor; try assumption.
  simpl in *. rewrite length_map. exact Ht.
Qed.

Lemma normalizar_valores_forma valores df :
  indice (normalizar_valores valores df) = indice df /\
  nomes (normalizar_valores valores df) = nomes df /\
  (bem_formado df -> bem_formado (normalizar_valores valores df)).
Proof.
  rewrite normalizar_valores_alterar. unfold nomes, bem_formado, traduzir_todas.
  simpl. generalize (colunas df) as l. generalize (indice df) as n.
  induction valores as [|[c d] valores IH]; intros n l; simpl.
  - auto.
  - destruct (IH n (alterar c (map (traduzir d)) l)) as (_ & H2 & H3).
    split; [reflexivity|]. split.
    + rewrite H2. apply nomes_alterar.
    + intros Hl. apply H3, alturas_alterar, Hl.
Qed.

Lemma nomes_atribuir T s (l : list (string * Series)) c :
  c ∈ l.*1 -> c ∈ (atribuir_colunas T s l).*1.
Proof.
  induction l as [|[n t] l IH]; simpl; [intros H; inversion H|].
  destruct (String.eqb n T); simpl; [auto|].
  rewrite !elem_of_cons. intros [->|H]; [left; reflexivity|right; apply IH, H].
Qed.

Lemma alturas_atribuir T s n (l : list (string * Series)) :
  length s = n ->
  Forall (fun ns : string * Series => length ns.2 = n) l ->
  Forall (fun ns : string * Series => length ns.2 = n) (atribuir_colunas T s l).
Proof.
  intros Hs. induction 1 as [|[m t] l Ht Hl IH]; simpl.
  - constructor; [exact Hs|constructor].
  - destruct (String.eqb m T); constructor; assumption.
Qed.

Lemma media_por_linha_length df s :
  media_por_linha df = Ok s -> length s = indice df.
Proof.
  unfold media_por_linha.
  destruct (mapear_r _ (colunas df)) as [cols|]; [|discriminate].
  cbn [ligar]. intros [= <-]. rewrite length_map. apply length_seq.
Qed.

Lemma selecionar_indice cols df sub :
  selecionar cols df = Ok sub -> indice sub = indice df.
Proof.
  unfold selecionar. destruct (foldr _ _ cols) as [ss|]; [|discriminate].
  cbn [ligar]. intros [= <-]. reflexivity.
Qed.

Lemma indice_infraestrutura_forma df :
  indice (indice_infraestrutura df) = indice df /\
  (forall c, c ∈ nomes df -> c ∈ nomes (indice_infraestrutura df)) /\
  (bem_formado df -> bem_formado (indice_infraestrutura df)).
Proof.
  unfold indice_infraestrutura.
  destruct (List.filter _ (nomes df)) as [|c cols]; [auto|].
  destruct (selecionar (c :: cols) df) as [sub|] eqn:Es; cbn [ligar]; [|auto].
  destruct (media_por_linha sub) as [s|] eqn:Em; [|auto].
  split; [reflexivity|]. split.
  - intros c' Hc'. apply nomes_atribuir, Hc'.
  - intros Hwf. apply alturas_atribuir; [|exact Hwf].
    rewrite (media_por_linha_length _ _ Em). apply (selecionar_indice _ _ _ Es).
Qed.

Lemma normalizar_escola_forma P :
  let P' := normalizar_variaveis P mapeamentos_censo_escola "escola" in
  indice P' = indice P /\
  (forall c, c ∈ nomes P -> c ∈ nomes P') /\
  (bem_formado P -> bem_formado P').
Proof.
  unfold normalizar_variaveis, renomear_colunas, derivar_variaveis.
  change (m_colunas mapeamentos_censo_escola) with (@None (list (string * string))).
  change (String.eqb "escola" "escola") with true. cbv beta iota zeta.
  match goal with
  | |- context [normalizar_valores ?v P] => set (valores := v)
  end.
  destruct (normalizar_valores_forma valores P) as (H1 & H2 & H3).
  destruct (indice_infraestrutura_forma (normalizar_valores valores P))
    as (H4 & H5 & H6).
  split; [congruence|]. split.
  - intros c Hc. apply H5. rewrite H2. exact Hc.
  - intros Hwf. apply H6, H3, Hwf.
Qed.

(** The school code is not a decoded column and not the derived index, so
    normalisation leaves it as it is. *)
Lemma normalizar_escola_chave P :
  procurar "CO_ENTIDADE"
    (colunas (normalizar_variaveis P mapeamentos_censo_escola "escola")) =
  procurar "CO_ENTIDADE" (colunas P).
Proof.
  unfold normalizar_variaveis, renomear_colunas, derivar_variaveis.
  change (m_colunas mapeamentos_censo_escola) with (@None (list (string * string))).
  change (String.eqb "escola" "escola") with true. cbv beta iota zeta.
  match goal with
  | |- context [normalizar_valores ?v P] => set (valores := v)
  end.
  assert (procurar "CO_ENTIDADE" (colunas (normalizar_valores valores P)) =
          procurar "CO_ENTIDADE" (colunas P)) as Hv.
  { rewrite normalizar_valores_alterar. cbn [colunas].
    apply procurar_traduzir_todas_fora. unfold valores. cbn.
    intros H. repeat (apply elem_of_cons in H as [H|H]; [discriminate H|]).
    inversion H. }
  destruct (indice_infraestrutura_casos (normalizar_valores valores P))
    as [->|(s & -> & _)]; [exact Hv|].
  cbn [colunas atribuir]. rewrite procurar_atribuir_outra by discriminate. exact Hv.
Qed.

(** The secondary sources of a school-level run can be joined many-to-one
    with a census aggregate whose school codes are [kp]: the SAEB school
    table carries the school code, and in it and in every indicator table
    that has the column the codes are unique and of a kind that can be
    joined with [kp]. *)
Definition fontes_escola_validas (fs : diretorio) (ano : Z) (kp : Series) : Prop :=
  (forall S, ler_csv fs (arquivo_saeb (ano_saeb ano) "escola") = Some S ->
     juntavel_com_chave "CO_ENTIDADE" kp (normalizar_codigo_escola S)) /\
  (forall tipo I, tipo ∈ tipos_indicadores ->
     ler_csv fs (arquivo_indicadores ano tipo) = Some I ->
     juntavel "CO_ENTIDADE" kp I).

Lemma integrar_escola_estende fs ano P kp :
  carregar_censo_escolar fs ano "escola" = Some P ->
  bem_formado P -> procurar "CO_ENTIDADE" (colunas P) = Some kp ->
  fontes_escola_validas fs ano kp ->
  exists D, integrar_dados_nivel_escola fs ano = Ok (Some D) /\
            estende (normalizar_variaveis P mapeamentos_censo_escola "escola") D.
Proof.
  intros HP Hwf Hkp [Hsaeb Hind]. unfold integrar_dados_nivel_escola. rewrite HP.
  destruct (normalizar_escola_forma P) as (Hi & Hn & Hb).
  pose proof (normalizar_escola_chave P) as HK. rewrite Hkp in HK.
  set (P' := normalizar_variaveis P mapeamentos_censo_escola "escola") in *.
  destruct (integrar_saeb_escola_estende (carregar_saeb fs (ano_saeb ano)) P' kp)
    as (D1 & HD1 & He1); [auto|auto| |].
  { intros S HS. apply Hsaeb. rewrite <- HS. symmetry.
    apply carregar_saeb_tipo. left. }
  rewrite HD1. cbn [ligar].
  destruct (integrar_indicadores_estende "CO_ENTIDADE" P' D1
              (carregar_indicadores_educacionais fs ano) kp)
    as (D2 & HD2 & He2); [auto|auto|exact He1| |].
  { intros itens tipo I Hit Hin. apply ou_none_Some in Hit. subst itens.
    apply carregar_tipos_elem in Hin as [Ht HI]. apply (Hind tipo I Ht HI). }
  rewrite HD2. cbn [ligar]. eauto.
Qed.

End Niveis.


(** ** Joins that keep the primary table *)

Section Conservacao.

(** [D] has the rows of [P] and starts with the columns of [P], cell for
    cell; a label that a joined table shares may have got the suffix [_x]. *)
Definition conserva (P D : DataFrame) : Prop :=
  indice D = indice P /\
  exists prim extras,
    colunas D = prim ++ extras /\ prim.*2 = (colunas P).*2 /\
    Forall (fun ns : string * Series => length ns.2 = indice P) extras.

(** No column labelled [c] holds a string. *)
Definition coluna_sem_texto (c : string) (l : list (string * Series)) : Prop :=
  forall s, (c, s) ∈ l -> tem_texto s = false.

(** The last character of a label. *)
Fixpoint ultimo (s : string) : option Ascii.ascii :=
  match s with
  | EmptyString => None
  | String a r => match r with
                  | EmptyString => Some a
                  | String _ _ => ultimo r
                  end
  end.

(** A label that is not the suffixed form ([_x], [_y]) of another label. *)
Definition sem_sufixo (c : string) : bool :=
  match ultimo c with
  | Some a => negb (String.eqb (String a EmptyString) "x") &&
              negb (String.eqb (String a EmptyString) "y")
  | None => true
  end.

(** The columns of a join: the left columns and the right columns, a label
    present on both sides suffixed. *)
Definition juntadas (P : DataFrame) (cols_d : list (string * Series))
  (idx : list (nat * option nat)) : list (string * Series) :=
  map (fun ns : string * Series =>
         ((if rotulo_comum P cols_d ns.1 then ns.1 +:+ "_x" else ns.1), ns.2))
      (colunas P) ++
  map (fun ns : string * Series =>
         ((if rotulo_comum P cols_d ns.1 then ns.1 +:+ "_y" else ns.1),
          tomar_direita idx ns.2)) cols_d.

Lemma conserva_refl P : conserva P P.
Proof.
  split; [reflexivity|]. exists (colunas P), []. rewrite app_nil_r.
  split; [reflexivity|]. split; [reflexivity|constructor].
Qed.

Lemma estende_conserva P D : estende P D -> conserva P D.
Proof.
  intros (Hi & extras & Hc & Hex). split; [exact Hi|].
  exists (colunas P), extras. auto.
Qed.

Lemma alturas_dados n (l r : list (string * Series)) :
  l.*2 = r.*2 ->
  Forall (fun ns : string * Series => length ns.2 = n) r ->
  Forall (fun ns : string * Series => length ns.2 = n) l.
Proof.
  intros Hd Hr.
  apply (proj1 (Forall_fmap snd (fun s : Series => length s = n) l)).
  rewrite Hd. apply (proj2 (Forall_fmap snd (fun s : Series => length s = n) r)).
  exact Hr.
Qed.

Lemma conserva_bem_formado P D : bem_formado P -> conserva P D -> bem_formado D.
Proof.
  intros Hwf (Hi & prim & extras & Hc & Hd & Hex). unfold bem_formado.
  rewrite Hc, Hi. apply Forall_app. split; [|exact Hex].
  apply (alturas_dados _ _ _ Hd Hwf).
Qed.

Lemma conserva_trans P D E : conserva P D -> conserva D E -> conserva P E.
Proof.
  intros (Hi & pd & xd & Hcd & Hdd & Hxd) (Hi' & pe & xe & Hce & Hde & Hxe).
  split; [congruence|].
  exists (take (length pd) pe), (drop (length pd) pe ++ xe).
  rewrite app_assoc, take_drop. split; [exact Hce|].
  rewrite Hcd, fmap_app in Hde. split.
  - rewrite fmap_take, Hde, <- (length_fmap snd pd), take_app_length. exact Hdd.
  - apply Forall_app. split; [|rewrite <- Hi; exact Hxe].
    apply (alturas_dados _ _ xd); [|exact Hxd].
    rewrite fmap_drop, Hde, <- (length_fmap snd pd), drop_app_length. reflexivity.
Qed.

(** The data of the primary columns, read off the result by position. *)
Lemma conserva_dados P D :
  conserva P D -> (take (length (colunas P)) (colunas D)).*2 = (colunas P).*2.
Proof.
  intros (_ & prim & extras & Hc & Hd & _). rewrite Hc.
  assert (length (colunas P) = length prim) as ->
    by (rewrite <- (length_fmap snd), <- Hd, length_fmap; reflexivity).
  rewrite take_app_length. exact Hd.
Qed.

Lemma ultimo_sufixo n s : s <> EmptyString -> ultimo (n +:+ s) = ultimo s.
Proof.
  intros Hs. induction n as [|b n IH]; [reflexivity|].
  change (String b n +:+ s) with (String b (n +:+ s)).
  change (ultimo (String b (n +:+ s)))
    with (match n +:+ s with
          | EmptyString => Some b
          | String _ _ => ultimo (n +:+ s)
          end).
  destruct (n +:+ s) eqn:E; [|exact IH].
  destruct n; [destruct (Hs E)|discriminate E].
Qed.

Lemma sem_sufixo_x c n : sem_sufixo c = true -> n +:+ "_x" <> c.
Proof.
  intros H <-. unfold sem_sufixo in H.
  rewrite ultimo_sufixo in H by discriminate. discriminate H.
Qed.

Lemma sem_sufixo_y c n : sem_sufixo c = true -> n +:+ "_y" <> c.
Proof.
  intros H <-. unfold sem_sufixo in H.
  rewrite ultimo_sufixo in H by discriminate. discriminate H.
Qed.

Lemma procurar_nenhum {A} c (l : list (string * A)) :
  c ∉ l.*1 -> procurar c l = None.
Proof.
  intros Hc. destruct (procurar c l) as [a|] eqn:E; [|reflexivity].
  exfalso. apply Hc, procurar_nomes. rewrite E. eauto.
Qed.

(** Looking up a label that relabelling leaves alone. *)
Lemma procurar_rerotulado {A} (f : string -> string) c (l : list (string * A)) :
  f c = c -> (forall n, f n = c -> n = c) ->
  procurar c (map (fun ns : string * A => (f ns.1, ns.2)) l) = procurar c l.
Proof.
  intros Hc Hf. induction l as [|[n a] l IH]; [reflexivity|]. cbn [map procurar fst snd].
  destruct (String.eqb n c) eqn:E.
  - apply String.eqb_eq in E as ->. rewrite Hc, String.eqb_refl. reflexivity.
  - apply String.eqb_neq in E. destruct (String.eqb (f n) c) eqn:E'; [|exact IH].
    apply String.eqb_eq in E'. destruct (E (Hf n E')).
Qed.

(** A label that the right table does not bring, and that is no suffixed
    form, names after the join the column it named before. *)
Lemma juntadas_estavel P cols_d idx c :
  c ∉ cols_d.*1 -> sem_sufixo c = true ->
  procurar c (juntadas P cols_d idx) = procurar c (colunas P).
Proof.
  intros Hc Hs. unfold juntadas.
  assert (rotulo_comum P cols_d c = false) as Hrc.
  { unfold rotulo_comum, esta_em. rewrite (bool_decide_eq_false_2 _ Hc).
    apply andb_false_r. }
  assert (procurar c
            (map (fun ns : string * Series =>
                    ((if rotulo_comum P cols_d ns.1 then ns.1 +:+ "_x" else ns.1),
                     ns.2)) (colunas P)) =
          procurar c (colunas P)) as Hl.
  { apply (procurar_rerotulado
             (fun n => if rotulo_comum P cols_d n then n +:+ "_x" else n)).
    - rewrite Hrc. reflexivity.
    - intros n. destruct (rotulo_comum P cols_d n); [|auto].
      intros H. destruct (sem_sufixo_x c n Hs H). }
  destruct (procurar c (colunas P)) as [s|] eqn:E.
  - rewrite procurar_app; [exact Hl|]. apply procurar_nomes. rewrite Hl. eauto.
  - rewrite procurar_app_r.
    + apply procurar_nenhum. rewrite <- list_fmap_compose. intros Hin.
      apply list_elem_of_fmap in Hin as ([m t] & Hm & Hin). cbn in Hm.
      destruct (rotulo_comum P cols_d m).
      * exact (sem_sufixo_y c m Hs (eq_sym Hm)).
      * subst m. apply Hc. apply (list_elem_of_fmap_2 fst _ _ Hin).
    + intros Hin. apply procurar_nomes in Hin as [s Hs']. congruence.
Qed.

Lemma tem_texto_tomar_esquerda idx (s : Series) :
  tem_texto s = false -> tem_texto (tomar_esquerda idx s) = false.
Proof.
  intros Hs. unfold tem_texto, tomar_esquerda.
  apply not_true_is_false. intros H. apply existsb_exists in H as (c & Hin & Hc).
  apply in_map_iff in Hin as ([i j] & <- & _). cbn in Hc.
  unfold tomar in Hc. destruct (s !! i) as [c'|] eqn:E; [|discriminate].
  cbn in Hc. assert (tem_texto s = true) as Habs; [|congruence].
  apply existsb_exists. exists c'. split; [|exact Hc].
  apply list_elem_of_In, (list_elem_of_lookup_2 _ _ _ E).
Qed.

Lemma juntadas_sem_texto P cols_d idx c :
  sem_sufixo c = true ->
  coluna_sem_texto c (colunas P) -> coluna_sem_texto c cols_d ->
  coluna_sem_texto c (juntadas P cols_d idx).
Proof.
  intros Hs HP Hd s Hin. unfold juntadas in Hin.
  apply elem_of_app in Hin as [Hin|Hin];
    apply list_elem_of_fmap in Hin as ([m t] & Heq & Hin); cbn in Heq.
  - destruct (rotulo_comum P cols_d m); injection Heq as Hm ->.
    + destruct (sem_sufixo_x c m Hs (eq_sym Hm)).
    + subst m. apply (HP t Hin).
  - destruct (rotulo_comum P cols_d m); injection Heq as Hm ->.
    + destruct (sem_sufixo_y c m Hs (eq_sym Hm)).
    + subst m. apply tem_texto_tomar_direita, (Hd t Hin).
Qed.

Lemma juntadas_conserva P cols_d idx :
  length idx = indice P ->
  conserva P (MkDataFrame (indice P) (juntadas P cols_d idx)).
Proof.
  intros Hl. split; [reflexivity|]. eexists _, _. split; [reflexivity|]. split.
  - rewrite <- list_fmap_compose. reflexivity.
  - apply List.Forall_map, Forall_forall. intros ns _. cbn.
    rewrite length_tomar_direita. exact Hl.
Qed.

(** A many-to-one join, by the columns it returns. *)
Lemma merge_left_juntadas P S kl kr kp ks :
  bem_formado P ->
  procurar kl (colunas P) = Some kp ->
  procurar kr (colunas S) = Some ks ->
  is_unique ks = true ->
  chaves_incompativeis kp ks = false ->
  merge_left P S kl kr =
  Ok (MkDataFrame (indice P)
        (juntadas P (colunas_direita S kl kr) (indexador_desde 0 kp ks))).
Proof. apply merge_left_unico. Qed.

Lemma coluna_sem_texto_atribuir c T s (l : list (string * Series)) :
  c <> T -> coluna_sem_texto c l -> coluna_sem_texto c (atribuir_colunas T s l).
Proof.
  intros Hne Hl t Hin. induction l as [|[n u] l IH]; cbn in Hin.
  - apply list_elem_of_singleton in Hin. congruence.
  - destruct (String.eqb n T) eqn:E.
    + apply String.eqb_eq in E as ->.
      apply elem_of_cons in Hin as [Hin|Hin]; [congruence|].
      apply (Hl t). right. exact Hin.
    + apply elem_of_cons in Hin as [Hin|Hin].
      * apply (Hl t). rewrite Hin. left.
      * apply IH; [|exact Hin]. intros t' Ht'. apply (Hl t'). right. exact Ht'.
Qed.

Lemma chave_fora_direita S K : K ∉ (colunas_direita S K K).*1.
Proof.
  unfold colunas_direita. rewrite String.eqb_refl. intros Hin.
  apply list_elem_of_fmap in Hin as ([n t] & Hn & Hin). cbn in Hn. subst n.
  apply list_elem_of_In, filter_In in Hin as [_ Hne]. cbn in Hne.
  rewrite String.eqb_refl in Hne. discriminate Hne.
Qed.

Lemma colunas_direita_sub S kl kr ns :
  ns ∈ colunas_direita S kl kr -> ns ∈ colunas S.
Proof.
  unfold colunas_direita. destruct (String.eqb kl kr); [|auto].
  intros Hin. apply list_elem_of_In, filter_In in Hin as [Hin _].
  apply list_elem_of_In, Hin.
Qed.

End Conservacao.

Section Municipio.

(** *** Group keys are unique *)

Lemma existsb_celula_Permutation k (l l' : Series) :
  l ≡ₚ l' -> existsb (celula_eqb k) l = existsb (celula_eqb k) l'.
Proof.
  induction 1 as [|x l l' _ IH|x y l|l l' l'' _ IH1 _ IH2]; simpl.
  - reflexivity.
  - rewrite IH. reflexivity.
  - destruct (celula_eqb k y), (celula_eqb k x); reflexivity.
  - congruence.
Qed.

Lemma is_unique_Permutation (l l' : Series) :
  l ≡ₚ l' -> is_unique l = is_unique l'.
Proof.
  induction 1 as [|x l l' Hp IH|x y l|l l' l'' _ IH1 _ IH2]; simpl.
  - reflexivity.
  - rewrite IH, (existsb_celula_Permutation x l l' Hp). reflexivity.
  - rewrite (celula_eqb_sym y x).
    destruct (celula_eqb x y), (existsb (celula_eqb x) l),
      (existsb (celula_eqb y) l); reflexivity.
  - congruence.
Qed.

Lemma is_unique_snoc (s : Series) k :
  is_unique s = true -> existsb (celula_eqb k) s = false ->
  is_unique (s ++ [k]) = true.
Proof.
  induction s as [|x s IH]; simpl; [reflexivity|].
  intros Hu Hk. apply andb_true_iff in Hu as [Hx Hu].
  apply orb_false_iff in Hk as [Hkx Hk].
  rewrite existsb_app, (IH Hu Hk). simpl.
  rewrite (celula_eqb_sym x k), Hkx.
  apply negb_true_iff in Hx. rewrite Hx. reflexivity.
Qed.

Lemma existsb_map_Some k (l : list valor) :
  existsb (celula_eqb (Some k)) (map Some l) = existsb (valor_eqb k) l.
Proof. induction l as [|x l IH]; simpl; [reflexivity|]. rewrite IH. reflexivity. Qed.

Lemma is_unique_primeiras (l : list valor) :
  is_unique (map Some (primeiras l)) = true.
Proof.
  unfold primeiras.
  assert (forall acc, is_unique (map Some acc) = true ->
            is_unique (map Some
              (fold_left (fun acc k =>
                 if existsb (valor_eqb k) acc then acc else acc ++ [k]) l acc)) = true)
    as H; [|apply H; reflexivity].
  induction l as [|k l IH]; intros acc Hacc; simpl; [exact Hacc|].
  apply IH. destruct (existsb (valor_eqb k) acc) eqn:E; [exact Hacc|].
  rewrite map_app. simpl. apply is_unique_snoc; [exact Hacc|].
  rewrite existsb_map_Some. exact E.
Qed.

Lemma inserir_ordenado_Permutation k l : inserir_ordenado k l ≡ₚ k :: l.
Proof.
  induction l as [|x l IH]; simpl; [reflexivity|].
  destruct (valor_leb k x); [reflexivity|].
  rewrite IH. apply Permutation_swap.
Qed.

Lemma ordenar_Permutation l : ordenar l ≡ₚ l.
Proof.
  induction l as [|x l IH]; simpl; [reflexivity|].
  rewrite inserir_ordenado_Permutation, IH. reflexivity.
Qed.

Lemma is_unique_chaves_dos_grupos (s : Series) :
  is_unique (map Some (chaves_dos_grupos s)) = true.
Proof.
  unfold chaves_dos_grupos.
  rewrite (is_unique_Permutation _ (map Some (primeiras (omap id s)))).
  - apply is_unique_primeiras.
  - apply Permutation_map, ordenar_Permutation.
Qed.

(** The first occurrences: an extension of the accumulator by keys of the
    column, after which every key of the column has a representative. *)
Lemma primeiras_acumulador (l acc : list valor) :
  exists ext,
    fold_left (fun acc k => if existsb (valor_eqb k) acc then acc else acc ++ [k])
      l acc = acc ++ ext /\
    (forall x, x ∈ ext -> x ∈ l) /\
    (forall x, x ∈ l -> existsb (valor_eqb x) (acc ++ ext) = true).
Proof.
  revert acc. induction l as [|k l IH]; intros acc; cbn [fold_left].
  - exists []. rewrite app_nil_r. split; [reflexivity|].
    split; intros x Hx; inversion Hx.
  - destruct (existsb (valor_eqb k) acc) eqn:E.
    + destruct (IH acc) as (ext & Hf & Hs & Hc). exists ext.
      split; [exact Hf|]. split.
      * intros x Hx. right. apply Hs, Hx.
      * intros x Hx. apply elem_of_cons in Hx as [->|Hx]; [|apply Hc, Hx].
        rewrite existsb_app, E. reflexivity.
    + destruct (IH (acc ++ [k])) as (ext & Hf & Hs & Hc). exists (k :: ext).
      replace (acc ++ k :: ext) with ((acc ++ [k]) ++ ext)
        by (rewrite <- app_assoc; reflexivity).
      split; [exact Hf|]. split.
      * intros x Hx. apply elem_of_cons in Hx as [->|Hx]; [left|right; apply Hs, Hx].
      * intros x Hx. apply elem_of_cons in Hx as [->|Hx]; [|apply Hc, Hx].
        rewrite !existsb_app. simpl. rewrite valor_eqb_refl.
        rewrite orb_true_r. reflexivity.
Qed.

Lemma chaves_dos_grupos_de_coluna ks g : g ∈ chaves_dos_grupos ks -> Some g ∈ ks.
Proof.
  unfold chaves_dos_grupos, primeiras. intros Hg.
  rewrite (ordenar_Permutation _) in Hg.
  destruct (primeiras_acumulador (omap id ks) []) as (ext & Hf & Hs & _).
  rewrite Hf in Hg. simpl in Hg. apply Hs in Hg.
  apply list_elem_of_omap in Hg as (c & Hc & Hcg). simpl in Hcg. subst c. exact Hc.
Qed.

(** *** The PNAD step never multiplies rows *)

Definition sem_texto (c : celula) : bool :=
  match c with
  | Some (Texto _) => false
  | _ => true
  end.

Lemma numerica_sem_texto (s : Series) :
  forallb sem_texto s = true -> exists x, numerica s = Ok x.
Proof.
  unfold numerica. induction s as [|c s IH]; simpl; [eauto|].
  intros H. apply andb_true_iff in H as [Hc Hs].
  destruct (IH Hs) as [x Hx]. rewrite Hx.
  destruct c as [[q|t]|]; simpl in *; try discriminate; eauto.
Qed.

Lemma sem_texto_celulas_do_grupo k (ks s : Series) :
  forallb sem_texto s = true -> forallb sem_texto (celulas_do_grupo k ks s) = true.
Proof.
  revert s. induction ks as [|c ks IH]; intros [|x s]; simpl; try reflexivity.
  intros H. apply andb_true_iff in H as [Hx Hs].
  destruct (celula_eqb c (Some k)); simpl; [rewrite Hx|]; apply IH, Hs.
Qed.

Lemma mapear_r_ok {A B} (f : A -> resultado B) (l : list A) :
  (forall a, a ∈ l -> exists b, f a = Ok b) -> exists bs, mapear_r f l = Ok bs.
Proof.
  induction l as [|a l IH]; intros H; simpl; [eauto|].
  destruct (H a) as [b Hb]; [left|]. rewrite Hb. cbn [ligar].
  destruct IH as [bs Hbs]; [intros a' Ha'; apply H; right; exact Ha'|].
  rewrite Hbs. cbn [ligar]. eauto.
Qed.

Lemma dtype_numerico_sem_texto s : dtype_numerico s = true -> forallb sem_texto s = true.
Proof. destruct s; [discriminate|]. intros H. exact H. Qed.

Lemma procurar_NoDup {A} (l : list (string * A)) n a :
  NoDup l.*1 -> (n, a) ∈ l -> procurar n l = Some a.
Proof.
  induction l as [|[m t] l IH]; simpl; [intros _ H; inversion H|].
  intros Hnd Hin. apply NoDup_cons in Hnd as [Hm Hnd].
  apply elem_of_cons in Hin as [[= -> ->]|Hin].
  - rewrite String.eqb_refl. reflexivity.
  - destruct (String.eqb m n) eqn:E; [|apply IH; assumption].
    apply String.eqb_eq in E as ->. destruct Hm.
    apply (list_elem_of_fmap_2 fst _ _ Hin).
Qed.

Lemma groupby_medias_ok df chave ks spec :
  procurar chave (colunas df) = Some ks ->
  (forall co, co ∈ spec ->
     co.2 = Mean /\
     exists s, procurar co.1 (colunas df) = Some s /\ forallb sem_texto s = true) ->
  exists cols,
    groupby_agg df chave spec =
    Ok (MkDataFrame (length (chaves_dos_grupos ks))
          ((chave, map Some (chaves_dos_grupos ks)) :: cols)).
Proof.
  intros Hks Hspec. unfold groupby_agg, obter. rewrite Hks. cbn [ligar].
  match goal with
  | |- context [mapear_r ?f spec] => destruct (mapear_r_ok f spec) as [cols Hcols]
  end.
  - intros [c op] Hin. destruct (Hspec _ Hin) as (Hop & s & Hs & Hnt).
    simpl in *. subst op. rewrite Hs. cbn [ligar].
    match goal with
    | |- context [mapear_r ?g ?l] => destruct (mapear_r_ok g l) as [r Hr]
    end.
    + intros k _. unfold agregar.
      destruct (numerica_sem_texto _ (sem_texto_celulas_do_grupo k ks s Hnt))
        as [x Hx].
      rewrite Hx. cbn [ligar]. eauto.
    + rewrite Hr. cbn [ligar]. eauto.
  - rewrite Hcols. cbn [ligar]. eauto.
Qed.

Lemma renomear_pnad_cabeca (cols : list string) n s rest :
  exists rest',
    colunas (fold_left (fun df col =>
                          if String.eqb col "UF" then df
                          else renomear [(col, "PNAD_" +:+ col)] df)
               cols (MkDataFrame n (("UF", s) :: rest))) = ("UF", s) :: rest'.
Proof.
  revert rest. induction cols as [|col cols IH]; intros rest; simpl; [eauto|].
  destruct (String.eqb col "UF") eqn:E; [apply IH|].
  unfold renomear. cbn [colunas indice map procurar fst snd].
  rewrite E. simpl. apply IH.
Qed.

(** The keys of the groups hold no string when the column holds none. *)
Lemma chaves_dos_grupos_sem_texto (uf : Series) :
  tem_texto uf = false -> tem_texto (map Some (chaves_dos_grupos uf)) = false.
Proof.
  intros Hu. apply not_true_is_false. intros H. unfold tem_texto in H.
  apply existsb_exists in H as (c & Hin & Hc).
  apply in_map_iff in Hin as (g & <- & Hg).
  apply list_elem_of_In, chaves_dos_grupos_de_coluna in Hg.
  assert (tem_texto uf = true) as Habs; [|congruence].
  apply existsb_exists. exists (Some g). split; [apply list_elem_of_In, Hg|exact Hc].
Qed.

(** Dropping the right key column of the PNAD join touches no column of the
    accumulated table. *)
Lemma drop_uf_juntadas D cols_d idx :
  "UF" ∈ cols_d.*1 ->
  List.filter (fun ns : string * Series => negb (String.eqb ns.1 "UF"))
    (juntadas D cols_d idx) =
  map (fun ns : string * Series =>
         ((if rotulo_comum D cols_d ns.1 then ns.1 +:+ "_x" else ns.1), ns.2))
      (colunas D) ++
  List.filter (fun ns : string * Series => negb (String.eqb ns.1 "UF"))
    (map (fun ns : string * Series =>
            ((if rotulo_comum D cols_d ns.1 then ns.1 +:+ "_y" else ns.1),
             tomar_direita idx ns.2)) cols_d).
Proof.
  intros HUF. unfold juntadas. rewrite List.filter_app. f_equal.
  assert (forall l : list (string * Series),
            (forall ns, ns ∈ l -> ns.1 ∈ nomes D) ->
            List.filter (fun ns : string * Series => negb (String.eqb ns.1 "UF"))
              (map (fun ns : string * Series =>
                      ((if rotulo_comum D cols_d ns.1 then ns.1 +:+ "_x" else ns.1),
                       ns.2)) l) =
            map (fun ns : string * Series =>
                   ((if rotulo_comum D cols_d ns.1 then ns.1 +:+ "_x" else ns.1),
                    ns.2)) l) as H.
  { induction l as [|[n t] l IH]; intros Hl; [reflexivity|]. cbn [map List.filter fst snd].
    rewrite IH by (intros ns Hns; apply Hl; right; exact Hns).
    replace (String.eqb (if rotulo_comum D cols_d n then n +:+ "_x" else n) "UF")
      with false; [reflexivity|].
    symmetry. apply String.eqb_neq.
    destruct (rotulo_comum D cols_d n) eqn:E.
    - apply sem_sufixo_x. reflexivity.
    - intros ->. unfold rotulo_comum, esta_em in E.
      rewrite (bool_decide_eq_true_2 _ HUF), andb_true_r in E.
      apply bool_decide_eq_false in E. apply E. apply (Hl ("UF", t)). left. }
  apply H. intros ns Hns. apply (list_elem_of_fmap_2 fst _ _ Hns).
Qed.

(** The PNAD step keeps the accumulated table when the state codes on both
    sides are numbers. *)
Lemma integrar_pnad_conserva df_pnad D :
  bem_formado D ->
  (forall S, df_pnad = Some S ->
     NoDup (nomes S) /\
     forall uf, procurar "UF" (colunas S) = Some uf -> tem_texto uf = false) ->
  coluna_sem_texto "CO_UF" (colunas D) ->
  exists D', integrar_pnad df_pnad D = Ok D' /\ conserva D D'.
Proof.
  intros Hwf Hnd Hco. unfold integrar_pnad.
  destruct df_pnad as [S|]; [|exists D; split; [reflexivity|apply conserva_refl]].
  destruct (Hnd S eq_refl) as [Hnd' Huf]. clear Hnd.
  destruct (tem_coluna "UF" S) eqn:EUF;
    [|exists D; split; [reflexivity|apply conserva_refl]].
  set (spec := map _ (List.filter _ (colunas S))).
  destruct spec as [|co spec'] eqn:Espec;
    [exists D; split; [reflexivity|apply conserva_refl]|].
  rewrite <- Espec.
  apply bool_decide_eq_true, procurar_nomes in EUF as [ks Hks].
  destruct (groupby_medias_ok S "UF" ks spec Hks) as [cols Hagg].
  { intros [c op] Hin. unfold spec in Hin.
    apply list_elem_of_In, in_map_iff in Hin as ([n s] & [= <- <-] & Hin).
    apply filter_In in Hin as [Hin Hp]. simpl in Hp.
    apply andb_true_iff in Hp as [_ Hnum].
    split; [reflexivity|]. exists s. split.
    - apply procurar_NoDup; [exact Hnd'|apply list_elem_of_In, Hin].
    - apply dtype_numerico_sem_texto, Hnum. }
  rewrite Hagg. cbn [ligar].
  destruct (tem_coluna "CO_UF" D) eqn:ECO;
    [|exists D; split; [reflexivity|apply conserva_refl]].
  apply bool_decide_eq_true, procurar_nomes in ECO as [kd Hkd].
  match goal with
  | |- context [merge_left D ?pnad "CO_UF" "UF"] => set (pnad_por_uf := pnad)
  end.
  destruct (renomear_pnad_cabeca
              (nomes (MkDataFrame (length (chaves_dos_grupos ks))
                        (("UF", map Some (chaves_dos_grupos ks)) :: cols)))
              (length (chaves_dos_grupos ks)) (map Some (chaves_dos_grupos ks)) cols)
    as [rest' Hrest].
  assert (procurar "UF" (colunas pnad_por_uf) = Some (map Some (chaves_dos_grupos ks)))
    as Hpk.
  { unfold pnad_por_uf. rewrite Hrest. reflexivity. }
  assert (chaves_incompativeis kd (map Some (chaves_dos_grupos ks)) = false) as Hcomp.
  { apply sem_texto_compativeis.
    - apply (Hco kd), procurar_elem, Hkd.
    - apply chaves_dos_grupos_sem_texto, (Huf ks Hks). }
  rewrite (merge_left_juntadas D pnad_por_uf "CO_UF" "UF" kd _ Hwf Hkd Hpk
             (is_unique_chaves_dos_grupos ks) Hcomp).
  cbn [ligar].
  change (colunas_direita pnad_por_uf "CO_UF" "UF") with (colunas pnad_por_uf).
  set (idx := indexador_desde 0 kd (map Some (chaves_dos_grupos ks))).
  assert (length idx = indice D) as Hidx.
  { unfold idx. rewrite (indexador_unico_length _ _ (is_unique_chaves_dos_grupos ks)).
    apply (bem_formado_procurar _ _ _ Hwf Hkd). }
  eexists. split; [reflexivity|].
  match goal with |- context [if ?b then _ else _] => destruct b end;
    [|apply juntadas_conserva, Hidx].
  unfold drop_coluna. cbn [indice colunas].
  rewrite drop_uf_juntadas
    by (apply procurar_nomes; rewrite Hpk; eauto).
  split; [reflexivity|]. eexists _, _. split; [reflexivity|]. split.
  - rewrite <- list_fmap_compose. reflexivity.
  - apply Forall_forall. intros ns Hin.
    apply list_elem_of_In, filter_In in Hin as [Hin _].
    apply in_map_iff in Hin as (ns' & <- & _). cbn.
    rewrite length_tomar_direita. exact Hidx.
Qed.
(** *** The municipality-level run *)

Lemma length_series_map d s : length (series_map d s) = length s.
Proof. unfold series_map. apply length_map. Qed.

Lemma normalizar_municipio_forma P :
  let P' := normalizar_variaveis P (MkMapeamentos None None) "municipio" in
  indice P' = indice P /\
  (forall c, c ∈ nomes P -> c ∈ nomes P') /\
  (bem_formado P -> bem_formado P').
Proof.
  unfold normalizar_variaveis, renomear_colunas, derivar_variaveis.
  cbn [m_colunas m_valores]. unfold normalizar_valores. cbn [default fold_left].
  change (String.eqb "municipio" "escola") with false.
  change (String.eqb "municipio" "municipio") with true. cbv beta iota zeta.
  unfold derivar_regiao.
  destruct (procurar "CO_UF" (colunas P)) as [s|] eqn:E; [|auto].
  split; [reflexivity|]. split.
  - intros c Hc. apply nomes_atribuir, Hc.
  - intros Hwf. apply alturas_atribuir; [|exact Hwf].
    rewrite length_series_map. apply (bem_formado_procurar _ _ _ Hwf E).
Qed.

Lemma normalizar_municipio_chave P c :
  c <> "REGIAO" ->
  procurar c (colunas (normalizar_variaveis P (MkMapeamentos None None) "municipio")) =
  procurar c (colunas P).
Proof.
  intros Hne. unfold normalizar_variaveis, renomear_colunas, derivar_variaveis.
  cbn [m_colunas m_valores]. unfold normalizar_valores. cbn [default fold_left].
  change (String.eqb "municipio" "escola") with false.
  change (String.eqb "municipio" "municipio") with true. cbv beta iota zeta.
  unfold derivar_regiao.
  destruct (procurar "CO_UF" (colunas P)) as [s|]; [|reflexivity].
  cbn [colunas atribuir]. apply procurar_atribuir_outra, Hne.
Qed.

Lemma normalizar_municipio_sem_texto P :
  coluna_sem_texto "CO_UF" (colunas P) ->
  coluna_sem_texto "CO_UF"
    (colunas (normalizar_variaveis P (MkMapeamentos None None) "municipio")).
Proof.
  intros H. unfold normalizar_variaveis, renomear_colunas, derivar_variaveis.
  cbn [m_colunas m_valores]. unfold normalizar_valores. cbn [default fold_left].
  change (String.eqb "municipio" "escola") with false.
  change (String.eqb "municipio" "municipio") with true. cbv beta iota zeta.
  unfold derivar_regiao.
  destruct (procurar "CO_UF" (colunas P)) as [s|]; [|exact H].
  cbn [colunas atribuir]. apply coluna_sem_texto_atribuir; [discriminate|exact H].
Qed.

Lemma merge_on_unico_forma P S K kp ks :
  bem_formado P -> procurar K (colunas P) = Some kp ->
  procurar K (colunas S) = Some ks -> is_unique ks = true ->
  chaves_incompativeis kp ks = false ->
  exists D, merge_on P S K = Ok D /\
            indice D = indice P /\ bem_formado D /\ K ∈ nomes D.
Proof.
  intros Hwf Hkp Hks Hu Hcomp.
  assert (K ∈ nomes P) as HK by (apply procurar_nomes; rewrite Hkp; eauto).
  unfold merge_on. rewrite (merge_left_unico P S K K kp ks Hwf Hkp Hks Hu Hcomp).
  eexists. split; [reflexivity|]. split; [reflexivity|]. split.
  - unfold bem_formado. cbn [colunas indice]. apply Forall_app. split.
    + apply Forall_forall. intros [n s] Hin.
      apply list_elem_of_In, in_map_iff in Hin as ([n' s'] & [= <- <-] & Hin).
      simpl. unfold bem_formado in Hwf. rewrite Forall_forall in Hwf.
      apply (Hwf (n', s')), list_elem_of_In, Hin.
    + apply Forall_forall. intros [n s] Hin.
      apply list_elem_of_In, in_map_iff in Hin as ([n' s'] & [= <- <-] & _).
      simpl. rewrite length_tomar_direita, (indexador_unico_length kp ks Hu).
      apply (bem_formado_procurar _ _ _ Hwf Hkp).
  - unfold nomes. cbn [colunas]. rewrite fmap_app. apply elem_of_app. left.
    apply list_elem_of_fmap in HK as ([n s] & -> & Hin).
    apply list_elem_of_fmap. eexists (_, s). split; [|
      apply list_elem_of_In, in_map_iff; exists (n, s); split;
        [reflexivity|apply list_elem_of_In, Hin]].
    simpl. unfold rotulo_comum, colunas_direita. rewrite String.eqb_refl.
    replace (esta_em n _.*1) with false; [rewrite andb_false_r; reflexivity|].
    symmetry. apply bool_decide_eq_false. intros Hn.
    apply list_elem_of_fmap in Hn as ([m t] & Hm & Hin'). simpl in Hm. subst m.
    apply list_elem_of_In, filter_In in Hin' as [_ Hne]. simpl in Hne.
    rewrite String.eqb_refl in Hne. discriminate.
Qed.

Lemma socioeconomico_diretorio to_csv rng (fs : diretorio) f :
  f <> arquivo_socioeconomico ->
  ler_csv (carregar_dados_socioeconomicos to_csv rng fs).2 f = ler_csv fs f.
Proof.
  intros Hne. unfold carregar_dados_socioeconomicos.
  destruct (fs !! arquivo_socioeconomico) as [[df|]|]; try reflexivity.
  simpl. unfold ler_csv. rewrite lookup_insert_ne by congruence. reflexivity.
Qed.

(** One iteration of the indicator loop brings no string into the columns
    labelled [c] when the indicator table has none there. *)
Lemma integrar_indicador_sem_texto K c X I X' :
  coluna_sem_texto c (colunas I) ->
  coluna_sem_texto c (colunas X) ->
  integrar_indicador K X I = Ok X' ->
  coluna_sem_texto c (colunas X').
Proof.
  intros HI HX. unfold integrar_indicador.
  destruct (tem_coluna K I); [|intros [= <-]; exact HX].
  destruct (Nat.ltb 1 (length (colunas_novas K I X))); [|intros [= <-]; exact HX].
  intros H. destruct (merge_filtrado_inv K X I X' H) as (kd & ks & Hkd & Hks & Hc).
  rewrite (merge_filtrado_forma K X I kd ks Hkd Hks), Hc in H. injection H as <-.
  cbn [colunas]. intros s Hin. apply elem_of_app in Hin as [Hin|Hin];
    apply list_elem_of_fmap in Hin as (x & Heq & Hin).
  - destruct x as [n t]. injection Heq as -> ->.
    apply tem_texto_tomar_esquerda, (HX t Hin).
  - injection Heq as <- ->. apply tem_texto_tomar_direita.
    destruct (procurar c (colunas I)) as [t|] eqn:E; [|reflexivity].
    apply (HI t), procurar_elem, E.
Qed.

(** The secondary sources of a municipality-level run can be joined
    many-to-one with a census aggregate whose municipality codes are [kp]:
    the socioeconomic table carries the municipality code; in it and in
    every indicator table that has the column the codes are unique and of a
    kind that can be joined with [kp]; and the state codes the PNAD step
    joins on ([CO_UF] on the left, [UF] in the PNAD table) are numbers. *)
Definition fontes_municipio_validas (to_csv : escrita) (rng : sorteios)
  (fs : diretorio) (ano : Z) (kp : Series) : Prop :=
  (forall S, (carregar_dados_socioeconomicos to_csv rng fs).1 = Some S ->
     juntavel_com_chave "CO_MUNICIPIO" kp S /\
     coluna_sem_texto "CO_UF" (colunas S)) /\
  (forall tipo I, tipo ∈ tipos_indicadores ->
     ler_csv fs (arquivo_indicadores ano tipo) = Some I ->
     juntavel "CO_MUNICIPIO" kp I /\ coluna_sem_texto "CO_UF" (colunas I)) /\
  (forall S, ler_csv fs (arquivo_pnad ano) = Some S ->
     NoDup (nomes S) /\
     forall uf, procurar "UF" (colunas S) = Some uf -> tem_texto uf = false).

(** The first step of the municipality level: the join with the
    socioeconomic table. *)
Lemma integrar_socio_conserva P S kp :
  bem_formado P -> procurar "CO_MUNICIPIO" (colunas P) = Some kp ->
  coluna_sem_texto "CO_UF" (colunas P) ->
  juntavel_com_chave "CO_MUNICIPIO" kp S -> coluna_sem_texto "CO_UF" (colunas S) ->
  exists ks D,
    procurar "CO_MUNICIPIO" (colunas S) = Some ks /\
    D = MkDataFrame (indice P)
          (juntadas P (colunas_direita S "CO_MUNICIPIO" "CO_MUNICIPIO")
             (indexador_desde 0 kp ks)) /\
    merge_on P S "CO_MUNICIPIO" = Ok D /\
    conserva P D /\
    procurar "CO_MUNICIPIO" (colunas D) = Some kp /\
    coluna_sem_texto "CO_UF" (colunas D).
Proof.
  intros Hwf Hkp HcoP (ks & Hks & Hu & Hcomp) HcoS.
  exists ks. eexists. split; [exact Hks|]. split; [reflexivity|].
  split; [apply (merge_left_juntadas P S _ _ kp ks); assumption|].
  split; [|split].
  - apply juntadas_conserva. rewrite (indexador_unico_length _ _ Hu).
    apply (bem_formado_procurar _ _ _ Hwf Hkp).
  - cbn [colunas].
    rewrite juntadas_estavel; [exact Hkp|apply chave_fora_direita|reflexivity].
  - cbn [colunas]. apply juntadas_sem_texto; [reflexivity|exact HcoP|].
    intros t Hin. apply (HcoS t), (colunas_direita_sub _ _ _ _ Hin).
Qed.

(** The municipality-level run over sources that can be joined many-to-one
    returns, and what it returns starts with the normalised census table. *)
Lemma integrar_municipio_conserva to_csv rng fs ano P kp :
  carregar_censo_escolar fs ano "municipio" = Some P ->
  bem_formado P -> procurar "CO_MUNICIPIO" (colunas P) = Some kp ->
  coluna_sem_texto "CO_UF" (colunas P) ->
  fontes_municipio_validas to_csv rng fs ano kp ->
  exists D, (integrar_dados_nivel_municipio to_csv rng fs ano).1 = Ok (Some D) /\
            conserva (normalizar_variaveis P (MkMapeamentos None None) "municipio") D.
Proof.
  intros HP Hwf Hkp Hco (Hsoc & Hind & Hpnad).
  unfold integrar_dados_nivel_municipio. rewrite HP.
  destruct (normalizar_municipio_forma P) as (Hi & Hn & Hb).
  pose proof (normalizar_municipio_chave P "CO_MUNICIPIO" ltac:(discriminate)) as HK.
  rewrite Hkp in HK.
  pose proof (normalizar_municipio_sem_texto P Hco) as Hco'.
  set (P' := normalizar_variaveis P (MkMapeamentos None None) "municipio") in *.
  pose proof (socioeconomico_diretorio to_csv rng fs) as Hfs.
  destruct (carregar_dados_socioeconomicos to_csv rng fs) as [df_socio fs1].
  simpl in Hsoc, Hfs. cbn [fst].
  assert (exists D1, match df_socio with
                     | Some df_socio => merge_on P' df_socio "CO_MUNICIPIO"
                     | None => Ok P'
                     end = Ok D1 /\ conserva P' D1 /\
                     procurar "CO_MUNICIPIO" (colunas D1) = Some kp /\
                     coluna_sem_texto "CO_UF" (colunas D1))
    as (D1 & HD1 & Hc1 & HK1 & Hco1).
  { destruct df_socio as [S|];
      [|exists P'; split; [reflexivity|split; [apply conserva_refl|auto]]].
    destruct (Hsoc S eq_refl) as [Hj HcoS].
    destruct (integrar_socio_conserva P' S kp (Hb Hwf) HK Hco' Hj HcoS)
      as (ks & D & _ & _ & HD & H1 & H2 & H3).
    exists D. auto. }
  rewrite HD1. cbn [ligar].
  pose proof (conserva_bem_formado P' D1 (Hb Hwf) Hc1) as Hb1.
  assert (forall itens tipo I,
            carregar_indicadores_educacionais fs1 ano = Some itens ->
            (tipo, I) ∈ itens ->
            juntavel "CO_MUNICIPIO" kp I /\ coluna_sem_texto "CO_UF" (colunas I))
    as Hitens.
  { intros itens tipo I Hit Hin. apply ou_none_Some in Hit. subst itens.
    apply carregar_tipos_elem in Hin as [Ht HI]. apply (Hind tipo I Ht).
    rewrite <- HI. symmetry. apply Hfs. discriminate. }
  destruct (integrar_indicadores_estende "CO_MUNICIPIO" D1 D1
              (carregar_indicadores_educacionais fs1 ano) kp)
    as (D2 & HD2 & He2); [exact Hb1|exact HK1|apply estende_refl| |].
  { intros itens tipo I Hit Hin. apply (Hitens itens tipo I Hit Hin). }
  assert (coluna_sem_texto "CO_UF" (colunas D2)) as Hco2.
  { refine (integrar_indicadores_invariante "CO_MUNICIPIO"
              (fun X => coluna_sem_texto "CO_UF" (colunas X)) _ D1 D2 _ Hco1 HD2).
    intros X tipo I X' itens Hit Hin HX HX'.
    apply (integrar_indicador_sem_texto _ _ _ _ _
             (proj2 (Hitens itens tipo I Hit Hin)) HX HX'). }
  rewrite HD2. cbn [ligar].
  destruct (integrar_pnad_conserva (carregar_pnad fs1 ano) D2) as (D3 & HD3 & Hc3).
  { apply (estende_bem_formado D1); assumption. }
  { intros S HS. apply Hpnad. rewrite <- HS. symmetry. apply Hfs. discriminate. }
  { exact Hco2. }
  rewrite HD3. cbn [ligar]. exists D3. split; [reflexivity|].
  apply (conserva_trans P' D1); [exact Hc1|].
  apply (conserva_trans D1 D2); [apply estende_conserva, He2|exact Hc3].
Qed.

Lemma integrar_municipio_linhas to_csv rng fs ano P kp :
  carregar_censo_escolar fs ano "municipio" = Some P ->
  bem_formado P -> procurar "CO_MUNICIPIO" (colunas P) = Some kp ->
  coluna_sem_texto "CO_UF" (colunas P) ->
  fontes_municipio_validas to_csv rng fs ano kp ->
  exists D, (integrar_dados_nivel_municipio to_csv rng fs ano).1 = Ok (Some D) /\
            indice D = indice P.
Proof.
  intros HP Hwf Hkp Hco Hval.
  destruct (integrar_municipio_conserva to_csv rng fs ano P kp HP Hwf Hkp Hco Hval)
    as (D & HD & Hi & _).
  exists D. split; [exact HD|]. rewrite Hi. apply normalizar_municipio_forma.
Qed.

End Municipio.

(** ** The shape of a normalised table *)

Section FormaNormalizada.

Lemma length_atribuir_colunas T s (l : list (string * Series)) :
  length l <= length (atribuir_colunas T s l) <= S (length l).
Proof.
  induction l as [|[n t] l IH]; simpl; [lia|].
  destruct (String.eqb n T); simpl; lia.
Qed.

Lemma renomear_colunas_forma mp df :
  indice (renomear_colunas mp df) = indice df /\
  length (colunas (renomear_colunas mp df)) = length (colunas df) /\
  (bem_formado df -> bem_formado (renomear_colunas mp df)).
Proof.
  unfold renomear_colunas. destruct (m_colunas mp) as [d|]; [|auto].
  destruct (List.filter _ d) as [|p ps]; [auto|].
  unfold renomear, bem_formado. cbn [indice colunas].
  split; [reflexivity|]. split; [apply length_map|].
  intros H. apply List.Forall_map. eapply Forall_impl; [exact H|].
  intros [n s]. simpl. auto.
Qed.

Lemma derivar_regiao_forma df :
  indice (derivar_regiao df) = indice df /\
  length (colunas df) <= length (colunas (derivar_regiao df)) <= S (length (colunas df)) /\
  (bem_formado df -> bem_formado (derivar_regiao df)).
Proof.
  unfold derivar_regiao.
  destruct (procurar "CO_UF" (colunas df)) as [s|] eqn:E; [|split; [|split]; auto; lia].
  split; [reflexivity|]. split; [apply length_atribuir_colunas|].
  intros Hwf. apply alturas_atribuir; [|exact Hwf].
  rewrite length_series_map. apply (bem_formado_procurar _ _ _ Hwf E).
Qed.

Lemma indice_infraestrutura_colunas df :
  length (colunas df) <= length (colunas (indice_infraestrutura df))
    <= S (length (colunas df)).
Proof.
  unfold indice_infraestrutura.
  destruct (List.filter _ (nomes df)) as [|c cols]; [lia|].
  destruct (seja sub <- selecionar (c :: cols) df em media_por_linha sub);
    [apply length_atribuir_colunas|lia].
Qed.

Lemma derivar_variaveis_forma nivel df :
  indice (derivar_variaveis nivel df) = indice df /\
  length (colunas df) <= length (colunas (derivar_variaveis nivel df))
    <= S (length (colunas df)) /\
  (bem_formado df -> bem_formado (derivar_variaveis nivel df)).
Proof.
  unfold derivar_variaveis. destruct (String.eqb nivel "escola").
  - destruct (indice_infraestrutura_forma df) as (H1 & _ & H3).
    split; [exact H1|]. split; [apply indice_infraestrutura_colunas|exact H3].
  - destruct (String.eqb nivel "municipio"); [apply derivar_regiao_forma|].
    split; [|split]; auto; lia.
Qed.

(** Normalisation never changes the number of rows and keeps every column
    as high as the index. *)
Lemma normalizar_forma df mp nivel :
  indice (normalizar_variaveis df mp nivel) = indice df /\
  length (colunas df) <= length (colunas (normalizar_variaveis df mp nivel))
    <= S (length (colunas df)) /\
  (bem_formado df -> bem_formado (normalizar_variaveis df mp nivel)).
Proof.
  unfold normalizar_variaveis.
  destruct (renomear_colunas_forma mp df) as (H1 & H2 & H3).
  destruct (normalizar_valores_forma (default [] (m_valores mp))
              (renomear_colunas mp df)) as (H4 & H5 & H6).
  destruct (derivar_variaveis_forma nivel
              (normalizar_valores (default [] (m_valores mp))
                 (renomear_colunas mp df))) as (H7 & H8 & H9).
  assert (length (colunas (normalizar_valores (default [] (m_valores mp))
                             (renomear_colunas mp df))) = length (colunas df)) as HL.
  { rewrite <- H2. rewrite <- (length_fmap fst), <- (length_fmap fst (colunas _)).
    unfold nomes in H5. rewrite H5. reflexivity. }
  split; [congruence|]. split; [lia|]. auto.
Qed.

End FormaNormalizada.

(** ** The school-level and the student-level runs on arbitrary sources *)

Section NiveisGerais.

Lemma nomes_renomear d df :
  nomes (renomear d df) = map (fun n => default n (procurar n d)) (nomes df).
Proof.
  unfold nomes, renomear. cbn [colunas].
  induction (colunas df) as [|[n s] l IH]; [reflexivity|].
  cbn [map fmap list_fmap fst]. f_equal. exact IH.
Qed.

(** After the normalisation of the school code a SAEB table that came with
    [CO_ENTIDADE] or with [ID_ESCOLA] has the column [CO_ENTIDADE]. *)
Lemma normalizar_codigo_escola_chave S :
  "CO_ENTIDADE" ∈ nomes S \/ "ID_ESCOLA" ∈ nomes S ->
  "CO_ENTIDADE" ∈ nomes (normalizar_codigo_escola S).
Proof.
  intros H. unfold normalizar_codigo_escola.
  destruct (tem_coluna "CO_ENTIDADE" S) eqn:E1.
  - apply bool_decide_eq_true in E1. exact E1.
  - destruct H as [H|H].
    + apply bool_decide_eq_false in E1. contradiction.
    + replace (tem_coluna "ID_ESCOLA" S) with true
        by (symmetry; apply bool_decide_eq_true, H).
      cbn [negb andb]. rewrite nomes_renomear.
      apply list_elem_of_In, in_map_iff. exists "ID_ESCOLA".
      split; [reflexivity|apply list_elem_of_In, H].
Qed.

Lemma integrar_saeb_escola_casos dados P D :
  integrar_saeb_escola dados P = Ok D ->
  D = P \/
  exists S, "CO_ENTIDADE" ∈ nomes P /\ bem_formado D /\
    (bem_formado P -> indice P <= indice D) /\
    nomes D =
      nomes P ++ List.filter (fun c => negb (String.eqb c "CO_ENTIDADE"))
                   (colunas_novas "CO_ENTIDADE" S P).
Proof.
  unfold integrar_saeb_escola.
  destruct (dados ≫= procurar "escola") as [S|]; [|intros [= <-]; left; reflexivity].
  destruct (colunas_novas "CO_ENTIDADE" (normalizar_codigo_escola S) P) eqn:E;
    [intros [= <-]; left; reflexivity|].
  rewrite <- E. intros H. right. exists (normalizar_codigo_escola S).
  destruct (merge_filtrado_inv _ _ _ _ H) as (kd & ks & Hkd & Hks & Hc).
  rewrite (merge_filtrado_forma _ _ _ kd ks Hkd Hks), Hc in H. injection H as <-.
  split; [apply procurar_nomes; rewrite Hkd; eauto|].
  split; [apply merge_filtrado_bem_formado|]. split.
  - intros Hwf. cbn [indice]. rewrite <- (bem_formado_procurar _ _ _ Hwf Hkd).
    apply indexador_minimo.
  - apply merge_filtrado_nomes.
Qed.

Lemma integrar_saeb_escola_excecao dados P e :
  integrar_saeb_escola dados P = Raise e ->
  e = KeyError "CO_ENTIDADE" \/ e = ValueError.
Proof.
  unfold integrar_saeb_escola.
  destruct (dados ≫= procurar "escola") as [S|]; [|discriminate].
  destruct (colunas_novas "CO_ENTIDADE" (normalizar_codigo_escola S) P) eqn:E;
    [discriminate|].
  rewrite <- E. apply merge_filtrado_excecao.
Qed.

(** The SAEB step returns when both tables have the school code, of kinds
    that can be joined; the school codes of the result are of the kind they
    were. *)
Lemma integrar_saeb_escola_ok dados P kd :
  procurar "CO_ENTIDADE" (colunas P) = Some kd ->
  (forall S, dados ≫= procurar "escola" = Some S ->
     exists ks, procurar "CO_ENTIDADE" (colunas (normalizar_codigo_escola S)) = Some ks /\
                chaves_incompativeis kd ks = false) ->
  exists D kd',
    integrar_saeb_escola dados P = Ok D /\
    procurar "CO_ENTIDADE" (colunas D) = Some kd' /\ mesma_especie kd' kd.
Proof.
  intros Hkd HS. unfold integrar_saeb_escola.
  destruct (dados ≫= procurar "escola") as [S|];
    [|exists P, kd; split; [reflexivity|split; [exact Hkd|intros ks; reflexivity]]].
  destruct (HS S eq_refl) as (ks & Hks & Hc).
  destruct (colunas_novas "CO_ENTIDADE" (normalizar_codigo_escola S) P) eqn:E;
    [exists P, kd; split; [reflexivity|split; [exact Hkd|intros ks'; reflexivity]]|].
  rewrite <- E. rewrite (merge_filtrado_forma _ _ _ kd ks Hkd Hks), Hc.
  eexists _, _. split; [reflexivity|]. cbn [colunas]. split.
  - rewrite procurar_app.
    + rewrite (procurar_map_snd (tomar_esquerda (indexador_desde 0 kd ks))), Hkd.
      reflexivity.
    + rewrite <- list_fmap_compose. apply procurar_nomes. rewrite Hkd. eauto.
  - intros ks'. apply chaves_incompativeis_esquerda.
Qed.

(** *** The steps of the student-level run keep the rows *)

Lemma obter_inv c df s : obter c df = Ok s -> procurar c (colunas df) = Some s.
Proof. unfold obter. destruct (procurar c (colunas df)); congruence. Qed.

Lemma numerica_length s x : numerica s = Ok x -> length x = length s.
Proof.
  intros H. apply numerica_Forall2, Forall2_length in H. symmetry. exact H.
Qed.

Lemma series_sub_length a b r :
  series_sub a b = Ok r -> length r = Nat.min (length a) (length b).
Proof.
  unfold series_sub.
  destruct (numerica a) as [x|] eqn:Ea; [|discriminate]. cbn [ligar].
  destruct (numerica b) as [y|] eqn:Eb; [|discriminate]. cbn [ligar].
  intros [= <-]. rewrite length_map, length_zip_with.
  rewrite (numerica_length _ _ Ea), (numerica_length _ _ Eb). reflexivity.
Qed.

Lemma series_clip_lower_length lo s r :
  series_clip_lower lo s = Ok r -> length r = length s.
Proof.
  unfold series_clip_lower.
  destruct (numerica s) as [x|] eqn:E; [|discriminate]. cbn [ligar].
  intros [= <-]. rewrite !length_map. apply (numerica_length _ _ E).
Qed.

Lemma derivar_distorcao_forma X D :
  bem_formado X -> derivar_distorcao X = Ok D ->
  indice D = indice X /\ bem_formado D.
Proof.
  intros Hwf. unfold derivar_distorcao.
  destruct (tem_coluna "NU_IDADE" X && tem_coluna "TP_ETAPA_ENSINO" X);
    [|intros [= <-]; auto].
  destruct (obter "TP_ETAPA_ENSINO" X) as [etapas|] eqn:E1; [|discriminate].
  cbn [ligar]. set (df1 := atribuir "IDADE_ESPERADA" _ X).
  assert (bem_formado df1) as Hwf1.
  { apply alturas_atribuir; [|exact Hwf]. rewrite length_map.
    apply (bem_formado_procurar X "TP_ETAPA_ENSINO"); [exact Hwf|].
    apply obter_inv, E1. }
  destruct (obter "NU_IDADE" df1) as [idades|] eqn:E2; [|discriminate].
  cbn [ligar].
  destruct (obter "IDADE_ESPERADA" df1) as [esperadas|] eqn:E3; [|discriminate].
  cbn [ligar].
  destruct (series_sub idades esperadas) as [diferenca|] eqn:E4; [|discriminate].
  cbn [ligar]. set (df2 := atribuir "DISTORCAO_IDADE_SERIE" diferenca df1).
  assert (length diferenca = indice X) as Hdif.
  { rewrite (series_sub_length _ _ _ E4).
    rewrite (bem_formado_procurar df1 _ _ Hwf1 (obter_inv _ _ _ E2)).
    rewrite (bem_formado_procurar df1 _ _ Hwf1 (obter_inv _ _ _ E3)).
    apply Nat.min_id. }
  assert (bem_formado df2) as Hwf2
    by (apply alturas_atribuir; [exact Hdif|exact Hwf1]).
  destruct (obter "DISTORCAO_IDADE_SERIE" df2) as [distorcao|] eqn:E5;
    [|discriminate].
  cbn [ligar].
  destruct (series_clip_lower 0 distorcao) as [cortada|] eqn:E6; [|discriminate].
  cbn [ligar]. intros [= <-]. split; [reflexivity|].
  apply alturas_atribuir; [|exact Hwf2].
  rewrite (series_clip_lower_length _ _ _ E6).
  apply (bem_formado_procurar df2 _ _ Hwf2 (obter_inv _ _ _ E5)).
Qed.

Lemma integrar_saeb_aluno_forma dados P D :
  bem_formado P -> integrar_saeb_aluno dados P = Ok D ->
  indice D = indice P /\ bem_formado D.
Proof.
  intros Hwf. unfold integrar_saeb_aluno.
  destruct (dados ≫= procurar "aluno") as [S|]; [|intros [= <-]; auto].
  destruct (tem_coluna "CO_ENTIDADE" P) eqn:EP; [|intros [= <-]; auto].
  destruct (tem_coluna "CO_ENTIDADE" S) eqn:ES; [|intros [= <-]; auto].
  destruct (List.filter _ (nomes S)) as [|c cols]; [intros [= <-]; auto|].
  destruct (groupby_agg S "CO_ENTIDADE" _) as [agg|] eqn:Eg; [|discriminate].
  cbn [ligar].
  apply bool_decide_eq_true, procurar_nomes in ES as [ks Hks].
  destruct (groupby_agg_forma _ _ _ _ ks Hks Eg) as (gcols & -> & _).
  intros H. pose proof H as Hinv. unfold merge_on in Hinv.
  apply merge_left_inv in Hinv as (kp & ks' & Hkp & Hks' & Hc).
  cbn [colunas procurar] in Hks'. rewrite String.eqb_refl in Hks'.
  injection Hks' as <-.
  destruct (merge_on_unico_forma P
              (MkDataFrame (length (chaves_dos_grupos ks))
                 (("CO_ENTIDADE", map Some (chaves_dos_grupos ks)) :: gcols))
              "CO_ENTIDADE" kp (map Some (chaves_dos_grupos ks)) Hwf Hkp)
    as (D1 & HD1 & Hi & Hwf1 & _).
  - cbn [colunas procurar]. rewrite String.eqb_refl. reflexivity.
  - apply is_unique_chaves_dos_grupos.
  - exact Hc.
  - rewrite HD1 in H. injection H as <-. auto.
Qed.

End NiveisGerais.

(** ** The student-level run and the labels of the distortion step *)

Section Aluno.

(** The labels the distortion step reads or writes. *)
Definition rotulo_distorcao (c : string) : Prop :=
  c ∈ ["NU_IDADE"; "TP_ETAPA_ENSINO"; "IDADE_ESPERADA"; "DISTORCAO_IDADE_SERIE"].

(** A relabelling that leaves those labels alone and gives them to no other
    column. *)
Definition estavel (f : string -> string) : Prop :=
  forall c, rotulo_distorcao c -> f c = c /\ forall n, f n = c -> n = c.

(** Two lists of columns that start with the same [n] columns, up to the
    relabelling [f] of the first list, and whose further columns agree on the
    labels of the distortion step. *)
Definition alinhadas (f : string -> string) (n : nat) (A B : list (string * Series))
  : Prop :=
  exists l exA exB,
    A = map (fun ns : string * Series => (f ns.1, ns.2)) l ++ exA /\
    B = l ++ exB /\ length l = n /\
    forall c, rotulo_distorcao c -> procurar c exA = procurar c exB.

Lemma rotulo_distorcao_fatos c :
  rotulo_distorcao c ->
  sem_sufixo c = true /\ contem "PROFICIENCIA" (upper c) = false /\ c <> "CO_ENTIDADE".
Proof.
  unfold rotulo_distorcao. intros H.
  repeat (apply elem_of_cons in H as [->|H];
          [split; [reflexivity|split; [reflexivity|discriminate]]|]).
  inversion H.
Qed.

Lemma nomes_rerotulados {A} (f : string -> string) c (l : list (string * A)) :
  f c = c -> (forall n, f n = c -> n = c) ->
  c ∈ (map (fun ns : string * A => (f ns.1, ns.2)) l).*1 <-> c ∈ l.*1.
Proof.
  intros Hc Hf. rewrite <- !procurar_nomes.
  rewrite (procurar_rerotulado f c l Hc Hf). reflexivity.
Qed.

Lemma alinhadas_procurar f n A B c :
  estavel f -> alinhadas f n A B -> rotulo_distorcao c ->
  procurar c A = procurar c B.
Proof.
  intros Hf (l & exA & exB & -> & -> & _ & Hex) Hc.
  destruct (Hf c Hc) as [Hfc Hinj].
  destruct (decide (c ∈ l.*1)) as [Hin|Hout].
  - rewrite (procurar_app c l) by exact Hin.
    rewrite procurar_app by (apply nomes_rerotulados; assumption).
    apply procurar_rerotulado; assumption.
  - rewrite (procurar_app_r c l) by exact Hout.
    rewrite procurar_app_r by (rewrite nomes_rerotulados; assumption).
    apply Hex, Hc.
Qed.

Lemma atribuir_colunas_app_l c s (l r : list (string * Series)) :
  c ∈ l.*1 -> atribuir_colunas c s (l ++ r) = atribuir_colunas c s l ++ r.
Proof.
  induction l as [|[n t] l IH]; simpl; [intros H; inversion H|].
  destruct (String.eqb n c) eqn:E; [reflexivity|].
  apply String.eqb_neq in E. intros H.
  apply elem_of_cons in H as [->|H]; [congruence|]. rewrite (IH H). reflexivity.
Qed.

Lemma length_atribuir_presente c s (l : list (string * Series)) :
  c ∈ l.*1 -> length (atribuir_colunas c s l) = length l.
Proof.
  induction l as [|[n t] l IH]; simpl; [intros H; inversion H|].
  destruct (String.eqb n c) eqn:E; [reflexivity|].
  apply String.eqb_neq in E. intros H.
  apply elem_of_cons in H as [->|H]; [congruence|]. simpl. rewrite (IH H). reflexivity.
Qed.

Lemma atribuir_colunas_rerotulado (f : string -> string) c s
  (l : list (string * Series)) :
  f c = c -> (forall n, f n = c -> n = c) -> c ∈ l.*1 ->
  atribuir_colunas c s (map (fun ns : string * Series => (f ns.1, ns.2)) l) =
  map (fun ns : string * Series => (f ns.1, ns.2)) (atribuir_colunas c s l).
Proof.
  intros Hc Hf. induction l as [|[n t] l IH]; [intros H; inversion H|].
  cbn [map atribuir_colunas fst snd]. destruct (String.eqb n c) eqn:E.
  - apply String.eqb_eq in E as ->. rewrite Hc, String.eqb_refl. intros _.
    cbn [map fst snd]. rewrite Hc. reflexivity.
  - apply String.eqb_neq in E. intros H. cbn in H.
    apply elem_of_cons in H as [->|H]; [congruence|].
    destruct (String.eqb (f n) c) eqn:E'.
    + apply String.eqb_eq in E'. destruct (E (Hf n E')).
    + cbn [map fst snd]. rewrite (IH H). reflexivity.
Qed.

Lemma alinhadas_atribuir f n A B c s :
  estavel f -> alinhadas f n A B -> rotulo_distorcao c ->
  alinhadas f n (atribuir_colunas c s A) (atribuir_colunas c s B).
Proof.
  intros Hf (l & exA & exB & -> & -> & Hn & Hex) Hc.
  destruct (Hf c Hc) as [Hfc Hinj].
  destruct (decide (c ∈ l.*1)) as [Hin|Hout].
  - exists (atribuir_colunas c s l), exA, exB.
    rewrite (atribuir_colunas_app_l c s l) by exact Hin.
    rewrite atribuir_colunas_app_l by (apply nomes_rerotulados; assumption).
    rewrite (atribuir_colunas_rerotulado f c s l Hfc Hinj Hin).
    split; [reflexivity|]. split; [reflexivity|].
    split; [rewrite length_atribuir_presente; assumption|exact Hex].
  - exists l, (atribuir_colunas c s exA), (atribuir_colunas c s exB).
    rewrite (atribuir_colunas_app_r c s l) by exact Hout.
    rewrite atribuir_colunas_app_r by (rewrite nomes_rerotulados; assumption).
    split; [reflexivity|]. split; [reflexivity|]. split; [exact Hn|].
    intros c' Hc'. destruct (decide (c' = c)) as [->|Hne].
    + rewrite !procurar_atribuir_mesma. reflexivity.
    + rewrite !procurar_atribuir_outra by exact Hne. apply Hex, Hc'.
Qed.

Lemma alinhadas_dados f n A B :
  alinhadas f n A B -> (take n A).*2 = (take n B).*2.
Proof.
  intros (l & exA & exB & -> & -> & <- & _).
  rewrite (take_app_length l).
  rewrite <- (length_map (fun ns : string * Series => (f ns.1, ns.2)) l) at 1.
  rewrite take_app_length, <- list_fmap_compose. reflexivity.
Qed.

Lemma alinhadas_obter f n X Y c :
  estavel f -> alinhadas f n (colunas X) (colunas Y) -> rotulo_distorcao c ->
  obter c X = obter c Y.
Proof.
  intros Hf Ha Hc. unfold obter. rewrite (alinhadas_procurar f n _ _ c Hf Ha Hc).
  reflexivity.
Qed.

Lemma alinhadas_tem_coluna f n X Y c :
  estavel f -> alinhadas f n (colunas X) (colunas Y) -> rotulo_distorcao c ->
  tem_coluna c X = tem_coluna c Y.
Proof.
  intros Hf Ha Hc. unfold tem_coluna, nomes.
  pose proof (alinhadas_procurar f n _ _ c Hf Ha Hc) as H.
  destruct (decide (c ∈ (colunas Y).*1)) as [HY|HY].
  - rewrite (bool_decide_eq_true_2 _ HY). apply bool_decide_eq_true.
    apply procurar_nomes. rewrite H. apply procurar_nomes, HY.
  - rewrite (bool_decide_eq_false_2 _ HY). apply bool_decide_eq_false.
    intros HX. apply HY, procurar_nomes. rewrite <- H. apply procurar_nomes, HX.
Qed.

(** The distortion step does the same to two tables that are aligned: it
    returns on both or raises the same exception on both, and what it returns
    is aligned again. *)
Lemma derivar_distorcao_alinhadas f n M P :
  estavel f -> alinhadas f n (colunas M) (colunas P) ->
  match derivar_distorcao M, derivar_distorcao P with
  | Ok D1, Ok D0 => alinhadas f n (colunas D1) (colunas D0)
  | Raise e1, Raise e0 => e1 = e0
  | _, _ => False
  end.
Proof.
  intros Hf Ha. unfold derivar_distorcao.
  assert (rotulo_distorcao "NU_IDADE") as R1 by (unfold rotulo_distorcao; repeat constructor).
  assert (rotulo_distorcao "TP_ETAPA_ENSINO") as R2
    by (unfold rotulo_distorcao; repeat constructor).
  assert (rotulo_distorcao "IDADE_ESPERADA") as R3
    by (unfold rotulo_distorcao; repeat constructor).
  assert (rotulo_distorcao "DISTORCAO_IDADE_SERIE") as R4
    by (unfold rotulo_distorcao; repeat constructor).
  rewrite (alinhadas_tem_coluna f n M P _ Hf Ha R1).
  rewrite (alinhadas_tem_coluna f n M P _ Hf Ha R2).
  destruct (tem_coluna "NU_IDADE" P && tem_coluna "TP_ETAPA_ENSINO" P); [|exact Ha].
  rewrite (alinhadas_obter f n M P _ Hf Ha R2).
  destruct (obter "TP_ETAPA_ENSINO" P) as [etapas|e]; cbn [ligar]; [|reflexivity].
  set (esp := map (fun e => Some (inteiro (idade_esperada e))) etapas).
  assert (alinhadas f n (colunas (atribuir "IDADE_ESPERADA" esp M))
            (colunas (atribuir "IDADE_ESPERADA" esp P))) as Ha1
    by (apply alinhadas_atribuir; assumption).
  rewrite (alinhadas_obter f n _ _ _ Hf Ha1 R1).
  destruct (obter "NU_IDADE" (atribuir "IDADE_ESPERADA" esp P)) as [idades|e];
    cbn [ligar]; [|reflexivity].
  rewrite (alinhadas_obter f n _ _ _ Hf Ha1 R3).
  destruct (obter "IDADE_ESPERADA" (atribuir "IDADE_ESPERADA" esp P))
    as [esperadas|e]; cbn [ligar]; [|reflexivity].
  destruct (series_sub idades esperadas) as [diferenca|e]; cbn [ligar];
    [|reflexivity].
  assert (alinhadas f n
            (colunas (atribuir "DISTORCAO_IDADE_SERIE" diferenca
                        (atribuir "IDADE_ESPERADA" esp M)))
            (colunas (atribuir "DISTORCAO_IDADE_SERIE" diferenca
                        (atribuir "IDADE_ESPERADA" esp P)))) as Ha2
    by (apply alinhadas_atribuir; assumption).
  rewrite (alinhadas_obter f n _ _ _ Hf Ha2 R4).
  destruct (obter "DISTORCAO_IDADE_SERIE"
              (atribuir "DISTORCAO_IDADE_SERIE" diferenca
                 (atribuir "IDADE_ESPERADA" esp P))) as [distorcao|e];
    cbn [ligar]; [|reflexivity].
  destruct (series_clip_lower 0 distorcao) as [cortada|e]; cbn [ligar];
    [|reflexivity].
  apply alinhadas_atribuir; assumption.
Qed.

Lemma Forall2_rotulos {A} (P : string * A -> string * Series -> Prop)
  (spec : list (string * A)) (cols : list (string * Series)) :
  Forall2 (fun co col => col.1 = co.1 /\ P co col) spec cols -> cols.*1 = spec.*1.
Proof.
  induction 1 as [|co col spec cols [H1 _] _ IH]; [reflexivity|].
  cbn [fmap list_fmap]. simpl. rewrite H1. f_equal. exact IH.
Qed.

(** After the SAEB step of the student level the accumulated table is
    aligned with the normalised census table: the proficiency columns come
    after its columns, and no label of the distortion step is touched. *)
Lemma integrar_saeb_aluno_alinhadas dados P M :
  bem_formado P -> integrar_saeb_aluno dados P = Ok M ->
  exists f, estavel f /\ alinhadas f (length (colunas P)) (colunas M) (colunas P).
Proof.
  intros Hwf.
  assert (exists f, estavel f /\
            alinhadas f (length (colunas P)) (colunas P) (colunas P)) as Hid.
  { exists (fun n => n). split; [intros c _; auto|].
    exists (colunas P), [], []. rewrite !app_nil_r.
    split; [|split; [reflexivity|split; reflexivity]].
    rewrite <- (map_id (colunas P)) at 1. apply map_ext. intros [m t]. reflexivity. }
  unfold integrar_saeb_aluno.
  destruct (dados ≫= procurar "aluno") as [S|]; [|intros [= <-]; exact Hid].
  destruct (tem_coluna "CO_ENTIDADE" P) eqn:EP; [|intros [= <-]; exact Hid].
  destruct (tem_coluna "CO_ENTIDADE" S) eqn:ES; [|intros [= <-]; exact Hid].
  destruct (List.filter _ (nomes S)) as [|c0 cols] eqn:Eprof;
    [intros [= <-]; exact Hid|].
  destruct (groupby_agg S "CO_ENTIDADE" _) as [agg|] eqn:Eg; [|discriminate].
  cbn [ligar].
  apply bool_decide_eq_true, procurar_nomes in ES as [ks Hks].
  destruct (groupby_agg_forma _ _ _ _ ks Hks Eg) as (gcols & -> & Hg).
  apply Forall2_rotulos in Hg.
  intros H. pose proof H as Hinv. unfold merge_on in Hinv.
  apply merge_left_inv in Hinv as (kp & ks' & Hkp & Hks' & Hc).
  cbn [colunas procurar] in Hks'. rewrite String.eqb_refl in Hks'.
  injection Hks' as <-.
  set (agg := MkDataFrame (length (chaves_dos_grupos ks))
                (("CO_ENTIDADE", map Some (chaves_dos_grupos ks)) :: gcols)) in *.
  unfold merge_on in H.
  rewrite (merge_left_juntadas P agg "CO_ENTIDADE" "CO_ENTIDADE" kp
             (map Some (chaves_dos_grupos ks)) Hwf Hkp) in H;
    [|unfold agg; cbn [colunas procurar]; rewrite String.eqb_refl; reflexivity
     |apply is_unique_chaves_dos_grupos|exact Hc].
  injection H as <-. cbn [colunas].
  set (cols_d := colunas_direita agg "CO_ENTIDADE" "CO_ENTIDADE").
  assert (forall c, rotulo_distorcao c -> c ∉ cols_d.*1) as Hfora.
  { intros c Hc' Hin. destruct (rotulo_distorcao_fatos c Hc') as (_ & Hprof & Hne).
    apply list_elem_of_fmap in Hin as ([m t] & Hm & Hin). cbn in Hm. subst m.
    apply colunas_direita_sub in Hin. unfold agg in Hin. cbn [colunas] in Hin.
    apply elem_of_cons in Hin as [Hin|Hin]; [congruence|].
    assert (c ∈ gcols.*1) as Hcg by (apply (list_elem_of_fmap_2 fst _ _ Hin)).
    rewrite Hg, <- list_fmap_compose in Hcg.
    change (fst ∘ (fun col : string => (col, Mean))) with (@id string) in Hcg.
    rewrite list_fmap_id, <- Eprof in Hcg.
    apply list_elem_of_In, filter_In in Hcg as [_ Hcg]. congruence. }
  exists (fun n => if rotulo_comum P cols_d n then n +:+ "_x" else n). split.
  - intros c Hc'. destruct (rotulo_distorcao_fatos c Hc') as (Hs & _ & _).
    assert (rotulo_comum P cols_d c = false) as Hrc.
    { unfold rotulo_comum, esta_em.
      rewrite (bool_decide_eq_false_2 _ (Hfora c Hc')). apply andb_false_r. }
    split; [rewrite Hrc; reflexivity|].
    intros m. destruct (rotulo_comum P cols_d m); [|auto].
    intros Hm. destruct (sem_sufixo_x c m Hs Hm).
  - unfold juntadas.
    eexists (colunas P), _, []. split; [reflexivity|].
    rewrite app_nil_r. split; [reflexivity|]. split; [reflexivity|].
    intros c Hc'. destruct (rotulo_distorcao_fatos c Hc') as (Hs & _ & _).
    cbn [procurar]. apply procurar_nenhum. rewrite <- list_fmap_compose.
    intros Hin. apply list_elem_of_fmap in Hin as ([m t] & Hm & Hin).
    unfold compose in Hm. cbn [fst snd] in Hm.
    destruct (rotulo_comum P cols_d m).
    + exact (sem_sufixo_y c m Hs (eq_sym Hm)).
    + subst m. apply (Hfora c Hc'). apply (list_elem_of_fmap_2 fst _ _ Hin).
Qed.

End Aluno.

(** ** A secondary source made unavailable *)

Section FonteAusente.

(** [fs0] is the directory [fs] with the file [f] made unavailable:
    [read_csv] finds no table there (the file is gone, or cannot be read),
    and every other file is as it was. *)
Definition sem_fonte (f : string) (fs fs0 : diretorio) : Prop :=
  ler_csv fs0 f = None /\ forall g, g <> f -> fs0 !! g = fs !! g.

Lemma sem_fonte_delete f (fs : diretorio) : sem_fonte f fs (delete f fs).
Proof.
  split.
  - unfold ler_csv. rewrite lookup_delete_eq. reflexivity.
  - intros g Hg. apply lookup_delete_ne. congruence.
Qed.

Lemma sem_fonte_ilegivel f (fs : diretorio) : sem_fonte f fs (<[f := Ilegivel]> fs).
Proof.
  split.
  - unfold ler_csv. rewrite lookup_insert_eq. reflexivity.
  - intros g Hg. apply lookup_insert_ne. congruence.
Qed.

Lemma ler_csv_sem_fonte_outra f fs fs0 g :
  sem_fonte f fs fs0 -> g <> f -> ler_csv fs0 g = ler_csv fs g.
Proof. intros [_ H] Hg. unfold ler_csv. rewrite (H g Hg). reflexivity. Qed.

Lemma ler_csv_sem_fonte f fs fs0 g S :
  sem_fonte f fs fs0 -> ler_csv fs0 g = Some S -> ler_csv fs g = Some S.
Proof.
  intros Hs H. destruct (decide (g = f)) as [->|Hne].
  - destruct Hs as [Hf _]. congruence.
  - rewrite <- (ler_csv_sem_fonte_outra f fs fs0 g Hs Hne). exact H.
Qed.

Lemma carregar_censo_sem_fonte f fs fs0 ano nivel :
  arquivo_censo ano nivel <> Some f -> sem_fonte f fs fs0 ->
  carregar_censo_escolar fs0 ano nivel = carregar_censo_escolar fs ano nivel.
Proof.
  intros Hne Hs. unfold carregar_censo_escolar.
  destruct (arquivo_censo ano nivel) as [g|]; [|reflexivity]. simpl.
  apply (ler_csv_sem_fonte_outra f); [exact Hs|congruence].
Qed.

Lemma fontes_escola_validas_sem_fonte f fs fs0 ano kp :
  sem_fonte f fs fs0 ->
  fontes_escola_validas fs ano kp -> fontes_escola_validas fs0 ano kp.
Proof.
  intros Hs [H1 H2]. split.
  - intros S HS. apply H1, (ler_csv_sem_fonte _ _ _ _ _ Hs HS).
  - intros tipo I Ht HI. apply (H2 tipo I Ht), (ler_csv_sem_fonte _ _ _ _ _ Hs HI).
Qed.

(** At the municipality level an absent socioeconomic file is replaced by
    simulated data, so the socioeconomic source can only be made unavailable
    as a file that cannot be read. *)
Lemma fontes_municipio_validas_sem_fonte to_csv rng f fs fs0 ano kp :
  sem_fonte f fs fs0 ->
  (fs0 !! arquivo_socioeconomico = None -> fs !! arquivo_socioeconomico = None) ->
  fontes_municipio_validas to_csv rng fs ano kp ->
  fontes_municipio_validas to_csv rng fs0 ano kp.
Proof.
  intros Hs Hsoc (H1 & H2 & H3). split; [|split].
  - intros S HS. apply H1. revert HS. unfold carregar_dados_socioeconomicos.
    destruct (fs0 !! arquivo_socioeconomico) as [[df|]|] eqn:E0; cbn [fst].
    + intros [= <-].
      assert (ler_csv fs0 arquivo_socioeconomico = Some df) as Hl
        by (unfold ler_csv; rewrite E0; reflexivity).
      apply (ler_csv_sem_fonte _ _ _ _ _ Hs) in Hl. unfold ler_csv in Hl.
      destruct (fs !! arquivo_socioeconomico) as [[df'|]|]; try discriminate Hl.
      exact Hl.
    + discriminate.
    + rewrite (Hsoc eq_refl). auto.
  - intros tipo I Ht HI. apply (H2 tipo I Ht), (ler_csv_sem_fonte _ _ _ _ _ Hs HI).
  - intros S HS. apply H3, (ler_csv_sem_fonte _ _ _ _ _ Hs HS).
Qed.

(** The student-level run reads the SAEB student file and no other
    secondary file. *)
Lemma integrar_aluno_sem_fonte fs fs0 ano f P D1 :
  carregar_censo_escolar fs ano "aluno" = Some P ->
  arquivo_censo ano "aluno" <> Some f ->
  sem_fonte f fs fs0 -> bem_formado P ->
  integrar_dados_nivel_aluno fs ano = Ok (Some D1) ->
  let n := length (colunas (normalizar_variaveis P mapeamentos_censo_aluno "aluno")) in
  exists D0,
    integrar_dados_nivel_aluno fs0 ano = Ok (Some D0) /\
    indice D1 = indice P /\ indice D0 = indice P /\
    (take n (colunas D1)).*2 = (take n (colunas D0)).*2.
Proof.
  intros HP Hne Hs Hwf. unfold integrar_dados_nivel_aluno.
  rewrite (carregar_censo_sem_fonte f fs fs0 ano "aluno" Hne Hs), HP.
  destruct (normalizar_forma P mapeamentos_censo_aluno "aluno") as (Hi & _ & Hb).
  set (P' := normalizar_variaveis P mapeamentos_censo_aluno "aluno") in *.
  specialize (Hb Hwf).
  destruct (integrar_saeb_aluno (carregar_saeb fs (ano_saeb ano)) P')
    as [M1|] eqn:E1; [|discriminate].
  cbn [ligar].
  destruct (derivar_distorcao M1) as [D|] eqn:E2; [|discriminate].
  cbn [ligar]. intros [= ->]. set (n := length (colunas P')).
  destruct (integrar_saeb_aluno_forma _ P' M1 Hb E1) as [Hi1 Hwf1].
  destruct (derivar_distorcao_forma M1 D1 Hwf1 E2) as [Hi2 _].
  destruct (integrar_saeb_aluno_alinhadas _ P' M1 Hb E1) as (g & Hg & Ha).
  pose proof (derivar_distorcao_alinhadas g n M1 P' Hg Ha) as Hd.
  rewrite E2 in Hd.
  destruct (derivar_distorcao P') as [DP|] eqn:EP; [|destruct Hd].
  assert (indice DP = indice P') as HiP
    by (apply (derivar_distorcao_forma P' DP Hb EP)).
  assert (exists M0,
            integrar_saeb_aluno (carregar_saeb fs0 (ano_saeb ano)) P' = Ok M0 /\
            (M0 = M1 \/ M0 = P')) as (M0 & E0 & HM0).
  { unfold integrar_saeb_aluno in *.
    rewrite (carregar_saeb_tipo fs0 (ano_saeb ano) "aluno") by (right; left).
    rewrite (carregar_saeb_tipo fs (ano_saeb ano) "aluno") in E1 by (right; left).
    destruct (decide (arquivo_saeb (ano_saeb ano) "aluno" = f)) as [Hf|Hf].
    - destruct Hs as [Hnone _]. rewrite Hf, Hnone. eauto.
    - rewrite (ler_csv_sem_fonte_outra f fs fs0 _ Hs Hf). eauto. }
  rewrite E0. cbn [ligar]. destruct HM0 as [->| ->].
  - rewrite E2. cbn [ligar]. exists D1. repeat split; congruence.
  - rewrite EP. cbn [ligar]. exists DP.
    split; [reflexivity|]. split; [congruence|]. split; [congruence|].
    apply (alinhadas_dados g n _ _ Hd).
Qed.

End FonteAusente.

(** ** The join invariants *)

(** A school-level run used in the examples below: two schools in the census
    aggregate and a SAEB school table for 2023. *)
Definition censo_exemplo : DataFrame :=
  MkDataFrame 2 [("CO_ENTIDADE", [Some (inteiro 1); Some (inteiro 2)]);
                 ("TAXA_ABANDONO", [Some (inteiro 20); Some (inteiro 0)])].

Definition saeb_exemplo : DataFrame :=
  MkDataFrame 2 [("CO_ENTIDADE", [Some (inteiro 2); Some (inteiro 1)]);
                 ("MEDIA_MT", [Some (inteiro 250); Some (inteiro 260)])].

(** The same SAEB table with school 1 reported twice, with differing
    values. *)
Definition saeb_duplicado : DataFrame :=
  MkDataFrame 2 [("CO_ENTIDADE", [Some (inteiro 1); Some (inteiro 1)]);
                 ("MEDIA_MT", [Some (inteiro 250); Some (inteiro 260)])].

Definition diretorio_exemplo (saeb : DataFrame) : diretorio :=
  <["censo_escolar_2023_agregado_escola.csv" := Legivel censo_exemplo]>
    (<["saeb_2023_escola.csv" := Legivel saeb]> ∅).

(** C1. A left join against a secondary table whose key values are unique,
    and of a kind [pd.merge] joins with the primary keys, keeps the primary
    table row for row: the result has as many rows as the primary table and
    its first columns carry the primary table's data unchanged (no row
    duplicated, none lost). This holds for every join of the Integrator, so a
    school-level and a municipality-level run over sources with unique keys
    return a dataset with exactly the rows of the census aggregate. *)
Theorem juncao_preserva_linhas :
  (forall P S left_on right_on kp ks,
     bem_formado P ->
     procurar left_on (colunas P) = Some kp ->
     procurar right_on (colunas S) = Some ks ->
     is_unique ks = true ->
     chaves_incompativeis kp ks = false ->
     exists D, merge_left P S left_on right_on = Ok D /\
               indice D = indice P /\
               (take (length (colunas P)) (colunas D)).*2 = (colunas P).*2) /\
  (forall fs ano P kp,
     carregar_censo_escolar fs ano "escola" = Some P ->
     bem_formado P -> procurar "CO_ENTIDADE" (colunas P) = Some kp ->
     fontes_escola_validas fs ano kp ->
     exists D, integrar_dados_nivel_escola fs ano = Ok (Some D) /\
               indice D = indice P) /\
  (forall to_csv rng fs ano P kp,
     carregar_censo_escolar fs ano "municipio" = Some P ->
     bem_formado P -> procurar "CO_MUNICIPIO" (colunas P) = Some kp ->
     coluna_sem_texto "CO_UF" (colunas P) ->
     fontes_municipio_validas to_csv rng fs ano kp ->
     exists D, (integrar_dados_nivel_municipio to_csv rng fs ano).1 = Ok (Some D) /\
               indice D = indice P).
Proof.
  split; [|split].
  - intros P S kl kr kp ks Hwf Hkp Hks Hu Hc.
    rewrite (merge_left_unico P S kl kr kp ks Hwf Hkp Hks Hu Hc).
    eexists. split; [reflexivity|]. split; [reflexivity|].
    cbn [colunas]. rewrite <- (length_map (fun ns : string * Series =>
      ((if rotulo_comum P (colunas_direita S kl kr) ns.1
        then ns.1 +:+ "_x" else ns.1), ns.2)) (colunas P)).
    rewrite take_app_length. rewrite <- list_fmap_compose.
    apply list_fmap_ext. intros i [n s] _. reflexivity.
  - intros fs ano P kp HP Hwf HK Hval.
    destruct (integrar_escola_estende fs ano P kp HP Hwf HK Hval) as (D & HD & He).
    exists D. split; [exact HD|].
    destruct He as [Hi _]. rewrite Hi. apply normalizar_escola_forma.
  - apply integrar_municipio_linhas.
Qed.

(** C2 (as amended). The Integrator does not validate a join as many-to-one
    and raises no ambiguity error. Whenever it joins a secondary table (both
    tables carry the key column, with keys of kinds [pd.merge] joins; an
    indicator table also brings a column the accumulated table lacks), the
    step returns the merged table, in which every primary row appears once
    per secondary row with its key, and once when there is none: repeated
    secondary keys multiply primary rows. This holds for the SAEB school
    join, for the join of an indicator table and for the join of the
    socioeconomic table. *)
Theorem juncao_sem_validacao K D I kd ks :
  procurar K (colunas D) = Some kd ->
  procurar K (colunas I) = Some ks ->
  chaves_incompativeis kd ks = false ->
  let linhas :=
    list_sum (map (fun k => Nat.max 1
                    (length (List.filter (fun c => celula_eqb c k) ks))) kd) in
  (forall dados S,
     K = "CO_ENTIDADE" -> dados ≫= procurar "escola" = Some S ->
     normalizar_codigo_escola S = I ->
     exists D', integrar_saeb_escola dados D = Ok D' /\ indice D' = linhas) /\
  (1 < length (colunas_novas K I D) ->
     exists D', integrar_indicador K D I = Ok D' /\ indice D' = linhas) /\
  (exists D', merge_on D I K = Ok D' /\ indice D' = linhas).
Proof.
  intros Hkd Hks Hc linhas.
  assert (length (indexador_desde 0 kd ks) = linhas) as Hl.
  { rewrite indexador_length. unfold linhas. f_equal. apply map_ext. intros k.
    rewrite posicoes_length. reflexivity. }
  split; [|split].
  - intros dados S -> HS <-. unfold integrar_saeb_escola. rewrite HS.
    destruct (colunas_novas "CO_ENTIDADE" (normalizar_codigo_escola S) D) eqn:E.
    + assert ("CO_ENTIDADE" ∈ colunas_novas "CO_ENTIDADE" (normalizar_codigo_escola S) D)
        as Hin.
      { apply colunas_novas_spec. split; [|right; reflexivity].
        apply procurar_nomes. rewrite Hks. eauto. }
      rewrite E in Hin. inversion Hin.
    + rewrite <- E. rewrite (merge_filtrado_forma _ _ _ kd ks Hkd Hks), Hc.
      eexists. split; [reflexivity|exact Hl].
  - intros Hnovas. unfold integrar_indicador.
    replace (tem_coluna K I) with true
      by (symmetry; apply bool_decide_eq_true, procurar_nomes; rewrite Hks; eauto).
    replace (Nat.ltb 1 (length (colunas_novas K I D))) with true
      by (symmetry; apply Nat.ltb_lt, Hnovas).
    rewrite (merge_filtrado_forma _ _ _ kd ks Hkd Hks), Hc.
    eexists. split; [reflexivity|exact Hl].
  - unfold merge_on, merge_left, obter. rewrite Hkd, Hks. cbn [ligar]. rewrite Hc.
    eexists. split; [reflexivity|exact Hl].
Qed.

(** C2, the claim as stated fails: with school 1 twice in the SAEB table the
    school-level integration raises nothing and returns the merged table, in
    which school 1 appears twice. *)
Lemma juncao_ambigua_executada :
  is_unique [Some (inteiro 1); Some (inteiro 1)] = false /\
  integrar_dados_nivel_escola (diretorio_exemplo saeb_duplicado) 2023 =
  Ok (Some (MkDataFrame 3
              [("CO_ENTIDADE", [Some (inteiro 1); Some (inteiro 1); Some (inteiro 2)]);
               ("TAXA_ABANDONO", [Some (inteiro 20); Some (inteiro 20); Some (inteiro 0)]);
               ("MEDIA_MT", [Some (inteiro 250); Some (inteiro 260); None])])).
Proof. split; vm_compute; reflexivity. Qed.

(** C8, the claim as stated fails: with the duplicated SAEB table present the
    result has three rows, and with the file absent it has the two rows of
    the primary table. *)
Lemma fonte_duplicada_altera_linhas :
  exists D1 D0,
    integrar_dados_nivel_escola (diretorio_exemplo saeb_duplicado) 2023 = Ok (Some D1) /\
    integrar_dados_nivel_escola
      (delete "saeb_2023_escola.csv" (diretorio_exemplo saeb_duplicado)) 2023 =
      Ok (Some D0) /\
    indice D1 = 3 /\ indice D0 = 2 /\
    procurar "TAXA_ABANDONO" (colunas D1) <> procurar "TAXA_ABANDONO" (colunas D0).
Proof.
  eexists _, _. split; [vm_compute; reflexivity|].
  split; [vm_compute; reflexivity|].
  split; [reflexivity|]. split; [reflexivity|]. discriminate.
Qed.

(** C8 (as amended). When the secondary sources that are present can be
    joined many-to-one (unique keys, of kinds [pd.merge] joins with the
    primary keys), making one secondary file unavailable does not stop the
    integration, at any level: with and without that file the run returns a
    dataset with the rows of the primary table whose first columns hold the
    primary table's data, cell for cell; only the columns that follow can
    differ. At the school level the primary columns also keep their labels.
    At the municipality level a label shared with a joined table gets the
    suffix [_x], and the socioeconomic source is unavailable only as a file
    that cannot be read, since an absent one is replaced by simulated data.
    At the student level the SAEB proficiencies are averaged per school
    before they are joined, so no assumption on the source is needed: the
    run without the file returns whenever the run with it does, and the two
    agree on the primary columns, also where the distortion step overwrites
    one of them. *)
Theorem fonte_ausente_preserva_primaria :
  (forall fs fs0 ano f P kp,
     carregar_censo_escolar fs ano "escola" = Some P ->
     arquivo_censo ano "escola" <> Some f -> sem_fonte f fs fs0 ->
     bem_formado P -> procurar "CO_ENTIDADE" (colunas P) = Some kp ->
     fontes_escola_validas fs ano kp ->
     let P' := normalizar_variaveis P mapeamentos_censo_escola "escola" in
     exists D1 D0 extras1 extras0,
       integrar_dados_nivel_escola fs ano = Ok (Some D1) /\
       integrar_dados_nivel_escola fs0 ano = Ok (Some D0) /\
       indice D1 = indice P /\ indice D0 = indice P /\
       colunas D1 = colunas P' ++ extras1 /\
       colunas D0 = colunas P' ++ extras0 /\
       (forall c, c ∈ nomes P' ->
          procurar c (colunas D1) = procurar c (colunas P') /\
          procurar c (colunas D0) = procurar c (colunas P'))) /\
  (forall to_csv rng fs fs0 ano f P kp,
     carregar_censo_escolar fs ano "municipio" = Some P ->
     arquivo_censo ano "municipio" <> Some f -> sem_fonte f fs fs0 ->
     (fs0 !! arquivo_socioeconomico = None -> fs !! arquivo_socioeconomico = None) ->
     bem_formado P -> procurar "CO_MUNICIPIO" (colunas P) = Some kp ->
     coluna_sem_texto "CO_UF" (colunas P) ->
     fontes_municipio_validas to_csv rng fs ano kp ->
     let P' := normalizar_variaveis P (MkMapeamentos None None) "municipio" in
     let n := length (colunas P') in
     exists D1 D0,
       (integrar_dados_nivel_municipio to_csv rng fs ano).1 = Ok (Some D1) /\
       (integrar_dados_nivel_municipio to_csv rng fs0 ano).1 = Ok (Some D0) /\
       indice D1 = indice P /\ indice D0 = indice P /\
       (take n (colunas D1)).*2 = (colunas P').*2 /\
       (take n (colunas D0)).*2 = (colunas P').*2) /\
  (forall fs fs0 ano f P D1,
     carregar_censo_escolar fs ano "aluno" = Some P ->
     arquivo_censo ano "aluno" <> Some f -> sem_fonte f fs fs0 ->
     bem_formado P ->
     integrar_dados_nivel_aluno fs ano = Ok (Some D1) ->
     let n :=
       length (colunas (normalizar_variaveis P mapeamentos_censo_aluno "aluno")) in
     exists D0,
       integrar_dados_nivel_aluno fs0 ano = Ok (Some D0) /\
       indice D1 = indice P /\ indice D0 = indice P /\
       (take n (colunas D1)).*2 = (take n (colunas D0)).*2).
Proof.
  split; [|split].
  - intros fs fs0 ano f P kp HP Hne Hs Hwf HK Hval P'.
    destruct (integrar_escola_estende fs ano P kp HP Hwf HK Hval)
      as (D1 & HD1 & He1).
    destruct (integrar_escola_estende fs0 ano P kp) as (D0 & HD0 & He0);
      [rewrite (carregar_censo_sem_fonte f fs fs0 ano "escola" Hne Hs); exact HP
      |exact Hwf|exact HK
      |apply (fontes_escola_validas_sem_fonte f fs), Hval; exact Hs|].
    fold P' in He1, He0.
    destruct (normalizar_escola_forma P) as (Hi & _ & _). fold P' in Hi.
    pose proof He1 as (Hi1 & e1 & Hc1 & _). pose proof He0 as (Hi0 & e0 & Hc0 & _).
    exists D1, D0, e1, e0. repeat split; try assumption; try congruence.
    + apply estende_procurar; assumption.
    + apply estende_procurar; assumption.
  - intros to_csv rng fs fs0 ano f P kp HP Hne Hs Hsoc Hwf HK Hco Hval P' n.
    destruct (integrar_municipio_conserva to_csv rng fs ano P kp HP Hwf HK Hco Hval)
      as (D1 & HD1 & Hc1).
    destruct (integrar_municipio_conserva to_csv rng fs0 ano P kp)
      as (D0 & HD0 & Hc0);
      [rewrite (carregar_censo_sem_fonte f fs fs0 ano "municipio" Hne Hs); exact HP
      |exact Hwf|exact HK|exact Hco
      |apply (fontes_municipio_validas_sem_fonte to_csv rng f fs); assumption|].
    fold P' in Hc1, Hc0.
    destruct (normalizar_municipio_forma P) as (Hi & _ & _). fold P' in Hi.
    exists D1, D0. split; [exact HD1|]. split; [exact HD0|].
    split; [destruct Hc1 as [H _]; congruence|].
    split; [destruct Hc0 as [H _]; congruence|].
    split; apply conserva_dados; assumption.
  - apply integrar_aluno_sem_fonte.
Qed.

(** ** The simulated socioeconomic source *)

Section Simulados.

Lemma carregar_censo_insert (fs : diretorio) ano nivel a c :
  arquivo_censo ano nivel <> Some a ->
  carregar_censo_escolar (<[a := c]> fs) ano nivel = carregar_censo_escolar fs ano nivel.
Proof.
  intros Hne. unfold carregar_censo_escolar.
  destruct (arquivo_censo ano nivel) as [f|]; [|reflexivity]. simpl.
  unfold ler_csv. rewrite lookup_insert_ne by congruence. reflexivity.
Qed.

Lemma arquivo_censo_municipio ano :
  arquivo_censo ano "municipio" <> Some arquivo_socioeconomico.
Proof. unfold arquivo_censo. simpl. discriminate. Qed.













End Simulados.


(** ** The dropout rate of the Aggregator *)

(** A table given by its rows. *)
Definition de_linhas (rotulos : list string) (linhas : list (list celula)) : DataFrame :=
  MkDataFrame (length linhas)
    (imap (fun j n => (n, map (fun l => tomar l j) linhas)) rotulos).

Definition colunas_matricula : list string :=
  ["NU_ANO_CENSO"; "CO_UF"; "CO_MUNICIPIO"; "CO_ENTIDADE"; "TP_DEPENDENCIA";
   "TP_LOCALIZACAO"; "TP_SEXO"; "TP_COR_RACA"; "NU_IDADE"; "TP_ETAPA_ENSINO";
   "TP_SITUACAO"].

(** One enrolment of a school with its year-end status code. *)
Definition matricula (escola : string) (situacao : Z) : list celula :=
  [Some (inteiro 2022); Some (inteiro 35); Some (inteiro 3550308);
   Some (Texto escola); Some (inteiro 2); Some (inteiro 1); Some (inteiro 1);
   Some (inteiro 3); Some (inteiro 16); Some (inteiro 25); Some (inteiro situacao)].

(** Three schools: A with 10 students and 2 dropouts, B with 5 and none,
    C with 8 and 4. *)
Definition matriculas_cenario : DataFrame :=
  de_linhas colunas_matricula
    (replicate 2 (matricula "A" 4) ++ replicate 8 (matricula "A" 1) ++
     replicate 5 (matricula "B" 1) ++
     replicate 4 (matricula "C" 4) ++ replicate 4 (matricula "C" 2)).

Section Agregador.

(** The rate of one group as each aggregator computes it. *)
Definition media_do_grupo (ks flags : Series) (k : valor) (c : celula) : Prop :=
  exists x, numerica (celulas_do_grupo k ks flags) = Ok x /\ c = Num <$> media x.

Definition percentual_do_grupo (ks flags : Series) (k : valor) (c : celula) : Prop :=
  exists x, numerica (celulas_do_grupo k ks flags) = Ok x /\
            c = (fun m => Num (Qred (m * 100))) <$> media x.

(** [processar_censo_escolar] stores the plain mean of the flag. *)
Lemma taxa_do_script df A ks flags :
  procurar "CO_ENTIDADE" (colunas df) = Some ks ->
  procurar "ABANDONO" (colunas df) = Some flags ->
  agregado_escola df = Ok A ->
  exists taxas, procurar "TAXA_ABANDONO" (colunas A) = Some taxas /\
    Forall2 (media_do_grupo ks flags) (chaves_dos_grupos ks) taxas.
Proof.
  intros Hks Hfl. unfold agregado_escola.
  destruct (groupby_agg df "CO_ENTIDADE" _) as [agg|] eqn:E; [|discriminate].
  cbn [ligar]. intros [= <-].
  destruct (groupby_agg_forma _ _ _ _ ks Hks E) as (cols & -> & Hcols).
  repeat match goal with
  | H : Forall2 _ (_ :: _) _ |- _ =>
      apply Forall2_cons_inv_l in H as ([? ?] & ? & (? & ? & ? & ?) & ? & ->)
  | H : Forall2 _ [] _ |- _ => apply Forall2_nil_inv_l in H as ->
  end.
  cbn [fst snd] in *. subst.
  eexists. split; [reflexivity|].
  match goal with
  | H : procurar "ABANDONO" _ = Some ?s, H' : Forall2 _ _ ?t |- Forall2 _ _ ?t =>
      rewrite Hfl in H; injection H as <-;
      eapply Forall2_impl; [exact H'|]
  end.
  intros k c Hc. unfold agregar in Hc. unfold media_do_grupo.
  destruct (numerica (celulas_do_grupo k ks flags)) as [x|]; [|discriminate].
  cbn [ligar] in Hc. injection Hc as <-. eauto.
Qed.

Lemma series_vezes_Forall2 k s r :
  series_vezes k s = Ok r ->
  Forall2 (fun (c c' : celula) =>
             exists p : option Q,
               c = Num <$> p /\ c' = (fun u => Num (Qred (u * k))) <$> p) s r.
Proof.
  unfold series_vezes. destruct (numerica s) as [x|] eqn:E; [|discriminate].
  cbn [ligar]. intros [= <-]. apply numerica_Forall2 in E.
  apply Forall2_fmap_r. eapply Forall2_impl; [exact E|].
  intros c p ->. exists p. split; reflexivity.
Qed.

Lemma percentual_de_media ks flags (grupos : list valor) (taxa pct : Series) :
  Forall2 (fun k c => agregar Mean (celulas_do_grupo k ks flags) = Ok c) grupos taxa ->
  Forall2 (fun (c c' : celula) =>
             exists p : option Q,
               c = Num <$> p /\ c' = (fun u => Num (Qred (u * 100))) <$> p) taxa pct ->
  Forall2 (percentual_do_grupo ks flags) grupos pct.
Proof.
  intros Hm. revert pct.
  induction Hm as [|k c grupos taxa Hkc _ IH]; intros pct Ev.
  - apply Forall2_nil_inv_l in Ev as ->. constructor.
  - apply Forall2_cons_inv_l in Ev as (c' & pct' & (p & Hp & ->) & Ev & ->).
    constructor; [|apply IH, Ev].
    unfold agregar in Hkc. unfold percentual_do_grupo.
    destruct (numerica (celulas_do_grupo k ks flags)) as [x|]; [|discriminate].
    cbn [ligar] in Hkc. injection Hkc as <-. exists x. split; [reflexivity|].
    destruct (media x), p; simpl in Hp; try discriminate; [|reflexivity].
    injection Hp as <-. reflexivity.
Qed.

(** Section 5.1 of the notebook stores the mean of the flag times 100. *)
Lemma taxa_do_notebook df E ks flags :
  procurar "CO_ENTIDADE" (colunas df) = Some ks ->
  procurar "ABANDONO" (colunas df) = Some flags ->
  nb_agregar_escola df = Ok E ->
  exists taxas, procurar "TAXA_ABANDONO" (colunas E) = Some taxas /\
    Forall2 (percentual_do_grupo ks flags) (chaves_dos_grupos ks) taxas.
Proof.
  intros Hks Hfl. unfold nb_agregar_escola.
  destruct (groupby_agg df "CO_ENTIDADE" _) as [agg|] eqn:Eg; [|discriminate].
  cbn [ligar].
  destruct (groupby_agg_forma _ _ _ _ ks Hks Eg) as (cols & -> & Hcols).
  repeat match goal with
  | H : Forall2 _ (_ :: _) _ |- _ =>
      apply Forall2_cons_inv_l in H as ([? ?] & ? & (? & ? & ? & ?) & ? & ->)
  | H : Forall2 _ [] _ |- _ => apply Forall2_nil_inv_l in H as ->
  end.
  cbn [fst snd] in *. subst.
  unfold obter, renomear. cbn [colunas indice map procurar fst snd String.eqb
    Ascii.eqb Bool.eqb default from_option id].
  cbv beta iota. cbn [ligar].
  match goal with
  | |- context [series_vezes 100 ?t] =>
      destruct (series_vezes 100 t) as [pct|] eqn:Ev; [|discriminate]
  end.
  cbn [ligar]. intros [= <-]. exists pct. split; [reflexivity|].
  apply series_vezes_Forall2 in Ev.
  match goal with
  | H : procurar "ABANDONO" _ = Some _ |- _ => rewrite Hfl in H; injection H as <-
  end.
  match goal with
  | Hm : Forall2 (fun k c => agregar Mean _ = Ok c) _ _ |- _ =>
      apply (percentual_de_media ks flags _ _ _ Hm Ev)
  end.
Qed.

End Agregador.

(** C3. On the scenario (A: 10 students and 2 dropouts, B: 5 and none,
    C: 8 and 4) the notebook's aggregation yields the rates 20, 0 and 50,
    the mean of the flag times 100, whereas [processar_censo_escolar], which
    writes the aggregate the Integrator loads, stops at the mean and yields
    1/5, 0 and 1/2 under the same column name. *)
Theorem taxa_abandono_cenario :
  (seja df <- nb_padronizar matriculas_cenario em
   seja df_escola <- nb_agregar_escola df em
   seja chaves <- obter "CO_ENTIDADE" df_escola em
   seja taxas <- obter "TAXA_ABANDONO" df_escola em Ok (chaves, taxas)) =
    Ok ([Some (Texto "A"); Some (Texto "B"); Some (Texto "C")],
        [Some (Num 20); Some (Num 0); Some (Num 50)]) /\
  (seja df_agregado_escola <- agregado_escola (criar_abandono matriculas_cenario) em
   seja chaves <- obter "CO_ENTIDADE" df_agregado_escola em
   seja taxas <- obter "TAXA_ABANDONO" df_agregado_escola em Ok (chaves, taxas)) =
    Ok ([Some (Texto "A"); Some (Texto "B"); Some (Texto "C")],
        [Some (Num (1 # 5)); Some (Num 0); Some (Num (1 # 2))]).
Proof. split; vm_compute; reflexivity. Qed.

(** ** Properties of the Consistency Checker *)

Section Verificador.

Lemma Qltb_lt a b : Qltb a b = true <-> (a < b)%Q.
Proof.
  unfold Qltb. rewrite negb_true_iff. split.
  - intros H. apply Qnot_le_lt. intros Hle. apply Qle_bool_iff in Hle. congruence.
  - intros H. apply not_true_is_false. intros Hle. apply Qle_bool_iff in Hle.
    apply (Qlt_not_le _ _ H Hle).
Qed.

Lemma Qltb_ge a b : Qltb a b = false <-> (b <= a)%Q.
Proof.
  unfold Qltb. rewrite negb_false_iff. apply Qle_bool_iff.
Qed.

Lemma clip_limites q : (0 <= clip 0 100 q)%Q /\ (clip 0 100 q <= 100)%Q.
Proof.
  unfold clip. destruct (Qltb q 0) eqn:E1; [split; [apply Qle_refl|discriminate]|].
  apply Qltb_ge in E1.
  destruct (Qltb 100 q) eqn:E2; [split; [discriminate|apply Qle_refl]|].
  apply Qltb_ge in E2. split; assumption.
Qed.

(** A rate is counted as invalid exactly when clamping changes it. *)
Lemma taxa_fora_clip q :
  (taxa_fora (Some q) = false -> clip 0 100 q = q) /\
  (taxa_fora (Some q) = true -> ~ (clip 0 100 q == q)%Q).
Proof.
  unfold taxa_fora, clip. split.
  - intros H. apply orb_false_iff in H as [-> ->]. reflexivity.
  - intros H. destruct (Qltb q 0) eqn:E1.
    + apply Qltb_lt in E1. intros Heq. rewrite <- Heq in E1.
      apply (Qlt_irrefl _ E1).
    + simpl in H. rewrite H. apply Qltb_lt in H. intros Heq. rewrite <- Heq in H.
      apply (Qlt_irrefl _ H).
Qed.

Lemma numerica_lookup_inv s x i q :
  numerica s = Ok x -> x !! i = Some (Some q) -> s !! i = Some (Some (Num q)).
Proof.
  unfold numerica. revert x i.
  induction s as [|c s IH]; intros x i Hx Hi.
  - injection Hx as <-. destruct i; discriminate.
  - simpl in Hx. destruct (numerico c) as [b|] eqn:Ec; [|discriminate].
    simpl in Hx. destruct (mapear_r numerico s) as [bs|] eqn:Es; [|discriminate].
    injection Hx as <-. destruct i as [|i]; simpl in *.
    + injection Hi as ->. destruct c as [[p|t]|]; simpl in Ec; congruence.
    + apply (IH bs i eq_refl Hi).
Qed.

Lemma filter_nil_lookup {A} (p : A -> bool) (l : list A) i a :
  List.filter p l = [] -> l !! i = Some a -> p a = false.
Proof.
  intros Hf Hi. destruct (p a) eqn:E; [|reflexivity].
  assert (In a (List.filter p l)) as Hin.
  { apply filter_In. split; [|exact E]. apply list_elem_of_In.
    apply list_elem_of_lookup. eauto. }
  rewrite Hf in Hin. destruct Hin.
Qed.

End Verificador.

(** C4. After the bounds check of the Consistency Checker every rate lies in
    [0, 100]: each rate is replaced by its clamped value (which is the rate
    itself when it was in range), and the rows that had to be clamped are
    counted and reported in a WARNING line when there are any; no line is
    logged and the dataset is untouched when there are none. *)
Theorem taxas_no_intervalo df taxas x :
  procurar "TAXA_ABANDONO" (colunas df) = Some taxas ->
  numerica taxas = Ok x ->
  let invalidas := length (List.filter taxa_fora x) in
  exists df' log taxas',
    verificar_taxas df = Ok (df', log) /\
    procurar "TAXA_ABANDONO" (colunas df') = Some taxas' /\
    (forall i q, x !! i = Some (Some q) ->
       taxas' !! i = Some (Some (Num (clip 0 100 q))) /\
       (0 <= clip 0 100 q)%Q /\ (clip 0 100 q <= 100)%Q /\
       (taxa_fora (Some q) = false -> clip 0 100 q = q) /\
       (taxa_fora (Some q) = true -> ~ (clip 0 100 q == q)%Q)) /\
    (invalidas = 0 -> log = [] /\ df' = df) /\
    (0 < invalidas ->
       log = [MkRegistro "WARNING"
                ("Encontradas " +:+ pretty invalidas +:+
                 " taxas de abandono inválidas. Corrigindo...")]).
Proof.
  intros Ht Hx invalidas. unfold verificar_taxas, obter. rewrite Ht. cbn [ligar].
  rewrite Hx. cbn [ligar]. fold invalidas.
  destruct (Nat.ltb 0 invalidas) eqn:E.
  - apply Nat.ltb_lt in E. eexists _, _, _. split; [reflexivity|].
    cbn [colunas atribuir]. rewrite procurar_atribuir_mesma.
    split; [reflexivity|]. split; [|split; [lia|reflexivity]].
    intros i q Hi. rewrite lookup_map, Hi.
    split; [reflexivity|].
    destruct (clip_limites q), (taxa_fora_clip q). auto.
  - apply Nat.ltb_ge in E. assert (invalidas = 0) as H0 by lia.
    exists df, [], taxas. split; [reflexivity|]. split; [exact Ht|].
    split; [|split; [auto|lia]].
    intros i q Hi.
    assert (taxa_fora (Some q) = false) as Hq.
    { apply (filter_nil_lookup taxa_fora x i); [|exact Hi].
      apply length_zero_iff_nil. exact H0. }
    destruct (taxa_fora_clip q) as [Hin Hout]. rewrite (Hin Hq).
    split; [apply (numerica_lookup_inv _ _ _ _ Hx Hi)|].
    rewrite <- (Hin Hq) at 1 2. destruct (clip_limites q).
    repeat split; auto. congruence.
Qed.

Section Ausentes.

(** The numbers of a column, nulls and anything else as missing. *)
Definition como_numeros (s : Series) : list (option Q) :=
  map (fun c : celula => match c with Some (Num q) => Some q | _ => None end) s.

(** A numeric column after the automatic treatment: its nulls hold the mean
    of the values that were present. *)
Definition imputada (s : Series) : Series :=
  fillna_valor (Num <$> media (como_numeros s)) s.

(** What section 6.1 does to one column. *)
Definition tratar_coluna (ns : string * Series) : string * Series :=
  if dtype_numerico ns.2 && Nat.ltb 0 (nulos ns.2) then (ns.1, imputada ns.2) else ns.

Lemma numerica_como_numeros s :
  forallb sem_texto s = true -> numerica s = Ok (como_numeros s).
Proof.
  unfold numerica. induction s as [|c s IH]; simpl; [reflexivity|].
  intros H. apply andb_true_iff in H as [Hc Hs]. rewrite (IH Hs).
  destruct c as [[q|t]|]; simpl in *; try discriminate; reflexivity.
Qed.

Lemma nomes_tratar (l : list (string * Series)) : (map tratar_coluna l).*1 = l.*1.
Proof.
  induction l as [|[n s] l IH]; [reflexivity|].
  cbn [map fmap list_fmap]. f_equal; [|exact IH].
  unfold tratar_coluna. cbn [fst snd].
  destruct (dtype_numerico s && Nat.ltb 0 (nulos s)); reflexivity.
Qed.

Lemma imputar_coluna_passo n pre c s pos :
  c ∉ pre.*1 -> dtype_numerico s = true ->
  imputar_coluna (MkDataFrame n (map tratar_coluna pre ++ (c, s) :: pos)) c =
  Ok (MkDataFrame n (map tratar_coluna (pre ++ [(c, s)]) ++ pos)).
Proof.
  intros Hc Hnum. unfold imputar_coluna, obter. cbn [colunas].
  rewrite procurar_app_r by (rewrite nomes_tratar; exact Hc).
  cbn [procurar]. rewrite String.eqb_refl. cbn [ligar].
  rewrite map_app, <- app_assoc. cbn [map app].
  change (tratar_coluna (c, s))
    with (if dtype_numerico s && Nat.ltb 0 (nulos s) then (c, imputada s) else (c, s)).
  rewrite Hnum. cbn [andb].
  destruct (Nat.ltb 0 (nulos s)); [|reflexivity].
  unfold series_mean.
  rewrite (numerica_como_numeros s (dtype_numerico_sem_texto s Hnum)).
  cbn [ligar]. unfold atribuir. cbn [colunas indice].
  rewrite atribuir_colunas_app_r by (rewrite nomes_tratar; exact Hc).
  cbn [atribuir_colunas]. rewrite String.eqb_refl. reflexivity.
Qed.

Lemma imputar_todas n pre pos :
  NoDup (pre ++ pos).*1 ->
  fold_left (fun acc col => seja d <- acc em imputar_coluna d col)
    (map fst (List.filter (fun ns : string * Series => dtype_numerico ns.2) pos))
    (Ok (MkDataFrame n (map tratar_coluna pre ++ pos))) =
  Ok (MkDataFrame n (map tratar_coluna (pre ++ pos))).
Proof.
  revert pre. induction pos as [|[c s] pos IH]; intros pre Hnd.
  - rewrite !app_nil_r. reflexivity.
  - assert (c ∉ pre.*1) as Hc.
    { rewrite fmap_app in Hnd. apply NoDup_app in Hnd as (_ & Hd & _).
      intros Hin. apply (Hd c Hin). left. }
    assert (NoDup ((pre ++ [(c, s)]) ++ pos).*1) as Hnd'
      by (rewrite <- app_assoc; exact Hnd).
    cbn [List.filter snd]. destruct (dtype_numerico s) eqn:Hnum.
    + cbn [map fst fold_left ligar].
      rewrite (imputar_coluna_passo n pre c s pos Hc Hnum).
      rewrite (IH (pre ++ [(c, s)]) Hnd'), <- app_assoc. reflexivity.
    + specialize (IH (pre ++ [(c, s)]) Hnd').
      rewrite map_app, <- !app_assoc in IH. cbn [map app] in IH.
      change (tratar_coluna (c, s))
        with (if dtype_numerico s && Nat.ltb 0 (nulos s)
              then (c, imputada s) else (c, s)) in IH.
      rewrite Hnum in IH. cbn [andb] in IH. exact IH.
Qed.

Lemma sem_nulos_tratar (l : list (string * Series)) :
  list_sum (map (fun ns : string * Series => nulos ns.2) l) = 0 ->
  map tratar_coluna l = l.
Proof.
  induction l as [|[c s] l IH]; simpl; [reflexivity|].
  intros H. assert (nulos s = 0) as Hs by lia.
  rewrite IH by lia. unfold tratar_coluna. simpl. rewrite Hs.
  rewrite andb_false_r. reflexivity.
Qed.

Lemma relatorio_vazio df (l : list (string * Series)) :
  list_sum (map (fun ns : string * Series => nulos ns.2) l) = 0 ->
  List.filter (fun r : string * nat * PrimFloat.float => Nat.ltb 0 r.1.2)
    (map (linha_ausentes df) l) = [].
Proof.
  induction l as [|[c s] l IH]; [reflexivity|].
  intros H0. simpl in H0.
  assert (nulos s = 0) as Hs by lia.
  cbn [map]. unfold linha_ausentes at 1. cbn [List.filter fst snd].
  rewrite Hs. cbn [Nat.ltb Nat.leb].
  apply IH. lia.
Qed.

End Ausentes.

(** C9 (as amended). The missing-value pass reports, for every column with
    nulls, its null count and percentage, and in the same run it treats the
    dataset: as soon as one null is present, the nulls of every numeric
    column are filled with the mean of that column. Non-numeric columns are
    left as they are (no sentinel label is written), and a dataset without
    nulls is returned unchanged with an empty report. *)
Theorem ausentes_tratados_na_verificacao df :
  NoDup (nomes df) ->
  let total := list_sum (map (fun ns : string * Series => nulos ns.2) (colunas df)) in
  let impresso :=
    List.filter (fun l : string * nat * PrimFloat.float => Nat.ltb 0 l.1.2)
      (map (linha_ausentes df) (colunas df)) in
  verificar_valores_ausentes df =
    Ok (impresso, MkDataFrame (indice df) (map tratar_coluna (colunas df))) /\
  (total = 0 -> verificar_valores_ausentes df = Ok ([], df)) /\
  (forall c s, (c, s) ∈ colunas df -> dtype_numerico s = false ->
     (c, s) ∈ map tratar_coluna (colunas df)) /\
  (forall c s, (c, s) ∈ colunas df -> dtype_numerico s = true -> 0 < nulos s ->
     (c, imputada s) ∈ map tratar_coluna (colunas df)).
Proof.
  intros Hnd total impresso.
  assert (verificar_valores_ausentes df =
          Ok (impresso, MkDataFrame (indice df) (map tratar_coluna (colunas df))))
    as Hv.
  { unfold verificar_valores_ausentes. fold impresso.
    rewrite map_map. cbn [linha_ausentes fst snd]. fold total.
    destruct (Nat.ltb 0 total) eqn:E.
    - pose proof (imputar_todas (indice df) [] (colunas df) Hnd) as H.
      cbn [map app] in H. destruct df as [n cols]. cbn [colunas indice] in *.
      rewrite H. reflexivity.
    - apply Nat.ltb_ge in E. rewrite sem_nulos_tratar by (fold total; lia).
      destruct df; reflexivity. }
  split; [exact Hv|]. split; [|split].
  - intros H0. rewrite Hv. rewrite sem_nulos_tratar by exact H0.
    unfold impresso. rewrite (relatorio_vazio df (colunas df) H0).
    destruct df; reflexivity.
  - intros c s Hin Hnum. apply list_elem_of_In, in_map_iff. exists (c, s).
    split; [|apply list_elem_of_In, Hin].
    unfold tratar_coluna. cbn [snd]. rewrite Hnum. reflexivity.
  - intros c s Hin Hnum Hpos. apply list_elem_of_In, in_map_iff. exists (c, s).
    split; [|apply list_elem_of_In, Hin].
    unfold tratar_coluna. cbn [fst snd]. rewrite Hnum.
    apply Nat.ltb_lt in Hpos. rewrite Hpos. reflexivity.
Qed.

(** A municipality table in which one IDEB value is missing. *)
Definition municipios_exemplo : DataFrame :=
  MkDataFrame 3
    [("CO_MUNICIPIO", [Some (inteiro 1); Some (inteiro 2); Some (inteiro 3)]);
     ("REGIAO", [Some (Texto "Sul"); None; Some (Texto "Norte")]);
     ("TAXA_ABANDONO", [Some (inteiro (-5)); Some (inteiro 50); Some (inteiro 120)]);
     ("IDEB", [Some (inteiro 4); None; Some (inteiro 6)])].

(** The percentages of the report are the doubles the program prints: 23
    nulls in 160 rows are reported as 14.37 (the product is
    1437.4999999999998 in binary64), and 1 null in 3 rows as 33.33. *)
Example percentual_ausente_exemplos :
  percentual_ausente 23 160 = PrimFloat.div (float_de_nat 1437) (float_de_nat 100) /\
  percentual_ausente 1 3 = PrimFloat.div (float_de_nat 3333) (float_de_nat 100).
Proof. split; vm_compute; reflexivity. Qed.

(** C9, the claim as stated fails: the checking run itself changes the
    dataset. The report has one null (33.33 percent) for the region and for
    the IDEB; the missing IDEB becomes the column mean 5, while the missing
    region stays missing. *)
Lemma verificacao_altera_dados :
  verificar_valores_ausentes municipios_exemplo =
    Ok ([("REGIAO", 1, PrimFloat.div (float_de_nat 3333) (float_de_nat 100));
         ("IDEB", 1, PrimFloat.div (float_de_nat 3333) (float_de_nat 100))],
        MkDataFrame 3
          [("CO_MUNICIPIO", [Some (inteiro 1); Some (inteiro 2); Some (inteiro 3)]);
           ("REGIAO", [Some (Texto "Sul"); None; Some (Texto "Norte")]);
           ("TAXA_ABANDONO",
            [Some (inteiro (-5)); Some (inteiro 50); Some (inteiro 120)]);
           ("IDEB", [Some (inteiro 4); Some (inteiro 5); Some (inteiro 6)])]) /\
  (forall relatorio df, verificar_valores_ausentes municipios_exemplo = Ok (relatorio, df) ->
     df <> municipios_exemplo).
Proof.
  split; [vm_compute; reflexivity|].
  intros relatorio df H. vm_compute in H. injection H as _ <-. discriminate.
Qed.

(** ** The theorems on concrete runs *)

Definition sorteios_exemplo : sorteios :=
  MkSorteios (fun i => Z.of_nat i) (fun _ => 1%Q) (fun _ => (1 # 10)%Q)
    (fun _ => (9 # 2)%Q) (fun _ => (1 # 5)%Q) (fun _ => (1 # 2)%Q).

Definition alunos_exemplo : DataFrame :=
  MkDataFrame 2 [("NU_IDADE", [Some (inteiro 18); Some (inteiro 15)]);
                 ("TP_ETAPA_ENSINO", [Some (inteiro 25); Some (inteiro 29)])].

Definition escolas_exemplo : DataFrame :=
  MkDataFrame 2 [("CO_ENTIDADE", [Some (inteiro 1); Some (inteiro 2)]);
                 ("TP_DEPENDENCIA", [Some (inteiro 2); Some (inteiro 9)]);
                 ("IN_INTERNET", [Some (inteiro 1); Some (inteiro 0)]);
                 ("IN_BIBLIOTECA", [Some (inteiro 0); None])].

(** What [read_csv] finds in a file written by [to_csv], for the tables of
    the examples (integers, short decimals and labels): the table that was
    written, except that a column holding a label is read as strings, its
    integers in decimal notation. *)
Definition to_csv_exemplo : escrita := fun df =>
  Legivel
    (MkDataFrame (indice df)
       (map (fun ns : string * Series =>
               (ns.1,
                if tem_texto ns.2
                then map (fun c : celula =>
                            match c with
                            | Some (Num q) => Some (Texto (pretty (Qfloor q)))
                            | _ => c
                            end) ns.2
                else ns.2)) (colunas df))).

Definition censo_municipio_exemplo : DataFrame :=
  MkDataFrame 2 [("CO_MUNICIPIO", [Some (inteiro 1000002); Some (inteiro 9999999)]);
                 ("TAXA_ABANDONO", [Some (inteiro 12); Some (inteiro 7)])].

Definition rendimento_municipio_exemplo : DataFrame :=
  MkDataFrame 2 [("CO_MUNICIPIO", [Some (inteiro 9999999); Some (inteiro 5)]);
                 ("TAXA_APROVACAO", [Some (inteiro 90); Some (inteiro 80)])].

(** A municipality-level directory: the census aggregate and one indicator
    table; the socioeconomic file is absent. *)
Definition diretorio_municipio_exemplo : diretorio :=
  <["censo_escolar_2022_agregado_municipio.csv" := Legivel censo_municipio_exemplo]>
    (<["indicadores_rendimento_2022.csv" := Legivel rendimento_municipio_exemplo]> ∅).

Definition censo_aluno_exemplo : DataFrame :=
  MkDataFrame 3 [("CO_ENTIDADE", [Some (inteiro 1); Some (inteiro 1); Some (inteiro 2)]);
                 ("NU_IDADE", [Some (inteiro 18); Some (inteiro 15); Some (inteiro 16)]);
                 ("TP_ETAPA_ENSINO",
                  [Some (inteiro 25); Some (inteiro 29); Some (inteiro 27)])].

Definition saeb_aluno_exemplo : DataFrame :=
  MkDataFrame 3 [("CO_ENTIDADE", [Some (inteiro 1); Some (inteiro 1); Some (inteiro 3)]);
                 ("PROFICIENCIA_MT",
                  [Some (inteiro 250); Some (inteiro 270); Some (inteiro 300)])].

(** A student-level directory: the enrolments and the SAEB student file. *)
Definition diretorio_aluno_exemplo : diretorio :=
  <["censo_escolar_2023_ensino_medio.csv" := Legivel censo_aluno_exemplo]>
    (<["saeb_2023_aluno.csv" := Legivel saeb_aluno_exemplo]> ∅).

Lemma fontes_exemplo_validas :
  fontes_escola_validas (diretorio_exemplo saeb_exemplo) 2023
    [Some (inteiro 1); Some (inteiro 2)].
Proof.
  split.
  - intros S H. vm_compute in H. injection H as <-.
    eexists. split; [|split]; vm_compute; reflexivity.
  - intros tipo I Ht H. unfold tipos_indicadores in Ht.
    repeat (apply elem_of_cons in Ht as [->|Ht]; [vm_compute in H; discriminate H|]).
    inversion Ht.
Defined.

Lemma simulados_exemplo_juntaveis :
  juntavel_com_chave "CO_MUNICIPIO" [Some (inteiro 1000002); Some (inteiro 9999999)]
    (dados_simulados sorteios_exemplo) /\
  coluna_sem_texto "CO_UF" (colunas (dados_simulados sorteios_exemplo)).
Proof.
  split.
  - eexists. split; [reflexivity|]. split; vm_compute; reflexivity.
  - intros s Hin. unfold dados_simulados in Hin. cbn [colunas] in Hin.
    repeat (apply elem_of_cons in Hin as [Hin|Hin]; [discriminate Hin|]).
    inversion Hin.
Defined.

Lemma fontes_municipio_exemplo_validas :
  fontes_municipio_validas to_csv_exemplo sorteios_exemplo
    diretorio_municipio_exemplo 2022
    [Some (inteiro 1000002); Some (inteiro 9999999)].
Proof.
  split; [|split].
  - intros S H. unfold carregar_dados_socioeconomicos in H.
    replace (diretorio_municipio_exemplo !! arquivo_socioeconomico)
      with (@None conteudo) in H by (vm_compute; reflexivity).
    cbn [fst] in H. injection H as <-. exact simulados_exemplo_juntaveis.
  - intros tipo I Ht H. unfold tipos_indicadores in Ht.
    apply elem_of_cons in Ht as [->|Ht].
    + vm_compute in H. injection H as <-. split.
      * intros ks Hks. vm_compute in Hks. injection Hks as <-.
        split; vm_compute; reflexivity.
      * intros s Hin. cbn [colunas rendimento_municipio_exemplo] in Hin.
        repeat (apply elem_of_cons in Hin as [Hin|Hin]; [discriminate Hin|]).
        inversion Hin.
    + repeat (apply elem_of_cons in Ht as [->|Ht]; [vm_compute in H; discriminate H|]).
      inversion Ht.
  - intros S H. vm_compute in H. discriminate H.
Defined.

Lemma juncao_preserva_linhas_exemplo :
  (exists D, integrar_dados_nivel_escola (diretorio_exemplo saeb_exemplo) 2023 =
               Ok (Some D) /\ indice D = indice censo_exemplo) /\
  (exists D, (integrar_dados_nivel_municipio to_csv_exemplo sorteios_exemplo
                diretorio_municipio_exemplo 2022).1 = Ok (Some D) /\
             indice D = indice censo_municipio_exemplo).
Proof.
  split.
  - apply (proj1 (proj2 juncao_preserva_linhas)
             (diretorio_exemplo saeb_exemplo) 2023%Z censo_exemplo
             [Some (inteiro 1); Some (inteiro 2)]).
    + vm_compute. reflexivity.
    + repeat constructor.
    + reflexivity.
    + exact fontes_exemplo_validas.
  - apply (proj2 (proj2 juncao_preserva_linhas)
             to_csv_exemplo sorteios_exemplo diretorio_municipio_exemplo 2022%Z
             censo_municipio_exemplo
             [Some (inteiro 1000002); Some (inteiro 9999999)]).
    + vm_compute. reflexivity.
    + repeat constructor.
    + reflexivity.
    + intros s Hin. cbn [colunas censo_municipio_exemplo] in Hin.
      repeat (apply elem_of_cons in Hin as [Hin|Hin]; [discriminate Hin|]).
      inversion Hin.
    + exact fontes_municipio_exemplo_validas.
Defined.

Lemma juncao_sem_validacao_exemplo :
  (exists D', integrar_saeb_escola
                (carregar_saeb (diretorio_exemplo saeb_duplicado) 2023) censo_exemplo =
              Ok D' /\ indice D' = 3) /\
  (exists D', integrar_indicador "CO_ENTIDADE" censo_exemplo saeb_duplicado = Ok D' /\
              indice D' = 3).
Proof.
  destruct (juncao_sem_validacao "CO_ENTIDADE" censo_exemplo saeb_duplicado
              [Some (inteiro 1); Some (inteiro 2)] [Some (inteiro 1); Some (inteiro 1)]
              eq_refl eq_refl eq_refl) as (H1 & H2 & _).
  split.
  - apply (H1 (carregar_saeb (diretorio_exemplo saeb_duplicado) 2023) saeb_duplicado
             eq_refl); vm_compute; reflexivity.
  - apply H2. vm_compute. lia.
Defined.

Lemma taxas_no_intervalo_exemplo :
  exists df' log taxas',
    verificar_taxas municipios_exemplo = Ok (df', log) /\
    procurar "TAXA_ABANDONO" (colunas df') = Some taxas' /\
    taxas' !! 0 = Some (Some (Num 0)) /\ taxas' !! 2 = Some (Some (Num 100)) /\
    log = [MkRegistro "WARNING"
             "Encontradas 2 taxas de abandono inválidas. Corrigindo..."].
Proof.
  destruct (taxas_no_intervalo municipios_exemplo
              [Some (inteiro (-5)); Some (inteiro 50); Some (inteiro 120)]
              [Some (inject_Z (-5)); Some (inject_Z 50); Some (inject_Z 120)]
              eq_refl eq_refl)
    as (df' & log & taxas' & H1 & H2 & H3 & _ & H5).
  exists df', log, taxas'. split; [exact H1|]. split; [exact H2|].
  split; [apply (H3 0 (inject_Z (-5)) eq_refl)|].
  split; [apply (H3 2 (inject_Z 120) eq_refl)|].
  apply H5. vm_compute. lia.
Defined.

Lemma normalizar_variaveis_idempotente_exemplo :
  let mp := mapeamentos_censo_escola in
  normalizar_variaveis (normalizar_variaveis escolas_exemplo mp "escola") mp "escola" =
  normalizar_variaveis escolas_exemplo mp "escola".
Proof.
  apply (normalizar_variaveis_idempotente
           [("TP_DEPENDENCIA",
             [(inteiro 1, Texto "Federal"); (inteiro 2, Texto "Estadual");
              (inteiro 3, Texto "Municipal"); (inteiro 4, Texto "Privada")]);
            ("TP_LOCALIZACAO",
             [(inteiro 1, Texto "Urbana"); (inteiro 2, Texto "Rural")])]
           escolas_exemplo "escola").
  - compute_done.
  - repeat constructor.
Defined.

Lemma idade_esperada_faixas_exemplo :
  idade_esperada (Some (Num 25)) = 15%Z /\ idade_esperada (Some (Num (58 # 2))) = 17%Z /\
  idade_esperada (Some (Num 99)) = 16%Z.
Proof.
  split; [|split].
  - apply (proj1 idade_esperada_faixas 25%Q 25%Z). reflexivity.
  - apply (proj1 idade_esperada_faixas (58 # 2)%Q 29%Z). reflexivity.
  - apply (proj1 idade_esperada_faixas 99%Q 99%Z). reflexivity.
Defined.

Lemma distorcao_idade_serie_exemplo :
  exists df' dist,
    derivar_distorcao alunos_exemplo = Ok df' /\
    procurar "DISTORCAO_IDADE_SERIE" (colunas df') = Some dist /\
    (exists d, dist !! 0 = Some (Some (Num d)) /\ (d == 3)%Q) /\
    (exists d, dist !! 1 = Some (Some (Num d)) /\ (d == 0)%Q).
Proof.
  destruct (proj1 (distorcao_idade_serie alunos_exemplo
                     [Some (inteiro 18); Some (inteiro 15)]
                     [Some (inteiro 25); Some (inteiro 29)]
                     [Some (inject_Z 18); Some (inject_Z 15)]
                     eq_refl eq_refl eq_refl))
    as (df' & dist & H1 & H2 & H3).
  exists df', dist. split; [exact H1|]. split; [exact H2|]. split.
  - destruct (H3 0 (inject_Z 18) (Some (inteiro 25)) eq_refl eq_refl)
      as (d & Hd & Hq & _).
    exists d. split; [exact Hd|]. rewrite Hq. reflexivity.
  - destruct (H3 1 (inject_Z 15) (Some (inteiro 29)) eq_refl eq_refl)
      as (d & Hd & Hq & _).
    exists d. split; [exact Hd|]. rewrite Hq. reflexivity.
Defined.

Lemma fonte_ausente_preserva_primaria_exemplo :
  (exists D1 D0,
     integrar_dados_nivel_escola (diretorio_exemplo saeb_exemplo) 2023 = Ok (Some D1) /\
     integrar_dados_nivel_escola
       (delete "saeb_2023_escola.csv" (diretorio_exemplo saeb_exemplo)) 2023 =
       Ok (Some D0) /\
     indice D1 = 2 /\ indice D0 = 2 /\
     procurar "TAXA_ABANDONO" (colunas D1) = procurar "TAXA_ABANDONO" (colunas D0)) /\
  (exists D1 D0,
     (integrar_dados_nivel_municipio to_csv_exemplo sorteios_exemplo
        diretorio_municipio_exemplo 2022).1 = Ok (Some D1) /\
     (integrar_dados_nivel_municipio to_csv_exemplo sorteios_exemplo
        (delete "indicadores_rendimento_2022.csv" diretorio_municipio_exemplo) 2022).1 =
       Ok (Some D0) /\
     indice D1 = 2 /\ indice D0 = 2 /\
     (take 2 (colunas D1)).*2 = (take 2 (colunas D0)).*2) /\
  (exists D1 D0,
     integrar_dados_nivel_aluno diretorio_aluno_exemplo 2023 = Ok (Some D1) /\
     integrar_dados_nivel_aluno
       (delete "saeb_2023_aluno.csv" diretorio_aluno_exemplo) 2023 = Ok (Some D0) /\
     indice D1 = 3 /\ indice D0 = 3 /\
     (take 3 (colunas D1)).*2 = (take 3 (colunas D0)).*2).
Proof.
  destruct fonte_ausente_preserva_primaria as (Hesc & Hmun & Halu).
  split; [|split].
  - destruct (Hesc (diretorio_exemplo saeb_exemplo)
                (delete "saeb_2023_escola.csv" (diretorio_exemplo saeb_exemplo))
                2023%Z "saeb_2023_escola.csv" censo_exemplo
                [Some (inteiro 1); Some (inteiro 2)])
      as (D1 & D0 & e1 & e0 & H1 & H0 & Hi1 & Hi0 & _ & _ & Hc).
    + vm_compute. reflexivity.
    + vm_compute. discriminate.
    + apply sem_fonte_delete.
    + repeat constructor.
    + reflexivity.
    + exact fontes_exemplo_validas.
    + exists D1, D0. split; [exact H1|]. split; [exact H0|].
      split; [exact Hi1|]. split; [exact Hi0|].
      destruct (Hc "TAXA_ABANDONO") as [Ha Hb].
      * vm_compute. right. left.
      * rewrite Ha, Hb. reflexivity.
  - destruct (Hmun to_csv_exemplo sorteios_exemplo diretorio_municipio_exemplo
                (delete "indicadores_rendimento_2022.csv" diretorio_municipio_exemplo)
                2022%Z "indicadores_rendimento_2022.csv" censo_municipio_exemplo
                [Some (inteiro 1000002); Some (inteiro 9999999)])
      as (D1 & D0 & H1 & H0 & Hi1 & Hi0 & Hd1 & Hd0).
    + vm_compute. reflexivity.
    + vm_compute. discriminate.
    + apply sem_fonte_delete.
    + intros _. vm_compute. reflexivity.
    + repeat constructor.
    + reflexivity.
    + intros s Hin. cbn [colunas censo_municipio_exemplo] in Hin.
      repeat (apply elem_of_cons in Hin as [Hin|Hin]; [discriminate Hin|]).
      inversion Hin.
    + exact fontes_municipio_exemplo_validas.
    + exists D1, D0. split; [exact H1|]. split; [exact H0|].
      split; [exact Hi1|]. split; [exact Hi0|].
      change (length (colunas (normalizar_variaveis censo_municipio_exemplo
                                 (MkMapeamentos None None) "municipio"))) with 2 in Hd1, Hd0.
      rewrite Hd1, Hd0. reflexivity.
  - destruct (Halu diretorio_aluno_exemplo
                (delete "saeb_2023_aluno.csv" diretorio_aluno_exemplo)
                2023%Z "saeb_2023_aluno.csv" censo_aluno_exemplo
                (MkDataFrame 3
                   [("CO_ENTIDADE", [Some (inteiro 1); Some (inteiro 1); Some (inteiro 2)]);
                    ("NU_IDADE", [Some (inteiro 18); Some (inteiro 15); Some (inteiro 16)]);
                    ("TP_ETAPA_ENSINO",
                     [Some (inteiro 25); Some (inteiro 29); Some (inteiro 27)]);
                    ("PROFICIENCIA_MT", [Some (Num 260); Some (Num 260); None]);
                    ("IDADE_ESPERADA",
                     [Some (inteiro 15); Some (inteiro 17); Some (inteiro 16)]);
                    ("DISTORCAO_IDADE_SERIE",
                     [Some (inteiro 3); Some (inteiro 0); Some (inteiro 0)])]))
      as (D0 & H0 & Hi1 & Hi0 & Hd).
    + vm_compute. reflexivity.
    + vm_compute. discriminate.
    + apply sem_fonte_delete.
    + repeat constructor.
    + vm_compute. reflexivity.
    + eexists _, D0. split; [vm_compute; reflexivity|]. split; [exact H0|].
      split; [exact Hi1|]. split; [exact Hi0|]. exact Hd.
Defined.

Lemma ausentes_tratados_na_verificacao_exemplo :
  exists relatorio,
    verificar_valores_ausentes municipios_exemplo =
    Ok (relatorio,
        MkDataFrame 3 (map tratar_coluna (colunas municipios_exemplo))).
Proof.
  eexists.
  apply (proj1 (ausentes_tratados_na_verificacao municipios_exemplo
                  ltac:(compute_done))).
Defined.


(** A municipality-level run on a directory that only holds the census
    aggregate: the fabricated indicators of the third drawn municipality are
    attached to the real municipality with the same code. *)
Example integracao_com_dados_simulados :
  (integrar_dados_nivel_municipio to_csv_exemplo sorteios_exemplo
     (<["censo_escolar_2022_agregado_municipio.csv" :=
          Legivel censo_municipio_exemplo]> ∅) 2022).1 =
  Ok (Some (MkDataFrame 2
      [("CO_MUNICIPIO", [Some (inteiro 1000002); Some (inteiro 9999999)]);
       ("TAXA_ABANDONO", [Some (inteiro 12); Some (inteiro 7)]);
       ("PIB_PER_CAPITA", [Some (Num 1); None]);
       ("TAXA_DESEMPREGO", [Some (Num 10); None]);
       ("IDEB", [Some (Num (9 # 2)); None]);
       ("TAXA_POBREZA", [Some (Num 20); None]);
       ("INDICE_GINI", [Some (Num (1 # 2)); None])])).
Proof. vm_compute. reflexivity. Qed.

(** * Further properties of the code *)

(** ** Loaders and the reference year *)

(** X2. The SAEB year of a run is the greatest odd year that does not exceed
    the reference year: it is odd, it is the reference year itself exactly
    when that one is odd, and the year before otherwise. *)
Theorem ano_saeb_impar (ano : Z) :
  (ano_saeb ano mod 2 = 1)%Z /\
  (ano - 1 <= ano_saeb ano <= ano)%Z /\
  (ano_saeb ano = ano <-> ano mod 2 = 1)%Z.
Proof.
  unfold ano_saeb. destruct (Z.eqb_spec (ano mod 2) 1) as [H|H].
  - split; [exact H|]. split; [lia|]. tauto.
  - pose proof (Z.mod_pos_bound ano 2 ltac:(lia)) as Hb.
    assert (ano mod 2 = 0)%Z as H0 by lia.
    split; [|split; [lia|split; [lia|contradiction]]].
    rewrite <- (Z.mod_unique (ano - 1) 2 (ano / 2 - 1) 1); [reflexivity|lia|].
    pose proof (Z.div_mod ano 2 ltac:(lia)). lia.
Qed.

Section Carregadores.

Lemma carregar_tipos_sublist fs arquivo tipos :
  (carregar_tipos fs arquivo tipos).*1 `sublist_of` tipos.
Proof.
  unfold carregar_tipos. induction tipos as [|t tipos IH]; simpl; [constructor|].
  destruct (ler_csv fs (arquivo t)); simpl.
  - apply sublist_skip, IH.
  - apply sublist_cons, IH.
Qed.

Lemma carregar_tipos_nil fs arquivo tipos :
  carregar_tipos fs arquivo tipos = [] <->
  forall tipo, tipo ∈ tipos -> ler_csv fs (arquivo tipo) = None.
Proof.
  unfold carregar_tipos. induction tipos as [|t tipos IH]; simpl.
  - split; [intros _ tipo H; inversion H|reflexivity].
  - destruct (ler_csv fs (arquivo t)) as [df|] eqn:E; simpl.
    + split; [discriminate|]. intros H. specialize (H t ltac:(left)). congruence.
    + rewrite IH. split.
      * intros H tipo Ht. apply elem_of_cons in Ht as [->|Ht]; auto.
      * intros H tipo Ht. apply H. right. exact Ht.
Qed.

Lemma carregar_tipos_completo fs arquivo tipos tipo df :
  tipo ∈ tipos -> ler_csv fs (arquivo tipo) = Some df ->
  (tipo, df) ∈ carregar_tipos fs arquivo tipos.
Proof.
  intros Ht Hdf. unfold carregar_tipos. apply list_elem_of_omap.
  exists tipo. split; [exact Ht|]. rewrite Hdf. reflexivity.
Qed.

End Carregadores.

(** X3. The dictionaries returned by [carregar_saeb] and
    [carregar_indicadores_educacionais] are never empty: the loader returns
    [None] exactly when none of its files can be read, and otherwise a
    dictionary whose keys are distinct types in the order of the loader's
    list, holding exactly the readable files. *)
Theorem dicionarios_dos_carregadores fs ano :
  let carregado (d : option (list (string * DataFrame))) tipos arquivo :=
    (d = None <-> forall tipo, tipo ∈ tipos -> ler_csv fs (arquivo tipo) = None) /\
    (forall itens, d = Some itens ->
       itens <> [] /\ NoDup itens.*1 /\ itens.*1 `sublist_of` tipos /\
       forall tipo df, (tipo, df) ∈ itens <->
         tipo ∈ tipos /\ ler_csv fs (arquivo tipo) = Some df) in
  carregado (carregar_saeb fs ano) tipos_saeb (arquivo_saeb ano) /\
  carregado (carregar_indicadores_educacionais fs ano) tipos_indicadores
    (arquivo_indicadores ano).
Proof.
  assert (forall tipos arquivo, NoDup tipos ->
    (ou_none (carregar_tipos fs arquivo tipos) = None <->
       forall tipo, tipo ∈ tipos -> ler_csv fs (arquivo tipo) = None) /\
    (forall itens, ou_none (carregar_tipos fs arquivo tipos) = Some itens ->
       itens <> [] /\ NoDup itens.*1 /\ itens.*1 `sublist_of` tipos /\
       forall tipo df, (tipo, df) ∈ itens <->
         tipo ∈ tipos /\ ler_csv fs (arquivo tipo) = Some df)) as H.
  { intros tipos arquivo Hnd. split.
    - rewrite <- carregar_tipos_nil.
      destruct (carregar_tipos fs arquivo tipos); simpl; split; congruence.
    - intros itens Hit. pose proof (ou_none_Some _ _ Hit) as ->.
      split; [destruct (carregar_tipos fs arquivo tipos); simpl in *; congruence|].
      split; [eapply sublist_NoDup;
                [exact Hnd|apply carregar_tipos_sublist]|].
      split; [apply carregar_tipos_sublist|].
      intros tipo df. split; [apply carregar_tipos_elem|].
      intros [Ht Hdf]. apply carregar_tipos_completo; assumption. }
  split; apply H; compute_done.
Qed.

(** X1. When no census file of the year can be read, every level returns
    [None] without raising and without touching the directory, and the
    complete integration returns an empty dictionary and writes nothing but
    its report: in particular the simulated socioeconomic table is not
    written. *)
Theorem censo_indisponivel to_csv rng (fs : diretorio) ano :
  (forall nivel, carregar_censo_escolar fs ano nivel = None) ->
  integrar_dados_nivel_escola fs ano = Ok None /\
  integrar_dados_nivel_municipio to_csv rng fs ano = (Ok None, fs) /\
  integrar_dados_nivel_aluno fs ano = Ok None /\
  executar_integracao_completa to_csv rng fs ano =
    (Ok [], <[arquivo_relatorio ano := Ilegivel]> fs).
Proof.
  intros H.
  assert (integrar_dados_nivel_escola fs ano = Ok None) as H1
    by (unfold integrar_dados_nivel_escola; rewrite H; reflexivity).
  assert (integrar_dados_nivel_municipio to_csv rng fs ano = (Ok None, fs)) as H2
    by (unfold integrar_dados_nivel_municipio; rewrite H; reflexivity).
  assert (integrar_dados_nivel_aluno fs ano = Ok None) as H3
    by (unfold integrar_dados_nivel_aluno; rewrite H; reflexivity).
  repeat split; try assumption.
  unfold executar_integracao_completa. rewrite H1. cbn [salvar_nivel].
  rewrite H2. cbn [salvar_nivel]. rewrite H3. reflexivity.
Qed.

Lemma censo_indisponivel_exemplo :
  executar_integracao_completa to_csv_exemplo sorteios_exemplo
    (<["saeb_2023_escola.csv" := Legivel saeb_exemplo]> ∅) 2023 =
  (Ok [], <["relatorio_integracao_2023.json" := Ilegivel]>
             (<["saeb_2023_escola.csv" := Legivel saeb_exemplo]> ∅)).
Proof.
  apply (censo_indisponivel to_csv_exemplo sorteios_exemplo
           (<["saeb_2023_escola.csv" := Legivel saeb_exemplo]> ∅) 2023%Z).
  intros nivel. unfold carregar_censo_escolar, arquivo_censo.
  repeat (match goal with |- context [if ?b then _ else _] => destruct b end;
          [vm_compute; reflexivity|]).
  reflexivity.
Defined.

(** ** Shape and range of what the Code Normalizer derives *)

Section Forma.

(** *** Bounds of a mean *)

Lemma soma_limites (lo hi : Q) (xs : list Q) :
  Forall (fun q => lo <= q /\ q <= hi)%Q xs ->
  (inject_Z (Z.of_nat (length xs)) * lo <= soma xs /\
   soma xs <= inject_Z (Z.of_nat (length xs)) * hi)%Q.
Proof.
  induction 1 as [|x xs [Hlo Hhi] _ [IHlo IHhi]].
  - simpl. split; rewrite Qmult_0_l; apply Qle_refl.
  - cbn [length soma foldr]. fold (soma xs).
    rewrite Nat2Z.inj_succ, <- Z.add_1_r, inject_Z_plus.
    split.
    + setoid_replace ((inject_Z (Z.of_nat (length xs)) + inject_Z 1) * lo)%Q
        with (lo + inject_Z (Z.of_nat (length xs)) * lo)%Q
        using relation Qeq by ring.
      apply Qplus_le_compat; assumption.
    + setoid_replace ((inject_Z (Z.of_nat (length xs)) + inject_Z 1) * hi)%Q
        with (hi + inject_Z (Z.of_nat (length xs)) * hi)%Q
        using relation Qeq by ring.
      apply Qplus_le_compat; assumption.
Qed.

(** The mean of a column lies between any bounds of its values. *)
Lemma media_limites (lo hi : Q) (l : list (option Q)) (m : Q) :
  (forall q, Some q ∈ l -> lo <= q /\ q <= hi)%Q ->
  media l = Some m -> (lo <= m /\ m <= hi)%Q.
Proof.
  intros Hl. unfold media.
  destruct (presentes l) as [|x xs] eqn:E; [discriminate|]. intros [= <-].
  assert (Forall (fun q => lo <= q /\ q <= hi)%Q (x :: xs)) as Hxs.
  { rewrite <- E. apply Forall_forall. intros q Hq. apply Hl.
    unfold presentes in Hq. apply list_elem_of_omap in Hq as (p & Hp & Hpq).
    simpl in Hpq. subst p. exact Hp. }
  destruct (soma_limites lo hi (x :: xs) Hxs) as [Hlo Hhi].
  assert (0 < inject_Z (Z.of_nat (length (x :: xs))))%Q as Hn.
  { rewrite <- (Zlt_Qlt 0). simpl. lia. }
  rewrite Qred_correct. split.
  - apply Qle_shift_div_l; [exact Hn|]. rewrite Qmult_comm. exact Hlo.
  - apply Qle_shift_div_r; [exact Hn|]. rewrite Qmult_comm. exact Hhi.
Qed.

End Forma.

(** X4. Whatever the mappings and the level, [normalizar_variaveis] keeps
    the rows of the table: the result has the row count of its input, each of
    its columns has one cell per row, and it has the columns of the input or
    one more (the derived index or region). *)
Theorem normalizar_variaveis_forma df mp nivel :
  bem_formado df ->
  let D := normalizar_variaveis df mp nivel in
  bem_formado D /\ indice D = indice df /\
  length (colunas df) <= length (colunas D) <= S (length (colunas df)).
Proof.
  intros Hwf D. destruct (normalizar_forma df mp nivel) as (H1 & H2 & H3).
  split; [apply H3, Hwf|]. split; assumption.
Qed.

(** A cell that is missing or a number between 0 and 1. *)
Definition fracao_ou_nulo (c : celula) : Prop :=
  c = None \/ exists q, c = Some (Num q) /\ (0 <= q /\ q <= 1)%Q.

(** X5. When the table has at least one [IN_] column and every cell of those
    columns is missing or a number between 0 and 1 (the 0/1 flags of the
    census), the school-level derivation does write [INDICE_INFRAESTRUTURA],
    with one cell per row, each missing or between 0 and 1. *)
Theorem indice_infraestrutura_limites df :
  (exists n, n ∈ nomes df /\ String.prefix "IN_" n = true) ->
  (forall n t c, (n, t) ∈ colunas df -> String.prefix "IN_" n = true ->
     c ∈ t -> fracao_ou_nulo c) ->
  exists s,
    procurar "INDICE_INFRAESTRUTURA" (colunas (indice_infraestrutura df)) = Some s /\
    length s = indice df /\
    forall c, c ∈ s -> fracao_ou_nulo c.
Proof.
  intros (n0 & Hn0 & Hp0) Hcel. unfold indice_infraestrutura.
  set (cols := List.filter (String.prefix "IN_") (nomes df)).
  assert (n0 ∈ cols) as Hin0.
  { apply list_elem_of_In, filter_In. split; [apply list_elem_of_In, Hn0|exact Hp0]. }
  assert (forall c, c ∈ cols -> c ∈ nomes df /\ String.prefix "IN_" c = true) as Hcols.
  { intros c Hc. apply list_elem_of_In, filter_In in Hc as [Hc Hp].
    split; [apply list_elem_of_In, Hc|exact Hp]. }
  destruct cols as [|c0 cols'] eqn:Ecols; [inversion Hin0|]. rewrite <- Ecols in *.
  rewrite selecionar_ok by (intros c Hc; apply Hcols, Hc). cbn [ligar].
  set (sub := MkDataFrame (indice df) _).
  assert (forall ns, ns ∈ colunas sub ->
            forall c, c ∈ ns.2 -> fracao_ou_nulo c) as Hsub.
  { intros ns Hns c Hc. unfold sub in Hns. cbn [colunas] in Hns.
    apply list_elem_of_In, in_map_iff in Hns as (m & <- & Hm).
    apply list_elem_of_In, Hcols in Hm as [Hm Hp]. cbn [snd] in Hc.
    apply procurar_nomes in Hm as [t Ht]. rewrite Ht in Hc. simpl in Hc.
    apply (Hcel m t c); [apply procurar_elem, Ht|exact Hp|exact Hc]. }
  unfold media_por_linha.
  destruct (mapear_r_ok (fun ns : string * Series => numerica ns.2) (colunas sub))
    as [xs Hxs].
  { intros ns Hns. apply numerica_sem_texto. apply forallb_forall.
    intros c Hc. apply list_elem_of_In in Hc.
    destruct (Hsub ns Hns c Hc) as [->|(q & -> & _)]; reflexivity. }
  rewrite Hxs. cbn [ligar]. eexists. split; [apply procurar_atribuir_mesma|].
  split; [rewrite length_map; apply length_seq|].
  intros c Hc. apply list_elem_of_In, in_map_iff in Hc as (i & <- & _).
  destruct (media _) as [m|] eqn:Em; [|left; reflexivity].
  right. exists m. split; [reflexivity|].
  refine (media_limites 0 1 _ m _ Em).
  intros q Hq. apply list_elem_of_In, in_map_iff in Hq as (x & Hx & Hxin).
  apply mapear_r_Forall2 in Hxs.
  apply list_elem_of_In, list_elem_of_lookup in Hxin as [j Hj].
  destruct (Forall2_lookup_r _ _ _ _ _ Hxs Hj) as (ns & Hns & Hnum).
  destruct (x !! i) as [p|] eqn:Exi; [|discriminate]. simpl in Hx. subst p.
  pose proof (numerica_lookup_inv _ _ _ _ Hnum Exi) as Hcell.
  destruct (Hsub ns (list_elem_of_lookup_2 _ _ _ Hns) (Some (Num q))
              (list_elem_of_lookup_2 _ _ _ Hcell)) as [H|(q' & [= <-] & Hb)];
    [discriminate|exact Hb].
Qed.
(** X6. What a many-to-one indicator join attaches. When the indicator table
    has unique keys, of a kind [pd.merge] joins with the keys of the
    accumulated table, each new column [n] it brings is attached row by row:
    a row of the accumulated table whose key is the key of row [j] of the
    indicator table receives the value of that row, and a row whose key does
    not occur in the indicator table receives a missing value. *)
Theorem indicador_anexado K D I kd ks n s :
  bem_formado D ->
  procurar K (colunas D) = Some kd ->
  procurar K (colunas I) = Some ks ->
  is_unique ks = true ->
  chaves_incompativeis kd ks = false ->
  n ∉ nomes D ->
  procurar n (colunas I) = Some s ->
  exists D' s',
    integrar_indicador K D I = Ok D' /\
    procurar n (colunas D') = Some s' /\
    length s' = indice D /\
    forall i k, kd !! i = Some k ->
      (forall j c, ks !! j = Some c -> celula_eqb c k = true ->
         s' !! i = Some (tomar s j)) /\
      ((forall c, c ∈ ks -> celula_eqb c k = false) -> s' !! i = Some None).
Proof.
  intros Hwf Hkd Hks Hu Hcomp Hn Hs. unfold integrar_indicador.
  rewrite (tem_coluna_procurar _ _ _ Hks).
  assert (K ∈ nomes D) as HKD by (apply procurar_nomes; rewrite Hkd; eauto).
  assert (n <> K) as Hne by (intros ->; exact (Hn HKD)).
  assert (n ∈ nomes I) as HnI by (apply procurar_nomes; rewrite Hs; eauto).
  assert (K ∈ nomes I) as HKI by (apply procurar_nomes; rewrite Hks; eauto).
  assert (Nat.ltb 1 (length (colunas_novas K I D)) = true) as ->.
  { apply Nat.ltb_lt. apply (dois_distintos n K); [| |exact Hne].
    - apply colunas_novas_spec. auto.
    - apply colunas_novas_spec. auto. }
  rewrite (merge_filtrado_forma K D I kd ks Hkd Hks), Hcomp. cbv zeta.
  set (idx := indexador_desde 0 kd ks).
  eexists. exists (tomar_direita idx s). split; [reflexivity|]. cbn [colunas].
  split; [|split].
  - rewrite procurar_app_r.
    + rewrite (procurar_map_cols
                 (fun c => tomar_direita idx (default [] (procurar c (colunas I))))).
      * rewrite Hs. reflexivity.
      * apply novas_sem_chave; auto.
    + rewrite <- list_fmap_compose. exact Hn.
  - rewrite length_tomar_direita. unfold idx.
    rewrite (indexador_unico_length kd ks Hu).
    apply (bem_formado_procurar _ _ _ Hwf Hkd).
  - intros i k Hi. unfold tomar_direita. rewrite lookup_map. unfold idx.
    rewrite (indexador_unico_lookup 0 kd ks i k Hu Hi).
    cbn [fmap option_fmap option_map snd]. split.
    + intros j c Hj Hc. rewrite (posicoes_primeira 0 k ks j c Hu Hj Hc).
      reflexivity.
    + intros Hnone. rewrite (posicoes_nenhuma 0 k ks Hnone). reflexivity.
Qed.


(** X7. The loop over the indicator tables never creates a duplicated or a
    suffixed label: when the labels of the accumulated table and of every
    indicator table are distinct, the labels of the result are distinct too,
    and they are the labels of the accumulated table, in order, followed by
    labels of indicator tables that the accumulated table did not have. *)
Theorem indicadores_sem_rotulos_repetidos K indicadores D D' :
  NoDup (nomes D) ->
  (forall itens tipo I, indicadores = Some itens -> (tipo, I) ∈ itens ->
     NoDup (nomes I)) ->
  integrar_indicadores K indicadores D = Ok D' ->
  NoDup (nomes D') /\
  exists novas,
    nomes D' = nomes D ++ novas /\
    forall n, n ∈ novas ->
      (n ∉ nomes D) /\
      exists itens tipo I,
        indicadores = Some itens /\ (tipo, I) ∈ itens /\ n ∈ nomes I.
Proof.
  intros HD Hnd. unfold integrar_indicadores.
  destruct indicadores as [itens|].
  2:{ intros [= <-]. split; [exact HD|]. exists []. rewrite app_nil_r.
      split; [reflexivity|]. intros n Hn. inversion Hn. }
  specialize (Hnd itens).
  assert (forall tipo I, (tipo, I) ∈ itens -> NoDup (nomes I)) as Hnd'
    by (intros tipo I; apply Hnd; reflexivity).
  clear Hnd.
  assert (forall D, NoDup (nomes D) ->
            fold_left (fun acc (ti : string * DataFrame) =>
                         seja df <- acc em integrar_indicador K df ti.2)
              itens (Ok D) = Ok D' ->
            NoDup (nomes D') /\
            exists novas, nomes D' = nomes D ++ novas /\
              forall n, n ∈ novas ->
                (n ∉ nomes D) /\ exists tipo I, (tipo, I) ∈ itens /\ n ∈ nomes I) as Hgen.
  { clear D HD. induction itens as [|[tipo I] itens IH]; intros D HD H; simpl in H.
    - injection H as <-. split; [exact HD|]. exists []. rewrite app_nil_r.
      split; [reflexivity|]. intros n Hn. inversion Hn.
    - destruct (integrar_indicador K D I) as [D1|e] eqn:E;
        [|rewrite laco_excecao in H; discriminate].
      assert (NoDup (nomes D1) /\
              exists novas1, nomes D1 = nomes D ++ novas1 /\
                forall n, n ∈ novas1 -> (n ∉ nomes D) /\ n ∈ nomes I)
        as (HD1 & novas1 & Hn1 & Hnovas1).
      { destruct (integrar_indicador_casos K D I D1 E)
          as [[-> _]|(HKD & HKI & _ & _ & Hn)].
        - split; [exact HD|]. exists []. rewrite app_nil_r.
          split; [reflexivity|]. intros n Hn. inversion Hn.
        - assert (forall n,
                    n ∈ List.filter (fun c => negb (String.eqb c K))
                          (colunas_novas K I D) -> (n ∉ nomes D) /\ n ∈ nomes I) as Hnov
            by (intros n Hin; apply novas_sem_chave in Hin; tauto).
          split; [|eexists; split; [exact Hn|exact Hnov]].
          rewrite Hn. apply NoDup_app. split; [exact HD|]. split.
          + intros n HnD Hin. apply Hnov in Hin. tauto.
          + eapply sublist_NoDup;
              [|etransitivity; [apply filter_sublist|apply filter_sublist]].
            apply (Hnd' tipo I). left. }
      destruct (IH (fun t J HJ => Hnd' t J (list_elem_of_further _ _ _ HJ)) D1 HD1 H)
        as (HD' & novas & Hn & Hnovas).
      split; [exact HD'|]. exists (novas1 ++ novas).
      split; [rewrite Hn, Hn1, app_assoc; reflexivity|].
      intros n Hin. apply elem_of_app in Hin as [Hin|Hin].
      + destruct (Hnovas1 n Hin) as [H1 H2]. split; [exact H1|].
        exists tipo, I. split; [left|exact H2].
      + destruct (Hnovas n Hin) as (H1 & t & J & HJ & HnJ). split.
        * intros HnD. apply H1. rewrite Hn1. apply elem_of_app. left. exact HnD.
        * exists t, J. split; [right; exact HJ|exact HnJ]. }
  intros H. destruct (Hgen D HD H) as (HD' & novas & Hn & Hnovas).
  split; [exact HD'|]. exists novas. split; [exact Hn|].
  intros n Hin. destruct (Hnovas n Hin) as (H1 & t & J & HJ & HnJ).
  split; [exact H1|]. exists itens, t, J. auto.
Qed.

(** X8. Integrating the same indicator tables a second time changes nothing:
    once the loop has run, every column of every indicator table with the
    key is in the accumulated table, so a second run skips all of them and
    returns the table it was given. *)
Theorem integrar_indicadores_idempotente K indicadores D D' :
  (forall itens tipo I, indicadores = Some itens -> (tipo, I) ∈ itens ->
     NoDup (nomes I)) ->
  integrar_indicadores K indicadores D = Ok D' ->
  integrar_indicadores K indicadores D' = Ok D'.
Proof.
  intros Hnd. unfold integrar_indicadores.
  destruct indicadores as [itens|]; [|reflexivity].
  specialize (Hnd itens).
  assert (forall tipo I, (tipo, I) ∈ itens -> NoDup (nomes I)) as Hnd'
    by (intros tipo I; apply Hnd; reflexivity).
  clear Hnd. intros H.
  assert (forall tipo I, (tipo, I) ∈ itens -> saturado K I D') as Hsat.
  { revert D H. induction itens as [|[tipo I] itens IH]; intros D H; simpl in H.
    - intros t J HJ. inversion HJ.
    - destruct (integrar_indicador K D I) as [D1|e] eqn:E;
        [|rewrite laco_excecao in H; discriminate].
      intros t J HJ. apply elem_of_cons in HJ as [[= -> ->]|HJ].
      + apply (saturado_mais K I D1 D').
        * intros c Hc. revert c Hc.
          apply (integrar_indicadores_invariante K
                   (fun X => forall c, c ∈ nomes D1 -> c ∈ nomes X) (Some itens) D1 D').
          -- intros X tipo' I' X' itens' _ _ HX HX' c Hc.
             apply (integrar_indicador_cresce K X I' X' HX'), HX, Hc.
          -- auto.
          -- exact H.
        * apply (integrar_indicador_satura K D I D1); [|exact E].
          apply (Hnd' tipo I). left.
      + apply (IH (fun t' J' HJ' => Hnd' t' J' (list_elem_of_further _ _ _ HJ'))
                 D1 H t J HJ). }
  clear H Hnd'. induction itens as [|[tipo I] itens IH]; simpl; [reflexivity|].
  rewrite (saturado_nada K I D') by (apply (Hsat tipo I); left).
  apply IH. intros t J HJ. apply (Hsat t J). right. exact HJ.
Qed.


(** X9. The student-level integration never multiplies or loses a row,
    whatever the SAEB student file holds: the proficiencies are averaged per
    school before they are joined, so the join is many-to-one by
    construction, and the normalisation and the distortion step work column
    by column. *)
Theorem aluno_preserva_linhas fs ano P D :
  carregar_censo_escolar fs ano "aluno" = Some P ->
  bem_formado P ->
  integrar_dados_nivel_aluno fs ano = Ok (Some D) ->
  indice D = indice P /\ bem_formado D.
Proof.
  intros HP Hwf. unfold integrar_dados_nivel_aluno. rewrite HP.
  destruct (normalizar_forma P mapeamentos_censo_aluno "aluno") as (Hi & _ & Hb).
  set (P' := normalizar_variaveis P mapeamentos_censo_aluno "aluno") in *.
  destruct (integrar_saeb_aluno _ P') as [D1|] eqn:E1; [|discriminate].
  cbn [ligar].
  destruct (derivar_distorcao D1) as [D2|] eqn:E2; [|discriminate].
  cbn [ligar]. intros [= <-].
  destruct (integrar_saeb_aluno_forma _ P' D1 (Hb Hwf) E1) as [Hi1 Hwf1].
  destruct (derivar_distorcao_forma D1 D2 Hwf1 E2) as [Hi2 Hwf2].
  split; [congruence|exact Hwf2].
Qed.

(** X10. Exceptions and rows of the school-level integration. With a
    readable census aggregate the run never returns [None]; the only
    exceptions it can raise are [KeyError] for the school code and the
    [ValueError] of a join on keys of kinds that cannot be joined; whatever
    it returns is a well-formed table with at least the rows of the census
    aggregate (a left join never loses one); and it does return when the
    aggregate has the school code, the SAEB school table, if there is one,
    has it too (as [CO_ENTIDADE] or [ID_ESCOLA]), and the school codes of
    the SAEB table and of every indicator table that has them are of a kind
    that can be joined with those of the aggregate. *)
Theorem escola_excecoes_e_linhas fs ano P :
  carregar_censo_escolar fs ano "escola" = Some P ->
  bem_formado P ->
  (forall e, integrar_dados_nivel_escola fs ano = Raise e ->
     e = KeyError "CO_ENTIDADE" \/ e = ValueError) /\
  (forall r, integrar_dados_nivel_escola fs ano = Ok r ->
     exists D, r = Some D /\ bem_formado D /\ indice P <= indice D) /\
  (forall kp,
     procurar "CO_ENTIDADE" (colunas P) = Some kp ->
     (forall S, ler_csv fs (arquivo_saeb (ano_saeb ano) "escola") = Some S ->
        exists ks,
          procurar "CO_ENTIDADE" (colunas (normalizar_codigo_escola S)) = Some ks /\
          chaves_incompativeis kp ks = false) ->
     (forall tipo I ks, tipo ∈ tipos_indicadores ->
        ler_csv fs (arquivo_indicadores ano tipo) = Some I ->
        procurar "CO_ENTIDADE" (colunas I) = Some ks ->
        chaves_incompativeis kp ks = false) ->
     exists D, integrar_dados_nivel_escola fs ano = Ok (Some D)).
Proof.
  intros HP Hwf. unfold integrar_dados_nivel_escola. rewrite HP.
  destruct (normalizar_escola_forma P) as (Hi & Hn & Hb).
  pose proof (normalizar_escola_chave P) as HK.
  set (P' := normalizar_variaveis P mapeamentos_censo_escola "escola") in *.
  split; [|split].
  - intros e.
    destruct (integrar_saeb_escola _ P') as [D1|e1] eqn:E1; cbn [ligar].
    + destruct (integrar_indicadores "CO_ENTIDADE" _ D1) as [D2|e2] eqn:E2;
        cbn [ligar]; [discriminate|].
      intros [= <-]. apply (integrar_indicadores_excecao _ _ _ _ E2).
    + intros [= <-]. apply (integrar_saeb_escola_excecao _ _ _ E1).
  - intros r.
    destruct (integrar_saeb_escola _ P') as [D1|e1] eqn:E1; cbn [ligar];
      [|discriminate].
    destruct (integrar_indicadores "CO_ENTIDADE" _ D1) as [D2|e2] eqn:E2;
      cbn [ligar]; [|discriminate].
    intros [= <-]. exists D2. split; [reflexivity|].
    assert (bem_formado D1 /\ indice P <= indice D1) as HD1.
    { destruct (integrar_saeb_escola_casos _ _ _ E1)
        as [->|(S & _ & Hwf1 & Hi1 & _)].
      - split; [apply Hb, Hwf|lia].
      - split; [exact Hwf1|]. rewrite <- Hi. apply Hi1, Hb, Hwf. }
    refine (integrar_indicadores_invariante "CO_ENTIDADE"
              (fun X => bem_formado X /\ indice P <= indice X) _ D1 D2 _ HD1 E2).
    intros X tipo I X' itens _ _ [HX1 HX2] HX'.
    destruct (integrar_indicador_forma _ _ _ _ HX1 HX') as [H1 H2].
    split; [exact H1|lia].
  - intros kp Hkp HS HI. rewrite Hkp in HK.
    destruct (integrar_saeb_escola_ok (carregar_saeb fs (ano_saeb ano)) P' kp HK)
      as (D1 & kd1 & HD1 & Hkd1 & He).
    + intros S HS'. apply HS.
      rewrite <- HS'. symmetry. apply carregar_saeb_tipo. left.
    + rewrite HD1. cbn [ligar].
      destruct (integrar_indicadores_ok "CO_ENTIDADE"
                  (carregar_indicadores_educacionais fs ano) D1 kd1 Hkd1)
        as [D2 HD2].
      * intros itens tipo I ks Hit Hin Hks. apply ou_none_Some in Hit. subst itens.
        apply carregar_tipos_elem in Hin as [Ht HI']. rewrite He.
        apply (HI tipo I ks Ht HI' Hks).
      * rewrite HD2. cbn [ligar]. eauto.
Qed.

(** ** Groups of the Aggregator *)

Section Grupos.

Fixpoint crescente (l : list valor) : bool :=
  match l with
  | a :: r => match r with
              | b :: _ => valor_leb a b && crescente r
              | [] => true
              end
  | [] => true
  end.

Lemma valor_leb_total a b : valor_leb a b = false -> valor_leb b a = true.
Proof.
  destruct a as [p|s], b as [q|t]; simpl; try congruence.
  - intros H. apply Qle_bool_iff, Qlt_le_weak, Qnot_le_lt.
    intros Hle. apply Qle_bool_iff in Hle. congruence.
  - intros H. destruct (String.leb_total s t) as [H'|H']; congruence.
Qed.

Lemma inserir_ordenado_crescente k l :
  crescente l = true -> crescente (inserir_ordenado k l) = true.
Proof.
  induction l as [|x r IH]; [reflexivity|]. intros Hl.
  cbn [inserir_ordenado]. destruct (valor_leb k x) eqn:E.
  - cbn [crescente]. rewrite E. exact Hl.
  - apply valor_leb_total in E. destruct r as [|y r'].
    + simpl. rewrite E. reflexivity.
    + cbn [crescente] in Hl. apply andb_true_iff in Hl as [Hxy Hr].
      specialize (IH Hr). cbn [inserir_ordenado] in *.
      destruct (valor_leb k y) eqn:E'.
      * cbn [crescente] in *. rewrite E, E'. exact Hr.
      * cbn [crescente] in *. rewrite Hxy. exact IH.
Qed.

Lemma ordenar_crescente l : crescente (ordenar l) = true.
Proof.
  induction l as [|x l IH]; [reflexivity|].
  apply inserir_ordenado_crescente, IH.
Qed.

Lemma crescente_lookup l i a b :
  crescente l = true -> l !! i = Some a -> l !! S i = Some b -> valor_leb a b = true.
Proof.
  revert i. induction l as [|x r IH]; intros i Hl Ha Hb; [discriminate|].
  destruct r as [|y r']; [discriminate|].
  cbn [crescente] in Hl. apply andb_true_iff in Hl as [Hxy Hr].
  destruct i as [|i]; simpl in *.
  - injection Ha as <-. injection Hb as <-. exact Hxy.
  - apply (IH i Hr Ha Hb).
Qed.

Lemma is_unique_lookup (s : Series) i j a b :
  is_unique s = true -> i < j -> s !! i = Some a -> s !! j = Some b ->
  celula_eqb a b = false.
Proof.
  revert i j. induction s as [|x s IH]; intros i j Hu Hij Ha Hb; [discriminate|].
  simpl in Hu. apply andb_true_iff in Hu as [Hx Hu]. apply negb_true_iff in Hx.
  destruct j as [|j]; [lia|]. destruct i as [|i]; simpl in *.
  - injection Ha as <-. apply not_true_is_false. intros Hab.
    assert (existsb (celula_eqb x) s = true) as Habs; [|congruence].
    apply existsb_exists. exists b.
    split; [apply list_elem_of_In, (list_elem_of_lookup_2 _ _ _ Hb)|exact Hab].
  - apply (IH i j Hu); [lia|exact Ha|exact Hb].
Qed.

Lemma existsb_valor_Permutation v (l l' : list valor) :
  l ≡ₚ l' -> existsb (valor_eqb v) l = existsb (valor_eqb v) l'.
Proof.
  intros Hp. rewrite <- !existsb_map_Some.
  apply existsb_celula_Permutation, Permutation_map, Hp.
Qed.

Lemma chaves_dos_grupos_completas ks v :
  Some v ∈ ks -> existsb (valor_eqb v) (chaves_dos_grupos ks) = true.
Proof.
  intros Hv. unfold chaves_dos_grupos.
  rewrite (existsb_valor_Permutation v _ _ (ordenar_Permutation _)).
  unfold primeiras.
  destruct (primeiras_acumulador (omap id ks) []) as (ext & Hf & _ & Hc).
  rewrite Hf. apply Hc. apply list_elem_of_omap. exists (Some v). auto.
Qed.

(** *** Every keyed row belongs to exactly one group *)

Lemma celulas_do_grupo_length k (ks s : Series) :
  length ks <= length s ->
  length (celulas_do_grupo k ks s) =
  length (List.filter (fun c => celula_eqb c (Some k)) ks).
Proof.
  revert s. induction ks as [|c ks IH]; intros [|x s] Hl; simpl in *;
    try reflexivity; try lia.
  destruct (celula_eqb c (Some k)); simpl; rewrite IH by lia; reflexivity.
Qed.

Lemma list_sum_map_add {A} (f h : A -> nat) (l : list A) :
  list_sum (map (fun a => f a + h a) l) = list_sum (map f l) + list_sum (map h l).
Proof. induction l as [|a l IH]; simpl; [reflexivity|]. rewrite IH. lia. Qed.

Lemma list_sum_zeros {A} (f : A -> nat) (l : list A) :
  (forall a, a ∈ l -> f a = 0) -> list_sum (map f l) = 0.
Proof.
  induction l as [|a l IH]; intros H; simpl; [reflexivity|].
  rewrite (H a) by left. rewrite IH; [reflexivity|].
  intros b Hb. apply H. right. exact Hb.
Qed.

Lemma list_sum_cons (x : nat) (r : list nat) : list_sum (x :: r) = x + list_sum r.
Proof. reflexivity. Qed.

Lemma um_grupo v (G : list valor) :
  is_unique (map Some G) = true -> existsb (valor_eqb v) G = true ->
  list_sum (map (fun g => if valor_eqb v g then 1 else 0) G) = 1.
Proof.
  induction G as [|g G IH]; intros Hu Hex; [discriminate|].
  simpl in Hu, Hex. apply andb_true_iff in Hu as [Hg Hu].
  apply negb_true_iff in Hg. rewrite existsb_map_Some in Hg.
  cbn [map]. rewrite list_sum_cons. destruct (valor_eqb v g) eqn:E.
  - rewrite list_sum_zeros; [reflexivity|].
    intros g' Hg'. destruct (valor_eqb v g') eqn:E'; [|reflexivity].
    assert (existsb (valor_eqb g) G = true) as Habs; [|congruence].
    apply existsb_exists. exists g'. split; [apply list_elem_of_In, Hg'|].
    apply (valor_eqb_trans _ v); [rewrite valor_eqb_sym; exact E|exact E'].
  - simpl in Hex. rewrite (IH Hu Hex). reflexivity.
Qed.

Lemma soma_contagens (G : list valor) (l : Series) :
  is_unique (map Some G) = true ->
  (forall v, Some v ∈ l -> existsb (valor_eqb v) G = true) ->
  list_sum (map (fun g => length (List.filter (fun c => celula_eqb c (Some g)) l)) G) =
  length (omap id l).
Proof.
  intros Hu. induction l as [|c l IH]; intros Hc.
  - simpl. apply list_sum_zeros. reflexivity.
  - rewrite (map_ext _ (fun g => (if celula_eqb c (Some g) then 1 else 0) +
                                 length (List.filter (fun c => celula_eqb c (Some g)) l)))
      by (intros g; simpl; destruct (celula_eqb c (Some g)); reflexivity).
    rewrite list_sum_map_add, IH by (intros v Hv; apply Hc; right; exact Hv).
    destruct c as [v|].
    + pose proof (um_grupo v G Hu (Hc v ltac:(left))) as H1.
      cbn [celula_eqb]. rewrite H1. reflexivity.
    + rewrite list_sum_zeros by reflexivity. reflexivity.
Qed.

Lemma filter_chave_presente k (ks : Series) :
  Some k ∈ ks -> 0 < length (List.filter (fun c => celula_eqb c (Some k)) ks).
Proof.
  induction ks as [|c ks IH]; intros H; [inversion H|].
  simpl. apply elem_of_cons in H as [<-|H].
  - simpl. rewrite valor_eqb_refl. simpl. lia.
  - destruct (celula_eqb c (Some k)); simpl; [lia|apply IH, H].
Qed.

(** No group is empty. *)
Lemma grupo_nao_vazio k (ks s : Series) :
  length ks <= length s -> k ∈ chaves_dos_grupos ks ->
  0 < length (celulas_do_grupo k ks s).
Proof.
  intros Hl Hk. rewrite celulas_do_grupo_length by exact Hl.
  apply filter_chave_presente, chaves_dos_grupos_de_coluna, Hk.
Qed.

(** The sizes of the groups add up to the number of keyed rows. *)
Lemma grupos_soma (ks s : Series) :
  length ks = length s ->
  list_sum (map (fun k => length (celulas_do_grupo k ks s)) (chaves_dos_grupos ks)) =
  length (omap id ks).
Proof.
  intros Hl.
  rewrite (map_ext _ (fun k =>
             length (List.filter (fun c => celula_eqb c (Some k)) ks)))
    by (intros k; apply celulas_do_grupo_length; lia).
  apply soma_contagens; [apply is_unique_chaves_dos_grupos|].
  apply chaves_dos_grupos_completas.
Qed.

End Grupos.

(** X11. The keys of the groups of a [groupby]: they come in ascending
    order, no two of them are equal, each of them occurs in the key column,
    and every non-missing key of the column is one of them (up to [==]);
    rows with a missing key form no group. *)
Theorem chaves_dos_grupos_ordenadas (ks : Series) :
  let G := chaves_dos_grupos ks in
  (forall i a b, G !! i = Some a -> G !! S i = Some b -> valor_leb a b = true) /\
  (forall i j a b, i < j -> G !! i = Some a -> G !! j = Some b ->
     valor_eqb a b = false) /\
  (forall g, g ∈ G -> Some g ∈ ks) /\
  (forall v, Some v ∈ ks -> exists g, g ∈ G /\ valor_eqb v g = true).
Proof.
  intros G. split; [|split; [|split]].
  - intros i a b. apply crescente_lookup. apply ordenar_crescente.
  - intros i j a b Hij Ha Hb.
    apply (is_unique_lookup (map Some G) i j (Some a) (Some b)
             (is_unique_chaves_dos_grupos ks) Hij).
    + rewrite lookup_map, Ha. reflexivity.
    + rewrite lookup_map, Hb. reflexivity.
  - apply chaves_dos_grupos_de_coluna.
  - intros v Hv. pose proof (chaves_dos_grupos_completas ks v Hv) as H.
    apply existsb_exists in H as (g & Hg & Hvg). exists g.
    split; [apply list_elem_of_In, Hg|exact Hvg].
Qed.

(** X12. The groups partition the keyed rows: when the aggregated column is
    as long as the key column, the sizes of the groups add up to the number
    of rows whose key is not missing, and no group is empty. A row with a
    missing key is counted in no group. *)
Theorem grupos_particionam (ks s : Series) :
  length s = length ks ->
  list_sum (map (fun k => length (celulas_do_grupo k ks s)) (chaves_dos_grupos ks)) =
    length (omap id ks) /\
  (forall k, k ∈ chaves_dos_grupos ks -> celulas_do_grupo k ks s <> []).
Proof.
  intros Hl. split.
  - apply grupos_soma. lia.
  - intros k Hk Hnil.
    pose proof (grupo_nao_vazio k ks s ltac:(lia) Hk) as H.
    rewrite Hnil in H. simpl in H. lia.
Qed.

(** ** Extraction of the enrolments and the dropout rate *)

Section Matriculas.

Lemma selecionados_length (mask : list bool) (s : Series) :
  length mask <= length s ->
  length (selecionados mask s) = length (List.filter id mask).
Proof.
  revert s. induction mask as [|b m IH]; intros [|c s] H; simpl in *;
    try reflexivity; try lia.
  destruct b; simpl; rewrite IH by lia; reflexivity.
Qed.

Lemma filter_map_comm {A B} (p : B -> bool) (g : A -> B) (l : list A) :
  List.filter p (map g l) = map g (List.filter (fun a => p (g a)) l).
Proof.
  induction l as [|a l IH]; simpl; [reflexivity|].
  destruct (p (g a)); simpl; rewrite IH; reflexivity.
Qed.

(** Selecting by a mask is taking the rows where the mask holds, in order. *)
Lemma selecionados_linhas (mask : list bool) (s : Series) :
  length s = length mask ->
  selecionados mask s =
  map (tomar s)
    (List.filter (fun i => default false (mask !! i)) (seq 0 (length mask))).
Proof.
  revert s. induction mask as [|b m IH]; intros [|c r] Hl; simpl in Hl;
    try discriminate; [reflexivity|].
  cbn [length seq]. rewrite <- seq_shift.
  cbn [List.filter]. rewrite filter_map_comm.
  assert (map (tomar (c :: r))
            (map S (List.filter (fun i => default false ((b :: m) !! S i))
                      (seq 0 (length m)))) = selecionados m r) as Hr.
  { rewrite map_map. rewrite (IH r) by lia. reflexivity. }
  change (default false ((b :: m) !! 0)) with b.
  cbn [selecionados]. destruct b; cbn [map]; rewrite Hr; reflexivity.
Qed.

Lemma filter_length_le {A} (p : A -> bool) (l : list A) :
  length (List.filter p l) <= length l.
Proof. induction l as [|a l IH]; simpl; [lia|]. destruct (p a); simpl; lia. Qed.

Lemma procurar_filter {A} (p : string -> bool) c (l : list (string * A)) :
  procurar c (List.filter (fun ns : string * A => p ns.1) l) =
  if p c then procurar c l else None.
Proof.
  induction l as [|[n a] l IH]; simpl; [destruct (p c); reflexivity|].
  destruct (String.eqb n c) eqn:E.
  - apply String.eqb_eq in E as ->. destruct (p c) eqn:Ep; simpl.
    + rewrite String.eqb_refl. reflexivity.
    + exact IH.
  - destruct (p n); simpl; [rewrite E|]; exact IH.
Qed.

Lemma usecols_forma cols df :
  indice (usecols cols df) = indice df /\
  nomes (usecols cols df) = List.filter (fun n => esta_em n cols) (nomes df) /\
  (bem_formado df -> bem_formado (usecols cols df)).
Proof.
  unfold usecols, nomes, bem_formado. cbn [indice colunas].
  split; [reflexivity|]. split.
  - induction (colunas df) as [|[n s] l IH]; simpl; [reflexivity|].
    destruct (esta_em n cols); simpl; [f_equal|]; exact IH.
  - intros H. rewrite Forall_forall in H. apply Forall_forall. intros ns Hns.
    apply list_elem_of_In, filter_In in Hns as [Hns _].
    apply H, list_elem_of_In, Hns.
Qed.

Lemma filtrar_linhas_forma mask df :
  bem_formado df -> length mask = indice df ->
  bem_formado (filtrar_linhas mask df) /\
  nomes (filtrar_linhas mask df) = nomes df /\
  indice (filtrar_linhas mask df) <= indice df.
Proof.
  intros Hwf Hm. unfold filtrar_linhas, bem_formado, nomes. cbn [indice colunas].
  split; [|split].
  - apply List.Forall_map. unfold bem_formado in Hwf.
    eapply Forall_impl; [exact Hwf|]. intros [n s] Hs. simpl in *.
    apply selecionados_length. lia.
  - rewrite <- list_fmap_compose. reflexivity.
  - rewrite <- Hm. apply filter_length_le.
Qed.

(** The codes of upper secondary education are the integers 25 to 37. *)
Lemma pertence_ensino_medio (c : celula) :
  pertence c codigos_ensino_medio = true <->
  exists q z, c = Some (Num q) /\ (q == inject_Z z)%Q /\ (25 <= z <= 37)%Z.
Proof.
  change codigos_ensino_medio
    with (map inteiro (map Z.of_nat (seq 25 13))).
  assert (forall z, z ∈ map Z.of_nat (seq 25 13) <-> (25 <= z <= 37)%Z) as Hz.
  { intros z. rewrite list_elem_of_In, in_map_iff. split.
    - intros (n & <- & Hn). apply list_elem_of_In, elem_of_seq in Hn. lia.
    - intros H. exists (Z.to_nat z). split; [lia|].
      apply list_elem_of_In, elem_of_seq. lia. }
  split.
  - destruct c as [[q|t]|]; [|rewrite pertence_texto; discriminate|discriminate].
    intros H. cbn [pertence] in H. apply existsb_exists in H as (v & Hv & Hq).
    apply in_map_iff in Hv as (z & <- & Hin). simpl in Hq.
    apply Qeq_bool_iff in Hq. exists q, z. split; [reflexivity|].
    split; [exact Hq|]. apply Hz, list_elem_of_In, Hin.
  - intros (q & z & -> & Hq & Hb). rewrite (pertence_inteiro q z _ Hq).
    apply bool_decide_eq_true, Hz, Hb.
Qed.

(** *** The dropout flag *)

Lemma criar_abandono_forma df :
  bem_formado df ->
  bem_formado (criar_abandono df) /\
  indice (criar_abandono df) = indice df /\
  (forall c, c <> "ABANDONO" ->
     procurar c (colunas (criar_abandono df)) = procurar c (colunas df)) /\
  exists flags,
    procurar "ABANDONO" (colunas (criar_abandono df)) = Some flags /\
    length flags = indice df /\
    flags =
      match procurar "TP_SITUACAO" (colunas df) with
      | Some s => map indicador_abandono s
      | None => replicate (indice df) (Some (inteiro 0))
      end.
Proof.
  intros Hwf. unfold criar_abandono. cbn [colunas atribuir].
  rewrite (procurar_atribuir_outra "TP_SITUACAO" "ABANDONO") by discriminate.
  destruct (procurar "TP_SITUACAO" (colunas df)) as [s|] eqn:E.
  - rewrite atribuir_duas_vezes.
    assert (length (map indicador_abandono s) = indice df) as Hl
      by (rewrite length_map; apply (bem_formado_procurar _ _ _ Hwf E)).
    split; [apply alturas_atribuir; [exact Hl|exact Hwf]|].
    split; [reflexivity|]. split.
    + intros c Hc. apply procurar_atribuir_outra, Hc.
    + eexists. split; [apply procurar_atribuir_mesma|]. split; [exact Hl|reflexivity].
  - split; [apply alturas_atribuir; [apply length_replicate|exact Hwf]|].
    split; [reflexivity|]. split.
    + intros c Hc. apply procurar_atribuir_outra, Hc.
    + eexists. split; [apply procurar_atribuir_mesma|].
      split; [apply length_replicate|reflexivity].
Qed.

(** A cell holding the flag 0 or the flag 1. *)
Definition indicador (c : celula) : Prop :=
  c = Some (inteiro 0) \/ c = Some (inteiro 1).

Lemma indicador_abandono_indicador x : indicador (indicador_abandono x).
Proof.
  unfold indicador_abandono, indicador.
  destruct (pertence x [inteiro 4]); auto.
Qed.

Lemma criar_abandono_indicadores df flags :
  procurar "ABANDONO" (colunas (criar_abandono df)) = Some flags ->
  forall c, c ∈ flags -> indicador c.
Proof.
  unfold criar_abandono. cbn [colunas atribuir].
  rewrite (procurar_atribuir_outra "TP_SITUACAO" "ABANDONO") by discriminate.
  destruct (procurar "TP_SITUACAO" (colunas df)) as [s|].
  - cbn [colunas atribuir]. rewrite procurar_atribuir_mesma. intros [= <-] c Hc.
    apply list_elem_of_In, in_map_iff in Hc as (x & <- & _).
    apply indicador_abandono_indicador.
  - cbn [colunas atribuir]. rewrite procurar_atribuir_mesma. intros [= <-] c Hc.
    apply elem_of_replicate in Hc as [-> _]. left. reflexivity.
Qed.

Lemma celulas_do_grupo_elem k (ks s : Series) c :
  c ∈ celulas_do_grupo k ks s -> c ∈ s.
Proof.
  revert s. induction ks as [|x ks IH]; intros [|y s] H; simpl in H;
    try (inversion H; fail).
  destruct (celula_eqb x (Some k)).
  - apply elem_of_cons in H as [->|H]; [left|right; apply IH, H].
  - right. apply IH, H.
Qed.

(** The mean of a non-empty group of flags exists and is a fraction. *)
Lemma media_de_indicadores (cel : Series) x :
  numerica cel = Ok x -> cel <> [] ->
  (forall c, c ∈ cel -> indicador c) ->
  exists m, media x = Some m /\ (0 <= m /\ m <= 1)%Q.
Proof.
  intros Hx Hne Hcel. apply numerica_Forall2 in Hx.
  assert (forall q, Some q ∈ x -> 0 <= q /\ q <= 1)%Q as Hq.
  { intros q Hin. apply list_elem_of_lookup in Hin as [i Hi].
    destruct (Forall2_lookup_r _ _ _ _ _ Hx Hi) as (c & Hc & Hcq).
    destruct (Hcel c (list_elem_of_lookup_2 _ _ _ Hc)) as [->| ->];
      simpl in Hcq; injection Hcq as <-; split; discriminate. }
  destruct (media x) as [m|] eqn:Em.
  - exists m. split; [reflexivity|]. apply (media_limites 0 1 x m Hq Em).
  - exfalso. destruct Hx as [|c p cel' x' Hcp _]; [congruence|].
    destruct (Hcel c) as [->| ->]; [left| |]; destruct p; try discriminate;
      unfold media in Em; simpl in Em; discriminate.
Qed.

End Matriculas.

(** X13. The enrolment filter of the census extraction keeps exactly the
    rows whose stage code is one of the integers 25 to 37, in their order and
    with all their columns: the result is well formed, has the labels of its
    input, and each of its columns lists the cells of the kept rows. A row
    whose stage is missing, is a string or is any other number (38 included)
    is dropped. *)
Theorem filtrar_ensino_medio_linhas df D :
  bem_formado df ->
  filtrar_ensino_medio df = Ok D ->
  exists etapas,
    procurar "TP_ETAPA_ENSINO" (colunas df) = Some etapas /\
    let linhas :=
      List.filter (fun i => pertence (tomar etapas i) codigos_ensino_medio)
        (seq 0 (indice df)) in
    indice D = length linhas /\ bem_formado D /\ nomes D = nomes df /\
    (forall c s, procurar c (colunas df) = Some s ->
       procurar c (colunas D) = Some (map (tomar s) linhas)) /\
    (forall c, pertence c codigos_ensino_medio = true <->
       exists q z, c = Some (Num q) /\ (q == inject_Z z)%Q /\ (25 <= z <= 37)%Z).
Proof.
  intros Hwf. unfold filtrar_ensino_medio, obter.
  destruct (procurar "TP_ETAPA_ENSINO" (colunas df)) as [etapas|] eqn:E;
    [|discriminate].
  cbn [ligar]. intros [= <-]. exists etapas. split; [reflexivity|]. cbv zeta.
  set (mask := map (fun c => pertence c codigos_ensino_medio) etapas).
  pose proof (bem_formado_procurar _ _ _ Hwf E) as Hle.
  assert (length mask = indice df) as Hm by (unfold mask; rewrite length_map; exact Hle).
  assert (List.filter (fun i => pertence (tomar etapas i) codigos_ensino_medio)
            (seq 0 (indice df)) =
          List.filter (fun i => default false (mask !! i)) (seq 0 (length mask)))
    as Hlin.
  { rewrite Hm. apply filter_ext_in. intros i Hi.
    apply list_elem_of_In, elem_of_seq in Hi. unfold mask, tomar.
    rewrite lookup_map.
    destruct (lookup_lt_is_Some_2 etapas i ltac:(lia)) as [c Hc].
    rewrite Hc. reflexivity. }
  destruct (filtrar_linhas_forma mask df Hwf Hm) as (H1 & H2 & _).
  split; [|split; [exact H1|split; [exact H2|split]]].
  - rewrite Hlin. cbn [filtrar_linhas indice].
    rewrite <- (selecionados_length mask etapas) by lia.
    rewrite (selecionados_linhas mask etapas) by lia. apply length_map.
  - intros c s Hs. cbn [filtrar_linhas colunas].
    rewrite (procurar_map_snd (selecionados mask)), Hs. cbn [fmap option_fmap option_map].
    rewrite Hlin, (selecionados_linhas mask s); [reflexivity|].
    rewrite Hm. apply (bem_formado_procurar _ _ _ Hwf Hs).
  - apply pertence_ensino_medio.
Qed.

(** ** The dropout rate of both aggregators *)

Section Taxas.

Lemma filtrar_ensino_medio_forma df D :
  bem_formado df -> filtrar_ensino_medio df = Ok D ->
  bem_formado D /\ nomes D = nomes df /\ indice D <= indice df.
Proof.
  intros Hwf. unfold filtrar_ensino_medio, obter.
  destruct (procurar "TP_ETAPA_ENSINO" (colunas df)) as [etapas|] eqn:E;
    [|discriminate].
  cbn [ligar]. intros [= <-]. apply filtrar_linhas_forma; [exact Hwf|].
  rewrite length_map. apply (bem_formado_procurar _ _ _ Hwf E).
Qed.

Lemma nomes_atribuir_novo T s (l : list (string * Series)) :
  T ∉ l.*1 -> (atribuir_colunas T s l).*1 = l.*1 ++ [T].
Proof.
  induction l as [|[n t] l IH]; simpl; [reflexivity|].
  intros H. apply not_elem_of_cons in H as [Hne H].
  destruct (String.eqb n T) eqn:E; [apply String.eqb_eq in E; congruence|].
  simpl. f_equal. apply IH, H.
Qed.

Lemma nomes_atribuir_existente T s (l : list (string * Series)) :
  T ∈ l.*1 -> (atribuir_colunas T s l).*1 = l.*1.
Proof.
  induction l as [|[n t] l IH]; simpl; [intros H; inversion H|].
  destruct (String.eqb n T) eqn:E; [reflexivity|].
  apply String.eqb_neq in E. intros H. simpl. f_equal. apply IH.
  apply elem_of_cons in H as [->|H]; [congruence|exact H].
Qed.

Lemma nomes_criar_abandono df :
  "ABANDONO" ∉ nomes df -> nomes (criar_abandono df) = nomes df ++ ["ABANDONO"].
Proof.
  intros H. unfold criar_abandono, nomes in *. cbn [colunas atribuir].
  destruct (procurar "TP_SITUACAO" _); cbn [colunas atribuir].
  - rewrite atribuir_atribuir. apply nomes_atribuir_novo, H.
  - apply nomes_atribuir_novo, H.
Qed.

(** What [nb_padronizar] leaves in the columns the aggregation reads. *)
Lemma nb_padronizar_colunas df_censo df :
  nb_padronizar df_censo = Ok df ->
  exists s,
    procurar "TP_SITUACAO" (colunas df_censo) = Some s /\
    procurar "ABANDONO" (colunas df) = Some (map indicador_abandono s) /\
    procurar "CO_ENTIDADE" (colunas df) = procurar "CO_ENTIDADE" (colunas df_censo).
Proof.
  unfold nb_padronizar, nb_mapear.
  destruct (obter "TP_SITUACAO" df_censo) as [s|] eqn:Es; [|discriminate].
  cbn [ligar].
  repeat (match goal with
          | |- context [obter ?c ?d] =>
              destruct (obter c d); [|discriminate]; cbn [ligar]
          end).
  match goal with
  | |- context [nb_distorcao ?d] => destruct (nb_distorcao d); [|discriminate]
  end.
  cbn [ligar]. intros [= <-]. exists s. split; [apply obter_inv, Es|].
  cbn [colunas atribuir].
  rewrite !(procurar_atribuir_outra "ABANDONO") by discriminate.
  rewrite procurar_atribuir_mesma.
  rewrite !(procurar_atribuir_outra "CO_ENTIDADE") by discriminate.
  split; reflexivity.
Qed.

Lemma agregado_escola_chave df A :
  agregado_escola df = Ok A ->
  exists ks, procurar "CO_ENTIDADE" (colunas df) = Some ks /\
             indice A = length (chaves_dos_grupos ks).
Proof.
  intros H. destruct (procurar "CO_ENTIDADE" (colunas df)) as [ks|] eqn:E.
  - exists ks. split; [reflexivity|]. unfold agregado_escola in H.
    destruct (groupby_agg df "CO_ENTIDADE" _) as [agg|] eqn:Eg; [|discriminate].
    cbn [ligar] in H. injection H as <-.
    destruct (groupby_agg_forma _ _ _ _ ks E Eg) as (cols & -> & _). reflexivity.
  - unfold agregado_escola, groupby_agg, obter in H. rewrite E in H. discriminate.
Qed.

Lemma nb_agregar_escola_chave df E :
  nb_agregar_escola df = Ok E ->
  exists ks, procurar "CO_ENTIDADE" (colunas df) = Some ks.
Proof.
  intros H. destruct (procurar "CO_ENTIDADE" (colunas df)) as [ks|] eqn:Ek; [eauto|].
  unfold nb_agregar_escola, groupby_agg, obter in H. rewrite Ek in H. discriminate.
Qed.

(** The rate of a group of flags, as a fraction. *)
Lemma media_do_grupo_fracao (ks flags : Series) k :
  length ks <= length flags ->
  (forall x, x ∈ flags -> indicador x) ->
  k ∈ chaves_dos_grupos ks ->
  forall x, numerica (celulas_do_grupo k ks flags) = Ok x ->
  exists m, media x = Some m /\ (0 <= m /\ m <= 1)%Q.
Proof.
  intros Hl Hfl Hk x Hx.
  apply (media_de_indicadores (celulas_do_grupo k ks flags) x Hx).
  - intros Hnil. pose proof (grupo_nao_vazio k ks flags Hl Hk) as H.
    rewrite Hnil in H. simpl in H. lia.
  - intros y Hy. apply Hfl, (celulas_do_grupo_elem k ks flags y Hy).
Qed.

End Taxas.

(** X14. The rates [processar_censo_escolar] writes are fractions: for the
    enrolments extracted from a well-formed raw table, every school of the
    per-school aggregate has a [TAXA_ABANDONO] that is present (the flag is
    never missing and no group is empty) and lies between 0 and 1. *)
Theorem taxa_do_script_fracao arquivo restante df A :
  bem_formado arquivo ->
  processar_matriculas arquivo restante = Some df ->
  agregado_escola df = Ok A ->
  exists taxas,
    procurar "TAXA_ABANDONO" (colunas A) = Some taxas /\
    length taxas = indice A /\
    forall c, c ∈ taxas -> exists q, c = Some (Num q) /\ (0 <= q /\ q <= 1)%Q.
Proof.
  intros Hwf Hp HA. unfold processar_matriculas in Hp.
  match type of Hp with
  | context [filtrar_ensino_medio ?d] =>
      destruct (filtrar_ensino_medio d) as [dfm|] eqn:Ef; [|discriminate];
      assert (bem_formado d) as Hwf0 by (apply usecols_forma, Hwf)
  end.
  destruct restante; [|discriminate]. injection Hp as <-.
  destruct (filtrar_ensino_medio_forma _ _ Hwf0 Ef) as (Hem & _ & _).
  destruct (criar_abandono_forma dfm Hem) as (Hdf & Hi & Hout & flags & Hfl & Hlen & _).
  destruct (agregado_escola_chave _ _ HA) as (ks & Hks & HiA).
  destruct (taxa_do_script _ _ ks flags Hks Hfl HA) as (taxas & Ht & Hall).
  exists taxas. split; [exact Ht|].
  split; [rewrite HiA; symmetry; apply (Forall2_length _ _ _ Hall)|].
  intros c Hc. apply list_elem_of_lookup in Hc as [i Hi'].
  destruct (Forall2_lookup_r _ _ _ _ _ Hall Hi') as (k & Hk & x & Hx & ->).
  destruct (media_do_grupo_fracao ks flags k) with (x := x) as (m & Hm & Hb).
  - rewrite Hlen, <- Hi. rewrite (bem_formado_procurar _ _ _ Hdf Hks). lia.
  - apply (criar_abandono_indicadores dfm flags Hfl).
  - apply (list_elem_of_lookup_2 _ _ _ Hk).
  - exact Hx.
  - rewrite Hm. exists m. split; [reflexivity|exact Hb].
Qed.

(** X15. The rates of the notebook are percentages: after the
    standardisation of section 4.1, every school of the aggregate of section
    5.1 has a [TAXA_ABANDONO] that is present and lies between 0 and 100. *)
Theorem taxa_do_notebook_percentual df_censo df E :
  bem_formado df_censo ->
  nb_padronizar df_censo = Ok df ->
  nb_agregar_escola df = Ok E ->
  exists taxas,
    procurar "TAXA_ABANDONO" (colunas E) = Some taxas /\
    forall c, c ∈ taxas -> exists q, c = Some (Num q) /\ (0 <= q /\ q <= 100)%Q.
Proof.
  intros Hwf Hp HE.
  destruct (nb_padronizar_colunas _ _ Hp) as (s & Hs & Hfl & Hkey).
  destruct (nb_agregar_escola_chave _ _ HE) as (ks & Hks).
  destruct (taxa_do_notebook _ _ ks _ Hks Hfl HE) as (taxas & Ht & Hall).
  exists taxas. split; [exact Ht|].
  intros c Hc. apply list_elem_of_lookup in Hc as [i Hi'].
  destruct (Forall2_lookup_r _ _ _ _ _ Hall Hi') as (k & Hk & x & Hx & ->).
  destruct (media_do_grupo_fracao ks (map indicador_abandono s) k)
    with (x := x) as (m & Hm & Hlo & Hhi).
  - rewrite length_map. rewrite Hkey in Hks.
    rewrite (bem_formado_procurar _ _ _ Hwf Hks),
      (bem_formado_procurar _ _ _ Hwf Hs). lia.
  - intros y Hy. apply list_elem_of_In, in_map_iff in Hy as (z & <- & _).
    apply indicador_abandono_indicador.
  - apply (list_elem_of_lookup_2 _ _ _ Hk).
  - exact Hx.
  - rewrite Hm. eexists. split; [reflexivity|]. rewrite Qred_correct. split.
    + apply Qmult_le_0_compat; [exact Hlo|discriminate].
    + apply Qle_trans with (1 * 100)%Q; [|discriminate].
      apply Qmult_le_compat_r; [exact Hhi|discriminate].
Qed.

(** X16. What the enrolment part of the census extraction returns. It
    fails (returns [None]) when the raw table has no [TP_ETAPA_ENSINO]
    column, and when any other step inside its [try] raises (reading and
    saving the school file, writing the enrolments, removing the temporary
    files). When the column is there and those steps go through, it returns
    a well-formed table with no more rows than the raw table, whose labels
    are the relevant labels of the raw table, in the order of the raw table,
    followed by [ABANDONO]. *)
Theorem processar_matriculas_colunas arquivo restante :
  bem_formado arquivo ->
  ("TP_ETAPA_ENSINO" ∉ nomes arquivo \/ restante = false ->
   processar_matriculas arquivo restante = None) /\
  ("TP_ETAPA_ENSINO" ∈ nomes arquivo -> restante = true ->
   exists df,
     processar_matriculas arquivo restante = Some df /\
     bem_formado df /\ indice df <= indice arquivo /\
     nomes df =
       List.filter (fun n => esta_em n colunas_relevantes) (nomes arquivo) ++
       ["ABANDONO"]).
Proof.
  intros Hwf. unfold processar_matriculas.
  set (existentes := List.filter (fun col => tem_coluna col arquivo) colunas_relevantes).
  destruct (usecols_forma existentes arquivo) as (Hi & Hn & Hb).
  assert (forall n, n ∈ nomes arquivo ->
            esta_em n existentes = esta_em n colunas_relevantes) as Hex.
  { intros n Hn'. unfold esta_em. apply bool_decide_ext. unfold existentes.
    rewrite list_elem_of_In, filter_In, <- list_elem_of_In.
    unfold tem_coluna. rewrite bool_decide_eq_true. tauto. }
  assert (nomes (usecols existentes arquivo) =
          List.filter (fun n => esta_em n colunas_relevantes) (nomes arquivo)) as Hn'.
  { rewrite Hn. apply filter_ext_in. intros n Hin. apply Hex, list_elem_of_In, Hin. }
  assert (procurar "TP_ETAPA_ENSINO" (colunas (usecols existentes arquivo)) =
          procurar "TP_ETAPA_ENSINO" (colunas arquivo)) as Het.
  { unfold usecols. cbn [colunas].
    rewrite (procurar_filter (fun n => esta_em n existentes)).
    destruct (procurar "TP_ETAPA_ENSINO" (colunas arquivo)) as [s|] eqn:E;
      [|destruct (esta_em _ _); reflexivity].
    rewrite Hex by (apply procurar_nomes; rewrite E; eauto). reflexivity. }
  split.
  - intros [Hno| ->].
    + unfold filtrar_ensino_medio, obter. rewrite Het.
      destruct (procurar "TP_ETAPA_ENSINO" (colunas arquivo)) as [s|] eqn:E;
        [|reflexivity].
      destruct Hno. apply procurar_nomes. rewrite E. eauto.
    + destruct (filtrar_ensino_medio (usecols existentes arquivo)); reflexivity.
  - intros Hyes ->. apply procurar_nomes in Hyes as [s Hs].
    destruct (filtrar_ensino_medio (usecols existentes arquivo)) as [dfm|] eqn:Ef.
    + destruct (filtrar_ensino_medio_forma _ _ (Hb Hwf) Ef) as (Hem & Hnem & Hiem).
      destruct (criar_abandono_forma dfm Hem) as (Hdf & Hidf & _).
      eexists. split; [reflexivity|]. split; [exact Hdf|].
      split; [rewrite Hidf; lia|].
      rewrite nomes_criar_abandono; [rewrite Hnem, Hn'; reflexivity|].
      rewrite Hnem, Hn'. intros Hin.
      apply list_elem_of_In, filter_In in Hin as [_ Hin].
      vm_compute in Hin. discriminate.
    + exfalso. unfold filtrar_ensino_medio, obter in Ef.
      rewrite Het, Hs in Ef. discriminate.
Qed.

Section Totais.

Lemma omap_sem_nulos (g : Series) :
  (forall c, c ∈ g -> c <> None) -> length (omap id g) = length g.
Proof.
  induction g as [|[v|] g IH]; intros H; simpl; [reflexivity| |].
  - f_equal. apply IH. intros c Hc. apply H. right. exact Hc.
  - destruct (H None); [left|reflexivity].
Qed.

Lemma contagens_dos_grupos (ks anos : Series) (grupos : list valor) (t : Series) :
  Forall2 (fun k c => agregar Count (celulas_do_grupo k ks anos) = Ok c) grupos t ->
  t = map (fun k => Some (inteiro (Z.of_nat
                                    (length (omap id (celulas_do_grupo k ks anos))))))
        grupos.
Proof.
  induction 1 as [|k c grupos t Hc _ IH]; [reflexivity|].
  cbn [map]. f_equal; [|exact IH]. unfold agregar in Hc. congruence.
Qed.

(** The [count] column of the per-school aggregate. *)
Lemma total_do_script df A ks anos :
  procurar "CO_ENTIDADE" (colunas df) = Some ks ->
  procurar "NU_ANO_CENSO" (colunas df) = Some anos ->
  agregado_escola df = Ok A ->
  procurar "TOTAL_ALUNOS" (colunas A) =
  Some (map (fun k => Some (inteiro (Z.of_nat
                                       (length (omap id (celulas_do_grupo k ks anos))))))
          (chaves_dos_grupos ks)).
Proof.
  intros Hks Han. unfold agregado_escola.
  destruct (groupby_agg df "CO_ENTIDADE" _) as [agg|] eqn:E; [|discriminate].
  cbn [ligar]. intros [= <-].
  destruct (groupby_agg_forma _ _ _ _ ks Hks E) as (cols & -> & Hcols).
  repeat match goal with
  | H : Forall2 _ (_ :: _) _ |- _ =>
      apply Forall2_cons_inv_l in H as ([? ?] & ? & (? & ? & ? & ?) & ? & ->)
  | H : Forall2 _ [] _ |- _ => apply Forall2_nil_inv_l in H as ->
  end.
  cbn [fst snd] in *. subst.
  repeat match goal with
  | H : procurar "NU_ANO_CENSO" (colunas df) = Some _ |- _ =>
      rewrite Han in H; injection H as <-
  end.
  match goal with
  | H : Forall2 ?R _ ?t |- _ =>
      match R with
      | context [Count] => rewrite (contagens_dos_grupos ks anos _ t H)
      end
  end.
  reflexivity.
Qed.

End Totais.

(** X27. The per-school aggregate loses and double counts no enrolment: when
    the census year is present on every row, the [TOTAL_ALUNOS] of the
    schools add up to the number of enrolments that carry a school code.
    Enrolments without a school code are in no school. *)
Theorem total_alunos_conserva df A ks anos :
  bem_formado df ->
  procurar "CO_ENTIDADE" (colunas df) = Some ks ->
  procurar "NU_ANO_CENSO" (colunas df) = Some anos ->
  (forall c, c ∈ anos -> c <> None) ->
  agregado_escola df = Ok A ->
  exists totais : list nat,
    procurar "TOTAL_ALUNOS" (colunas A) =
      Some (map (fun n => Some (inteiro (Z.of_nat n))) totais) /\
    length totais = indice A /\
    list_sum totais = length (omap id ks).
Proof.
  intros Hwf Hks Han Hnn HA.
  exists (map (fun k => length (celulas_do_grupo k ks anos)) (chaves_dos_grupos ks)).
  split; [|split].
  - rewrite (total_do_script df A ks anos Hks Han HA), map_map.
    f_equal. apply map_ext. intros k. repeat f_equal.
    apply omap_sem_nulos. intros c Hc.
    apply Hnn, (celulas_do_grupo_elem k ks anos c Hc).
  - rewrite length_map. destruct (agregado_escola_chave _ _ HA) as (ks' & Hks' & Hi).
    rewrite Hks in Hks'. injection Hks' as <-. symmetry. exact Hi.
  - apply grupos_soma.
    rewrite (bem_formado_procurar _ _ _ Hwf Hks), (bem_formado_procurar _ _ _ Hwf Han).
    reflexivity.
Qed.

(** ** Second runs of the Consistency Checker *)

Section SegundaPassagem.

Lemma sem_taxas_fora (x : list (option Q)) :
  List.filter taxa_fora (map (fmap (clip 0 100)) x) = [].
Proof.
  induction x as [|[q|] x IH]; simpl; [reflexivity| |exact IH].
  destruct (clip_limites q) as [Hlo Hhi].
  apply Qltb_ge in Hlo, Hhi. rewrite Hlo, Hhi. exact IH.
Qed.

Lemma fillna_valor_nulo (s : Series) : fillna_valor None s = s.
Proof.
  unfold fillna_valor. rewrite <- (map_id s) at 2. apply map_ext.
  intros [v|]; reflexivity.
Qed.

End SegundaPassagem.

(** X17. The bounds check is idempotent: on the dataset it returns, a second
    run of the check finds no invalid rate, emits no warning and returns the
    dataset as it is. *)
Theorem verificar_taxas_idempotente df df' log :
  verificar_taxas df = Ok (df', log) ->
  verificar_taxas df' = Ok (df', []).
Proof.
  intros H. pose proof H as H0. unfold verificar_taxas in H0.
  destruct (obter "TAXA_ABANDONO" df) as [s|] eqn:Es; [|discriminate].
  cbn [ligar] in H0. destruct (numerica s) as [x|] eqn:Ex; [|discriminate].
  cbn [ligar] in H0.
  destruct (Nat.ltb 0 (length (List.filter taxa_fora x))).
  - injection H0 as <- _. unfold verificar_taxas, obter. cbn [colunas atribuir].
    rewrite procurar_atribuir_mesma. cbn [ligar].
    replace (map (fun p : option Q => (fun q => Num (clip 0 100 q)) <$> p) x)
      with (map (fmap Num) (map (fmap (clip 0 100)) x))
      by (rewrite map_map; apply map_ext; intros [q|]; reflexivity).
    rewrite numerica_fmap_Num. cbn [ligar]. rewrite sem_taxas_fora. reflexivity.
  - injection H0 as <- <-. exact H.
Qed.

Section SegundoTratamento.

(** The dataset the missing-value pass returns. *)
Lemma verificar_valores_ausentes_resultado df :
  NoDup (nomes df) ->
  exists impresso,
    verificar_valores_ausentes df =
    Ok (impresso, MkDataFrame (indice df) (map tratar_coluna (colunas df))).
Proof.
  intros Hnd.
  exists (List.filter (fun l : string * nat * PrimFloat.float => Nat.ltb 0 l.1.2)
            (map (linha_ausentes df) (colunas df))).
  unfold verificar_valores_ausentes.
  rewrite map_map. cbn [linha_ausentes fst snd].
  destruct (Nat.ltb 0 _) eqn:E.
  - pose proof (imputar_todas (indice df) [] (colunas df) Hnd) as H.
    cbn [map app] in H. destruct df as [n cols]. cbn [colunas indice] in *.
    rewrite H. reflexivity.
  - apply Nat.ltb_ge in E. rewrite sem_nulos_tratar by lia.
    destruct df; reflexivity.
Qed.

Lemma nulos_fillna_valor w (s : Series) : nulos (fillna_valor (Some w) s) = 0.
Proof.
  unfold nulos, fillna_valor. induction s as [|[v|] s IH]; simpl; [reflexivity| |];
    exact IH.
Qed.

Lemma tratar_coluna_idempotente ns :
  tratar_coluna (tratar_coluna ns) = tratar_coluna ns.
Proof.
  destruct ns as [c s].
  destruct (dtype_numerico s && Nat.ltb 0 (nulos s)) eqn:E.
  - assert (tratar_coluna (c, s) = (c, imputada s)) as ->
      by (unfold tratar_coluna; cbn [fst snd]; rewrite E; reflexivity).
    unfold imputada. destruct (media (como_numeros s)) as [mu|] eqn:Em;
      cbn [fmap option_fmap option_map].
    + unfold tratar_coluna. cbn [fst snd].
      rewrite nulos_fillna_valor, andb_false_r. reflexivity.
    + rewrite fillna_valor_nulo. unfold tratar_coluna. cbn [fst snd]. rewrite E.
      unfold imputada. rewrite Em. cbn [fmap option_fmap option_map].
      rewrite fillna_valor_nulo. reflexivity.
  - assert (tratar_coluna (c, s) = (c, s)) as Hid
      by (unfold tratar_coluna; cbn [fst snd]; rewrite E; reflexivity).
    rewrite !Hid. reflexivity.
Qed.

Lemma media_sem_valores (x : list (option Q)) q : media x = None -> Some q ∉ x.
Proof.
  unfold media. destruct (presentes x) as [|y ys] eqn:E; [|discriminate].
  intros _ Hin.
  assert (q ∈ presentes x) as Hq
    by (apply list_elem_of_omap; exists (Some q); auto).
  rewrite E in Hq. inversion Hq.
Qed.

End SegundoTratamento.

(** X19. The missing-value treatment is idempotent, and it is complete on
    the columns it can treat: applied to the dataset it returned, the pass
    returns that dataset unchanged; and in the returned dataset a numeric
    column that holds at least one number has no missing value left. *)
Theorem verificar_valores_ausentes_idempotente df relatorio df' :
  NoDup (nomes df) ->
  verificar_valores_ausentes df = Ok (relatorio, df') ->
  (exists relatorio', verificar_valores_ausentes df' = Ok (relatorio', df')) /\
  (forall c s, (c, s) ∈ colunas df' -> dtype_numerico s = true ->
     (exists q, Some (Num q) ∈ s) -> nulos s = 0).
Proof.
  intros Hnd H.
  destruct (verificar_valores_ausentes_resultado df Hnd) as [impresso Hv].
  rewrite Hv in H. injection H as _ <-. split.
  - destruct (verificar_valores_ausentes_resultado
                (MkDataFrame (indice df) (map tratar_coluna (colunas df))))
      as [impresso' Hv'].
    + unfold nomes. cbn [colunas]. rewrite nomes_tratar. exact Hnd.
    + exists impresso'. rewrite Hv'. cbn [colunas indice].
      rewrite map_map.
      rewrite (map_ext _ tratar_coluna) by (intros ns; apply tratar_coluna_idempotente).
      reflexivity.
  - intros c s' Hin Hnum (q & Hq). cbn [colunas] in Hin.
    apply list_elem_of_In, in_map_iff in Hin as ([c0 s] & Ht & _).
    unfold tratar_coluna in Ht. cbn [fst snd] in Ht.
    destruct (dtype_numerico s && Nat.ltb 0 (nulos s)) eqn:E.
    + injection Ht as _ <-. unfold imputada in *.
      destruct (media (como_numeros s)) as [mu|] eqn:Em;
        cbn [fmap option_fmap option_map] in *; [apply nulos_fillna_valor|].
      rewrite fillna_valor_nulo in Hq. exfalso.
      apply (media_sem_valores _ q Em). unfold como_numeros.
      apply list_elem_of_In, in_map_iff. exists (Some (Num q)).
      split; [reflexivity|apply list_elem_of_In, Hq].
    + injection Ht as _ <-. rewrite Hnum in E. cbn [andb] in E.
      apply Nat.ltb_ge in E. lia.
Qed.

(** ** The additional features of the notebook *)

Section Features.

Lemma Qle_bool_false a b : Qle_bool a b = false <-> (b < a)%Q.
Proof.
  split.
  - intros H. apply Qnot_le_lt. intros Hle. apply Qle_bool_iff in Hle. congruence.
  - intros H. apply not_true_is_false. intros Hle. apply Qle_bool_iff in Hle.
    apply (Qlt_not_le _ _ H Hle).
Qed.

(** The interval test of one bin. *)
Lemma no_intervalo lo hi x :
  Qltb lo x && Qle_bool x hi = true <-> (lo < x /\ x <= hi)%Q.
Proof. rewrite andb_true_iff, Qltb_lt, Qle_bool_iff. reflexivity. Qed.

Lemma fora_do_intervalo lo hi x :
  (x <= lo \/ hi < x)%Q -> Qltb lo x && Qle_bool x hi = false.
Proof.
  intros H. apply not_true_is_false. intros Hin. apply no_intervalo in Hin. lra.
Qed.

(** The category of one rate. *)
Lemma pd_cut_abandono (q : Q) :
  let cat := pd_cut_valor [0; 5; 10; 15; 100]%Q rotulos_abandono q in
  ((q <= 0 \/ 100 < q)%Q -> cat = None) /\
  ((0 < q /\ q <= 5)%Q -> cat = Some (Texto "Baixo (0-5%)")) /\
  ((5 < q /\ q <= 10)%Q -> cat = Some (Texto "Médio (5-10%)")) /\
  ((10 < q /\ q <= 15)%Q -> cat = Some (Texto "Alto (10-15%)")) /\
  ((15 < q /\ q <= 100)%Q -> cat = Some (Texto "Muito Alto (>15%)")).
Proof.
  cbn [pd_cut_valor rotulos_abandono]. cbv zeta.
  split; [|split; [|split; [|split]]]; intros H.
  - rewrite !fora_do_intervalo by lra. reflexivity.
  - rewrite (proj2 (no_intervalo 0 5 q)) by lra. reflexivity.
  - rewrite (fora_do_intervalo 0 5) by lra.
    rewrite (proj2 (no_intervalo 5 10 q)) by lra. reflexivity.
  - rewrite (fora_do_intervalo 0 5), (fora_do_intervalo 5 10) by lra.
    rewrite (proj2 (no_intervalo 10 15 q)) by lra. reflexivity.
  - rewrite (fora_do_intervalo 0 5), (fora_do_intervalo 5 10),
      (fora_do_intervalo 10 15) by lra.
    rewrite (proj2 (no_intervalo 15 100 q)) by lra. reflexivity.
Qed.

Lemma vulnerabilidade_limites (p d g i : Q) :
  (0 <= p /\ p <= 100)%Q -> (0 <= d /\ d <= 100)%Q ->
  (0 <= g /\ g <= 1)%Q -> (0 <= i /\ i <= 10)%Q ->
  exists v, vulnerabilidade (Some p) (Some d) (Some g) (Some i) = Some v /\
            (-1 <= v /\ v <= 3)%Q.
Proof.
  intros Hp Hd Hg Hi. eexists. split; [reflexivity|].
  rewrite Qred_correct. unfold Qdiv.
  change (/ 100)%Q with (1 # 100)%Q. change (/ 10)%Q with (1 # 10)%Q.
  split; lra.
Qed.

End Features.

(** X20. The categories of section 7. Each rate is put into the bin that
    contains it, the bins being open on the left: rates in (0, 5] are
    "Baixo", in (5, 10] "Médio", in (10, 15] "Alto", in (15, 100] "Muito
    Alto". A rate of exactly 0, a negative rate, a rate above 100 and a
    missing rate get no category; so a rate expressed as a fraction between
    0 and 1 can only be "Baixo" or uncategorised. *)
Theorem categoria_abandono_faixas df taxa x :
  procurar "TAXA_ABANDONO" (colunas df) = Some taxa ->
  numerica taxa = Ok x ->
  exists D cat,
    nb_categoria_abandono df = Ok D /\
    procurar "CATEGORIA_ABANDONO" (colunas D) = Some cat /\
    length cat = length taxa /\
    forall i,
      (x !! i = Some None -> cat !! i = Some None) /\
      (forall q, x !! i = Some (Some q) ->
         ((q <= 0 \/ 100 < q)%Q -> cat !! i = Some None) /\
         ((0 < q /\ q <= 5)%Q -> cat !! i = Some (Some (Texto "Baixo (0-5%)"))) /\
         ((5 < q /\ q <= 10)%Q -> cat !! i = Some (Some (Texto "Médio (5-10%)"))) /\
         ((10 < q /\ q <= 15)%Q -> cat !! i = Some (Some (Texto "Alto (10-15%)"))) /\
         ((15 < q /\ q <= 100)%Q ->
            cat !! i = Some (Some (Texto "Muito Alto (>15%)"))) /\
         ((0 <= q /\ q <= 1)%Q ->
            cat !! i = Some None \/
            cat !! i = Some (Some (Texto "Baixo (0-5%)")))).
Proof.
  intros Ht Hx. unfold nb_categoria_abandono, obter, pd_cut. rewrite Ht.
  cbn [ligar]. rewrite Hx. cbn [ligar].
  eexists _, _. split; [reflexivity|]. cbn [colunas atribuir].
  rewrite procurar_atribuir_mesma. split; [reflexivity|].
  split; [rewrite length_map; apply (numerica_length _ _ Hx)|].
  intros i. rewrite lookup_map. split.
  - intros ->. reflexivity.
  - intros q ->. cbn [fmap option_fmap option_map mbind option_bind].
    destruct (pd_cut_abandono q) as (H0 & H1 & H2 & H3 & H4).
    split; [intros H; rewrite (H0 H); reflexivity|].
    split; [intros H; rewrite (H1 H); reflexivity|].
    split; [intros H; rewrite (H2 H); reflexivity|].
    split; [intros H; rewrite (H3 H); reflexivity|].
    split; [intros H; rewrite (H4 H); reflexivity|].
    intros [Hlo Hhi]. destruct (Qlt_le_dec 0 q) as [Hpos|Hneg].
    + right. rewrite H1 by lra. reflexivity.
    + left. rewrite H0 by lra. reflexivity.
Qed.

(** X21. The vulnerability index of section 7 is defined on a row exactly
    when its four components are present there, and for components in their
    ranges (poverty and unemployment rates in [0, 100], Gini in [0, 1], IDEB
    in [0, 10]) it lies between -1 and 3. *)
Theorem indice_vulnerabilidade_limites df sp sd sg si p d g i :
  procurar "TAXA_POBREZA" (colunas df) = Some sp -> numerica sp = Ok p ->
  procurar "TAXA_DESEMPREGO" (colunas df) = Some sd -> numerica sd = Ok d ->
  procurar "INDICE_GINI" (colunas df) = Some sg -> numerica sg = Ok g ->
  procurar "IDEB" (colunas df) = Some si -> numerica si = Ok i ->
  exists D v,
    nb_indice_vulnerabilidade df = Ok D /\
    procurar "INDICE_VULNERABILIDADE" (colunas D) = Some v /\
    forall r a b c e,
      p !! r = Some a -> d !! r = Some b -> g !! r = Some c -> i !! r = Some e ->
      exists w,
        v !! r = Some (Num <$> w) /\
        (is_Some w <-> is_Some a /\ is_Some b /\ is_Some c /\ is_Some e) /\
        (forall qa qb qc qe u,
           a = Some qa -> b = Some qb -> c = Some qc -> e = Some qe ->
           (0 <= qa /\ qa <= 100)%Q -> (0 <= qb /\ qb <= 100)%Q ->
           (0 <= qc /\ qc <= 1)%Q -> (0 <= qe /\ qe <= 10)%Q ->
           w = Some u -> (-1 <= u /\ u <= 3)%Q).
Proof.
  intros Hsp Hp Hsd Hd Hsg Hg Hsi Hi. unfold nb_indice_vulnerabilidade, obter.
  rewrite Hsp. cbn [ligar]. rewrite Hp. cbn [ligar].
  rewrite Hsd. cbn [ligar]. rewrite Hd. cbn [ligar].
  rewrite Hsg. cbn [ligar]. rewrite Hg. cbn [ligar].
  rewrite Hsi. cbn [ligar]. rewrite Hi. cbn [ligar].
  eexists _, _. split; [reflexivity|]. cbn [colunas atribuir].
  rewrite procurar_atribuir_mesma. split; [reflexivity|].
  intros r a b c e Ha Hb Hc He. exists (vulnerabilidade a b c e).
  split; [|split].
  - rewrite lookup_map.
    match goal with
    | |- context [zip_with ?f (zip p d) (zip g i) !! r] =>
        assert (zip_with f (zip p d) (zip g i) !! r =
                Some (vulnerabilidade a b c e)) as ->
    end; [|reflexivity].
    apply lookup_zip_with_Some. exists (a, b), (c, e).
    split; [reflexivity|]. split; apply lookup_zip_Some; auto.
  - destruct a, b, c, e; simpl; split;
      try (intros [? [=]]); try (intros (? & ? & ? & ?));
      repeat match goal with H : is_Some None |- _ => destruct H as [? [=]] end;
      eauto.
  - intros qa qb qc qe u -> -> -> -> Ha' Hb' Hc' He' Hw.
    destruct (vulnerabilidade_limites qa qb qc qe Ha' Hb' Hc' He') as (v' & Hv' & Hb'').
    rewrite Hv' in Hw. injection Hw as <-. exact Hb''.
Qed.

(** ** The files a run reads and writes *)

Ltac nomes_distintos H :=
  unfold arquivo_censo, arquivo_saeb, arquivo_indicadores, arquivo_pnad,
    arquivo_socioeconomico, arquivo_integrado, arquivo_relatorio in H;
  cbn [String.eqb Ascii.eqb Bool.eqb String.append] in H;
  try (injection H as H); discriminate H.

Section Diretorio.

(** The files the school-level run of a year asks for. *)
Definition entrada_escola (ano : Z) (f : string) : Prop :=
  arquivo_censo ano "escola" = Some f \/
  (exists tipo, f = arquivo_saeb (ano_saeb ano) tipo) \/
  (exists tipo, f = arquivo_indicadores ano tipo).

(** The files the municipality-level run of a year asks for. *)
Definition entrada_municipio (ano : Z) (f : string) : Prop :=
  arquivo_censo ano "municipio" = Some f \/
  f = arquivo_socioeconomico \/
  (exists tipo, f = arquivo_indicadores ano tipo) \/
  f = arquivo_pnad ano.

(** The files the student-level run of a year asks for. *)
Definition entrada_aluno (ano : Z) (f : string) : Prop :=
  arquivo_censo ano "aluno" = Some f \/
  (exists tipo, f = arquivo_saeb (ano_saeb ano) tipo).

Lemma integrado_nao_entrada n ano :
  ~ entrada_escola ano (arquivo_integrado n ano) /\
  ~ entrada_municipio ano (arquivo_integrado n ano) /\
  ~ entrada_aluno ano (arquivo_integrado n ano).
Proof.
  unfold entrada_escola, entrada_municipio, entrada_aluno.
  split; [|split].
  - intros [H|[[t H]|[t H]]]; nomes_distintos H.
  - intros [H|[H|[[t H]|H]]]; nomes_distintos H.
  - intros [H|[t H]]; nomes_distintos H.
Qed.

Lemma socio_nao_entrada_aluno ano : ~ entrada_aluno ano arquivo_socioeconomico.
Proof. intros [H|[t H]]; nomes_distintos H. Qed.

Lemma ler_csv_ext (fs1 fs2 : diretorio) f :
  fs1 !! f = fs2 !! f -> ler_csv fs1 f = ler_csv fs2 f.
Proof. unfold ler_csv. intros ->. reflexivity. Qed.

Lemma carregar_censo_ext (fs1 fs2 : diretorio) ano nivel :
  (forall f, arquivo_censo ano nivel = Some f -> fs1 !! f = fs2 !! f) ->
  carregar_censo_escolar fs1 ano nivel = carregar_censo_escolar fs2 ano nivel.
Proof.
  intros H. unfold carregar_censo_escolar.
  destruct (arquivo_censo ano nivel) as [f|]; [|reflexivity].
  simpl. apply ler_csv_ext, H. reflexivity.
Qed.

Lemma carregar_tipos_ext (fs1 fs2 : diretorio) arquivo tipos :
  (forall tipo, fs1 !! arquivo tipo = fs2 !! arquivo tipo) ->
  carregar_tipos fs1 arquivo tipos = carregar_tipos fs2 arquivo tipos.
Proof.
  intros H. unfold carregar_tipos. induction tipos as [|t tipos IH]; [reflexivity|].
  cbn [omap list_omap]. rewrite (ler_csv_ext fs1 fs2 (arquivo t) (H t)).
  destruct (ler_csv fs2 (arquivo t)); simpl; [f_equal|]; exact IH.
Qed.

(** Each level depends on the directory only through the files it asks
    for. *)
Lemma integrar_escola_ext (fs1 fs2 : diretorio) ano :
  (forall f, entrada_escola ano f -> fs1 !! f = fs2 !! f) ->
  integrar_dados_nivel_escola fs1 ano = integrar_dados_nivel_escola fs2 ano.
Proof.
  intros H. unfold integrar_dados_nivel_escola, carregar_saeb,
    carregar_indicadores_educacionais.
  rewrite (carregar_censo_ext fs1 fs2 ano "escola")
    by (intros f Hf; apply H; left; exact Hf).
  rewrite (carregar_tipos_ext fs1 fs2 (arquivo_saeb (ano_saeb ano)))
    by (intros t; apply H; right; left; eauto).
  rewrite (carregar_tipos_ext fs1 fs2 (arquivo_indicadores ano))
    by (intros t; apply H; right; right; eauto).
  reflexivity.
Qed.

Lemma integrar_aluno_ext (fs1 fs2 : diretorio) ano :
  (forall f, entrada_aluno ano f -> fs1 !! f = fs2 !! f) ->
  integrar_dados_nivel_aluno fs1 ano = integrar_dados_nivel_aluno fs2 ano.
Proof.
  intros H. unfold integrar_dados_nivel_aluno, carregar_saeb.
  rewrite (carregar_censo_ext fs1 fs2 ano "aluno")
    by (intros f Hf; apply H; left; exact Hf).
  rewrite (carregar_tipos_ext fs1 fs2 (arquivo_saeb (ano_saeb ano)))
    by (intros t; apply H; right; eauto).
  reflexivity.
Qed.

Lemma socioeconomico_ext to_csv rng (fs1 fs2 : diretorio) ano :
  (forall f, entrada_municipio ano f -> fs1 !! f = fs2 !! f) ->
  (carregar_dados_socioeconomicos to_csv rng fs1).1 =
    (carregar_dados_socioeconomicos to_csv rng fs2).1 /\
  (forall f, entrada_municipio ano f ->
     (carregar_dados_socioeconomicos to_csv rng fs1).2 !! f =
     (carregar_dados_socioeconomicos to_csv rng fs2).2 !! f).
Proof.
  intros H. unfold carregar_dados_socioeconomicos.
  rewrite (H arquivo_socioeconomico) by (right; left; reflexivity).
  destruct (fs2 !! arquivo_socioeconomico) as [[df|]|]; cbn [fst snd];
    split; try reflexivity; try exact H.
  intros f Hf. rewrite !lookup_insert. destruct (decide _); [reflexivity|].
  apply H, Hf.
Qed.

Lemma integrar_municipio_ext to_csv rng (fs1 fs2 : diretorio) ano :
  (forall f, entrada_municipio ano f -> fs1 !! f = fs2 !! f) ->
  (integrar_dados_nivel_municipio to_csv rng fs1 ano).1 =
  (integrar_dados_nivel_municipio to_csv rng fs2 ano).1.
Proof.
  intros H. unfold integrar_dados_nivel_municipio.
  rewrite (carregar_censo_ext fs1 fs2 ano "municipio")
    by (intros f Hf; apply H; left; exact Hf).
  destruct (carregar_censo_escolar fs2 ano "municipio") as [P|]; [|reflexivity].
  destruct (socioeconomico_ext to_csv rng fs1 fs2 ano H) as [Hs Hd].
  destruct (carregar_dados_socioeconomicos to_csv rng fs1) as [s1 d1].
  destruct (carregar_dados_socioeconomicos to_csv rng fs2) as [s2 d2].
  cbn [fst snd] in *. subst s2.
  unfold carregar_indicadores_educacionais, carregar_pnad.
  rewrite (carregar_tipos_ext d1 d2 (arquivo_indicadores ano))
    by (intros t; apply Hd; right; right; left; eauto).
  rewrite (ler_csv_ext d1 d2 (arquivo_pnad ano))
    by (apply Hd; right; right; right; reflexivity).
  reflexivity.
Qed.

(** The municipality-level run writes at most the socioeconomic table. *)
Lemma integrar_municipio_diretorio to_csv rng (fs : diretorio) ano :
  (integrar_dados_nivel_municipio to_csv rng fs ano).2 = fs \/
  (fs !! arquivo_socioeconomico = None /\
   (integrar_dados_nivel_municipio to_csv rng fs ano).2 =
     <[arquivo_socioeconomico := to_csv (dados_simulados rng)]> fs).
Proof.
  unfold integrar_dados_nivel_municipio.
  destruct (carregar_censo_escolar fs ano "municipio") as [P|]; [|left; reflexivity].
  unfold carregar_dados_socioeconomicos.
  destruct (fs !! arquivo_socioeconomico) as [[df|]|]; cbn [snd]; auto.
Qed.

Lemma municipio_lookup to_csv rng (fs : diretorio) ano f :
  f <> arquivo_socioeconomico ->
  (integrar_dados_nivel_municipio to_csv rng fs ano).2 !! f = fs !! f.
Proof.
  intros Hf.
  destruct (integrar_municipio_diretorio to_csv rng fs ano) as [->|[_ ->]]; [reflexivity|].
  apply lookup_insert_ne. congruence.
Qed.

Lemma integrar_municipio_insert to_csv rng (fs : diretorio) ano o c :
  ~ entrada_municipio ano o ->
  integrar_dados_nivel_municipio to_csv rng (<[o := c]> fs) ano =
  ((integrar_dados_nivel_municipio to_csv rng fs ano).1,
   <[o := c]> (integrar_dados_nivel_municipio to_csv rng fs ano).2).
Proof.
  intros Ho.
  assert (forall f, entrada_municipio ano f -> <[o := c]> fs !! f = fs !! f) as Hag.
  { intros f Hf. apply lookup_insert_ne. intros ->. exact (Ho Hf). }
  rewrite (surjective_pairing (integrar_dados_nivel_municipio to_csv rng (<[o := c]> fs) ano)).
  f_equal; [apply integrar_municipio_ext, Hag|].
  unfold integrar_dados_nivel_municipio.
  rewrite (carregar_censo_ext (<[o := c]> fs) fs ano "municipio")
    by (intros f Hf; apply Hag; left; exact Hf).
  destruct (carregar_censo_escolar fs ano "municipio") as [P|]; [|reflexivity].
  unfold carregar_dados_socioeconomicos.
  rewrite (Hag arquivo_socioeconomico) by (right; left; reflexivity).
  destruct (fs !! arquivo_socioeconomico) as [[df|]|]; cbn [snd]; try reflexivity.
  apply insert_insert_ne. intros Heq. apply Ho. right. left. congruence.
Qed.

Lemma salvar_nivel_lookup to_csv n ano df res (fs : diretorio) f :
  f <> arquivo_integrado n ano ->
  (salvar_nivel to_csv n ano df res fs).2 !! f = fs !! f.
Proof.
  intros Hf. destruct df as [df|]; cbn [salvar_nivel snd]; [|reflexivity].
  apply lookup_insert_ne. congruence.
Qed.

Lemma aluno_insert (fs : diretorio) ano o c :
  ~ entrada_aluno ano o ->
  integrar_dados_nivel_aluno (<[o := c]> fs) ano = integrar_dados_nivel_aluno fs ano.
Proof.
  intros Ho. apply integrar_aluno_ext. intros f Hf. apply lookup_insert_ne.
  intros Heq. apply Ho. rewrite Heq. exact Hf.
Qed.

Lemma aluno_apos_municipio to_csv rng (fs : diretorio) ano :
  integrar_dados_nivel_aluno (integrar_dados_nivel_municipio to_csv rng fs ano).2 ano =
  integrar_dados_nivel_aluno fs ano.
Proof.
  destruct (integrar_municipio_diretorio to_csv rng fs ano) as [->|[_ ->]]; [reflexivity|].
  apply integrar_aluno_ext. intros f Hf. apply lookup_insert_ne.
  intros Heq. apply (socio_nao_entrada_aluno ano). rewrite Heq. exact Hf.
Qed.

End Diretorio.

(** X22. Each level reads the processed-data directory only through the
    files it asks for: two directories that agree on the census file of the
    level and on the secondary files of the level give the same result,
    whatever else they hold. *)
Theorem niveis_leem_so_entradas to_csv rng (fs1 fs2 : diretorio) ano :
  ((forall f, entrada_escola ano f -> fs1 !! f = fs2 !! f) ->
   integrar_dados_nivel_escola fs1 ano = integrar_dados_nivel_escola fs2 ano) /\
  ((forall f, entrada_municipio ano f -> fs1 !! f = fs2 !! f) ->
   (integrar_dados_nivel_municipio to_csv rng fs1 ano).1 =
   (integrar_dados_nivel_municipio to_csv rng fs2 ano).1) /\
  ((forall f, entrada_aluno ano f -> fs1 !! f = fs2 !! f) ->
   integrar_dados_nivel_aluno fs1 ano = integrar_dados_nivel_aluno fs2 ano).
Proof.
  split; [apply integrar_escola_ext|].
  split; [apply integrar_municipio_ext|apply integrar_aluno_ext].
Qed.

(** X23. The complete integration writes nothing but its three outputs, its
    report and the simulated socioeconomic table: every other file of the
    directory is as it was, whether the run returns or raises. *)
Theorem execucao_escreve_so_saidas to_csv rng (fs : diretorio) ano f :
  f <> arquivo_integrado "escolas" ano ->
  f <> arquivo_integrado "municipios" ano ->
  f <> arquivo_integrado "alunos" ano ->
  f <> arquivo_relatorio ano ->
  f <> arquivo_socioeconomico ->
  (executar_integracao_completa to_csv rng fs ano).2 !! f = fs !! f.
Proof.
  intros H1 H2 H3 H4 H5. unfold executar_integracao_completa.
  destruct (integrar_dados_nivel_escola fs ano) as [E|e]; [|reflexivity].
  pose proof (salvar_nivel_lookup to_csv "escolas" ano E [] fs f H1) as HE.
  destruct (salvar_nivel to_csv "escolas" ano E [] fs) as [r1 f1]. cbn [snd] in HE.
  pose proof (municipio_lookup to_csv rng f1 ano f H5) as HM.
  destruct (integrar_dados_nivel_municipio to_csv rng f1 ano) as [rm f2]. cbn [snd] in HM.
  destruct rm as [M|e]; [|cbn [snd]; congruence].
  pose proof (salvar_nivel_lookup to_csv "municipios" ano M r1 f2 f H2) as HS.
  destruct (salvar_nivel to_csv "municipios" ano M r1 f2) as [r2 f3]. cbn [snd] in HS.
  destruct (integrar_dados_nivel_aluno f3 ano) as [A|e]; [|cbn [snd]; congruence].
  pose proof (salvar_nivel_lookup to_csv "alunos" ano A r2 f3 f H3) as HA.
  destruct (salvar_nivel to_csv "alunos" ano A r2 f3) as [r3 f4]. cbn [snd] in *.
  rewrite lookup_insert_ne by congruence. congruence.
Qed.

(** X24. The three levels of the complete integration do not influence each
    other: what each level returns inside the complete run is what it
    returns when run alone on the original directory, so the complete run is
    the three separate results saved one after the other, followed by the
    report. *)
Theorem execucao_niveis_independentes to_csv rng (fs : diretorio) ano E M A fs1 :
  integrar_dados_nivel_escola fs ano = Ok E ->
  integrar_dados_nivel_municipio to_csv rng fs ano = (Ok M, fs1) ->
  integrar_dados_nivel_aluno fs ano = Ok A ->
  executar_integracao_completa to_csv rng fs ano =
    let '(r1, f1) := salvar_nivel to_csv "escolas" ano E [] fs1 in
    let '(r2, f2) := salvar_nivel to_csv "municipios" ano M r1 f1 in
    let '(r3, f3) := salvar_nivel to_csv "alunos" ano A r2 f2 in
    (Ok r3, <[arquivo_relatorio ano := Ilegivel]> f3).
Proof.
  intros HE HM HA. unfold executar_integracao_completa. rewrite HE.
  assert (integrar_dados_nivel_aluno fs1 ano = Ok A) as HA1.
  { rewrite <- HA, <- (aluno_apos_municipio to_csv rng fs ano), HM. reflexivity. }
  destruct E as [dfE|]; cbn [salvar_nivel];
    [rewrite integrar_municipio_insert by apply integrado_nao_entrada|];
    rewrite HM; cbn [fst snd];
    destruct M as [dfM|]; cbn [salvar_nivel];
    rewrite ?aluno_insert by apply integrado_nao_entrada;
    rewrite HA1; reflexivity.
Qed.

(** X25. The simulated socioeconomic table is drawn once: on the directory a
    municipality-level run leaves behind, a second run draws nothing (what it
    returns does not depend on the random draws it is given) and leaves the
    directory as it is. It returns the result of the first run when the
    file written by the first run reads back as the table that was
    written. *)
Theorem municipio_segunda_execucao to_csv rng rng' rng'' (fs : diretorio) ano :
  let fs1 := (integrar_dados_nivel_municipio to_csv rng fs ano).2 in
  integrar_dados_nivel_municipio to_csv rng' fs1 ano =
    integrar_dados_nivel_municipio to_csv rng'' fs1 ano /\
  (integrar_dados_nivel_municipio to_csv rng' fs1 ano).2 = fs1 /\
  (to_csv (dados_simulados rng) = Legivel (dados_simulados rng) ->
   (integrar_dados_nivel_municipio to_csv rng' fs1 ano).1 =
   (integrar_dados_nivel_municipio to_csv rng fs ano).1).
Proof.
  cbv zeta.
  destruct (carregar_censo_escolar fs ano "municipio") as [P|] eqn:EP.
  2:{ assert (integrar_dados_nivel_municipio to_csv rng fs ano = (Ok None, fs)) as ->
        by (unfold integrar_dados_nivel_municipio; rewrite EP; reflexivity).
      cbn [fst snd]. unfold integrar_dados_nivel_municipio. rewrite EP.
      split; [reflexivity|split; [reflexivity|intros _; reflexivity]]. }
  destruct (fs !! arquivo_socioeconomico) as [c|] eqn:Es.
  - assert ((integrar_dados_nivel_municipio to_csv rng fs ano).2 = fs) as ->.
    { unfold integrar_dados_nivel_municipio, carregar_dados_socioeconomicos.
      rewrite EP, Es. destruct c; reflexivity. }
    unfold integrar_dados_nivel_municipio, carregar_dados_socioeconomicos.
    rewrite EP, Es.
    destruct c; (split; [reflexivity|split; [reflexivity|intros _; reflexivity]]).
  - assert ((integrar_dados_nivel_municipio to_csv rng fs ano).2 =
            <[arquivo_socioeconomico := to_csv (dados_simulados rng)]> fs) as ->.
    { unfold integrar_dados_nivel_municipio, carregar_dados_socioeconomicos.
      rewrite EP, Es. reflexivity. }
    unfold integrar_dados_nivel_municipio, carregar_dados_socioeconomicos.
    rewrite carregar_censo_insert by apply arquivo_censo_municipio.
    rewrite EP, Es, lookup_insert_eq.
    destruct (to_csv (dados_simulados rng)) as [T|]; cbn [fst snd];
      (split; [reflexivity|]); (split; [reflexivity|]);
      [intros [= ->]; reflexivity|discriminate].
Qed.

(** X26. The dictionary the complete integration returns describes what it
    wrote: its keys are distinct levels, and for each entry the output file
    named in it holds, at the end of the run, what [to_csv] wrote of the
    table of the entry (no output overwrites another); the entry records the
    row and column counts of that table. *)
Theorem execucao_grava_resultados to_csv rng (fs : diretorio) ano resultados fs' :
  executar_integracao_completa to_csv rng fs ano = (Ok resultados, fs') ->
  NoDup resultados.*1 /\
  forall nivel info, (nivel, info) ∈ resultados ->
    nivel ∈ ["escolas"; "municipios"; "alunos"] /\
    arquivo_saida info = arquivo_integrado nivel ano /\
    fs' !! arquivo_saida info = Some (to_csv (dataframe info)) /\
    registros info = indice (dataframe info) /\
    variaveis info = length (colunas (dataframe info)).
Proof.
  unfold executar_integracao_completa.
  destruct (integrar_dados_nivel_escola fs ano) as [E|]; [|discriminate].
  destruct (salvar_nivel to_csv "escolas" ano E [] fs) as [r1 f1] eqn:E1.
  pose proof (municipio_lookup to_csv rng f1 ano) as HM.
  destruct (integrar_dados_nivel_municipio to_csv rng f1 ano) as [[M|] f2]; [|discriminate].
  cbn [snd] in HM.
  destruct (salvar_nivel to_csv "municipios" ano M r1 f2) as [r2 f3] eqn:E2.
  destruct (integrar_dados_nivel_aluno f3 ano) as [A|]; [|discriminate].
  destruct (salvar_nivel to_csv "alunos" ano A r2 f3) as [r3 f4] eqn:E3.
  intros [= <- <-].
  destruct E as [dfE|], M as [dfM|], A as [dfA|];
    cbn [salvar_nivel] in E1, E2, E3;
    injection E1 as <- <-; injection E2 as <- <-; injection E3 as <- <-;
    cbn [app];
    (split; [compute_done|]);
    intros nivel info Hin;
    repeat (apply elem_of_cons in Hin as [[= -> ->]|Hin]);
    try (inversion Hin; fail);
    cbn [arquivo_saida dataframe registros variaveis];
    (split; [set_solver|]); (split; [reflexivity|]);
    (split; [|split; reflexivity]);
    repeat first
      [ apply lookup_insert_eq
      | rewrite lookup_insert_ne by (let Hd := fresh in intros Hd; nomes_distintos Hd)
      | rewrite HM by (let Hd := fresh in intros Hd; nomes_distintos Hd) ].
Qed.

(** ** The further properties on concrete runs *)

(** An indicator table for the two schools of the census aggregate, with a
    third school the census does not know. *)
Definition rendimento_exemplo : DataFrame :=
  MkDataFrame 3 [("CO_ENTIDADE", [Some (inteiro 2); Some (inteiro 3); Some (inteiro 1)]);
                 ("TAXA_APROVACAO", [Some (inteiro 90); Some (inteiro 70);
                                     Some (inteiro 80)])].

(** Enrolments of three stages: code 38 is not upper secondary. *)
Definition etapas_exemplo : DataFrame :=
  MkDataFrame 3 [("TP_ETAPA_ENSINO", [Some (inteiro 25); Some (inteiro 38);
                                      Some (inteiro 37)]);
                 ("NU_IDADE", [Some (inteiro 15); Some (inteiro 17); Some (inteiro 16)])].

(** Two municipalities with their socioeconomic indicators; the poverty rate
    of the second is missing. *)
Definition socio_exemplo : DataFrame :=
  MkDataFrame 2 [("CO_MUNICIPIO", [Some (inteiro 1000002); Some (inteiro 9999999)]);
                 ("TAXA_POBREZA", [Some (inteiro 20); None]);
                 ("TAXA_DESEMPREGO", [Some (inteiro 10); Some (inteiro 5)]);
                 ("INDICE_GINI", [Some (Num (1 # 2)); Some (Num (1 # 2))]);
                 ("IDEB", [Some (Num (9 # 2)); Some (inteiro 5)])].

(** A directory with the census files of the three levels, a SAEB school
    table and an indicator table; the socioeconomic table is not there. *)
Definition diretorio_completo : diretorio :=
  <["censo_escolar_2023_agregado_escola.csv" := Legivel censo_exemplo]>
    (<["censo_escolar_2023_agregado_municipio.csv" := Legivel censo_municipio_exemplo]>
       (<["censo_escolar_2023_ensino_medio.csv" := Legivel alunos_exemplo]>
          (<["saeb_2023_escola.csv" := Legivel saeb_duplicado]>
             (<["indicadores_rendimento_2023.csv" := Legivel rendimento_exemplo]>
                ∅)))).

Lemma normalizar_variaveis_forma_exemplo :
  let D := normalizar_variaveis escolas_exemplo mapeamentos_censo_escola "escola" in
  bem_formado D /\ indice D = 2 /\ 4 <= length (colunas D) <= 5.
Proof.
  apply (normalizar_variaveis_forma escolas_exemplo mapeamentos_censo_escola "escola").
  repeat constructor.
Defined.

Lemma indice_infraestrutura_limites_exemplo :
  exists s,
    procurar "INDICE_INFRAESTRUTURA" (colunas (indice_infraestrutura escolas_exemplo)) =
      Some s /\
    length s = 2 /\ forall c, c ∈ s -> fracao_ou_nulo c.
Proof.
  apply (indice_infraestrutura_limites escolas_exemplo).
  - exists "IN_INTERNET". split; [compute_done|reflexivity].
  - intros n t c Hin Hp Hc. cbn [colunas escolas_exemplo] in Hin.
    repeat (apply elem_of_cons in Hin as [[= -> ->]|Hin]);
      try discriminate Hp; try (inversion Hin; fail);
      repeat (apply elem_of_cons in Hc as [->|Hc]);
      try (inversion Hc; fail);
      try (left; reflexivity);
      right; eexists; (split; [reflexivity|split; discriminate]).
Defined.

Lemma indicador_anexado_exemplo :
  exists D' s',
    integrar_indicador "CO_ENTIDADE" censo_exemplo rendimento_exemplo = Ok D' /\
    procurar "TAXA_APROVACAO" (colunas D') = Some s' /\
    s' !! 0 = Some (Some (inteiro 80)) /\ s' !! 1 = Some (Some (inteiro 90)).
Proof.
  destruct (indicador_anexado "CO_ENTIDADE" censo_exemplo rendimento_exemplo
              [Some (inteiro 1); Some (inteiro 2)]
              [Some (inteiro 2); Some (inteiro 3); Some (inteiro 1)]
              "TAXA_APROVACAO"
              [Some (inteiro 90); Some (inteiro 70); Some (inteiro 80)])
    as (D' & s' & H1 & H2 & _ & H3).
  - repeat constructor.
  - reflexivity.
  - reflexivity.
  - reflexivity.
  - reflexivity.
  - compute_done.
  - reflexivity.
  - exists D', s'. split; [exact H1|]. split; [exact H2|]. split.
    + apply (proj1 (H3 0 (Some (inteiro 1)) eq_refl) 2 (Some (inteiro 1)));
        reflexivity.
    + apply (proj1 (H3 1 (Some (inteiro 2)) eq_refl) 0 (Some (inteiro 2)));
        reflexivity.
Defined.

Lemma indicadores_sem_rotulos_repetidos_exemplo :
  exists D',
    integrar_indicadores "CO_ENTIDADE"
      (Some [("rendimento", rendimento_exemplo); ("saeb", saeb_exemplo)])
      censo_exemplo = Ok D' /\
    NoDup (nomes D').
Proof.
  eexists. split; [vm_compute; reflexivity|].
  apply (indicadores_sem_rotulos_repetidos "CO_ENTIDADE"
           (Some [("rendimento", rendimento_exemplo); ("saeb", saeb_exemplo)])
           censo_exemplo).
  - compute_done.
  - intros itens tipo I [= <-] Hin.
    repeat (apply elem_of_cons in Hin as [[= -> ->]|Hin]);
      try (inversion Hin; fail); compute_done.
  - vm_compute. reflexivity.
Defined.

Lemma integrar_indicadores_idempotente_exemplo :
  exists D',
    integrar_indicadores "CO_ENTIDADE"
      (Some [("rendimento", rendimento_exemplo); ("saeb", saeb_exemplo)])
      censo_exemplo = Ok D' /\
    integrar_indicadores "CO_ENTIDADE"
      (Some [("rendimento", rendimento_exemplo); ("saeb", saeb_exemplo)]) D' = Ok D'.
Proof.
  eexists. split; [vm_compute; reflexivity|].
  apply (integrar_indicadores_idempotente "CO_ENTIDADE"
           (Some [("rendimento", rendimento_exemplo); ("saeb", saeb_exemplo)])
           censo_exemplo).
  - intros itens tipo I [= <-] Hin.
    repeat (apply elem_of_cons in Hin as [[= -> ->]|Hin]);
      try (inversion Hin; fail); compute_done.
  - vm_compute. reflexivity.
Defined.

Lemma aluno_preserva_linhas_exemplo :
  exists D,
    integrar_dados_nivel_aluno diretorio_aluno_exemplo 2023 = Ok (Some D) /\
    indice D = 3 /\ bem_formado D.
Proof.
  eexists. split; [vm_compute; reflexivity|].
  apply (aluno_preserva_linhas diretorio_aluno_exemplo 2023%Z censo_aluno_exemplo).
  - vm_compute. reflexivity.
  - repeat constructor.
  - vm_compute. reflexivity.
Defined.

Lemma escola_excecoes_e_linhas_exemplo :
  exists D, integrar_dados_nivel_escola diretorio_completo 2023 = Ok (Some D).
Proof.
  apply (proj2 (proj2 (escola_excecoes_e_linhas diretorio_completo 2023%Z censo_exemplo
                         ltac:(vm_compute; reflexivity) ltac:(repeat constructor)))
           [Some (inteiro 1); Some (inteiro 2)]).
  - reflexivity.
  - intros S H. vm_compute in H. injection H as <-.
    eexists. split; vm_compute; reflexivity.
  - intros tipo I ks Ht H Hks. unfold tipos_indicadores in Ht.
    apply elem_of_cons in Ht as [->|Ht].
    + vm_compute in H. injection H as <-. vm_compute in Hks. injection Hks as <-.
      vm_compute. reflexivity.
    + repeat (apply elem_of_cons in Ht as [->|Ht]; [vm_compute in H; discriminate H|]).
      inversion Ht.
Defined.

Lemma grupos_particionam_exemplo :
  list_sum
    (map (fun k =>
            length (celulas_do_grupo k
                      [Some (inteiro 2); None; Some (inteiro 1); Some (inteiro 2)]
                      [Some (inteiro 10); Some (inteiro 20); None; Some (inteiro 40)]))
       (chaves_dos_grupos [Some (inteiro 2); None; Some (inteiro 1); Some (inteiro 2)])) =
  3.
Proof.
  apply (grupos_particionam
           [Some (inteiro 2); None; Some (inteiro 1); Some (inteiro 2)]
           [Some (inteiro 10); Some (inteiro 20); None; Some (inteiro 40)]).
  reflexivity.
Defined.

Lemma filtrar_ensino_medio_linhas_exemplo :
  exists D,
    filtrar_ensino_medio etapas_exemplo = Ok D /\
    indice D = 2 /\
    procurar "NU_IDADE" (colunas D) = Some [Some (inteiro 15); Some (inteiro 16)].
Proof.
  eexists. split; [vm_compute; reflexivity|].
  destruct (filtrar_ensino_medio_linhas etapas_exemplo _
              ltac:(repeat constructor) ltac:(vm_compute; reflexivity))
    as (etapas & He & Hi & _ & _ & Hc & _).
  split; [reflexivity|].
  injection He as <-.
  rewrite (Hc "NU_IDADE" [Some (inteiro 15); Some (inteiro 17); Some (inteiro 16)]
             eq_refl).
  vm_compute. reflexivity.
Defined.

Lemma taxa_do_script_fracao_exemplo :
  exists df A,
    processar_matriculas matriculas_cenario true = Some df /\
    agregado_escola df = Ok A /\
    exists taxas,
      procurar "TAXA_ABANDONO" (colunas A) = Some taxas /\
      length taxas = indice A /\
      forall c, c ∈ taxas -> exists q, c = Some (Num q) /\ (0 <= q /\ q <= 1)%Q.
Proof.
  eexists _, _. split; [vm_compute; reflexivity|].
  split; [vm_compute; reflexivity|].
  eapply (taxa_do_script_fracao matriculas_cenario true).
  - unfold bem_formado. vm_compute. repeat constructor.
  - vm_compute. reflexivity.
  - vm_compute. reflexivity.
Defined.

Lemma taxa_do_notebook_percentual_exemplo :
  exists df E,
    nb_padronizar matriculas_cenario = Ok df /\
    nb_agregar_escola df = Ok E /\
    exists taxas,
      procurar "TAXA_ABANDONO" (colunas E) = Some taxas /\
      forall c, c ∈ taxas -> exists q, c = Some (Num q) /\ (0 <= q /\ q <= 100)%Q.
Proof.
  eexists _, _. split; [vm_compute; reflexivity|].
  split; [vm_compute; reflexivity|].
  eapply (taxa_do_notebook_percentual matriculas_cenario).
  - unfold bem_formado. vm_compute. repeat constructor.
  - vm_compute. reflexivity.
  - vm_compute. reflexivity.
Defined.

Lemma processar_matriculas_colunas_exemplo :
  processar_matriculas alunos_exemplo true <> None /\
  processar_matriculas escolas_exemplo true = None /\
  processar_matriculas alunos_exemplo false = None.
Proof.
  split; [|split].
  - destruct (proj2 (processar_matriculas_colunas alunos_exemplo true
                       ltac:(repeat constructor)) ltac:(compute_done) eq_refl)
      as (df & -> & _).
    discriminate.
  - apply (proj1 (processar_matriculas_colunas escolas_exemplo true
                    ltac:(repeat constructor))).
    left. compute_done.
  - apply (proj1 (processar_matriculas_colunas alunos_exemplo false
                    ltac:(repeat constructor))).
    right. reflexivity.
Defined.

Lemma total_alunos_conserva_exemplo :
  exists A totais,
    agregado_escola (criar_abandono matriculas_cenario) = Ok A /\
    procurar "TOTAL_ALUNOS" (colunas A) =
      Some (map (fun n => Some (inteiro (Z.of_nat n))) totais) /\
    length totais = indice A /\
    list_sum totais = 23.
Proof.
  assert (exists A, agregado_escola (criar_abandono matriculas_cenario) = Ok A)
    as [A HA] by (eexists; vm_compute; reflexivity).
  edestruct (total_alunos_conserva (criar_abandono matriculas_cenario) A)
    as (totais & H1 & H2 & H3).
  - unfold bem_formado. vm_compute. repeat constructor.
  - vm_compute. reflexivity.
  - vm_compute. reflexivity.
  - intros c Hc.
    repeat (apply elem_of_cons in Hc as [->|Hc]; [discriminate|]).
    inversion Hc.
  - exact HA.
  - exists A, totais. split; [exact HA|]. split; [exact H1|]. split; [exact H2|].
    rewrite H3. reflexivity.
Defined.

Lemma verificar_taxas_idempotente_exemplo :
  exists df' log,
    verificar_taxas municipios_exemplo = Ok (df', log) /\
    log <> [] /\
    verificar_taxas df' = Ok (df', []).
Proof.
  eexists _, _. split; [vm_compute; reflexivity|]. split; [discriminate|].
  eapply (verificar_taxas_idempotente municipios_exemplo).
  vm_compute. reflexivity.
Defined.

Lemma verificar_valores_ausentes_idempotente_exemplo :
  exists relatorio df',
    verificar_valores_ausentes municipios_exemplo = Ok (relatorio, df') /\
    (exists relatorio', verificar_valores_ausentes df' = Ok (relatorio', df')) /\
    (forall c s, (c, s) ∈ colunas df' -> dtype_numerico s = true ->
       (exists q, Some (Num q) ∈ s) -> nulos s = 0).
Proof.
  eexists _, _. split; [vm_compute; reflexivity|].
  eapply (verificar_valores_ausentes_idempotente municipios_exemplo).
  - compute_done.
  - vm_compute. reflexivity.
Defined.

Lemma categoria_abandono_faixas_exemplo :
  exists D cat,
    nb_categoria_abandono municipios_exemplo = Ok D /\
    procurar "CATEGORIA_ABANDONO" (colunas D) = Some cat /\
    cat !! 0 = Some None /\
    cat !! 1 = Some (Some (Texto "Muito Alto (>15%)")) /\
    cat !! 2 = Some None.
Proof.
  destruct (categoria_abandono_faixas municipios_exemplo
              [Some (inteiro (-5)); Some (inteiro 50); Some (inteiro 120)]
              [Some (inject_Z (-5)); Some (inject_Z 50); Some (inject_Z 120)]
              eq_refl eq_refl)
    as (D & cat & H1 & H2 & _ & H3).
  exists D, cat. split; [exact H1|]. split; [exact H2|].
  split; [|split].
  - apply (proj2 (H3 0) (inject_Z (-5)) eq_refl). left. discriminate.
  - apply (proj2 (H3 1) (inject_Z 50) eq_refl). split; [reflexivity|discriminate].
  - apply (proj2 (H3 2) (inject_Z 120) eq_refl). right. reflexivity.
Defined.

Lemma indice_vulnerabilidade_limites_exemplo :
  exists D v,
    nb_indice_vulnerabilidade socio_exemplo = Ok D /\
    procurar "INDICE_VULNERABILIDADE" (colunas D) = Some v /\
    (exists u, v !! 0 = Some (Some (Num u)) /\ (-1 <= u /\ u <= 3)%Q) /\
    v !! 1 = Some None.
Proof.
  destruct (indice_vulnerabilidade_limites socio_exemplo
              [Some (inteiro 20); None] [Some (inteiro 10); Some (inteiro 5)]
              [Some (Num (1 # 2)); Some (Num (1 # 2))]
              [Some (Num (9 # 2)); Some (inteiro 5)]
              [Some (inject_Z 20); None] [Some (inject_Z 10); Some (inject_Z 5)]
              [Some (1 # 2)%Q; Some (1 # 2)%Q] [Some (9 # 2)%Q; Some (inject_Z 5)]
              eq_refl eq_refl eq_refl eq_refl eq_refl eq_refl eq_refl eq_refl)
    as (D & v & H1 & H2 & H3).
  exists D, v. split; [exact H1|]. split; [exact H2|]. split.
  - destruct (H3 0 (Some (inject_Z 20)) (Some (inject_Z 10)) (Some (1 # 2)%Q)
                (Some (9 # 2)%Q) eq_refl eq_refl eq_refl eq_refl)
      as (w & Hw & Hs & Hb).
    destruct w as [u|].
    + exists u. split; [exact Hw|].
      apply (Hb _ _ _ _ u eq_refl eq_refl eq_refl eq_refl);
        try reflexivity; split; discriminate.
    + destruct (proj2 Hs) as [u [=]]. repeat split; eexists; reflexivity.
  - destruct (H3 1 None (Some (inject_Z 5)) (Some (1 # 2)%Q) (Some (inject_Z 5))
                eq_refl eq_refl eq_refl eq_refl)
      as (w & Hw & Hs & _).
    destruct w as [u|]; [|exact Hw].
    destruct (proj1 Hs) as ([? [=]] & _). eexists. reflexivity.
Defined.

Lemma niveis_leem_so_entradas_exemplo :
  let fs1 := <[arquivo_integrado "escolas" 2023 := Ilegivel]> diretorio_completo in
  integrar_dados_nivel_escola fs1 2023 =
    integrar_dados_nivel_escola diretorio_completo 2023 /\
  (integrar_dados_nivel_municipio to_csv_exemplo sorteios_exemplo fs1 2023).1 =
    (integrar_dados_nivel_municipio to_csv_exemplo sorteios_exemplo diretorio_completo 2023).1 /\
  integrar_dados_nivel_aluno fs1 2023 =
    integrar_dados_nivel_aluno diretorio_completo 2023.
Proof.
  intros fs1.
  destruct (niveis_leem_so_entradas to_csv_exemplo sorteios_exemplo fs1 diretorio_completo 2023%Z)
    as (H1 & H2 & H3).
  destruct (integrado_nao_entrada "escolas" 2023%Z) as (N1 & N2 & N3).
  split; [apply H1|split; [apply H2|apply H3]];
    intros f Hf; apply lookup_insert_ne; intros <-; contradiction.
Defined.

Lemma execucao_escreve_so_saidas_exemplo :
  (executar_integracao_completa to_csv_exemplo sorteios_exemplo diretorio_completo 2023).2
    !! "saeb_2023_escola.csv" =
  Some (Legivel saeb_duplicado).
Proof.
  rewrite (execucao_escreve_so_saidas to_csv_exemplo sorteios_exemplo diretorio_completo 2023%Z
             "saeb_2023_escola.csv");
    [reflexivity|intros H; vm_compute in H; discriminate H..].
Defined.

Lemma execucao_niveis_independentes_exemplo :
  let fs := diretorio_completo in
  let fs1 := (integrar_dados_nivel_municipio to_csv_exemplo sorteios_exemplo fs 2023).2 in
  exists E M A,
    integrar_dados_nivel_escola fs 2023 = Ok E /\
    (integrar_dados_nivel_municipio to_csv_exemplo sorteios_exemplo fs 2023).1 = Ok M /\
    integrar_dados_nivel_aluno fs 2023 = Ok A /\
    executar_integracao_completa to_csv_exemplo sorteios_exemplo fs 2023 =
      let '(r1, f1) := salvar_nivel to_csv_exemplo "escolas" 2023 E [] fs1 in
      let '(r2, f2) := salvar_nivel to_csv_exemplo "municipios" 2023 M r1 f1 in
      let '(r3, f3) := salvar_nivel to_csv_exemplo "alunos" 2023 A r2 f2 in
      (Ok r3, <[arquivo_relatorio 2023 := Ilegivel]> f3).
Proof.
  intros fs fs1. eexists _, _, _. split; [vm_compute; reflexivity|].
  split; [vm_compute; reflexivity|]. split; [vm_compute; reflexivity|].
  apply (execucao_niveis_independentes to_csv_exemplo sorteios_exemplo fs 2023%Z).
  - vm_compute. reflexivity.
  - transitivity ((integrar_dados_nivel_municipio to_csv_exemplo sorteios_exemplo fs 2023).1, fs1);
      [apply surjective_pairing|].
    refine (f_equal (fun x => (x, fs1)) _). vm_compute. reflexivity.
  - vm_compute. reflexivity.
Defined.

Lemma execucao_grava_resultados_exemplo :
  let saida := executar_integracao_completa to_csv_exemplo sorteios_exemplo diretorio_completo 2023 in
  exists resultados,
    saida.1 = Ok resultados /\
    resultados.*1 = ["escolas"; "municipios"; "alunos"] /\
    NoDup resultados.*1 /\
    forall nivel info, (nivel, info) ∈ resultados ->
      nivel ∈ ["escolas"; "municipios"; "alunos"] /\
      arquivo_saida info = arquivo_integrado nivel 2023 /\
      saida.2 !! arquivo_saida info = Some (to_csv_exemplo (dataframe info)) /\
      registros info = indice (dataframe info) /\
      variaveis info = length (colunas (dataframe info)).
Proof.
  intros saida. eexists. split; [vm_compute; reflexivity|].
  split; [vm_compute; reflexivity|].
  eapply (execucao_grava_resultados to_csv_exemplo sorteios_exemplo diretorio_completo 2023%Z).
  transitivity (saida.1, saida.2); [apply surjective_pairing|].
  refine (f_equal (fun x => (x, saida.2)) _). vm_compute. reflexivity.
Defined.

Lemma ano_saeb_impar_exemplo : ano_saeb 2024 = 2023%Z /\ ano_saeb 2023 = 2023%Z.
Proof.
  split.
  - pose proof (ano_saeb_impar 2024) as (_ & H & Hn).
    destruct (Z.eq_dec (ano_saeb 2024) 2024%Z) as [E|E]; [|lia].
    apply Hn in E. discriminate E.
  - apply (ano_saeb_impar 2023). reflexivity.
Defined.

Lemma dicionarios_dos_carregadores_exemplo :
  carregar_saeb (∅ : diretorio) 2023 = None /\
  carregar_indicadores_educacionais (∅ : diretorio) 2023 = None.
Proof.
  pose proof (dicionarios_dos_carregadores ∅ 2023%Z) as H. cbv zeta in H.
  destruct H as [[H1 _] [H2 _]].
  split; [apply H1|apply H2]; intros tipo _; reflexivity.
Defined.

Lemma chaves_dos_grupos_ordenadas_exemplo :
  exists g,
    g ∈ chaves_dos_grupos [Some (inteiro 2); None; Some (inteiro 1)] /\
    valor_eqb (inteiro 1) g = true.
Proof.
  apply (chaves_dos_grupos_ordenadas [Some (inteiro 2); None; Some (inteiro 1)]).
  do 2 apply list_elem_of_further. apply list_elem_of_here.
Defined.

(** Other draws than [sorteios_exemplo]. *)
Definition sorteios_outros : sorteios :=
  MkSorteios (fun i => Z.of_nat (2 * i)) (fun _ => 2%Q) (fun _ => (1 # 5)%Q)
    (fun _ => 5%Q) (fun _ => (1 # 4)%Q) (fun _ => (1 # 3)%Q).

Lemma municipio_segunda_execucao_exemplo :
  let fs1 :=
    (integrar_dados_nivel_municipio to_csv_exemplo sorteios_exemplo
       diretorio_completo 2023).2 in
  integrar_dados_nivel_municipio to_csv_exemplo sorteios_outros fs1 2023 =
    integrar_dados_nivel_municipio to_csv_exemplo sorteios_exemplo fs1 2023 /\
  (integrar_dados_nivel_municipio to_csv_exemplo sorteios_outros fs1 2023).2 = fs1 /\
  (integrar_dados_nivel_municipio to_csv_exemplo sorteios_outros fs1 2023).1 =
    (integrar_dados_nivel_municipio to_csv_exemplo sorteios_exemplo
       diretorio_completo 2023).1.
Proof.
  destruct (municipio_segunda_execucao to_csv_exemplo sorteios_exemplo sorteios_outros
              sorteios_exemplo diretorio_completo 2023%Z) as (H1 & H2 & H3).
  split; [exact H1|]. split; [exact H2|]. apply H3. vm_compute. reflexivity.
Defined.
